(** * SubTubeMCP: caption cleaning, duplicate collapsing, transcript sampling
      and comment filtering

    A shallow embedding of [SubtitleHandler] (caption parsers, text cleaning,
    [processTranscript], the calls of yt-dlp), of [CommentFilter], of
    [Validator] and of the filters and the paging of [CommentHandler],
    followed by the properties of the specification that concern them and by
    further properties of the code.

    JavaScript strings are sequences of UTF-16 code units, numbers are IEEE
    binary64 values (Rocq's primitive floats), [undefined] is [None]. *)

From Stdlib Require Import String Ascii Bool ZArith Lia Floats List.
From Stdlib.Strings Require Import Byte.
Import ListNotations.
Open Scope Z_scope.
Set Warnings "-inexact-float,-register-all".

(* ================================================================== *)
(** * JavaScript strings *)
(* ================================================================== *)

Module JS.

(** A UTF-16 code unit, [0 <= c < 65536]. *)
Definition char := Z.
Definition jsstring := list char.

(** Code units of a well-formed UTF-8 byte sequence (one to four bytes per
    code point; a code point above 0xFFFF becomes a surrogate pair). It is
    only used to write string literals. *)
Fixpoint utf8_decode (bs : list Z) : jsstring :=
  match bs with
  | [] => []
  | b0 :: r0 =>
    if b0 <? 128 then b0 :: utf8_decode r0
    else if b0 <? 224 then
      match r0 with
      | b1 :: r1 =>
        Z.lor (Z.shiftl (Z.land b0 31) 6) (Z.land b1 63) :: utf8_decode r1
      | [] => []
      end
    else if b0 <? 240 then
      match r0 with
      | b1 :: b2 :: r2 =>
        Z.lor (Z.shiftl (Z.land b0 15) 12)
              (Z.lor (Z.shiftl (Z.land b1 63) 6) (Z.land b2 63))
        :: utf8_decode r2
      | _ => []
      end
    else
      match r0 with
      | b1 :: b2 :: b3 :: r3 =>
        let cp := Z.lor (Z.shiftl (Z.land b0 7) 18)
                    (Z.lor (Z.shiftl (Z.land b1 63) 12)
                       (Z.lor (Z.shiftl (Z.land b2 63) 6) (Z.land b3 63))) in
        let v := cp - 65536 in
        (55296 + Z.shiftr v 10) :: (56320 + Z.land v 1023) :: utf8_decode r3
      | _ => []
      end
  end.

(** The JavaScript string written by a literal. *)
Definition str (s : string) : jsstring :=
  utf8_decode (map (fun b => Z.of_N (Byte.to_N b)) (list_byte_of_string s)).
Arguments str s%_string_scope.

Definition eqc (a b : char) : bool := a =? b.

Fixpoint eqs (a b : jsstring) : bool :=
  match a, b with
  | [], [] => true
  | x :: a', y :: b' => eqc x y && eqs a' b'
  | _, _ => false
  end.

Definition in_range (lo hi c : Z) : bool := (lo <=? c) && (c <=? hi).

(** LineTerminator: LF, CR, LS, PS. *)
Definition is_line_terminator (c : char) : bool :=
  eqc c 10 || eqc c 13 || eqc c 8232 || eqc c 8233.

(** WhiteSpace and LineTerminator: the class [\s] of regular expressions and
    the characters removed by [String.prototype.trim]. *)
Definition is_space (c : char) : bool :=
  in_range 9 13 c || eqc c 32 || eqc c 160 || eqc c 5760
  || in_range 8192 8202 c || eqc c 8232 || eqc c 8233 || eqc c 8239
  || eqc c 8287 || eqc c 12288 || eqc c 65279.

(** [\d] *)
Definition is_digit (c : char) : bool := in_range 48 57 c.

Definition is_upper (c : char) : bool := in_range 65 90 c.
Definition is_lower (c : char) : bool := in_range 97 122 c.
Definition is_alpha (c : char) : bool := is_upper c || is_lower c.

(** [\w], which decides word boundaries [\b]. *)
Definition is_word (c : char) : bool := is_alpha c || is_digit c || eqc c 95.

(** Case folding of a pattern without the [u] flag: a code unit above 127 is
    never folded onto an ASCII one, so an ASCII letter of a pattern matches
    its two ASCII cases and nothing else. *)
Definition ascii_lower (c : char) : char := if is_upper c then c + 32 else c.

Definition eqc_ci (a b : char) : bool := eqc (ascii_lower a) (ascii_lower b).

Fixpoint dropWhile (p : char -> bool) (s : jsstring) : jsstring :=
  match s with
  | [] => []
  | c :: s' => if p c then dropWhile p s' else s
  end.

Fixpoint takeWhile (p : char -> bool) (s : jsstring) : jsstring :=
  match s with
  | [] => []
  | c :: s' => if p c then c :: takeWhile p s' else []
  end.

(** The reverse of a list, in linear time. *)
Definition reverse {A : Type} (l : list A) : list A := rev_append l [].

Definition trimStart (s : jsstring) : jsstring := dropWhile is_space s.
Definition trimEnd (s : jsstring) : jsstring :=
  reverse (dropWhile is_space (reverse s)).
Definition trim (s : jsstring) : jsstring := trimEnd (trimStart s).

Fixpoint startsWith (s p : jsstring) : bool :=
  match p, s with
  | [], _ => true
  | x :: p', c :: s' => eqc c x && startsWith s' p'
  | _ :: _, [] => false
  end.

Fixpoint includes (s p : jsstring) : bool :=
  startsWith s p || match s with [] => false | _ :: s' => includes s' p end.

(** [s.split(sep)] for a non-empty separator. [skip] counts the code units of
    a separator that are still to be passed over, [cur] is the piece being
    read, reversed. *)
Fixpoint split_go (sep : jsstring) (skip : nat) (cur : jsstring) (s : jsstring)
  : list jsstring :=
  match s with
  | [] => [reverse cur]
  | c :: s' =>
    match skip with
    | S k => split_go sep k cur s'
    | O =>
      if startsWith s sep
      then reverse cur :: split_go sep (length sep - 1) [] s'
      else split_go sep 0 (c :: cur) s'
    end
  end.

Definition split (s sep : jsstring) : list jsstring := split_go sep 0 [] s.

(** [pieces.join(sep)] *)
Fixpoint join (sep : jsstring) (pieces : list jsstring) : jsstring :=
  match pieces with
  | [] => []
  | [p] => p
  | p :: rest => p ++ sep ++ join sep rest
  end.

(** [s.substring(0, n)] for [n >= 0] *)
Definition substring0 (s : jsstring) (n : nat) : jsstring := firstn n s.

(** [s.padStart(2, '0')] *)
Definition padStart2 (s : jsstring) : jsstring :=
  match s with
  | [] => [48; 48]
  | [c] => [48; c]
  | _ => s
  end.

(** ** Regular expressions

    A backtracking matcher: [matches r prev s] lists, in the order in which
    the engine of the language tries them, the lengths of the prefixes of [s]
    matched by [r]; [prev] is the code unit before [s] in the subject
    ([None] at its start). The first length is the match the engine
    reports. [Same p n] is the pattern [(p)\1{n,}]: a code unit of the class
    [p] followed by at least [n] copies of itself. *)
Inductive regex : Type :=
| Eps
| Chr (p : char -> bool)
| Seq (r1 r2 : regex)
| Alt (r1 r2 : regex)
| Star (r : regex)
| Same (p : char -> bool) (n : nat)
| Bol
| Eol
| WordB.

Definition prev_after (prev : option char) (s : jsstring) (n : nat) : option char :=
  match n with
  | O => prev
  | S k => match nth_error s k with Some c => Some c | None => prev end
  end.

Definition word_at (o : option char) : bool :=
  match o with Some c => is_word c | None => false end.

(** Greedy iteration; an iteration that consumes nothing is not taken. *)
Fixpoint star (step : option char -> jsstring -> list nat) (fuel : nat)
  (prev : option char) (s : jsstring) : list nat :=
  match fuel with
  | O => [0%nat]
  | S f =>
    flat_map (fun n =>
                match n with
                | O => []
                | S _ => map (Nat.add n) (star step f (prev_after prev s n) (skipn n s))
                end)
             (step prev s)
    ++ [0%nat]
  end.

Fixpoint matches (r : regex) (prev : option char) (s : jsstring) {struct r}
  : list nat :=
  match r with
  | Eps => [0%nat]
  | Chr p => match s with
             | c :: _ => if p c then [1%nat] else []
             | [] => []
             end
  | Seq r1 r2 =>
    flat_map (fun n1 => map (Nat.add n1)
                          (matches r2 (prev_after prev s n1) (skipn n1 s)))
             (matches r1 prev s)
  | Alt r1 r2 => matches r1 prev s ++ matches r2 prev s
  | Star r1 => star (matches r1) (length s) prev s
  | Same p n =>
    match s with
    | c :: s' =>
      if p c then
        let k := length (takeWhile (eqc c) s') in
        if (n <=? k)%nat then map (fun j => S (k - j)) (seq 0 (S (k - n))) else []
      else []
    | [] => []
    end
  | Bol => match prev with None => [0%nat] | Some _ => [] end
  | Eol => match s with [] => [0%nat] | _ :: _ => [] end
  | WordB => if xorb (word_at prev) (word_at (hd_error s)) then [0%nat] else []
  end.

Definition first_match (r : regex) (prev : option char) (s : jsstring) : option nat :=
  hd_error (matches r prev s).

Definition Plus (r : regex) : regex := Seq r (Star r).
Definition Opt (r : regex) : regex := Alt r Eps.

Fixpoint Rep (n : nat) (r : regex) : regex :=
  match n with
  | O => Eps
  | S k => Seq r (Rep k r)
  end.

(** [r{n,}] *)
Definition AtLeast (n : nat) (r : regex) : regex := Seq (Rep n r) (Star r).

(** A literal, and a literal under the [i] flag. *)
Fixpoint Lit (s : jsstring) : regex :=
  match s with
  | [] => Eps
  | c :: s' => Seq (Chr (eqc c)) (Lit s')
  end.

Fixpoint LitCI (s : jsstring) : regex :=
  match s with
  | [] => Eps
  | c :: s' => Seq (Chr (eqc_ci c)) (LitCI s')
  end.

Fixpoint Alts (rs : list regex) : regex :=
  match rs with
  | [] => Chr (fun _ => false)
  | [r] => r
  | r :: rs' => Alt r (Alts rs')
  end.

Definition one_of (cs : jsstring) (c : char) : bool := existsb (eqc c) cs.

(** [r.test(s)] with [lastIndex = 0]: is there a match starting anywhere. *)
Fixpoint test_from (r : regex) (prev : option char) (s : jsstring) : bool :=
  match first_match r prev s with
  | Some _ => true
  | None => match s with
            | [] => false
            | c :: s' => test_from r (Some c) s'
            end
  end.

Definition test (r : regex) (s : jsstring) : bool := test_from r None s.

(** [s.replace(r, f)] for a global [r]: the matches are found from left to
    right, each search starting where the previous match ended (one code unit
    further after an empty match). [skip] counts the code units of the
    current match that are still to be passed over. *)
Fixpoint replace_go (r : regex) (f : jsstring -> jsstring) (skip : nat)
  (prev : option char) (s : jsstring) : jsstring :=
  match s with
  | [] =>
    match skip, first_match r prev [] with
    | O, Some _ => f []
    | _, _ => []
    end
  | c :: s' =>
    match skip with
    | S k => replace_go r f k (Some c) s'
    | O =>
      match first_match r prev s with
      | Some (S k) => f (firstn (S k) s) ++ replace_go r f k (Some c) s'
      | Some O => f [] ++ c :: replace_go r f 0 (Some c) s'
      | None => c :: replace_go r f 0 (Some c) s'
      end
    end
  end.

Definition replace (s : jsstring) (r : regex) (f : jsstring -> jsstring) : jsstring :=
  replace_go r f 0 None s.

(** [s.split(r)] for a pattern without capture groups that matches no empty
    string. *)
Fixpoint split_re_go (r : regex) (skip : nat) (cur : jsstring)
  (prev : option char) (s : jsstring) : list jsstring :=
  match s with
  | [] => [reverse cur]
  | c :: s' =>
    match skip with
    | S k => split_re_go r k cur (Some c) s'
    | O =>
      match first_match r prev s with
      | Some (S k) => reverse cur :: split_re_go r k [] (Some c) s'
      | _ => split_re_go r 0 (c :: cur) (Some c) s'
      end
    end
  end.

Definition split_re (s : jsstring) (r : regex) : list jsstring :=
  split_re_go r 0 [] None s.

(** [s.split(r)[0]]: the part of [s] before the first match of [r]. *)
Definition split_re_head (s : jsstring) (r : regex) : jsstring :=
  hd [] (split_re s r).

End JS.

(* ================================================================== *)
(** * JavaScript numbers *)
(* ================================================================== *)

Module Num.
Import JS.

(** The binary64 value nearest to [m * 2^e] (ties to even). *)
Definition of_dyadic (m e : Z) : float := SF2Prim (binary_normalize 53 1024 m e false).

(** An integer as a number; exact below [2^53]. *)
Definition of_Z (z : Z) : float := of_dyadic z 0.
Definition of_nat (n : nat) : float := of_Z (Z.of_nat n).

(** The binary64 value nearest to [num / den], for [num > 0] and [den > 0].
    The quotient is computed with more than 58 bits and a sticky bit, which
    rounds as the exact value does. *)
Definition of_ratio (num den : Z) : float :=
  let k := Z.max 0 (60 + Z.log2 den - Z.log2 num) in
  let n2 := Z.shiftl num k in
  let q := n2 / den in
  let sticky := if n2 mod den =? 0 then 0 else 1 in
  of_dyadic (2 * q + sticky) (- k - 1).

(** The value of the decimal numeral [m * 10^e], [m >= 0]. *)
Definition of_decimal (m e : Z) : float :=
  if m =? 0 then 0%float
  else
    if 310 <? e + Z.log2 m / 6 then infinity
    else if e + Z.log2 m <? -1100 then 0%float
    else if 0 <=? e then of_Z (m * 10 ^ e)
    else of_ratio m (10 ^ (- e)).

Definition is_nan (x : float) : bool := negb (PrimFloat.eqb x x).

(** [Math.floor] *)
Definition floor (x : float) : float :=
  match Prim2SF x with
  | S754_finite s m e =>
    if 0 <=? e then x
    else
      let v := if s then Z.neg m else Z.pos m in
      let q := v / 2 ^ (- e) in
      if q =? 0 then 0%float else of_Z q
  | _ => x
  end.

(** The integer a number stands for when it is one. *)
Definition to_integer (x : float) : option Z :=
  match Prim2SF x with
  | S754_zero _ => Some 0
  | S754_finite s m e =>
    let v := if s then Z.neg m else Z.pos m in
    if 0 <=? e then Some (v * 2 ^ e)
    else if v mod 2 ^ (- e) =? 0 then Some (v / 2 ^ (- e)) else None
  | _ => None
  end.

(** ToIntegerOrInfinity, with the infinities as integers beyond every
    length. *)
Definition huge : Z := 2 ^ 1100.

Definition toIntegerOrInfinity (x : float) : Z :=
  match Prim2SF x with
  | S754_zero _ => 0
  | S754_nan => 0
  | S754_infinity s => if s then - huge else huge
  | S754_finite s m e =>
    let v := if s then Z.neg m else Z.pos m in
    if 0 <=? e then v * 2 ^ e else Z.quot v (2 ^ (- e))
  end.

Definition is_neg_zero (x : float) : bool :=
  match Prim2SF x with S754_zero true => true | _ => false end.

(** [Math.max(a, b)] *)
Definition max (a b : float) : float :=
  if is_nan a || is_nan b then nan
  else if PrimFloat.ltb a b then b
  else if PrimFloat.ltb b a then a
  else if is_neg_zero a then b else a.

(** [a % b] *)
Definition rem (a b : float) : float :=
  match Prim2SF a, Prim2SF b with
  | S754_nan, _ | _, S754_nan | S754_infinity _, _ | _, S754_zero _ => nan
  | S754_zero _, _ => a
  | S754_finite _ _ _, S754_infinity _ => a
  | S754_finite sa ma ea, S754_finite _ mb eb =>
    let e := Z.min ea eb in
    let r := Z.modulo (Z.pos ma * 2 ^ (ea - e)) (Z.pos mb * 2 ^ (eb - e)) in
    if r =? 0 then (if sa then (-0)%float else 0%float)
    else if sa then PrimFloat.opp (of_dyadic r e) else of_dyadic r e
  end.

Fixpoint digits_value (acc : Z) (ds : jsstring) : Z :=
  match ds with
  | [] => acc
  | d :: ds' => digits_value (10 * acc + (d - 48)) ds'
  end.

(** ExponentPart: [e] or [E], an optional sign and at least one digit;
    otherwise no exponent is read. *)
Definition exponent_part (s : jsstring) : Z :=
  match s with
  | c :: s1 =>
    if eqc c 101 || eqc c 69 then
      let '(neg, s2) :=
        match s1 with
        | 45 :: r => (true, r)
        | 43 :: r => (false, r)
        | _ => (false, s1)
        end in
      let ds := takeWhile is_digit s2 in
      match ds with
      | [] => 0
      | _ => if neg then - digits_value 0 ds else digits_value 0 ds
      end
    else 0
  | [] => 0
  end.

(** [parseFloat(s)]: leading white space is skipped and the longest prefix
    that is a decimal literal is read; [NaN] when there is none. *)
Definition parseFloat (s : jsstring) : float :=
  let s0 := trimStart s in
  let '(neg, s1) :=
    match s0 with
    | 45 :: r => (true, r)
    | 43 :: r => (false, r)
    | _ => (false, s0)
    end in
  let sign (x : float) := if neg then PrimFloat.opp x else x in
  if startsWith s1 (str "Infinity") then sign infinity
  else
    let ip := takeWhile is_digit s1 in
    let s2 := dropWhile is_digit s1 in
    let '(fp, s3) :=
      match s2 with
      | 46 :: r => (takeWhile is_digit r, dropWhile is_digit r)
      | _ => ([], s2)
      end in
    match ip ++ fp with
    | [] => nan
    | ds => sign (of_decimal (digits_value 0 ds)
                             (exponent_part s3 - Z.of_nat (List.length fp)))
    end.

(** The binary64 value nearest to a non-negative integer, as an integer:
    [n] is rounded to 53 significant bits, ties to even. (Beyond the largest
    finite number the value is [Infinity]; the rounded integer is then a
    multiple of [2^16], as is every rounded integer from [2^69] on.) *)
Definition round53 (n : Z) : Z :=
  let k := Z.log2 n - 52 in
  if k <=? 0 then n
  else
    let q := Z.shiftr n k in
    let r := Z.land n (Z.ones k) in
    let half := Z.shiftl 1 (k - 1) in
    let up := (half <? r) || ((half =? r) && Z.odd q) in
    Z.shiftl (if up then q + 1 else q) k.

Fixpoint radix_value (radix acc : Z) (ds : list Z) : Z :=
  match ds with
  | [] => acc
  | d :: ds' => radix_value radix (radix * acc + d) ds'
  end.

(** [String.fromCharCode(n)] for the number nearest to the integer [n]: the
    code unit is that number modulo [2^16] (ToUint16), [0] for [Infinity]. *)
Definition toUint16_of_integer (n : Z) : char := round53 n mod 65536.

Fixpoint decimal_digits (fuel : nat) (z : Z) (acc : jsstring) : jsstring :=
  match fuel with
  | O => acc
  | S fuel' =>
    let acc' := (48 + z mod 10) :: acc in
    if z <? 10 then acc' else decimal_digits fuel' (z / 10) acc'
  end.

(** An instance of the conversion of numbers to strings, used to evaluate
    examples: it agrees with the language on [NaN], on the infinities and on
    the integers below [10^21] in magnitude, and leaves the other numbers
    (printed in their shortest notation that reads back) empty. *)
Definition integerToString (x : float) : jsstring :=
  match Prim2SF x with
  | S754_nan => str "NaN"
  | S754_infinity s => if s then str "-Infinity" else str "Infinity"
  | _ =>
    match to_integer x with
    | Some z =>
      if Z.abs z <? 10 ^ 21 then
        (if z <? 0 then [45] else []) ++ decimal_digits 22 (Z.abs z) []
      else []
    | None => []
    end
  end.

(** [count > n * 0.4] for integers [0 <= count] and [0 <= n]. The number
    written [0.4] is [7205759403792794 * 2^-54]; its product with [n] is
    exact before it is rounded to a binary64 value. *)
Definition gt_times_0_4 (count n : Z) : bool :=
  round53 (n * 7205759403792794) <? count * 2 ^ 54.

End Num.

(* ================================================================== *)
(** * SubtitleHandler *)
(* ================================================================== *)

Module Subtitle.
Import JS Num.

(** ** Text cleaning *)

Definition del : jsstring -> jsstring := fun _ => [].
Definition const (r : jsstring) : jsstring -> jsstring := fun _ => r.

(** [/&#(\d+);/g] *)
Definition re_dec_entity : regex :=
  Seq (Lit (str "&#")) (Seq (Plus (Chr is_digit)) (Chr (eqc 59))).

(** [/&#x([0-9a-fA-F]+);/g] *)
Definition is_hex (c : char) : bool :=
  is_digit c || in_range 97 102 c || in_range 65 70 c.

Definition re_hex_entity : regex :=
  Seq (Lit (str "&#x")) (Seq (Plus (Chr is_hex)) (Chr (eqc 59))).

Definition hex_digit (c : char) : Z :=
  if is_digit c then c - 48
  else if in_range 97 102 c then c - 87
  else c - 55.

(** The two callbacks: the code units 8203 to 8205 (zero-width space,
    non-joiner, joiner) are dropped, any other code goes through
    [String.fromCharCode]. [m] is the whole match, the digits lie between
    the prefix and the semicolon. *)
Definition entity_char (code : Z) : jsstring :=
  if (code =? 8203) || (code =? 8204) || (code =? 8205) then []
  else [toUint16_of_integer code].

Definition dec_entity (m : jsstring) : jsstring :=
  entity_char (digits_value 0 (removelast (skipn 2 m))).

Definition hex_entity (m : jsstring) : jsstring :=
  entity_char (radix_value 16 0 (map hex_digit (removelast (skipn 3 m)))).

(** [/<\d{2}:\d{2}:\d{2}\.\d{3}>/g] *)
Definition re_timing_tag : regex :=
  let d := Chr is_digit in
  Seq (Chr (eqc 60))
   (Seq (Rep 2 d) (Seq (Chr (eqc 58)) (Seq (Rep 2 d) (Seq (Chr (eqc 58))
     (Seq (Rep 2 d) (Seq (Chr (eqc 46)) (Seq (Rep 3 d) (Chr (eqc 62))))))))).

(** [/<\/?[a-zA-Z][^>]*>/g] *)
Definition re_html_tag : regex :=
  Seq (Chr (eqc 60))
   (Seq (Opt (Chr (eqc 47)))
     (Seq (Chr is_alpha) (Seq (Star (Chr (fun c => negb (eqc c 62)))) (Chr (eqc 62))))).

(** [/♪+/g] *)
Definition re_notes : regex := Plus (Chr (eqc 9834)).

(** The twelve markers, each removed under the flags [gi], in this order. *)
Definition sound_markers : list jsstring :=
  [ str "[音楽]"; str "[拍手]"; str "[笑い]";
    str "[Music]"; str "[Applause]"; str "[Laughter]";
    str "(音楽)"; str "(拍手)"; str "(笑い)";
    str "(Music)"; str "(Applause)"; str "(Laughter)" ].

Definition remove_markers (s : jsstring) : jsstring :=
  fold_left (fun acc m => replace acc (LitCI m) del) sound_markers s.

(** [/^>>\s*/g] *)
Definition re_speaker : regex :=
  Seq Bol (Seq (Lit (str ">>")) (Star (Chr is_space))).

(** [/(.)\1{3,}/g]; the dot matches every code unit but a line terminator. *)
Definition re_repeat : regex := Same (fun c => negb (is_line_terminator c)) 3.

Definition halfToFull : list (jsstring * jsstring) :=
  [
    (str "ｱ", str "ア"); (str "ｲ", str "イ"); (str "ｳ", str "ウ"); (str "ｴ", str "エ");
    (str "ｵ", str "オ"); (str "ｶ", str "カ"); (str "ｷ", str "キ"); (str "ｸ", str "ク");
    (str "ｹ", str "ケ"); (str "ｺ", str "コ"); (str "ｻ", str "サ"); (str "ｼ", str "シ");
    (str "ｽ", str "ス"); (str "ｾ", str "セ"); (str "ｿ", str "ソ"); (str "ﾀ", str "タ");
    (str "ﾁ", str "チ"); (str "ﾂ", str "ツ"); (str "ﾃ", str "テ"); (str "ﾄ", str "ト");
    (str "ﾅ", str "ナ"); (str "ﾆ", str "ニ"); (str "ﾇ", str "ヌ"); (str "ﾈ", str "ネ");
    (str "ﾉ", str "ノ"); (str "ﾊ", str "ハ"); (str "ﾋ", str "ヒ"); (str "ﾌ", str "フ");
    (str "ﾍ", str "ヘ"); (str "ﾎ", str "ホ"); (str "ﾏ", str "マ"); (str "ﾐ", str "ミ");
    (str "ﾑ", str "ム"); (str "ﾒ", str "メ"); (str "ﾓ", str "モ"); (str "ﾔ", str "ヤ");
    (str "ﾕ", str "ユ"); (str "ﾖ", str "ヨ"); (str "ﾗ", str "ラ"); (str "ﾘ", str "リ");
    (str "ﾙ", str "ル"); (str "ﾚ", str "レ"); (str "ﾛ", str "ロ"); (str "ﾜ", str "ワ");
    (str "ｦ", str "ヲ"); (str "ﾝ", str "ン"); (str "ｧ", str "ァ"); (str "ｨ", str "ィ");
    (str "ｩ", str "ゥ"); (str "ｪ", str "ェ"); (str "ｫ", str "ォ"); (str "ｬ", str "ャ");
    (str "ｭ", str "ュ"); (str "ｮ", str "ョ"); (str "ｯ", str "ッ"); (str "ｰ", str "ー");
    (str "ﾞ", str "゛"); (str "ﾟ", str "゜")
  ].

Fixpoint lookup (k : jsstring) (tbl : list (jsstring * jsstring)) : option jsstring :=
  match tbl with
  | [] => None
  | (k', v) :: tbl' => if eqs k k' then Some v else lookup k tbl'
  end.

(** [/[ｱ-ﾝﾞﾟ]/g]: the code units 0xFF71 to 0xFF9D, 0xFF9E and 0xFF9F *)
Definition is_halfwidth_kana (c : char) : bool :=
  in_range 65393 65437 c || eqc c 65438 || eqc c 65439.

Definition convertHalfWidthToFullWidth (text : jsstring) : jsstring :=
  replace text (Chr is_halfwidth_kana)
          (fun ch => match lookup ch halfToFull with
                     | Some v => v
                     | None => ch
                     end).

(** [/^[。、,.!?！？\d\s]+$/] *)
Definition is_punct (c : char) : bool :=
  one_of (str "。、,.!?！？") c || is_digit c || is_space c.

Definition re_punct_only : regex := Seq Bol (Seq (Plus (Chr is_punct)) Eol).

(** [/\s+/g] *)
Definition re_spaces : regex := Plus (Chr is_space).

Definition decode_entities (s : jsstring) : jsstring :=
  let s := replace s (Lit (str "&amp;")) (const (str "&")) in
  let s := replace s (Lit (str "&lt;")) (const (str "<")) in
  let s := replace s (Lit (str "&gt;")) (const (str ">")) in
  let s := replace s (Lit (str "&quot;")) (const [34]) in
  let s := replace s (Lit (str "&apos;")) (const (str "'")) in
  let s := replace s (Lit (str "&nbsp;")) (const (str " ")) in
  let s := replace s re_dec_entity dec_entity in
  replace s re_hex_entity hex_entity.

Definition strip_tags (s : jsstring) : jsstring :=
  replace (replace s re_timing_tag del) re_html_tag del.

Definition cleanSubtitleText (text : jsstring) : jsstring :=
  let cleaned := trim text in
  let cleaned := decode_entities cleaned in
  let cleaned := strip_tags cleaned in
  let cleaned := remove_markers (replace cleaned re_notes del) in
  let cleaned := replace cleaned re_speaker del in
  let cleaned := replace cleaned re_repeat (firstn 1) in
  let cleaned := convertHalfWidthToFullWidth cleaned in
  if test re_punct_only cleaned then []
  else trim (replace cleaned re_spaces (const (str " "))).

(** ** Segments *)

Record Segment : Type := mkSegment {
  text : jsstring;
  start : float;
  duration : float;
  timestamp : jsstring
}.

(** The value returned by [processTranscript]. *)
Record Processed (A : Type) : Type := mkProcessed {
  segments : list A;
  isTruncated : bool;
  message : option jsstring
}.
Arguments mkProcessed {A}.
Arguments segments {A}.
Arguments isTruncated {A}.
Arguments message {A}.

Section Parsers.

(** The conversion of a number to a string ([Number.prototype.toString] and
    template literals) belongs to the language; the development is
    parametric in it. *)
Variable numberToString : float -> jsstring.

(** [formatDuration] *)
Definition formatDuration (seconds : float) : jsstring :=
  let hours := floor (seconds / 3600)%float in
  let minutes := floor (rem seconds 3600 / 60)%float in
  let secs := rem seconds 60 in
  if PrimFloat.ltb 0 hours then
    numberToString hours ++ str ":" ++ padStart2 (numberToString minutes)
      ++ str ":" ++ padStart2 (numberToString secs)
  else
    numberToString minutes ++ str ":" ++ padStart2 (numberToString secs).

(** [isValidSegmentText] *)
Definition isValidSegmentText (text : jsstring) : bool :=
  (2 <? List.length text)%nat.

(** [createSegmentIfValid] *)
Definition createSegmentIfValid (text : jsstring) (startTime endTime : float)
  (lastText : jsstring) : option Segment :=
  let duration := Num.max 0 (endTime - startTime)%float in
  if negb (eqs text lastText)
     && negb (startsWith text (lastText ++ str " "))
     && PrimFloat.ltb 0.1 duration
  then Some (mkSegment text startTime duration (formatDuration (floor startTime)))
  else None.

(** [parseSrtTime]: ["00:00:00,000"] *)
Definition parseSrtTime (timeStr : jsstring) : float :=
  let pieces := split timeStr (str ",") in
  let time := hd [] pieces in
  let ms := nth_error pieces 1 in
  match split time (str ":") with
  | [hours; minutes; seconds] =>
    (parseFloat hours * 3600 + parseFloat minutes * 60 + parseFloat seconds
     + match ms with
       | Some (c :: m) => parseFloat (c :: m) / 1000
       | _ => 0
       end)%float
  | _ => 0%float
  end.

(** [parseVttTime]: ["00:00:00.000"] or ["00:00.000"] *)
Definition parseVttTime (timeStr : jsstring) : float :=
  match split timeStr (str ":") with
  | [hours; minutes; seconds] =>
    (parseFloat hours * 3600 + parseFloat minutes * 60 + parseFloat seconds)%float
  | [minutes; seconds] =>
    (parseFloat minutes * 60 + parseFloat seconds)%float
  | _ => 0%float
  end.

(** The state of a parser: the segments pushed so far (latest first) and the
    text of the last one. *)
Definition push_cue (textLines : list jsstring) (startTime endTime : float)
  (st : list Segment * jsstring) : list Segment * jsstring :=
  let '(segments, lastText) := st in
  match textLines with
  | [] => st
  | _ =>
    match createSegmentIfValid (join (str " ") textLines) startTime endTime lastText with
    | Some segment => (segment :: segments, text segment)
    | None => st
    end
  end.

(** [/^\d+$/] *)
Definition re_number : regex := Seq Bol (Seq (Plus (Chr is_digit)) Eol).

Definition arrow : jsstring := str "-->".

(** The inner loop of [parseSrtToSegments]: the lines of a cue up to a blank
    line or a sequence number, cleaned and kept when valid; the lines that
    follow are returned with them. *)
Fixpoint srt_text_lines (acc : list jsstring) (lines : list jsstring)
  : list jsstring * list jsstring :=
  match lines with
  | [] => (rev acc, [])
  | l :: rest =>
    if negb (eqs (trim l) []) && negb (test re_number (trim l)) then
      let cleanedLine := cleanSubtitleText l in
      srt_text_lines (if isValidSegmentText cleanedLine then cleanedLine :: acc else acc) rest
    else (rev acc, lines)
  end.

(** The outer loop of [parseSrtToSegments], on the lines from index [i] on.
    Every iteration moves [i] forward, so as many iterations as there are
    lines, and one more, end it. *)
Fixpoint srt_loop (fuel : nat) (lines : list jsstring)
  (st : list Segment * jsstring) : option (list Segment) :=
  match fuel with
  | O => None
  | S fuel' =>
    match lines with
    | [] => Some (rev (fst st))
    | l :: rest =>
      if eqs (trim l) [] then srt_loop fuel' rest st
      else if test re_number (trim l) then
        match rest with
        | l2 :: rest2 =>
          if includes l2 arrow then
            match split l2 arrow with
            | [t0; t1] =>
              let startTime := parseSrtTime (trim t0) in
              let endTime := parseSrtTime (trim t1) in
              let '(textLines, rest3) := srt_text_lines [] rest2 in
              srt_loop fuel' rest3 (push_cue textLines startTime endTime st)
            | _ => srt_loop fuel' rest st
            end
          else srt_loop fuel' rest st
        | [] => srt_loop fuel' rest st
        end
      else srt_loop fuel' rest st
    end
  end.

(** [parseSrtToSegments] *)
Definition parseSrtToSegments (srtContent : jsstring) : option (list Segment) :=
  let lines := split srtContent (str (String "010" EmptyString)) in
  srt_loop (S (List.length lines)) lines ([], []).

(** [shouldSkipVttLine] *)
Definition shouldSkipVttLine (line : jsstring) : bool :=
  startsWith line (str "WEBVTT") || startsWith line (str "NOTE")
  || startsWith line (str "STYLE") || startsWith line (str "REGION")
  || eqs (trim line) [].

(** [skipVttNoteBlock], on the lines after the one at [currentIndex] *)
Fixpoint skipVttNoteBlock (lines : list jsstring) : list jsstring :=
  match lines with
  | [] => []
  | l :: rest =>
    if negb (eqs (trim l) []) && negb (includes l arrow)
    then skipVttNoteBlock rest
    else lines
  end.

(** [/\s+(position|align|size|line|vertical):/] *)
Definition re_cue_settings : regex :=
  Seq (Plus (Chr is_space))
   (Seq (Alts [Lit (str "position"); Lit (str "align"); Lit (str "size");
               Lit (str "line"); Lit (str "vertical")])
        (Chr (eqc 58))).

(** The inner loop of [parseVttToSegments]: the lines up to a timestamp line
    or a blank line. *)
Fixpoint vtt_text_lines (acc : list jsstring) (lines : list jsstring)
  : list jsstring * list jsstring :=
  match lines with
  | [] => (rev acc, [])
  | l :: rest =>
    if negb (includes l arrow) && negb (eqs (trim l) []) then
      let cleanedLine := cleanSubtitleText l in
      vtt_text_lines (if isValidSegmentText cleanedLine then cleanedLine :: acc else acc) rest
    else (rev acc, lines)
  end.

Fixpoint vtt_loop (fuel : nat) (lines : list jsstring)
  (st : list Segment * jsstring) : option (list Segment) :=
  match fuel with
  | O => None
  | S fuel' =>
    match lines with
    | [] => Some (rev (fst st))
    | l :: rest =>
      if shouldSkipVttLine l then vtt_loop fuel' rest st
      else if eqs (trim l) (str "NOTE") then vtt_loop fuel' (skipVttNoteBlock rest) st
      else if includes l arrow then
        let timestampLine := split_re_head l re_cue_settings in
        match split timestampLine arrow with
        | [t0; t1] =>
          let startTime := parseVttTime (trim t0) in
          let endTime := parseVttTime (trim t1) in
          let '(textLines, rest2) := vtt_text_lines [] rest in
          vtt_loop fuel' rest2 (push_cue textLines startTime endTime st)
        | _ => vtt_loop fuel' rest st
        end
      else vtt_loop fuel' rest st
    end
  end.

(** [parseVttToSegments] *)
Definition parseVttToSegments (vttContent : jsstring) : option (list Segment) :=
  let lines := split vttContent (str (String "010" EmptyString)) in
  vtt_loop (S (List.length lines)) lines ([], []).

(** ** Sampling *)

(** [a.slice(start, end)] on integers: a negative index counts from the end,
    and both are clamped to the array. *)
Definition slice {A : Type} (a : list A) (start : Z) (end_ : option Z) : list A :=
  let len := Z.of_nat (List.length a) in
  let clamp r := if r <? 0 then Z.max (len + r) 0 else Z.min r len in
  let k := clamp start in
  let final := match end_ with Some e => clamp e | None => len end in
  firstn (Z.to_nat (final - k)) (skipn (Z.to_nat k) a).

(** [a[idx]]: [undefined] unless [idx] is an integer within the array. *)
Definition array_get {A : Type} (a : list A) (idx : float) : option A :=
  match to_integer idx with
  | Some z => if 0 <=? z then nth_error a (Z.to_nat z) else None
  | None => None
  end.

(** The values of [i] in [for (let i = 0; i < bound; i++)]: none when
    [bound] is [NaN] or not positive, else [0, 1, ...] up to the last
    integer below [bound]. (A bound above [2^53] would not end the loop; the
    bounds below are smaller than the length of the array.) *)
Definition loop_indices (bound : float) : list float :=
  map of_nat
      (seq 0 (Z.to_nat (toIntegerOrInfinity (PrimFloat.opp (floor (PrimFloat.opp bound)))))).

Section Sampling.
Context {A : Type}.
Variable segs : list A.
Variable maxSegments : float.

Definition len : float := of_nat (List.length segs).

(** The [smart] branch *)
Definition introCount : float := floor (maxSegments * 0.2)%float.
Definition middleCount : float := floor (maxSegments * 0.3)%float.
Definition conclusionCount : float := (maxSegments - introCount - middleCount)%float.

Definition intro : list A := slice segs 0 (Some (toIntegerOrInfinity introCount)).
Definition conclusionStart : float := Num.max (len - conclusionCount)%float introCount.
Definition conclusion : list A := slice segs (toIntegerOrInfinity conclusionStart) None.

Definition middleSegments : list A :=
  if PrimFloat.ltb 0 middleCount && PrimFloat.ltb introCount conclusionStart then
    let middleStart := introCount in
    let middleEnd := conclusionStart in
    let middleRange := (middleEnd - middleStart)%float in
    let step := (middleRange / middleCount)%float in
    flat_map (fun i =>
                let idx := floor (middleStart + i * step)%float in
                if PrimFloat.ltb idx middleEnd then
                  match array_get segs idx with
                  | Some seg => [seg]
                  | None => []
                  end
                else [])
             (loop_indices middleCount)
  else [].

(** The [summary] branch *)
Definition summaryIntro : float := floor (maxSegments * 0.1)%float.
Definition summaryConclusion : float := floor (maxSegments * 0.7)%float.
Definition summaryMiddle : float := (maxSegments - summaryIntro - summaryConclusion)%float.

Definition summary_intro : list A :=
  slice segs 0 (Some (toIntegerOrInfinity summaryIntro)).

Definition summary_middle : list A :=
  if PrimFloat.ltb 0 summaryMiddle then
    let middleStep := floor ((len - summaryConclusion) / summaryMiddle)%float in
    flat_map (fun i =>
                let idx := (summaryIntro + i * middleStep)%float in
                if PrimFloat.ltb idx (len - summaryConclusion)%float then
                  match array_get segs idx with
                  | Some seg => [seg]
                  | None => []
                  end
                else [])
             (loop_indices summaryMiddle)
  else [].

Definition summary_conclusion : list A :=
  slice segs (toIntegerOrInfinity (- summaryConclusion)%float) None.

Definition smart_result : Processed A :=
  mkProcessed (intro ++ middleSegments ++ conclusion) true
    (Some (str "Smart sampling: " ++ numberToString introCount
           ++ str " intro + " ++ numberToString (of_nat (List.length middleSegments))
           ++ str " middle samples + " ++ numberToString (of_nat (List.length conclusion))
           ++ str " conclusion from " ++ numberToString len
           ++ str " total segments")).

Definition summary_result : Processed A :=
  mkProcessed (summary_intro ++ summary_middle ++ summary_conclusion) true
    (Some (str "Summary mode: focusing on conclusion (70%) with brief intro (10%) and middle samples (20%) from "
           ++ numberToString len ++ str " total segments")).

Definition full_result : Processed A :=
  mkProcessed (slice segs 0 (Some (toIntegerOrInfinity maxSegments))) true
    (Some (str "Transcript truncated to first " ++ numberToString maxSegments
           ++ str " of " ++ numberToString len ++ str " segments")).

(** [processTranscript]. The default case calls the function again with the
    mode ['smart']: the same comparison fails again and the [smart] branch
    runs. *)
Definition processTranscript (mode : jsstring) : Processed A :=
  if PrimFloat.leb len maxSegments then mkProcessed segs false None
  else if eqs mode (str "full") then full_result
  else if eqs mode (str "smart") then smart_result
  else if eqs mode (str "summary") then summary_result
  else smart_result.

End Sampling.

(** ** Transcript results *)

Record TranscriptItem : Type := mkItem {
  item_text : jsstring;
  item_offset : float;
  item_duration : float
}.

Record TranscriptResult : Type := mkResult {
  res_language : jsstring;
  res_mode : jsstring;
  res_fullText : jsstring;
  res_wordCount : nat;
  res_totalSegments : nat;
  res_segments : list Segment;
  res_isTruncated : bool;
  res_message : option jsstring
}.

(** [fullText.length > 50000 ? fullText.substring(0, 50000) + '...' : fullText] *)
Definition capFullText (fullText : jsstring) : jsstring :=
  if 50000 <? Z.of_nat (List.length fullText)
  then substring0 fullText (Z.to_nat 50000) ++ str "..."
  else fullText.

(** [fullText.split(/\s+/).length] *)
Definition wordCount (fullText : jsstring) : nat :=
  List.length (split_re fullText re_spaces).

(** [transcript] in [getTranscript]: the segments made of the items fetched
    by the transcript library. *)
Definition transcript (transcriptData : list TranscriptItem) : list Segment :=
  map (fun item =>
         mkSegment (item_text item)
                   (item_offset item / 1000)%float
                   (item_duration item / 1000)%float
                   (formatDuration (floor (item_offset item / 1000)%float)))
      transcriptData.

(** The response of [getTranscript] for the items fetched. *)
Definition getTranscript (transcriptData : list TranscriptItem)
  (lang mode : jsstring) (maxSegments : float) : TranscriptResult :=
  let fullText := join (str " ") (map item_text transcriptData) in
  let processedTranscript :=
    processTranscript (transcript transcriptData) maxSegments mode in
  mkResult lang mode (capFullText fullText) (wordCount fullText)
           (List.length (transcript transcriptData))
           (segments processedTranscript)
           (isTruncated processedTranscript)
           (message processedTranscript).

Definition endsWith (s p : jsstring) : bool := startsWith (reverse s) (reverse p).

(** The response of [getTranscriptViaYtDlp] for the subtitle file that
    yt-dlp wrote. *)
Definition getTranscriptViaYtDlp (subtitleFile content : jsstring)
  (lang mode : jsstring) (maxSegments : float) : option TranscriptResult :=
  match (if endsWith subtitleFile (str ".vtt")
         then parseVttToSegments content
         else parseSrtToSegments content) with
  | None => None
  | Some segs =>
    let fullText := join (str " ") (map text segs) in
    let processedTranscript := processTranscript segs maxSegments mode in
    Some (mkResult (if eqs lang (str "auto") then str "ja" else lang) mode
                   (capFullText fullText) (wordCount fullText)
                   (List.length segs)
                   (segments processedTranscript)
                   (isTruncated processedTranscript)
                   (message processedTranscript))
  end.

End Parsers.

End Subtitle.

(* ================================================================== *)
(** * CommentFilter *)
(* ================================================================== *)

Module CommentFilter.
Import JS Num.

(** [CommentFilterOptions]; an absent field is [None]. *)
Record CommentFilterOptions : Type := mkOptions {
  enableFiltering : option bool;
  removeSpam : option bool;
  removeNoise : option bool;
  removeUnrelated : option bool
}.

(** A comment as the handlers build it; a reply has no [replies] field. *)
Inductive Comment : Type :=
  mkComment (id : jsstring) (text : option jsstring)
            (authorChannelId : option jsstring) (replies : option (list Comment)).

Definition id (c : Comment) : jsstring := let '(mkComment i _ _ _) := c in i.
Definition text (c : Comment) : option jsstring := let '(mkComment _ t _ _) := c in t.
Definition authorChannelId (c : Comment) : option jsstring :=
  let '(mkComment _ _ a _) := c in a.
Definition replies (c : Comment) : option (list Comment) :=
  let '(mkComment _ _ _ r) := c in r.

(** [comment.text || ''] *)
Definition comment_text (comment : Comment) : jsstring :=
  match text comment with
  | Some t => t
  | None => []
  end.

Definition ws : regex := Chr is_space.
Definition ci (s : string) : regex := LitCI (str s).
Arguments ci s%_string_scope.

(** [SPAM_PATTERNS] *)
Definition SPAM_PATTERNS : list regex :=
  [ (* /\b(?:bit\.ly|tinyurl\.com|goo\.gl|short\.link|cutt\.ly|ow\.ly|tiny\.cc)\b/gi *)
    Seq WordB
      (Seq (Alts [ci "bit.ly"; ci "tinyurl.com"; ci "goo.gl"; ci "short.link";
                  ci "cutt.ly"; ci "ow.ly"; ci "tiny.cc"])
           WordB);
    (* /(?:check\s*out|visit|click|watch|see)\s+(?:my|our)\s+(?:channel|profile|video|link)/gi *)
    Seq (Alts [Seq (ci "check") (Seq (Star ws) (ci "out"));
               ci "visit"; ci "click"; ci "watch"; ci "see"])
      (Seq (Plus ws)
        (Seq (Alts [ci "my"; ci "our"])
          (Seq (Plus ws)
            (Alts [ci "channel"; ci "profile"; ci "video"; ci "link"]))));
    (* /(?:G){3,}/gi, the group G being https?:\/\/[^\s]+.* *)
    AtLeast 3
      (Seq (ci "http")
        (Seq (Opt (ci "s"))
          (Seq (ci "://")
            (Seq (Plus (Chr (fun c => negb (is_space c))))
                 (Star (Chr (fun c => negb (is_line_terminator c))))))))
  ].

(** A code point from U+1F300 to U+1F9FF, as the surrogate pair that
    encodes it. Under the [u] flag a match starts and ends between code
    points; a run of such pairs starts with a high surrogate, which cannot
    be the second half of a pair, so it is found on the code units as
    well. *)
Definition emoji : regex :=
  Alts [ Seq (Chr (eqc 55356)) (Chr (in_range 57088 57343));
         Seq (Chr (eqc 55357)) (Chr (in_range 56320 57343));
         Seq (Chr (eqc 55358)) (Chr (in_range 56320 56831)) ].

(** [NOISE_PATTERNS] *)
Definition NOISE_PATTERNS : list regex :=
  [ (* /<[^>]+>/g *)
    Seq (Chr (eqc 60)) (Seq (Plus (Chr (fun c => negb (eqc c 62)))) (Chr (eqc 62)));
    (* /&lt;|&gt;|&amp;|&quot;|&#\d+;/g *)
    Alts [Lit (str "&lt;"); Lit (str "&gt;"); Lit (str "&amp;"); Lit (str "&quot;");
          Seq (Lit (str "&#")) (Seq (Plus (Chr is_digit)) (Chr (eqc 59)))];
    (* /(.)\1{5,}/g *)
    Same (fun c => negb (is_line_terminator c)) 5;
    (* /[\u{1F300}-\u{1F9FF}]{5,}/gu *)
    AtLeast 5 emoji
  ].

(** [BOT_PATTERNS] *)
Definition BOT_PATTERNS : list regex :=
  [ (* /who(?:'s| is)?\s+(?:watching|here|listening)\s+(?:in|from)?\s*\d{4}/gi *)
    Seq (ci "who")
      (Seq (Opt (Alts [ci "'s"; ci " is"]))
        (Seq (Plus ws)
          (Seq (Alts [ci "watching"; ci "here"; ci "listening"])
            (Seq (Plus ws)
              (Seq (Opt (Alts [ci "in"; ci "from"]))
                (Seq (Star ws) (Rep 4 (Chr is_digit))))))));
    (* /^(?:first|second|third|\d+(?:st|nd|rd|th))!?$/i *)
    Seq Bol
      (Seq (Alts [ci "first"; ci "second"; ci "third";
                  Seq (Plus (Chr is_digit)) (Alts [ci "st"; ci "nd"; ci "rd"; ci "th"])])
        (Seq (Opt (Chr (eqc 33))) Eol));
    (* /^(?:anyone|who)\s+(?:else\s+)?(?:here|watching|listening)/i *)
    Seq Bol
      (Seq (Alts [ci "anyone"; ci "who"])
        (Seq (Plus ws)
          (Seq (Opt (Seq (ci "else") (Plus ws)))
               (Alts [ci "here"; ci "watching"; ci "listening"]))));
    (* /^(?:like|thumbs?\s*up)\s+if\s+you/i *)
    Seq Bol
      (Seq (Alts [ci "like";
                  Seq (ci "thumb") (Seq (Opt (ci "s")) (Seq (Star ws) (ci "up")))])
        (Seq (Plus ws) (Seq (ci "if") (Seq (Plus ws) (ci "you")))))
  ].

(** [wordCounts]: a [Map] from words to counts, in insertion order. *)
Fixpoint map_get (m : list (jsstring * Z)) (k : jsstring) : option Z :=
  match m with
  | [] => None
  | (k', v) :: m' => if eqs k k' then Some v else map_get m' k
  end.

Fixpoint map_set (m : list (jsstring * Z)) (k : jsstring) (v : Z) : list (jsstring * Z) :=
  match m with
  | [] => [(k, v)]
  | (k', v') :: m' => if eqs k k' then (k', v) :: m' else (k', v') :: map_set m' k v
  end.

(** [wordCounts.get(word) || 0] *)
Definition get_or_0 (m : list (jsstring * Z)) (k : jsstring) : Z :=
  match map_get m k with
  | Some v => if v =? 0 then 0 else v
  | None => 0
  end.

Definition count_words (words : list jsstring) : list (jsstring * Z) :=
  fold_left (fun wordCounts word =>
               if (2 <? List.length word)%nat
               then map_set wordCounts word (get_or_0 wordCounts word + 1)
               else wordCounts)
            words [].

(** The class of [/[\s\.,!?;:'Q]/g], where Q stands for the double quote:
    white space and the code units of [. , ! ? ; : '] and the quote. *)
Definition is_gibberish_punct (c : char) : bool :=
  is_space c || one_of [46; 44; 33; 63; 59; 58; 39; 34] c.

Definition legitimatePatterns : list regex :=
  [ ci "github";
    ci "stackoverflow";
    Seq (ci "http") (Seq (Opt (ci "s")) (ci "://"));
    Alts [ci "error:"; ci "warning:"; ci "fatal:"];
    Alts [ci "npm"; ci "yarn"; ci "pip"; ci "docker"; ci "git"] ].

Definition whole (r : regex) : regex := Seq Bol (Seq r Eol).

Definition keyboardPatterns : list regex :=
  [ (* /^(asdf|qwer|zxcv|hjkl|yuio)+$/i *)
    whole (Plus (Alts [ci "asdf"; ci "qwer"; ci "zxcv"; ci "hjkl"; ci "yuio"]));
    (* /^(abcd|efgh|ijkl|mnop|qrst|uvwx)+$/i *)
    whole (Plus (Alts [ci "abcd"; ci "efgh"; ci "ijkl"; ci "mnop"; ci "qrst"; ci "uvwx"]));
    (* /^[1234567890]+$/ *)
    whole (Plus (Chr is_digit)) ].

Definition one_of_ci (cs : string) (c : char) : bool :=
  one_of (str cs) (ascii_lower c).
Arguments one_of_ci cs%_string_scope c.

(** [isGibberish] *)
Definition isGibberish (text : jsstring) : bool :=
  let cleanText := replace text (Chr is_gibberish_punct) (fun _ => []) in
  if (List.length cleanText <? 8)%nat then false
  else if existsb (fun pattern => test pattern text) legitimatePatterns then false
  else if existsb (fun pattern => test pattern cleanText) keyboardPatterns then true
  else if test (whole (Plus (Chr (one_of_ci "asdfghjkl")))) cleanText then true
  else test (AtLeast 8 (Chr (one_of_ci "bcdfghjklmnpqrstvwxyz"))) cleanText.

Section Filter.

(** Case conversion and number formatting belong to the language. *)
Variable toLowerCase : jsstring -> jsstring.
Variable toFixed1 : float -> jsstring.

(** [isRepeatedText] *)
Definition isRepeatedText (text : jsstring) : bool :=
  let words := split_re (toLowerCase text) (Plus ws) in
  if (List.length words <? 5)%nat then false
  else existsb (fun kv => gt_times_0_4 (snd kv) (Z.of_nat (List.length words)))
               (count_words words).

Definition truthy (s : option jsstring) : bool :=
  match s with
  | Some (_ :: _) => true
  | _ => false
  end.

(** [a === b] on values that are strings or [undefined] *)
Definition strict_eq (a b : option jsstring) : bool :=
  match a, b with
  | Some x, Some y => eqs x y
  | None, None => true
  | _, _ => false
  end.

Definition is_false (o : option bool) : bool :=
  match o with Some false => true | _ => false end.

Definition spamCheck (text : jsstring) : bool :=
  existsb (fun pattern => test pattern text) SPAM_PATTERNS || isRepeatedText text.

Definition noiseCheck (text : jsstring) : bool :=
  existsb (fun pattern => test pattern text) NOISE_PATTERNS
  || eqs (trim text) [] || isGibberish text.

Definition botCheck (text : jsstring) : bool :=
  existsb (fun pattern => test pattern text) BOT_PATTERNS.

(** [shouldFilterComment] *)
Definition shouldFilterComment (comment : Comment) (options : CommentFilterOptions)
  (videoAuthorChannelId : option jsstring) : bool :=
  if is_false (enableFiltering options) then false
  else if truthy videoAuthorChannelId
          && strict_eq (authorChannelId comment) videoAuthorChannelId then false
  else
    let text := comment_text comment in
    if negb (is_false (removeSpam options)) && spamCheck text then true
    else if negb (is_false (removeNoise options)) && noiseCheck text then true
    else if negb (is_false (removeUnrelated options)) && botCheck text then true
    else false.

(** The callback of [comments.filter] in [filterComments]: a comment that is
    kept has its [replies] replaced by those that pass. The first component
    is the comment after the call, the second whether it is kept. *)
Definition filter_step (options : CommentFilterOptions)
  (videoAuthorChannelId : option jsstring) (comment : Comment) : Comment * bool :=
  let keepComment := negb (shouldFilterComment comment options videoAuthorChannelId) in
  match keepComment, replies comment with
  | true, Some rs =>
    (mkComment (id comment) (text comment) (authorChannelId comment)
       (Some (filter (fun reply =>
                        negb (shouldFilterComment reply options videoAuthorChannelId)) rs)),
     keepComment)
  | _, _ => (comment, keepComment)
  end.

(** [filterComments] returns an array and updates the comments of its
    argument in place: the first component is the array returned, the second
    the argument after the call. *)
Definition filterComments (comments : list Comment) (options : CommentFilterOptions)
  (videoAuthorChannelId : option jsstring) : list Comment * list Comment :=
  if is_false (enableFiltering options) then (comments, comments)
  else
    let stepped := map (filter_step options videoAuthorChannelId) comments in
    (map fst (filter snd stepped), map fst stepped).

Record FilterStats : Type := mkStats {
  total : nat;
  filtered : nat;
  kept : nat;
  filterRate : jsstring
}.

(** [getFilterStats] *)
Definition getFilterStats (comments : list Comment) (options : CommentFilterOptions)
  (videoAuthorChannelId : option jsstring) : FilterStats :=
  let total := List.length comments in
  let filtered :=
    List.length (filter (fun c => shouldFilterComment c options videoAuthorChannelId)
                        comments) in
  let kept := (total - filtered)%nat in
  let filterRate :=
    if (0 <? total)%nat
    then toFixed1 (of_nat filtered / of_nat total * 100)%float
    else str "0" in
  mkStats total filtered kept (filterRate ++ str "%").

End Filter.

End CommentFilter.


(* ================================================================== *)
(** * Matches with groups *)
(* ================================================================== *)

Module Match.
Import JS.

(** A pattern written as a sequence of parts [r1 r2 ... rk]: the lengths that
    the parts match in turn, in the order in which the engine tries them. The
    first list is the match reported, and gives the groups that the parts
    hold. *)
Fixpoint seq_matches (rs : list regex) (prev : option char) (s : jsstring)
  : list (list nat) :=
  match rs with
  | [] => [[]]
  | r :: rs' =>
    flat_map (fun n => map (cons n)
                         (seq_matches rs' (prev_after prev s n) (skipn n s)))
             (matches r prev s)
  end.

(** The pieces of [s] of the lengths [ns], in turn. *)
Fixpoint pieces (ns : list nat) (s : jsstring) : list jsstring :=
  match ns with
  | [] => []
  | n :: ns' => firstn n s :: pieces ns' (skipn n s)
  end.

(** [s.match(r)] for a pattern without the [g] flag: the parts of the first
    match, [None] for [null]. *)
Fixpoint exec_from (rs : list regex) (prev : option char) (s : jsstring)
  : option (list jsstring) :=
  match hd_error (seq_matches rs prev s) with
  | Some ns => Some (pieces ns s)
  | None => match s with
            | [] => None
            | c :: s' => exec_from rs (Some c) s'
            end
  end.

Definition exec (rs : list regex) (s : jsstring) : option (list jsstring) :=
  exec_from rs None s.

End Match.

(* ================================================================== *)
(** * Validator *)
(* ================================================================== *)

Module Validator.
Import JS Num Match.

(** The outcome of a function that may throw an [Error]. *)
Inductive result (A : Type) : Type :=
| Ok (value : A)
| Throw (message : jsstring).
Arguments Ok {A}.
Arguments Throw {A}.

(** The class written [[\w-]] and [[a-zA-Z0-9_-]] *)
Definition is_id_char (c : char) : bool := is_word c || eqc c 45.

(** [!s || s.trim().length === 0] *)
Definition blank (s : option jsstring) : bool :=
  match s with
  | None => true
  | Some [] => true
  | Some v => (List.length (trim v) =? 0)%nat
  end.

(** [/(?:v=|\/)([\w-]{11})/], as its two parts *)
Definition re_video_id : list regex :=
  [Alt (Lit (str "v=")) (Lit (str "/")); Rep 11 (Chr is_id_char)].

(** [validateVideoId] *)
Definition validateVideoId (videoId : option jsstring) : result jsstring :=
  if blank videoId then Throw (str "Video ID cannot be empty")
  else
    match videoId with
    | None => Throw (str "Video ID cannot be empty")
    | Some v =>
      if includes v (str "youtube.com") || includes v (str "youtu.be") then
        match exec re_video_id v with
        | Some [_; group1] => Ok group1
        | _ => Ok v
        end
      else Ok v
    end.

(** [validateChannelId] *)
Definition validateChannelId (channelId : option jsstring) : result jsstring :=
  if blank channelId then Throw (str "Channel ID cannot be empty")
  else
    match channelId with
    | None => Throw (str "Channel ID cannot be empty")
    | Some v => Ok v
    end.

(** [Math.min(a, b)] *)
Definition min (a b : float) : float :=
  if is_nan a || is_nan b then nan
  else if PrimFloat.ltb a b then a
  else if PrimFloat.ltb b a then b
  else if is_neg_zero a then a else b.

(** [validateMaxResults] *)
Definition validateMaxResults (maxResults : option float) (defaultValue limit : float)
  : float :=
  let value := match maxResults with Some v => v | None => defaultValue end in
  min (Num.max 1 value) limit.

Definition https : regex := Seq (Lit (str "http")) (Seq (Opt (Lit (str "s"))) (Lit (str "://"))).

(** The three patterns of [validateVideoUrl] *)
Definition url_patterns : list regex :=
  [ (* /^https?:\/\/(www\.)?youtube\.com\/watch\?v=[\w-]+/ *)
    Seq Bol (Seq https (Seq (Opt (Lit (str "www.")))
      (Seq (Lit (str "youtube.com/watch?v=")) (Plus (Chr is_id_char)))));
    (* /^https?:\/\/youtu\.be\/[\w-]+/ *)
    Seq Bol (Seq https (Seq (Lit (str "youtu.be/")) (Plus (Chr is_id_char))));
    (* /^[\w-]+$/ *)
    Seq Bol (Seq (Plus (Chr is_id_char)) Eol) ].

(** [validateVideoUrl] *)
Definition validateVideoUrl (url : jsstring) : bool :=
  existsb (fun pattern => test pattern url) url_patterns.

(** [sanitizeVideoId]: [/[^a-zA-Z0-9_-]/g] replaced by the empty string *)
Definition sanitizeVideoId (videoId : jsstring) : jsstring :=
  replace videoId (Chr (fun c => negb (is_id_char c))) (fun _ => []).

(** [/^[a-z]{2}(?:-[A-Z]{2})?$|^auto$|^auto-en$|^ja-auto$/] *)
Definition validLangPattern : regex :=
  Alts [ Seq Bol (Seq (Rep 2 (Chr is_lower))
                   (Seq (Opt (Seq (Chr (eqc 45)) (Rep 2 (Chr is_upper)))) Eol));
         Seq Bol (Seq (Lit (str "auto")) Eol);
         Seq Bol (Seq (Lit (str "auto-en")) Eol);
         Seq Bol (Seq (Lit (str "ja-auto")) Eol) ].

(** [validateLanguageCode] *)
Definition validateLanguageCode (lang : jsstring) : bool :=
  test validLangPattern lang.

(** [validateSubtitleFormat] *)
Definition validateSubtitleFormat (format : jsstring) : bool :=
  existsb (eqs format) [str "srt"; str "vtt"; str "json"; str "best"].

End Validator.

(* ================================================================== *)
(** * SubtitleHandler: the calls of yt-dlp *)
(* ================================================================== *)

Module YtDlp.
Import JS Match Validator.

Record Attempt : Type := mkAttempt {
  option : jsstring;
  desc : jsstring
}.

(** [attempts] in [getTranscriptViaYtDlp] *)
Definition transcriptAttempts (lang : jsstring) : list Attempt :=
  if eqs lang (str "auto") || eqs lang (str "ja") then
    [ mkAttempt (str "--write-auto-sub --sub-lang ja") (str "Japanese auto-generated");
      mkAttempt (str "--write-sub --sub-lang ja") (str "Japanese manual");
      mkAttempt (str "--write-auto-sub --sub-lang en")
                (str "English auto-generated as fallback") ]
  else if eqs lang (str "en") then
    [ mkAttempt (str "--write-auto-sub --sub-lang en") (str "English auto-generated");
      mkAttempt (str "--write-sub --sub-lang en") (str "English manual") ]
  else
    [ mkAttempt (str "--write-auto-sub --sub-lang " ++ lang) (lang ++ str " auto-generated");
      mkAttempt (str "--write-sub --sub-lang " ++ lang) (lang ++ str " manual") ].

(** [videoUrl] in [getTranscriptViaYtDlp] *)
Definition watchUrl (videoId : jsstring) : jsstring :=
  str "https://www.youtube.com/watch?v=" ++ videoId.

(** [args] in [getTranscriptViaYtDlp], for an attempt and a format *)
Definition transcriptArgs (attempt : Attempt) (format outputPath videoUrl : jsstring)
  : list jsstring :=
  [str "--skip-download"]
  ++ split (option attempt) (str " ")
  ++ [str "--sub-format"; format; str "-o"; outputPath; videoUrl].

(** The three checks that open [downloadSubtitles] *)
Definition downloadChecks (videoUrl lang format : jsstring) : result unit :=
  if negb (validateVideoUrl videoUrl) then Throw (str "Invalid YouTube URL")
  else if negb (validateLanguageCode lang) then Throw (str "Invalid language code format")
  else if negb (validateSubtitleFormat format) then Throw (str "Invalid subtitle format")
  else Ok tt.

(** [attempts] in [downloadSubtitles] *)
Record DownloadAttempt : Type := mkDownloadAttempt {
  langOption : jsstring;
  description : jsstring
}.

Definition downloadAttempts (lang : jsstring) : list DownloadAttempt :=
  if eqs lang (str "auto") || eqs lang (str "ja") then
    [ mkDownloadAttempt (str "--write-sub --sub-lang ja") (str "Japanese manual subtitles");
      mkDownloadAttempt (str "--write-auto-sub --sub-lang ja") (str "Japanese auto-generated");
      mkDownloadAttempt (str "--write-sub --write-auto-sub --sub-lang ja,en")
                        (str "Japanese or English") ]
  else if eqs lang (str "en") then
    [ mkDownloadAttempt (str "--write-sub --sub-lang en") (str "English manual subtitles");
      mkDownloadAttempt (str "--write-auto-sub --sub-lang en") (str "English auto-generated") ]
  else
    [ mkDownloadAttempt (str "--write-sub --sub-lang " ++ lang)
                        (lang ++ str " manual subtitles");
      mkDownloadAttempt (str "--write-auto-sub --sub-lang " ++ lang)
                        (lang ++ str " auto-generated") ].

(** [formatOption] *)
Definition formatOption (format : jsstring) : jsstring :=
  if eqs format (str "best") then [] else str "--sub-format " ++ format.

Definition userAgent : jsstring :=
  str "Mozilla/5.0 (Windows NT 10.0; Win64; x64) AppleWebKit/537.36 (KHTML, like Gecko) Chrome/131.0.0.0 Safari/537.36".

(** [args] in [downloadSubtitles]; an empty [formatOption] adds nothing. *)
Definition downloadArgs (attempt : DownloadAttempt) (format outputPath videoUrl : jsstring)
  : list jsstring :=
  [str "--skip-download"]
  ++ split (langOption attempt) (str " ")
  ++ (match formatOption format with
      | [] => []
      | c :: o => split (c :: o) (str " ")
      end)
  ++ [ str "--user-agent"; userAgent;
       str "--referer"; str "https://www.youtube.com/";
       str "--add-header"; str "Accept-Language:ja,en;q=0.9";
       str "--extractor-args"; str "youtube:player_client=android,web";
       str "-o"; outputPath; videoUrl ].

(** ** The list of subtitles that yt-dlp prints *)

(** The group [([a-z]{2}(?:-[A-Z]{2})?)] *)
Definition re_code : regex :=
  Seq (Rep 2 (Chr is_lower)) (Opt (Seq (Chr (eqc 45)) (Rep 2 (Chr is_upper)))).

Definition dot (c : char) : bool := negb (is_line_terminator c).

(** The pattern of a line of the list: at the start of the line the group
    [([a-z]{2}(?:-[A-Z]{2})?)], then [\s+], the optional group [(\w+)],
    [\s*] and, in an optional third group, the rest of the line (a dot under
    a star). The groups are the second, the fourth and the sixth part. *)
Definition re_subtitle_line : list regex :=
  [ Bol; re_code; Plus (Chr is_space); Opt (Plus (Chr is_word));
    Star (Chr is_space); Opt (Star (Chr dot)) ].

(** [currentSection]: [''], ['available'] or ['auto'] *)
Inductive Section_ : Type := NoSection | Available | Auto.

Record Subtitle : Type := mkSubtitle {
  code : jsstring;
  name : jsstring
}.

(** The state of the loop of [listAvailableSubtitles]: the section and the
    two arrays. *)
Definition ListState : Type := (Section_ * list Subtitle * list Subtitle)%type.

Definition list_step (st : ListState) (line : jsstring) : ListState :=
  let '(currentSection, available, autoGenerated) := st in
  if includes line (str "Available subtitles") then (Available, available, autoGenerated)
  else if includes line (str "Available automatic captions")
  then (Auto, available, autoGenerated)
  else
    match exec re_subtitle_line line, currentSection with
    | Some [_; group1; _; _; _; group3], Available =>
      let subtitle := mkSubtitle group1 (match group3 with [] => group1 | _ => group3 end) in
      (currentSection, available ++ [subtitle], autoGenerated)
    | Some [_; group1; _; _; _; group3], Auto =>
      let subtitle := mkSubtitle group1 (match group3 with [] => group1 | _ => group3 end) in
      (currentSection, available, autoGenerated ++ [subtitle])
    | _, _ => st
    end.

Record SubtitleList : Type := mkSubtitleList {
  availableSubtitles : list Subtitle;
  autoGeneratedSubtitles : list Subtitle;
  totalLanguages : nat
}.

(** The response of [listAvailableSubtitles] for the output of yt-dlp *)
Definition listAvailableSubtitles (stdout : jsstring) : SubtitleList :=
  let '(_, available, autoGenerated) :=
    fold_left list_step (split stdout (str (String "010" EmptyString)))
              (NoSection, [], []) in
  mkSubtitleList available autoGenerated
                 (List.length available + List.length autoGenerated).

(** [langs.add(x)] on a [Set], kept in insertion order *)
Definition set_add (langs : list jsstring) (x : jsstring) : list jsstring :=
  if existsb (eqs x) langs then langs else langs ++ [x].

(** [/^([a-z]{2}(?:-[A-Z]{2})?)\s+/] *)
Definition re_language_line : list regex := [Bol; re_code; Plus (Chr is_space)].

(** [getAvailableTranscriptLanguages], for the output of yt-dlp; [None]
    when the call fails. *)
Definition getAvailableTranscriptLanguages (stdout : Datatypes.option jsstring)
  : list jsstring :=
  match stdout with
  | None => [str "en"]
  | Some out =>
    fold_left (fun langs line =>
                 match exec re_language_line line with
                 | Some [_; group1; _] => set_add langs group1
                 | _ => langs
                 end)
              (split out (str (String "010" EmptyString))) []
  end.

End YtDlp.

(* ================================================================== *)
(** * CommentHandler: the filters applied to the comments fetched *)
(* ================================================================== *)

Module CommentHandler.
Import JS Num CommentFilter.

(** The own properties of [langPatterns] *)
Definition langPatterns : list (jsstring * regex) :=
  [ (* /[\u3040-\u309F\u30A0-\u30FF\u4E00-\u9FAF]/ *)
    (str "ja", Chr (fun c => in_range 12352 12447 c || in_range 12448 12543 c
                             || in_range 19968 40879 c));
    (* /[\uAC00-\uD7AF]/ *)
    (str "ko", Chr (in_range 44032 55215));
    (* /[\u4E00-\u9FFF]/ *)
    (str "zh", Chr (in_range 19968 40959));
    (* /[\u0600-\u06FF]/ *)
    (str "ar", Chr (in_range 1536 1791));
    (* /[\u0400-\u04FF]/ *)
    (str "ru", Chr (in_range 1024 1279));
    (* /[\u0E00-\u0E7F]/ *)
    (str "th", Chr (in_range 3584 3711));
    (* /^[A-Za-z\s\d\W]+$/ *)
    (str "en", Seq Bol
                 (Seq (Plus (Chr (fun c => is_alpha c || is_space c || is_digit c
                                           || negb (is_word c))))
                      Eol)) ].

(** The properties that an object literal inherits from [Object.prototype];
    each is a function or an object, which has no [test] method. *)
Definition inherited : list jsstring :=
  [ str "constructor"; str "hasOwnProperty"; str "isPrototypeOf";
    str "propertyIsEnumerable"; str "toLocaleString"; str "toString"; str "valueOf";
    str "__proto__"; str "__defineGetter__"; str "__defineSetter__";
    str "__lookupGetter__"; str "__lookupSetter__" ].

Fixpoint own (lang : jsstring) (patterns : list (jsstring * regex)) : option regex :=
  match patterns with
  | [] => None
  | (k, r) :: rest => if eqs lang k then Some r else own lang rest
  end.

(** [String(comment.text)], the argument that [test] converts to a string *)
Definition text_string (comment : Comment) : jsstring :=
  match text comment with
  | Some t => t
  | None => str "undefined"
  end.

(** The filter by language of [getComments] and [fetchAllComments]; [None]
    when [langPatterns[lang].test] is not a function and the call throws. *)
Definition filterByLanguage (lang : option jsstring) (comments : list Comment)
  : option (list Comment) :=
  if truthy lang then
    let l := match lang with Some l => l | None => [] end in
    match own l langPatterns with
    | Some pattern => Some (filter (fun comment => test pattern (text_string comment)) comments)
    | None => if existsb (eqs l) inherited then None else Some comments
    end
  else Some comments.

Section Filtering.

Variable toLowerCase : jsstring -> jsstring.
Variable toFixed1 : float -> jsstring.

(** The comment filtering of [getComments]: the comments returned, the
    statistics logged (when filtering is on) and [filteredCount]. *)
Definition applyFiltering (noFilter : bool) (comments : list Comment)
  (videoAuthorChannelId : option jsstring)
  : list Comment * option FilterStats * Z :=
  let filterOptions := mkOptions (Some (negb noFilter)) None None None in
  let originalCount := Z.of_nat (List.length comments) in
  if negb noFilter then
    let comments' :=
      fst (filterComments toLowerCase comments filterOptions videoAuthorChannelId) in
    let filterStats :=
      getFilterStats toLowerCase toFixed1 comments' filterOptions videoAuthorChannelId in
    (comments', Some filterStats, originalCount - Z.of_nat (List.length comments'))
  else (comments, None, 0).

End Filtering.

(** ** [fetchAllComments] *)

Definition maxPages : Z := 10.

(** The answer of [commentThreads.list] as the loop uses it: the comments
    that the callback of [map] builds from [response.data.items] ([None]
    when the field is missing) and [response.data.nextPageToken]. *)
Record Page : Type := mkPage {
  items : option (list Comment);
  nextPageToken : option jsstring
}.

(** What is thrown inside the [try] block, as the [catch] clause reads it:
    whether [error.code === 403], and [error.message]. *)
Record Thrown : Type := mkThrown {
  is403 : bool;
  thrown_message : jsstring
}.

(** The state in which the loop ends: [allComments] and [pageCount], or what
    was thrown. *)
Inductive Collected : Type :=
| Collected_ok (allComments : list Comment) (pageCount : Z)
| Collected_thrown (e : Thrown).

(** The object that [fetchAllComments] answers with, the error response, or
    the error that it throws. *)
Record AllComments : Type := mkAllComments {
  all_videoId : jsstring;
  all_totalResults : nat;
  all_fetchedCount : nat;
  all_sortBy : jsstring;
  all_language : jsstring;
  all_filtering : jsstring;
  all_filteredCount : Z;
  all_pagesProcessed : Z;
  all_comments : list Comment;
  all_message : jsstring
}.

Inductive Answer : Type :=
| Json (result : AllComments)
| ErrorResponse (message : jsstring)
| Throws (message : jsstring).

Section FetchAll.

Variable toLowerCase : jsstring -> jsstring.
Variable numberToString : float -> jsstring.

(** The request [commentThreads.list(params)], by the page token of the
    parameters ([None] when none is set): a page, or what the call or the
    callback of [map] throws. *)
Variable list_threads : option jsstring -> Page + Thrown.

(** The message of the [TypeError] of a call of what is no function. *)
Variable notFunction : jsstring.

(** The channel of the uploader, [undefined] when the request for it failed
    or found no video. *)
Variable videoAuthorChannelId : option jsstring.

(** The [do ... while] loop; each unit of fuel is one turn. *)
Fixpoint collect (fuel : nat) (lang : option jsstring) (allComments : list Comment)
  (pageToken : option jsstring) (pageCount : Z) : option Collected :=
  match fuel with
  | O => None
  | S fuel' =>
    let pageCount := pageCount + 1 in
    match list_threads (if truthy pageToken then pageToken else None) with
    | inr e => Some (Collected_thrown e)
    | inl response =>
      match items response with
      | None | Some [] => Some (Collected_ok allComments pageCount)
      | Some comments =>
        match filterByLanguage lang comments with
        | None => Some (Collected_thrown (mkThrown false notFunction))
        | Some filteredComments =>
          let allComments := allComments ++ filteredComments in
          let pageToken := nextPageToken response in
          if maxPages <=? pageCount then Some (Collected_ok allComments pageCount)
          else if truthy pageToken
               then collect fuel' lang allComments pageToken pageCount
               else Some (Collected_ok allComments pageCount)
        end
      end
    end
  end.

(** The [catch] clause *)
Definition caught (e : Thrown) : Answer :=
  if is403 e then
    if includes (thrown_message e) (str "commentsDisabled")
    then ErrorResponse (str "Comments are disabled for this video")
    else Throws (str "YouTube API quota exceeded or API key invalid")
  else Throws (str "Failed to fetch all comments: " ++ thrown_message e).

(** [fetchAllComments]; [None] when the fuel does not reach the end of the
    loop. *)
Definition fetchAllComments (fuel : nat) (videoId sortBy : jsstring)
  (lang : option jsstring) (noFilter : bool) : option Answer :=
  match collect fuel lang [] None 0 with
  | None => None
  | Some (Collected_thrown e) => Some (caught e)
  | Some (Collected_ok allComments pageCount) =>
    let finalComments :=
      if negb noFilter
      then fst (filterComments toLowerCase allComments
                  (mkOptions (Some true) None None None) videoAuthorChannelId)
      else allComments in
    let filteredCount :=
      if negb noFilter
      then Z.of_nat (List.length allComments) - Z.of_nat (List.length finalComments)
      else 0 in
    Some (Json (mkAllComments
                  videoId
                  (List.length finalComments)
                  (List.length finalComments)
                  sortBy
                  (if truthy lang then match lang with Some l => l | None => [] end
                   else str "all")
                  (if negb noFilter then str "enabled" else str "disabled")
                  filteredCount
                  pageCount
                  finalComments
                  (if maxPages <=? pageCount
                   then str "Fetched " ++ numberToString (of_nat (List.length finalComments))
                        ++ str " comments (limited to " ++ numberToString (of_Z maxPages)
                        ++ str " pages to prevent quota exhaustion)"
                   else str "Fetched all "
                        ++ numberToString (of_nat (List.length finalComments))
                        ++ str " comments from " ++ numberToString (of_Z pageCount)
                        ++ str " pages")))
  end.

End FetchAll.

End CommentHandler.
(* ================================================================== *)
(** * Properties *)
(* ================================================================== *)

Import JS Num.

(** ** Auxiliary facts on strings *)

Lemma eqc_refl (c : char) : eqc c c = true.
Proof. apply Z.eqb_refl. Qed.

Lemma eqc_eq (a b : char) : eqc a b = true <-> a = b.
Proof. apply Z.eqb_eq. Qed.

Lemma eqs_eq (a b : jsstring) : eqs a b = true <-> a = b.
Proof.
  revert b; induction a as [|x a IH]; intros [|y b]; simpl; split; try easy.
  - rewrite andb_true_iff, eqc_eq, IH. now intros [-> ->].
  - intros [= -> ->]. now rewrite eqc_refl, (proj2 (IH b)).
Qed.

Lemma eqs_refl (a : jsstring) : eqs a a = true.
Proof. now apply eqs_eq. Qed.

Lemma eqs_neq (a b : jsstring) : eqs a b = false -> a <> b.
Proof. intros H ->. now rewrite eqs_refl in H. Qed.

(** ** Instances of the conversions of the language, for the examples *)

Definition asciiToLowerCase (s : jsstring) : jsstring := map ascii_lower s.

(** The rendering of the number 0 by [toFixed(1)], the only number that the
    examples format. *)
Definition toFixed1_zero (x : float) : jsstring := str "0.0".

Definition newline : string := String "010" EmptyString.

(** ** The duplicate collapser (C1, C3) *)

(** The collapser is the part of the two parser loops that offers the joined
    text of a cue to [createSegmentIfValid] with the text of the last accepted
    segment: [push_cue] on every cue in turn. A cue is its text and its two
    times. *)
Definition collapse (numberToString : float -> jsstring)
  (cues : list (jsstring * float * float)) : list Subtitle.Segment :=
  rev (fst (fold_left
              (fun st cue =>
                 let '(t, startTime, endTime) := cue in
                 Subtitle.push_cue numberToString [t] startTime endTime st)
              cues ([], []))).

Definition valid_duration (startTime endTime : float) : Prop :=
  PrimFloat.ltb 0.1 (Num.max 0 (endTime - startTime)%float) = true.

Definition hello_srt : jsstring :=
  str ("1" ++ newline ++ "00:00:01,000 --> 00:00:03,000" ++ newline ++ "hello" ++ newline
       ++ newline
       ++ "2" ++ newline ++ "00:00:03,000 --> 00:00:05,000" ++ newline ++ "hello world" ++ newline
       ++ newline
       ++ "3" ++ newline ++ "00:00:05,000 --> 00:00:07,000" ++ newline ++ "hello world today"
       ++ newline).

(** C1, as stated, fails: on three cues "hello", "hello world" and
    "hello world today" of two seconds each, the SRT parser returns the one
    segment "hello", not "hello world today"; so does the collapser on the
    three cues. *)
Lemma C1_progressive_keeps_last_fails :
  option_map (map Subtitle.text) (Subtitle.parseSrtToSegments integerToString hello_srt)
    = Some [str "hello"]
  /\ map Subtitle.text
        (collapse integerToString
           [(str "hello", 1, 3); (str "hello world", 3, 5);
            (str "hello world today", 5, 7)]%float)
      <> [str "hello world today"].
Proof.
  split; [vm_compute; reflexivity|].
  vm_compute. discriminate.
Qed.

(** C1, amended: for three consecutive cues "hello", "hello world" and
    "hello world today", each of a duration above 0.1 s, the output of the
    collapser is the single segment "hello": the first cue is accepted and
    each later one, which begins with the accepted text and a space, is
    dropped. *)
Theorem C1_progressive_keeps_first :
  forall numberToString s1 e1 s2 e2 s3 e3,
    valid_duration s1 e1 -> valid_duration s2 e2 -> valid_duration s3 e3 ->
    map Subtitle.text
        (collapse numberToString
           [(str "hello", s1, e1); (str "hello world", s2, e2);
            (str "hello world today", s3, e3)])
    = [str "hello"].
Proof.
  intros nts s1 e1 s2 e2 s3 e3 H1 _ _.
  unfold collapse, valid_duration in *. cbn [fold_left].
  unfold Subtitle.push_cue, Subtitle.createSegmentIfValid. cbv zeta.
  rewrite H1. vm_compute. reflexivity.
Qed.

Lemma C1_progressive_keeps_first_witness :
  valid_duration 1 3 /\ valid_duration 3 5 /\ valid_duration 5 7
  /\ map Subtitle.text
        (collapse integerToString
           [(str "hello", 1, 3); (str "hello world", 3, 5);
            (str "hello world today", 5, 7)]%float)
      = [str "hello"].
Proof.
  assert (H1 : valid_duration 1 3) by (vm_compute; reflexivity).
  assert (H2 : valid_duration 3 5) by (vm_compute; reflexivity).
  assert (H3 : valid_duration 5 7) by (vm_compute; reflexivity).
  split; [exact H1|]. split; [exact H2|]. split; [exact H3|].
  exact (C1_progressive_keeps_first integerToString 1 3 3 5 5 7 H1 H2 H3).
Defined.

Definition konnichiwa_srt : jsstring :=
  str ("1" ++ newline ++ "00:00:01,000 --> 00:00:03,000" ++ newline ++ "こんにちは" ++ newline
       ++ newline
       ++ "2" ++ newline ++ "00:00:03,500 --> 00:00:06,000" ++ newline ++ "こんにちは世界"
       ++ newline).

(** The parser does not return the one segment of C3 on the two cues. *)
Lemma C3_two_cues_not_one_segment :
  option_map (map Subtitle.text)
             (Subtitle.parseSrtToSegments integerToString konnichiwa_srt)
  <> Some [str "こんにちは世界"].
Proof.
  vm_compute. discriminate.
Qed.

(** C3 fails on the code: the two cues yield two segments, "こんにちは"
    from 1 s for 2 s and "こんにちは世界" from 3.5 s for 2.5 s, where the
    documentation of the cleaning names the removal of this very pair and
    the comment of [createSegmentIfValid] speaks of a text that contains
    the previous one. The test is [text.startsWith(lastText + ' ')]: the
    second text does not begin with the first followed by a space, as no
    text written without spaces does, so the first cue is kept. *)
Theorem C3_two_cues_two_segments :
  forall numberToString,
    Subtitle.parseSrtToSegments numberToString konnichiwa_srt
    = Some [ Subtitle.mkSegment (str "こんにちは") 1 2
               (Subtitle.formatDuration numberToString 1);
             Subtitle.mkSegment (str "こんにちは世界") 3.5 2.5
               (Subtitle.formatDuration numberToString 3) ].
Proof.
  intros nts. vm_compute. reflexivity.
Qed.

(** ** The budget of the samples (C5) *)

(** C5 fails on the code by a slip of the [summary] branch: with
    [maxSegments = 1] the conclusion count is [Math.floor(0.7) = 0], and
    [segments.slice(-0)] is the whole array instead of no segment. On two
    segments the sample has three elements, the first one twice. *)
Theorem C5_summary_exceeds_budget_at_one :
  forall (A : Type) (numberToString : float -> jsstring) (a b : A),
    let r := Subtitle.processTranscript numberToString [a; b] 1 (str "summary") in
    Subtitle.summaryConclusion 1 = 0%float
    /\ Subtitle.summary_conclusion [a; b] 1 = [a; b]
    /\ Subtitle.segments r = [a; a; b]
    /\ Subtitle.isTruncated r = true
    /\ (1 < List.length (Subtitle.segments r))%nat.
Proof.
  intros A nts a b. vm_compute. repeat split; lia.
Qed.

(** ** The comment classifier (C6, C7) *)

Section CommentFacts.
Variable toLowerCase : jsstring -> jsstring.
Variable toFixed1 : float -> jsstring.

Lemma shouldFilterComment_disabled comment options videoAuthorChannelId :
  CommentFilter.enableFiltering options = Some false ->
  CommentFilter.shouldFilterComment toLowerCase comment options videoAuthorChannelId = false.
Proof.
  intros H. unfold CommentFilter.shouldFilterComment. now rewrite H.
Qed.

Lemma filter_none {A : Type} (f : A -> bool) (l : list A) :
  (forall x, f x = false) -> filter f l = [].
Proof.
  intros H. induction l as [|x l IH]; simpl; [easy|]. now rewrite H.
Qed.

End CommentFacts.

Definition first_comment (channel : option jsstring) : CommentFilter.Comment :=
  CommentFilter.mkComment (str "c1") (Some (str "First!")) channel None.

Definition default_options : CommentFilter.CommentFilterOptions :=
  CommentFilter.mkOptions None None None None.

(** C6, as stated, fails: the exemption is guarded by the truth value of
    [videoAuthorChannelId], so a comment whose channel id equals an empty
    [videoAuthorChannelId] is classified on its text; "First!" is filtered.
    (So is a comment without channel id when no id was found for the
    video.) *)
Lemma C6_empty_author_id_not_exempt :
  CommentFilter.authorChannelId (first_comment (Some [])) = Some []
  /\ CommentFilter.shouldFilterComment asciiToLowerCase
       (first_comment (Some [])) default_options (Some []) = true
  /\ CommentFilter.shouldFilterComment asciiToLowerCase
       (first_comment None) default_options None = true.
Proof.
  vm_compute. auto.
Qed.

(** C6, amended: for every comment whose [authorChannelId] equals a
    non-empty [videoAuthorChannelId] passed to the classifier,
    [shouldFilterComment] returns false, whatever the text and the
    options. *)
Theorem C6_author_exempt :
  forall toLowerCase comment options (videoAuthorChannelId : jsstring),
    videoAuthorChannelId <> [] ->
    CommentFilter.authorChannelId comment = Some videoAuthorChannelId ->
    CommentFilter.shouldFilterComment toLowerCase comment options
      (Some videoAuthorChannelId) = false.
Proof.
  intros lower comment options vid Hne Heq.
  unfold CommentFilter.shouldFilterComment.
  destruct (CommentFilter.is_false _); [reflexivity|].
  rewrite Heq. simpl CommentFilter.strict_eq. rewrite eqs_refl.
  destruct vid as [|c vid]; [contradiction|]. reflexivity.
Qed.

Lemma C6_author_exempt_witness :
  str "UC123" <> []
  /\ CommentFilter.shouldFilterComment asciiToLowerCase
       (first_comment (Some (str "UC123"))) default_options (Some (str "UC123")) = false.
Proof.
  assert (H : str "UC123" <> []) by (vm_compute; discriminate).
  split; [exact H|].
  exact (C6_author_exempt asciiToLowerCase (first_comment (Some (str "UC123")))
           default_options (str "UC123") H eq_refl).
Defined.

(** C7: with [enableFiltering] false, [filterComments] returns its argument
    and leaves every comment of it, replies included, as it was;
    [shouldFilterComment] is false on every comment; [getFilterStats] counts
    no filtered comment. *)
Theorem C7_disable_bypass :
  forall toLowerCase toFixed1 comments options videoAuthorChannelId,
    CommentFilter.enableFiltering options = Some false ->
    CommentFilter.filterComments toLowerCase comments options videoAuthorChannelId
      = (comments, comments)
    /\ (forall comment,
          CommentFilter.shouldFilterComment toLowerCase comment options
            videoAuthorChannelId = false)
    /\ CommentFilter.filtered
         (CommentFilter.getFilterStats toLowerCase toFixed1 comments options
            videoAuthorChannelId) = 0%nat
    /\ CommentFilter.kept
         (CommentFilter.getFilterStats toLowerCase toFixed1 comments options
            videoAuthorChannelId) = List.length comments.
Proof.
  intros lower fixed comments options vid H.
  assert (Hall : forall c, CommentFilter.shouldFilterComment lower c options vid = false)
    by (intros c; now apply shouldFilterComment_disabled).
  split; [|split; [exact Hall|]].
  - unfold CommentFilter.filterComments. now rewrite H.
  - unfold CommentFilter.getFilterStats. cbn [CommentFilter.filtered CommentFilter.kept].
    rewrite (filter_none _ comments Hall). simpl. split; [reflexivity|lia].
Qed.

Definition spam_thread : list CommentFilter.Comment :=
  [ CommentFilter.mkComment (str "c1") (Some (str "First!")) (Some (str "UC1"))
      (Some [ CommentFilter.mkComment (str "r1") (Some (str "asdf asdf asdf asdf asdf"))
                (Some (str "UC2")) None ]);
    CommentFilter.mkComment (str "c2") (Some (str "check out my channel"))
      (Some (str "UC3")) (Some []) ].

Definition disabled_options : CommentFilter.CommentFilterOptions :=
  CommentFilter.mkOptions (Some false) None None None.

Lemma C7_disable_bypass_witness :
  CommentFilter.filterComments asciiToLowerCase spam_thread disabled_options None
    = (spam_thread, spam_thread)
  /\ CommentFilter.filtered
       (CommentFilter.getFilterStats asciiToLowerCase toFixed1_zero spam_thread
          disabled_options None) = 0%nat.
Proof.
  destruct (C7_disable_bypass asciiToLowerCase toFixed1_zero spam_thread
              disabled_options None eq_refl) as (H1 & _ & H3 & _).
  split; [exact H1 | exact H3].
Defined.


(** ** Facts on numbers *)

Section FloatFacts.

Ltac zfold :=
  change IntDef.Z.add with Z.add in *;
  change IntDef.Z.sub with Z.sub in *;
  change IntDef.Z.leb with Z.leb in *;
  change IntDef.Z.eqb with Z.eqb in *;
  change IntDef.Z.max with Z.max in *.

Lemma digits2_pos_iter_xO (p k : positive) :
  digits2_pos (Pos.iter xO p k) = (digits2_pos p + k)%positive.
Proof.
  induction k as [|k IH] using Pos.peano_ind.
  - simpl. now rewrite Pos.add_1_r.
  - rewrite Pos.iter_succ. simpl. rewrite IH. lia.
Qed.

Lemma Zpos_iter_xO (p k : positive) :
  Zpos (Pos.iter xO p k) = Zpos p * 2 ^ Zpos k.
Proof.
  induction k as [|k IH] using Pos.peano_ind.
  - simpl. lia.
  - rewrite Pos.iter_succ, Pos2Z.inj_succ, Z.pow_succ_r by lia.
    rewrite Pos2Z.inj_xO, IH. lia.
Qed.

Lemma digits2_pos_size (p : positive) : digits2_pos p = Pos.size p.
Proof.
  induction p as [p IH|p IH|]; cbn [digits2_pos Pos.size];
    [rewrite IH|rewrite IH|]; reflexivity.
Qed.

Lemma digits2_pos_bound (p : positive) :
  Zpos p < 2 ^ 53 -> Zpos (digits2_pos p) <= 53.
Proof.
  intros H.
  rewrite digits2_pos_size.
  pose proof (Pos.size_le p) as Hle.
  destruct (Z.le_gt_cases (Zpos (Pos.size p)) 53) as [|Hgt]; [assumption|exfalso].
  assert (2 ^ 54 <= 2 ^ Zpos (Pos.size p)) by (apply Z.pow_le_mono_r; lia).
  assert (Zpos (2 ^ Pos.size p) <= Zpos p~0) by (apply Pos2Z.pos_le_pos; exact Hle).
  rewrite Pos2Z.inj_pow in *. change (Zpos p~0) with (2 * Zpos p) in *.
  change (2^54) with (2 * 2^53) in *. lia.
Qed.

(** A positive integer below [2^53] is a number, exactly. *)
Lemma binary_normalize_exact (p : positive) :
  Zpos p < 2 ^ 53 ->
  exists m e,
    binary_normalize 53 1024 (Zpos p) 0 false = S754_finite false m e
    /\ valid_binary (S754_finite false m e) = true
    /\ e <= 0 /\ Zpos m = Zpos p * 2 ^ (- e).
Proof.
  intros H. pose proof (digits2_pos_bound p H) as Hd.
  set (d := digits2_pos p) in *.
  assert (Hshape : exists m e, shl_align p 0 (Zpos d - 53) = (m, e)
                     /\ e = Zpos d - 53 /\ digits2_pos m = 53%positive
                     /\ Zpos m = Zpos p * 2 ^ (- e)).
  { unfold shl_align. zfold. destruct (Zpos d - 53 - 0) as [|q|q] eqn:E; try lia.
    - exists p, 0. repeat split; try (fold d); lia.
    - exists (Pos.iter xO p q), (Zpos d - 53). repeat split.
      + rewrite digits2_pos_iter_xO. fold d. lia.
      + rewrite Zpos_iter_xO. f_equal. f_equal. lia. }
  destruct Hshape as (m & e & Hal & He & Hdm & Hm).
  exists m, e.
  assert (Hf : fexp 53 1024 (Zpos (digits2_pos m) + e) = e).
  { rewrite Hdm. unfold fexp, SpecFloat.emin. zfold. lia. }
  repeat split; try lia; try assumption.
  - unfold binary_normalize, binary_round.
    zfold.
    replace (fexp 53 1024 (Zpos (digits2_pos p) + 0)) with (Zpos d - 53)
      by (unfold fexp, SpecFloat.emin; zfold; fold d; lia).
    rewrite Hal. unfold binary_round_aux, shr_fexp.
    cbn [Zdigits2 shr_record_of_loc]. zfold. rewrite Hf, Z.sub_diag.
    cbn [shr shr_m loc_of_shr_record round_nearest_even Zdigits2 shr_record_of_loc].
    zfold. rewrite Hf, Z.sub_diag. cbn [shr shr_m]. zfold.
    destruct (Z.leb_spec e (1024 - 53)); [reflexivity|lia].
  - unfold SpecFloat.valid_binary, bounded, canonical_mantissa, prec, emax. zfold.
    rewrite Hf, Z.eqb_refl. cbn [andb]. apply Z.leb_le. lia.
Qed.

Lemma Prim2SF_of_Z (z : Z) :
  0 < z < 2 ^ 53 ->
  exists m e, Prim2SF (of_Z z) = S754_finite false m e
              /\ e <= 0 /\ Zpos m = z * 2 ^ (- e).
Proof.
  intros [H0 H]. destruct z as [|p|p]; try lia.
  destruct (binary_normalize_exact p H) as (m & e & Hn & Hv & He & Hm).
  exists m, e. split; [|split; assumption].
  unfold of_Z, of_dyadic. rewrite Hn. now apply Prim2SF_SF2Prim.
Qed.

Lemma Prim2SF_zero : Prim2SF 0 = S754_zero false.
Proof. vm_compute. reflexivity. Qed.

Lemma sub_zero_finite (x : float) m e :
  Prim2SF x = S754_finite false m e -> (x - 0)%float = x.
Proof.
  intros H. apply Prim2SF_inj. rewrite sub_spec, Prim2SF_zero, H. reflexivity.
Qed.

Lemma max_finite_zero (x : float) m e :
  Prim2SF x = S754_finite false m e -> Num.max x 0 = x.
Proof.
  intros H. unfold Num.max, is_nan.
  rewrite !eqb_spec, !ltb_spec, Prim2SF_zero, H.
  unfold SFeqb, SFltb, SFcompare.
  rewrite Z.compare_refl, Pos.compare_cont_refl. reflexivity.
Qed.

Lemma leb_finite_zero (x : float) m e :
  Prim2SF x = S754_finite false m e -> PrimFloat.leb x 0 = false.
Proof.
  intros H. rewrite leb_spec, Prim2SF_zero, H. reflexivity.
Qed.

Lemma toIntegerOrInfinity_of_Z (z : Z) :
  0 <= z < 2 ^ 53 -> toIntegerOrInfinity (of_Z z) = z.
Proof.
  intros [H0 H]. destruct (Z.eq_dec z 0) as [->|Hz]; [vm_compute; reflexivity|].
  destruct (Prim2SF_of_Z z) as (m & e & Hp & He & Hm); [lia|].
  unfold toIntegerOrInfinity. rewrite Hp.
  destruct (Z.leb_spec 0 e).
  - assert (e = 0) as -> by lia. rewrite Hm. simpl. lia.
  - rewrite Hm. apply Z.quot_mul. apply Z.pow_nonzero; lia.
Qed.

(** [a.slice(a.length)] is empty. *)
Lemma slice_from_length {A : Type} (a : list A) :
  Subtitle.slice a (Z.of_nat (List.length a)) None = [].
Proof.
  unfold Subtitle.slice.
  destruct (Z.ltb_spec (Z.of_nat (List.length a)) 0); [lia|].
  rewrite Z.min_id, Z.sub_diag. reflexivity.
Qed.

(** With [maxSegments = 0] the conclusion of the [smart] branch starts at the
    length of the array. *)
Lemma conclusion_zero {A : Type} (segs : list A) :
  Z.of_nat (List.length segs) < 2 ^ 53 -> Subtitle.conclusion segs 0 = [].
Proof.
  intros H. unfold Subtitle.conclusion, Subtitle.conclusionStart.
  replace (Subtitle.conclusionCount 0) with 0%float by (vm_compute; reflexivity).
  replace (Subtitle.introCount 0) with 0%float by (vm_compute; reflexivity).
  unfold Subtitle.len, of_nat.
  destruct segs as [|a segs]; [vm_compute; reflexivity|].
  destruct (Prim2SF_of_Z (Z.of_nat (List.length (a :: segs)))) as (m & e & Hp & _);
    [simpl List.length in *; lia|].
  rewrite (sub_zero_finite _ m e Hp), (max_finite_zero _ m e Hp).
  rewrite toIntegerOrInfinity_of_Z by (simpl List.length in *; lia).
  apply slice_from_length.
Qed.

Lemma nonempty_above_zero {A : Type} (segs : list A) :
  segs <> [] -> Z.of_nat (List.length segs) < 2 ^ 53 ->
  PrimFloat.leb (Subtitle.len segs) 0 = false.
Proof.
  intros Hne H. unfold Subtitle.len, of_nat.
  destruct (Prim2SF_of_Z (Z.of_nat (List.length segs))) as (m & e & Hp & _).
  { destruct segs; [contradiction|]. simpl List.length in *. lia. }
  exact (leb_finite_zero _ m e Hp).
Qed.

End FloatFacts.

(** ** Zero and negative budgets (C9) *)

(** C9, as stated, fails: with two segments and [maxSegments = -5] the
    [smart] branch is taken, the intro count is [-1], and
    [segments.slice(0, -1)] is the array without its last element: the intro
    is not empty. *)
Lemma C9_negative_budget_intro_not_empty :
  PrimFloat.leb (Subtitle.len [1; 2]) (-5) = false
  /\ Subtitle.introCount (-5) = (-1)%float
  /\ Subtitle.intro [1; 2] (-5) <> []
  /\ Subtitle.segments
       (Subtitle.processTranscript integerToString [1; 2] (-5) (str "smart")) = [1].
Proof.
  vm_compute. repeat split; discriminate.
Qed.

(** C9, amended: with [maxSegments = 0] the [smart] branch yields an empty
    intro, no middle sample and an empty conclusion, so an empty sample of
    a non-empty array, and the [summary] branch an empty intro and no middle
    sample; and for every [maxSegments] that the length of the array
    exceeds, zero and negative ones included, [processTranscript] returns a
    result with [isTruncated] true: no slice and no index is undefined. (The
    array has less than [2^53] elements, as every array has.) *)
Theorem C9_zero_budget :
  forall (A : Type) numberToString (segs : list A),
    Z.of_nat (List.length segs) < 2 ^ 53 ->
    (Subtitle.intro segs 0 = []
     /\ Subtitle.middleSegments segs 0 = []
     /\ Subtitle.conclusion segs 0 = [])
    /\ (Subtitle.summary_intro segs 0 = [] /\ Subtitle.summary_middle segs 0 = [])
    /\ (segs <> [] ->
        Subtitle.segments
          (Subtitle.processTranscript numberToString segs 0 (str "smart")) = []
        /\ Subtitle.isTruncated
             (Subtitle.processTranscript numberToString segs 0 (str "smart")) = true)
    /\ (forall maxSegments mode,
          PrimFloat.leb (Subtitle.len segs) maxSegments = false ->
          Subtitle.isTruncated
            (Subtitle.processTranscript numberToString segs maxSegments mode) = true).
Proof.
  intros A nts segs Hlen.
  assert (Hi : Subtitle.intro segs 0 = []).
  { unfold Subtitle.intro.
    replace (toIntegerOrInfinity (Subtitle.introCount 0)) with 0 by (vm_compute; reflexivity).
    unfold Subtitle.slice.
    replace (0 <? 0) with false by reflexivity.
    rewrite Z.min_l by lia. reflexivity. }
  assert (Hm : Subtitle.middleSegments segs 0 = []).
  { unfold Subtitle.middleSegments.
    replace (PrimFloat.ltb 0 (Subtitle.middleCount 0)) with false by (vm_compute; reflexivity).
    reflexivity. }
  assert (Hc : Subtitle.conclusion segs 0 = []) by now apply conclusion_zero.
  split; [now repeat split|]. split; [split|split].
  - unfold Subtitle.summary_intro.
    replace (toIntegerOrInfinity (Subtitle.summaryIntro 0)) with 0 by (vm_compute; reflexivity).
    unfold Subtitle.slice.
    replace (0 <? 0) with false by reflexivity.
    rewrite Z.min_l by lia. reflexivity.
  - unfold Subtitle.summary_middle.
    replace (PrimFloat.ltb 0 (Subtitle.summaryMiddle 0)) with false by (vm_compute; reflexivity).
    reflexivity.
  - intros Hne. unfold Subtitle.processTranscript.
    rewrite (nonempty_above_zero segs Hne Hlen).
    replace (eqs (str "smart") (str "full")) with false by (vm_compute; reflexivity).
    replace (eqs (str "smart") (str "smart")) with true by (vm_compute; reflexivity).
    unfold Subtitle.smart_result. cbn [Subtitle.segments Subtitle.isTruncated].
    rewrite Hi, Hm, Hc. split; reflexivity.
  - intros B mode HB. unfold Subtitle.processTranscript. rewrite HB.
    destruct (eqs mode (str "full")); [reflexivity|].
    destruct (eqs mode (str "smart")); [reflexivity|].
    destruct (eqs mode (str "summary")); reflexivity.
Qed.

Lemma C9_zero_budget_witness :
  Z.of_nat (List.length [1; 2; 3]) < 2 ^ 53
  /\ Subtitle.segments
       (Subtitle.processTranscript integerToString [1; 2; 3] 0 (str "smart")) = []
  /\ Subtitle.isTruncated
       (Subtitle.processTranscript integerToString [1; 2; 3] (-5) (str "summary")) = true.
Proof.
  assert (H : Z.of_nat (List.length [1; 2; 3]) < 2 ^ 53) by (vm_compute; reflexivity).
  destruct (C9_zero_budget Z integerToString [1; 2; 3] H) as (_ & _ & H1 & H2).
  split; [exact H|]. split.
  - apply H1. discriminate.
  - apply H2. vm_compute. reflexivity.
Defined.

(** ** The segments of the parsers (C10) *)

Section SegmentInvariant.
Variable numberToString : float -> jsstring.

(** A line of a segment: the cleaned form of a line of the track, of more
    than two code units. *)
Definition cleaned_line (l : jsstring) : Prop :=
  (2 < List.length l)%nat /\ exists raw, l = Subtitle.cleanSubtitleText raw.

(** A segment as the parsers emit it: its duration exceeds 0.1 and its text
    joins at least one cleaned line. *)
Definition emitted (seg : Subtitle.Segment) : Prop :=
  PrimFloat.ltb 0.1 (Subtitle.duration seg) = true
  /\ exists textLines,
       textLines <> []
       /\ Forall cleaned_line textLines
       /\ Subtitle.text seg = join (str " ") textLines.

Lemma createSegmentIfValid_emitted textLines startTime endTime lastText seg :
  textLines <> [] -> Forall cleaned_line textLines ->
  Subtitle.createSegmentIfValid numberToString (join (str " ") textLines)
    startTime endTime lastText = Some seg ->
  emitted seg.
Proof.
  intros Hne Hall. unfold Subtitle.createSegmentIfValid.
  destruct (_ && _ && PrimFloat.ltb _ _) eqn:E; [|discriminate].
  intros [= <-]. apply andb_true_iff in E as [_ E].
  split; [exact E|]. exists textLines. now repeat split.
Qed.

Lemma push_cue_emitted textLines startTime endTime st :
  Forall cleaned_line textLines -> Forall emitted (fst st) ->
  Forall emitted (fst (Subtitle.push_cue numberToString textLines startTime endTime st)).
Proof.
  intros Hall Hst. destruct st as [segs last]. unfold Subtitle.push_cue.
  destruct textLines as [|l ls]; [exact Hst|].
  destruct (Subtitle.createSegmentIfValid _ _ _ _ _) as [seg|] eqn:E; [|exact Hst].
  cbn [fst]. constructor; [|exact Hst].
  eapply createSegmentIfValid_emitted; [|exact Hall|exact E]. discriminate.
Qed.


Lemma srt_text_lines_spec lines : forall acc,
  Forall cleaned_line acc ->
  Forall cleaned_line (fst (Subtitle.srt_text_lines acc lines))
  /\ (List.length (snd (Subtitle.srt_text_lines acc lines)) <= List.length lines)%nat.
Proof.
  induction lines as [|l rest IH]; intros acc Hacc;
    cbn [Subtitle.srt_text_lines Subtitle.vtt_text_lines fst snd List.length].
  - split; [|lia]. now apply Forall_rev.
  - destruct (_ && _).
    + destruct (Subtitle.isValidSegmentText (Subtitle.cleanSubtitleText l)) eqn:E.
      * destruct (IH (Subtitle.cleanSubtitleText l :: acc)) as [H1 H2].
        { constructor; [|exact Hacc]. split; [|now eexists].
          unfold Subtitle.isValidSegmentText in E. now apply Nat.ltb_lt in E. }
        split; [exact H1|lia].
      * destruct (IH acc Hacc) as [H1 H2]. split; [exact H1|lia].
    + cbn [fst snd List.length]. split; [now apply Forall_rev|lia].
Qed.

Lemma vtt_text_lines_spec lines : forall acc,
  Forall cleaned_line acc ->
  Forall cleaned_line (fst (Subtitle.vtt_text_lines acc lines))
  /\ (List.length (snd (Subtitle.vtt_text_lines acc lines)) <= List.length lines)%nat.
Proof.
  induction lines as [|l rest IH]; intros acc Hacc;
    cbn [Subtitle.srt_text_lines Subtitle.vtt_text_lines fst snd List.length].
  - split; [|lia]. now apply Forall_rev.
  - destruct (_ && _).
    + destruct (Subtitle.isValidSegmentText (Subtitle.cleanSubtitleText l)) eqn:E.
      * destruct (IH (Subtitle.cleanSubtitleText l :: acc)) as [H1 H2].
        { constructor; [|exact Hacc]. split; [|now eexists].
          unfold Subtitle.isValidSegmentText in E. now apply Nat.ltb_lt in E. }
        split; [exact H1|lia].
      * destruct (IH acc Hacc) as [H1 H2]. split; [exact H1|lia].
    + cbn [fst snd List.length]. split; [now apply Forall_rev|lia].
Qed.

Lemma skipVttNoteBlock_length lines :
  (List.length (Subtitle.skipVttNoteBlock lines) <= List.length lines)%nat.
Proof.
  induction lines as [|l rest IH]; cbn [Subtitle.skipVttNoteBlock List.length]; [lia|].
  destruct (_ && _); cbn [List.length]; lia.
Qed.

(** The loops end within their fuel, on segments that are all [emitted]. *)
Lemma srt_loop_spec : forall fuel lines st,
  (List.length lines < fuel)%nat -> Forall emitted (fst st) ->
  exists segs, Subtitle.srt_loop numberToString fuel lines st = Some segs
               /\ Forall emitted segs.
Proof.
  induction fuel as [|fuel IH]; intros lines st Hlen Hst; [lia|].
  destruct lines as [|l rest]; cbn [Subtitle.srt_loop Subtitle.vtt_loop].
  - eexists; split; [reflexivity|]. now apply Forall_rev.
  - cbn [List.length] in Hlen.
    assert (Hrest : exists segs,
               Subtitle.srt_loop numberToString fuel rest st = Some segs
               /\ Forall emitted segs) by (apply IH; [lia|exact Hst]).
    destruct (eqs (trim l) []); [exact Hrest|].
    destruct (test Subtitle.re_number (trim l)); [|exact Hrest].
    destruct rest as [|l2 rest2]; [exact Hrest|].
    destruct (includes l2 Subtitle.arrow); [|exact Hrest].
    destruct (split l2 Subtitle.arrow) as [|t0 [|t1 [|t2 ts]]]; try exact Hrest.
    destruct (srt_text_lines_spec rest2 [] (Forall_nil _)) as [H1 H2].
    destruct (Subtitle.srt_text_lines [] rest2) as [textLines rest3].
    cbn [fst snd] in H1, H2.
    apply IH; [cbn [List.length] in Hlen; lia|]. now apply push_cue_emitted.
Qed.

Lemma vtt_loop_spec : forall fuel lines st,
  (List.length lines < fuel)%nat -> Forall emitted (fst st) ->
  exists segs, Subtitle.vtt_loop numberToString fuel lines st = Some segs
               /\ Forall emitted segs.
Proof.
  induction fuel as [|fuel IH]; intros lines st Hlen Hst; [lia|].
  destruct lines as [|l rest]; cbn [Subtitle.srt_loop Subtitle.vtt_loop].
  - eexists; split; [reflexivity|]. now apply Forall_rev.
  - cbn [List.length] in Hlen.
    assert (Hrest : exists segs,
               Subtitle.vtt_loop numberToString fuel rest st = Some segs
               /\ Forall emitted segs) by (apply IH; [lia|exact Hst]).
    destruct (Subtitle.shouldSkipVttLine l); [exact Hrest|].
    destruct (eqs (trim l) (str "NOTE")).
    { apply IH; [|exact Hst]. pose proof (skipVttNoteBlock_length rest). lia. }
    destruct (includes l Subtitle.arrow); [|exact Hrest].
    destruct (split _ Subtitle.arrow) as [|t0 [|t1 [|t2 ts]]]; try exact Hrest.
    destruct (vtt_text_lines_spec rest [] (Forall_nil _)) as [H1 H2].
    destruct (Subtitle.vtt_text_lines [] rest) as [textLines rest2].
    cbn [fst snd] in H1, H2.
    apply IH; [lia|]. now apply push_cue_emitted.
Qed.

(** Both parsers return, on every content. *)
Lemma parseSrtToSegments_emitted content :
  exists segs, Subtitle.parseSrtToSegments numberToString content = Some segs
               /\ Forall emitted segs.
Proof.
  unfold Subtitle.parseSrtToSegments. apply srt_loop_spec; [lia|constructor].
Qed.

Lemma parseVttToSegments_emitted content :
  exists segs, Subtitle.parseVttToSegments numberToString content = Some segs
               /\ Forall emitted segs.
Proof.
  unfold Subtitle.parseVttToSegments. apply vtt_loop_spec; [lia|constructor].
Qed.



End SegmentInvariant.



(** ** The full text of a transcript (C4) *)

Definition long_item : Subtitle.TranscriptItem :=
  Subtitle.mkItem (repeat 97 (Z.to_nat 50001)) 0 1000.

(** C4, as stated, fails on the cap: a joined text of 50001 code units is
    returned neither whole nor cut to 50000 code units, but as 50003 code
    units, the first 50000 followed by three dots. *)
Lemma C4_capped_fullText_is_longer :
  let r := Subtitle.getTranscript integerToString [long_item] (str "en") (str "full") 5000 in
  let joined :=
    join (str " ") (map Subtitle.text (Subtitle.transcript integerToString [long_item])) in
  Subtitle.res_fullText r <> joined
  /\ Subtitle.res_fullText r <> substring0 joined (Z.to_nat 50000)
  /\ Z.of_nat (List.length (Subtitle.res_fullText r)) = 50003.
Proof.
  split; [|split].
  - apply eqs_neq. vm_compute. reflexivity.
  - apply eqs_neq. vm_compute. reflexivity.
  - vm_compute. reflexivity.
Qed.

Lemma transcript_texts numberToString data :
  map Subtitle.text (Subtitle.transcript numberToString data)
  = map Subtitle.item_text data.
Proof.
  unfold Subtitle.transcript. rewrite map_map. reflexivity.
Qed.

(** C4, amended: in a transcript result [fullText] is made of the texts of
    all the segments before sampling, joined by spaces, whatever the mode
    and [maxSegments]: it is that text when it has at most 50000 code units,
    and its first 50000 code units followed by "..." otherwise. The
    segments are those of the items fetched ([getTranscript]) or those that
    the parser emits ([getTranscriptViaYtDlp]), so every piece of [fullText]
    is the text of a segment. *)
Theorem C4_fullText_joins_all_segments :
  forall numberToString,
    (forall data lang mode maxSegments,
        let r := Subtitle.getTranscript numberToString data lang mode maxSegments in
        let all := Subtitle.transcript numberToString data in
        Subtitle.res_fullText r
        = Subtitle.capFullText (join (str " ") (map Subtitle.text all))
        /\ Subtitle.res_segments r
           = Subtitle.segments
               (Subtitle.processTranscript numberToString all maxSegments mode))
    /\ (forall subtitleFile content lang mode maxSegments,
           exists all r,
             (if Subtitle.endsWith subtitleFile (str ".vtt")
              then Subtitle.parseVttToSegments numberToString content
              else Subtitle.parseSrtToSegments numberToString content) = Some all
             /\ Subtitle.getTranscriptViaYtDlp numberToString subtitleFile content
                  lang mode maxSegments = Some r
             /\ Subtitle.res_fullText r
                = Subtitle.capFullText (join (str " ") (map Subtitle.text all))
             /\ Subtitle.res_segments r
                = Subtitle.segments
                    (Subtitle.processTranscript numberToString all maxSegments mode))
    /\ (forall fullText,
           Subtitle.capFullText fullText
           = if 50000 <? Z.of_nat (List.length fullText)
             then firstn (Z.to_nat 50000) fullText ++ str "..."
             else fullText).
Proof.
  intros nts. split; [|split].
  - intros data lang mode B. cbv zeta. rewrite transcript_texts. split; reflexivity.
  - intros file content lang mode B. unfold Subtitle.getTranscriptViaYtDlp.
    destruct (Subtitle.endsWith file (str ".vtt")).
    + destruct (parseVttToSegments_emitted nts content) as (segs & -> & _).
      eexists; eexists; repeat split; reflexivity.
    + destruct (parseSrtToSegments_emitted nts content) as (segs & -> & _).
      eexists; eexists; repeat split; reflexivity.
  - intros fullText. reflexivity.
Qed.

(** ** The repeated-token rule (C8) *)

Section Threshold.

(** The rounded product lies between the two multiples of [2^k] around the
    exact one, [k] being the number of bits dropped. *)
Lemma round53_bounds (n : Z) :
  0 <= n ->
  let k := Z.max 0 (Z.log2 n - 52) in
  (n / 2 ^ k) * 2 ^ k <= round53 n <= (n / 2 ^ k + 1) * 2 ^ k.
Proof.
  intros Hn k. unfold round53. subst k.
  destruct (Z.leb_spec (Z.log2 n - 52) 0) as [Hk|Hk].
  - rewrite Z.max_l by lia. simpl (2 ^ 0). rewrite Z.div_1_r. lia.
  - rewrite Z.max_r by lia. set (k := Z.log2 n - 52) in *.
    rewrite Z.shiftr_div_pow2 by lia.
    assert (0 < 2 ^ k) by (apply Z.pow_pos_nonneg; lia).
    destruct (_ || _); rewrite Z.shiftl_mul_pow2 by lia; lia.
Qed.

Lemma gt_times_0_4_spec (count n : Z) :
  0 <= count <= n -> n < 2 ^ 32 ->
  gt_times_0_4 count n = true <-> 2 * n < 5 * count.
Proof.
  intros Hc Hn. unfold gt_times_0_4. rewrite Z.ltb_lt.
  set (M := 7205759403792794).
  assert (HM : 5 * M = 2 ^ 55 + 2) by reflexivity.
  assert (H0 : 0 <= n * M) by (unfold M; lia).
  pose proof (round53_bounds (n * M) H0) as Hb. cbv zeta in Hb.
  set (k := Z.max 0 (Z.log2 (n * M) - 52)) in *.
  assert (Hk : 0 <= k <= 32).
  { subst k. split; [lia|]. apply Z.max_lub; [lia|].
    destruct (Z.eq_dec n 0) as [->|Hz]; [simpl; lia|].
    assert (Z.log2 (n * M) < 85); [|lia].
    apply Z.log2_lt_pow2; [unfold M; lia|].
    change (2 ^ 85) with (2 ^ 32 * 2 ^ 53). unfold M. nia. }
  assert (Hp : 0 < 2 ^ k) by (apply Z.pow_pos_nonneg; lia).
  assert (Hp32 : 2 ^ k <= 2 ^ 32) by (apply Z.pow_le_mono_r; lia).
  pose proof (Z.mul_div_le (n * M) (2 ^ k) Hp) as Hlo.
  pose proof (Z.mul_succ_div_gt (n * M) (2 ^ k) Hp) as Hhi.
  change (2 ^ 32) with 4294967296 in *. change (2 ^ 54) with 18014398509481984.
  change (2 ^ 55) with 36028797018963968 in *.
  split.
  - intros Hr. destruct (Z.lt_ge_cases (2 * n) (5 * count)) as [|Hge]; [assumption|exfalso].
    (* the exact product is at least [count * 2^54], a multiple of [2^k] *)
    assert (HC : count * 18014398509481984 = (count * 2 ^ (54 - k)) * 2 ^ k).
    { rewrite <- Z.mul_assoc, <- Z.pow_add_r by lia.
      replace (54 - k + k) with 54 by lia. reflexivity. }
    assert (Hq : count * 2 ^ (54 - k) <= n * M / 2 ^ k).
    { apply Z.div_le_lower_bound; [lia|]. rewrite Z.mul_comm, <- HC. lia. }
    nia.
  - intros Hlt. lia.
Qed.

End Threshold.

(** On the products met in practice the integer rendering of the comparison
    agrees with the primitive binary64 operations. *)
Lemma gt_times_0_4_agrees :
  forallb (fun n =>
             forallb (fun c =>
                        Bool.eqb (gt_times_0_4 (Z.of_nat c) (Z.of_nat n))
                                 (PrimFloat.ltb (of_nat n * 0.4)%float (of_nat c)))
                     (seq 0 (S n)))
          (seq 0 120) = true.
Proof. vm_compute. reflexivity. Qed.

Section WordCounts.
Import CommentFilter.

Definition string_eq_dec : forall a b : jsstring, {a = b} + {a <> b} :=
  list_eq_dec Z.eq_dec.

(** The number of times a token occurs. *)
Definition occurrences (tokens : list jsstring) (t : jsstring) : Z :=
  Z.of_nat (count_occ string_eq_dec tokens t).

Lemma occurrences_snoc tokens w t :
  occurrences (tokens ++ [w]) t
  = occurrences tokens t + (if string_eq_dec w t then 1 else 0).
Proof.
  unfold occurrences. rewrite count_occ_app. simpl.
  destruct (string_eq_dec w t); lia.
Qed.

Lemma occurrences_pos tokens t : In t tokens -> 0 < occurrences tokens t.
Proof.
  intros H. unfold occurrences.
  apply (count_occ_In string_eq_dec) in H. lia.
Qed.

Lemma occurrences_zero tokens t : ~ In t tokens -> occurrences tokens t = 0.
Proof.
  intros H. unfold occurrences.
  apply (count_occ_not_In string_eq_dec) in H. lia.
Qed.

Lemma occurrences_bound tokens t :
  0 <= occurrences tokens t <= Z.of_nat (List.length tokens).
Proof.
  unfold occurrences. pose proof (count_occ_bound string_eq_dec t tokens). lia.
Qed.

Lemma eqs_false (a b : jsstring) : a <> b -> eqs a b = false.
Proof.
  intros H. destruct (eqs a b) eqn:E; [|reflexivity].
  now apply eqs_eq in E.
Qed.

Lemma map_get_in m k v :
  NoDup (map fst m) -> In (k, v) m -> map_get m k = Some v.
Proof.
  induction m as [|[k0 v0] m IH]; intros Hnd Hin; [contradiction|].
  inversion Hnd as [|? ? Hk0 Hnd']; subst. simpl.
  destruct Hin as [[= -> ->]|Hin].
  - now rewrite eqs_refl.
  - rewrite eqs_false; [now apply IH|].
    intros ->. apply Hk0. now apply (in_map fst) in Hin.
Qed.

Lemma map_get_absent m k :
  (forall v, ~ In (k, v) m) -> map_get m k = None.
Proof.
  induction m as [|[k0 v0] m IH]; intros H; [reflexivity|]. simpl.
  destruct (eqs k k0) eqn:E.
  - apply eqs_eq in E as ->. exfalso. apply (H v0). now left.
  - apply IH. intros v Hin. apply (H v). now right.
Qed.

Lemma keys_map_set m k x k' :
  In k' (map fst (map_set m k x)) -> k' = k \/ In k' (map fst m).
Proof.
  induction m as [|[k0 v0] m IH]; simpl.
  - intros [<-|[]]. now left.
  - destruct (eqs k k0); simpl; intros [<-|H]; auto.
    destruct (IH H); auto.
Qed.

Lemma nodup_map_set m k x :
  NoDup (map fst m) -> NoDup (map fst (map_set m k x)).
Proof.
  induction m as [|[k0 v0] m IH]; intros Hnd; simpl.
  - constructor; [easy|constructor].
  - inversion Hnd as [|? ? Hk0 Hnd']; subst.
    destruct (eqs k k0) eqn:E; simpl; [exact Hnd|].
    constructor; [|now apply IH].
    intros Hin. apply keys_map_set in Hin as [->|Hin]; [|contradiction].
    now rewrite eqs_refl in E.
Qed.

Lemma in_map_set m k x k' v' :
  NoDup (map fst m) ->
  In (k', v') (map_set m k x) <-> (k' = k /\ v' = x) \/ (k' <> k /\ In (k', v') m).
Proof.
  induction m as [|[k0 v0] m IH]; intros Hnd; simpl.
  - split.
    + intros [[= <- <-]|[]]. now left.
    + intros [[-> ->]|[_ []]]. now left.
  - inversion Hnd as [|? ? Hk0 Hnd']; subst.
    destruct (eqs k k0) eqn:E; simpl.
    + apply eqs_eq in E as ->. split.
      * intros [[= <- <-]|Hin]; [now left|right].
        split; [|now right]. intros ->. apply Hk0. now apply (in_map fst) in Hin.
      * intros [[-> ->]|[Hne [[= <- <-]|Hin]]]; [now left|contradiction|now right].
    + rewrite (IH Hnd'). split.
      * intros [[= <- <-]|[H|[Hne Hin]]]; [|now left|right; split; auto].
        right. split; [|now left]. intros ->. now rewrite eqs_refl in E.
      * intros [H|[Hne [H|Hin]]]; [right; now left|now left|right; right; auto].
Qed.

(** The map after the words [done]: one pair for each word of more than two
    code units, with the number of its occurrences. *)
Definition counts_ok (m : list (jsstring * Z)) (done : list jsstring) : Prop :=
  NoDup (map fst m)
  /\ forall k v, In (k, v) m
                <-> In k done /\ (2 < List.length k)%nat /\ v = occurrences done k.

Definition count_step (wordCounts : list (jsstring * Z)) (word : jsstring) :=
  if (2 <? List.length word)%nat
  then map_set wordCounts word (get_or_0 wordCounts word + 1)
  else wordCounts.

Lemma get_or_0_counts m done w :
  counts_ok m done -> (2 < List.length w)%nat -> get_or_0 m w = occurrences done w.
Proof.
  intros [Hnd Hm] Hw. unfold get_or_0.
  destruct (in_dec string_eq_dec w done) as [Hin|Hout].
  - rewrite (map_get_in m w (occurrences done w) Hnd) by (apply Hm; auto).
    pose proof (occurrences_pos done w Hin).
    destruct (Z.eqb_spec (occurrences done w) 0); lia.
  - rewrite map_get_absent; [now rewrite occurrences_zero|].
    intros v Hv. apply Hm in Hv. tauto.
Qed.

Lemma count_step_ok m done w :
  counts_ok m done -> counts_ok (count_step m w) (done ++ [w]).
Proof.
  intros Hok. pose proof Hok as [Hnd Hm]. unfold count_step.
  destruct (Nat.ltb_spec 2 (List.length w)) as [Hw|Hw].
  - split; [now apply nodup_map_set|]. intros k v.
    rewrite (in_map_set m w _ k v Hnd), (get_or_0_counts m done w Hok Hw).
    rewrite occurrences_snoc, in_app_iff, Hm. simpl.
    destruct (string_eq_dec w k) as [->|Hne]; split.
    + intros [[_ ->]|[Hk _]]; [|contradiction]. auto.
    + intros (_ & _ & ->). now left.
    + intros [[-> _]|(_ & H1 & H2 & ->)]; [contradiction|]. repeat split; auto. lia.
    + intros ([H1|[->|[]]] & H2 & ->); [|contradiction].
      right. repeat split; auto. lia.
  - split; [exact Hnd|]. intros k v.
    rewrite Hm, occurrences_snoc, in_app_iff. simpl.
    destruct (string_eq_dec w k) as [->|Hne]; split.
    + intros (_ & H & _). lia.
    + intros (_ & H & _). lia.
    + intros (H1 & H2 & ->). repeat split; auto. lia.
    + intros ([H1|[->|[]]] & H2 & ->); [|contradiction]. repeat split; auto. lia.
Qed.

Lemma fold_count_ok words : forall m done,
  counts_ok m done ->
  counts_ok (fold_left count_step words m) (done ++ words).
Proof.
  induction words as [|w words IH]; intros m done Hok; simpl.
  - now rewrite app_nil_r.
  - replace (done ++ w :: words) with ((done ++ [w]) ++ words)
      by (now rewrite <- app_assoc).
    apply IH. now apply count_step_ok.
Qed.

Lemma count_words_ok words : counts_ok (count_words words) words.
Proof.
  apply (fold_count_ok words [] []). split; [constructor|].
  intros k v. simpl. tauto.
Qed.

End WordCounts.

(** The rule in the words of the specification: the comment has five tokens
    or more, and some token of more than two code units makes up more than
    40% of the tokens. *)
Definition repeated_token_rule (tokens : list jsstring) : Prop :=
  (5 <= List.length tokens)%nat
  /\ exists t, In t tokens /\ (2 < List.length t)%nat
               /\ 2 * Z.of_nat (List.length tokens) < 5 * occurrences tokens t.

(** The tokens of a text: its lower-cased form split on white space. *)
Definition tokens_of (toLowerCase : jsstring -> jsstring) (text : jsstring)
  : list jsstring :=
  split_re (toLowerCase text) (Plus CommentFilter.ws).

Lemma isRepeatedText_rule toLowerCase text :
  Z.of_nat (List.length (tokens_of toLowerCase text)) < 2 ^ 32 ->
  CommentFilter.isRepeatedText toLowerCase text = true
  <-> repeated_token_rule (tokens_of toLowerCase text).
Proof.
  intros Hlen. unfold CommentFilter.isRepeatedText, repeated_token_rule.
  fold (tokens_of toLowerCase text). set (tokens := tokens_of toLowerCase text) in *.
  destruct (Nat.ltb_spec (List.length tokens) 5) as [Hshort|Hlong].
  - split; [discriminate|]. intros [H _]. lia.
  - destruct (count_words_ok tokens) as [_ Hm].
    rewrite existsb_exists. split.
    + intros ([k v] & Hin & Hgt). apply Hm in Hin as (Hk & Hl & ->).
      split; [exact Hlong|]. exists k. repeat split; try assumption.
      simpl in Hgt. apply gt_times_0_4_spec in Hgt; [exact Hgt| |exact Hlen].
      apply occurrences_bound.
    + intros (_ & t & Ht & Hl & Hgt).
      exists (t, occurrences tokens t). split; [apply Hm; auto|].
      simpl. apply gt_times_0_4_spec; [apply occurrences_bound|exact Hlen|exact Hgt].
Qed.

Definition asdf_text : jsstring := str "asdf asdf asdf asdf asdf".

(** C8: when filtering is on, the comment is not the uploader's, spam removal
    is on and no spam pattern matches, the spam check flags the comment
    exactly when its text, lower-cased and split on white space, has five
    tokens or more and some token of more than two code units makes up more
    than 40% of them; a comment so flagged is filtered, and when the noise
    and the bot checks are off no other comment is. (The tokens are fewer
    than [2^32], as the elements of every array are.) In particular
    "asdf asdf asdf asdf asdf" is filtered. *)
Theorem C8_repeated_token_rule :
  forall toLowerCase,
    (forall comment options videoAuthorChannelId,
        let text := CommentFilter.comment_text comment in
        let tokens := tokens_of toLowerCase text in
        Z.of_nat (List.length tokens) < 2 ^ 32 ->
        CommentFilter.enableFiltering options <> Some false ->
        CommentFilter.truthy videoAuthorChannelId
          && CommentFilter.strict_eq (CommentFilter.authorChannelId comment)
               videoAuthorChannelId = false ->
        CommentFilter.removeSpam options <> Some false ->
        existsb (fun pattern => test pattern text) CommentFilter.SPAM_PATTERNS = false ->
        (CommentFilter.spamCheck toLowerCase text = true <-> repeated_token_rule tokens)
        /\ (repeated_token_rule tokens ->
            CommentFilter.shouldFilterComment toLowerCase comment options
              videoAuthorChannelId = true)
        /\ (CommentFilter.removeNoise options = Some false ->
            CommentFilter.removeUnrelated options = Some false ->
            (CommentFilter.shouldFilterComment toLowerCase comment options
               videoAuthorChannelId = true <-> repeated_token_rule tokens)))
    /\ (toLowerCase asdf_text = asdf_text ->
        forall id author,
          CommentFilter.shouldFilterComment toLowerCase
            (CommentFilter.mkComment id (Some asdf_text) author None)
            default_options None = true).
Proof.
  intros lower. split.
  - intros comment options vid text tokens Hlen Hen Hex Hspam Hpat.
    assert (Hrule : CommentFilter.spamCheck lower text = true <-> repeated_token_rule tokens).
    { unfold CommentFilter.spamCheck. rewrite Hpat. cbn [orb].
      now apply isRepeatedText_rule. }
    assert (Hsf : CommentFilter.shouldFilterComment lower comment options vid
                  = if CommentFilter.spamCheck lower text then true
                    else if negb (CommentFilter.is_false (CommentFilter.removeNoise options))
                            && CommentFilter.noiseCheck text then true
                    else if negb (CommentFilter.is_false
                                    (CommentFilter.removeUnrelated options))
                            && CommentFilter.botCheck text then true
                    else false).
    { unfold CommentFilter.shouldFilterComment.
      replace (CommentFilter.is_false (CommentFilter.enableFiltering options)) with false
        by (destruct (CommentFilter.enableFiltering options) as [[|]|]; try reflexivity;
            now contradiction Hen).
      rewrite Hex.
      replace (CommentFilter.is_false (CommentFilter.removeSpam options)) with false
        by (destruct (CommentFilter.removeSpam options) as [[|]|]; try reflexivity;
            now contradiction Hspam).
      reflexivity. }
    split; [exact Hrule|]. split.
    + intros Hr. rewrite Hsf, (proj2 Hrule Hr). reflexivity.
    + intros Hnoise Hbot. rewrite Hsf, Hnoise, Hbot. cbn [CommentFilter.is_false negb andb].
      rewrite <- Hrule. destruct (CommentFilter.spamCheck lower text); split; auto.
  - intros Hlower id author.
    unfold CommentFilter.shouldFilterComment, CommentFilter.spamCheck,
      CommentFilter.isRepeatedText.
    cbn [CommentFilter.comment_text CommentFilter.text CommentFilter.enableFiltering
         CommentFilter.removeSpam default_options CommentFilter.is_false
         CommentFilter.truthy andb negb].
    rewrite Hlower. vm_compute. reflexivity.
Qed.

Definition asdf_comment : CommentFilter.Comment :=
  CommentFilter.mkComment (str "c1") (Some asdf_text) None None.

Lemma C8_repeated_token_rule_witness :
  repeated_token_rule
    (tokens_of asciiToLowerCase (CommentFilter.comment_text asdf_comment))
  /\ CommentFilter.shouldFilterComment asciiToLowerCase asdf_comment
       default_options None = true.
Proof.
  assert (Hlen : Z.of_nat (List.length (tokens_of asciiToLowerCase
                                          (CommentFilter.comment_text asdf_comment)))
                 < 2 ^ 32) by (vm_compute; reflexivity).
  assert (Hen : CommentFilter.enableFiltering default_options <> Some false)
    by discriminate.
  assert (Hnx : CommentFilter.truthy None
                && CommentFilter.strict_eq
                     (CommentFilter.authorChannelId asdf_comment) None = false)
    by reflexivity.
  assert (Hsp : CommentFilter.removeSpam default_options <> Some false) by discriminate.
  assert (Hpat : existsb (fun pattern =>
                            test pattern (CommentFilter.comment_text asdf_comment))
                         CommentFilter.SPAM_PATTERNS = false)
    by (vm_compute; reflexivity).
  assert (Hlow : asciiToLowerCase asdf_text = asdf_text) by (vm_compute; reflexivity).
  split.
  - apply (proj1 (proj1 (C8_repeated_token_rule asciiToLowerCase) asdf_comment
                    default_options None Hlen Hen Hnx Hsp Hpat)).
    vm_compute. reflexivity.
  - exact (proj2 (C8_repeated_token_rule asciiToLowerCase) Hlow (str "c1") None).
Defined.

(** ** Idempotence of the cleaning (C2) *)

Section Engine.

Lemma reverse_rev {A : Type} (l : list A) : reverse l = rev l.
Proof. unfold reverse. symmetry. apply rev_alt. Qed.

(** Whether a pattern can match the empty string, and whether a code unit
    can start a non-empty match of it. *)
Fixpoint nullable (r : regex) : bool :=
  match r with
  | Eps | Star _ | Bol | Eol | WordB => true
  | Chr _ | Same _ _ => false
  | Seq r1 r2 => nullable r1 && nullable r2
  | Alt r1 r2 => nullable r1 || nullable r2
  end.

Fixpoint first_ok (r : regex) (c : char) : bool :=
  match r with
  | Eps | Bol | Eol | WordB => false
  | Chr p | Same p _ => p c
  | Seq r1 r2 => first_ok r1 c || (nullable r1 && first_ok r2 c)
  | Alt r1 r2 => first_ok r1 c || first_ok r2 c
  | Star r1 => first_ok r1 c
  end.

(** A string that no match of [r] can start: it is empty, or its first code
    unit is not one that starts a match. *)
Definition blocked (r : regex) (s : jsstring) : Prop :=
  match s with
  | [] => True
  | c :: _ => first_ok r c = false
  end.

Lemma matches_blocked (r : regex) : forall prev s,
  blocked r s ->
  (forall n, In n (matches r prev s) -> n = 0%nat)
  /\ (nullable r = false -> matches r prev s = []).
Proof.
  induction r as [|p|r1 IH1 r2 IH2|r1 IH1 r2 IH2|r1 IH1|p k| | |];
    intros prev s Hb; cbn [matches nullable].
  - split; [|discriminate]. intros n [<-|[]]. reflexivity.
  - destruct s as [|c s]; [split; [intros n []|reflexivity]|].
    cbn [blocked first_ok] in Hb. rewrite Hb. split; [intros n []|reflexivity].
  - assert (Hb1 : blocked r1 s).
    { destruct s as [|c s]; [exact I|]. cbn [blocked first_ok] in *.
      now apply orb_false_iff in Hb as [Hb _]. }
    destruct (IH1 prev s Hb1) as [Hz1 Hn1].
    assert (Hz : forall n, In n (flat_map
                 (fun n1 => map (Nat.add n1)
                              (matches r2 (prev_after prev s n1) (skipn n1 s)))
                 (matches r1 prev s)) -> n = 0%nat /\ nullable r1 = true
                                             /\ In 0%nat (matches r2 prev s)).
    { intros n Hin. apply in_flat_map in Hin as (n1 & Hin1 & Hin2).
      pose proof (Hz1 n1 Hin1) as ->. cbn [prev_after skipn] in Hin2.
      apply in_map_iff in Hin2 as (n2 & <- & Hin2).
      destruct (nullable r1) eqn:En.
      - assert (Hb2 : blocked r2 s).
        { destruct s as [|c s]; [exact I|]. cbn [blocked first_ok] in *.
          rewrite En in Hb. apply orb_false_iff in Hb as [_ Hb]. exact Hb. }
        destruct (IH2 prev s Hb2) as [Hz2 _].
        pose proof (Hz2 n2 Hin2) as ->. auto.
      - rewrite (Hn1 eq_refl) in Hin1. contradiction. }
    split.
    + intros n Hin. now destruct (Hz n Hin).
    + intros Hnull.
      destruct (flat_map _ _) as [|n l] eqn:E; [reflexivity|exfalso].
      destruct (Hz n (or_introl eq_refl)) as (_ & Hn & H0).
      rewrite Hn in Hnull. cbn [andb] in Hnull.
      assert (Hb2 : blocked r2 s).
      { destruct s as [|c s]; [exact I|]. cbn [blocked first_ok] in *.
        rewrite Hn in Hb. apply orb_false_iff in Hb as [_ Hb]. exact Hb. }
      destruct (IH2 prev s Hb2) as [_ Hn2]. rewrite (Hn2 Hnull) in H0. contradiction.
  - assert (Hb1 : blocked r1 s /\ blocked r2 s).
    { destruct s as [|c s]; [split; exact I|]. cbn [blocked first_ok] in *.
      now apply orb_false_iff in Hb. }
    destruct Hb1 as [Hb1 Hb2].
    destruct (IH1 prev s Hb1) as [Hz1 Hn1]. destruct (IH2 prev s Hb2) as [Hz2 Hn2].
    split.
    + intros n Hin. apply in_app_iff in Hin as [Hin|Hin]; auto.
    + intros Hnull. apply orb_false_iff in Hnull as [H1 H2].
      now rewrite (Hn1 H1), (Hn2 H2).
  - split; [|discriminate].
    assert (Hb1 : blocked r1 s).
    { destruct s as [|c s]; [exact I|]. exact Hb. }
    destruct (IH1 prev s Hb1) as [Hz1 _].
    destruct (List.length s) as [|fuel]; cbn [star].
    + intros n [<-|[]]. reflexivity.
    + intros n Hin. apply in_app_iff in Hin as [Hin|[<-|[]]]; [|reflexivity].
      apply in_flat_map in Hin as (n1 & Hin1 & Hin2).
      pose proof (Hz1 n1 Hin1) as ->. contradiction.
  - destruct s as [|c s]; [split; [intros n []|reflexivity]|].
    cbn [blocked first_ok] in Hb. rewrite Hb. split; [intros n []|reflexivity].
  - split; [|discriminate]. destruct prev; intros n Hin; [contradiction|].
    destruct Hin as [<-|[]]. reflexivity.
  - split; [|discriminate]. destruct s; intros n Hin; [|contradiction].
    destruct Hin as [<-|[]]. reflexivity.
  - split; [|discriminate]. destruct (xorb _ _); intros n Hin; [|contradiction].
    destruct Hin as [<-|[]]. reflexivity.
Qed.

Lemma first_match_blocked r prev s :
  nullable r = false -> blocked r s -> first_match r prev s = None.
Proof.
  intros Hn Hb. unfold first_match.
  destruct (matches_blocked r prev s Hb) as [_ H]. now rewrite (H Hn).
Qed.

(** A replacement leaves a string unchanged when no suffix of it can start a
    match. *)
Lemma replace_go_blocked r f (P : char -> Prop) :
  nullable r = false ->
  (forall c, P c -> first_ok r c = false) ->
  forall s prev, Forall P s -> replace_go r f 0 prev s = s.
Proof.
  intros Hn Hp. induction s as [|c s IH]; intros prev Hs; cbn [replace_go].
  - now rewrite first_match_blocked.
  - inversion Hs as [|? ? Hc Hs']; subst.
    rewrite first_match_blocked; [|exact Hn|exact (Hp c Hc)].
    now rewrite IH.
Qed.

Lemma replace_blocked r f (P : char -> Prop) s :
  nullable r = false ->
  (forall c, P c -> first_ok r c = false) ->
  Forall P s -> replace s r f = s.
Proof. intros Hn Hp Hs. now apply (replace_go_blocked r f P). Qed.

(** The code units of a replacement are those of the subject and of the
    substitutes. *)
Lemma replace_go_Forall r f (P : char -> Prop) :
  (forall m, Forall P m -> Forall P (f m)) ->
  forall s skip prev, Forall P s -> Forall P (replace_go r f skip prev s).
Proof.
  intros Hf. induction s as [|c s IH]; intros skip prev Hs; cbn [replace_go].
  - destruct skip; [|constructor].
    destruct (first_match r prev []); [apply Hf|]; constructor.
  - inversion Hs as [|? ? Hc Hs']; subst.
    destruct skip as [|k]; [|now apply IH].
    destruct (first_match r prev (c :: s)) as [[|k]|].
    + apply Forall_app. split; [apply Hf; constructor|].
      constructor; [exact Hc|now apply IH].
    + apply Forall_app. split; [|now apply IH].
      apply Hf. rewrite <- (firstn_skipn (S k) (c :: s)) in Hs.
      apply Forall_app in Hs. exact (proj1 Hs).
    + constructor; [exact Hc|now apply IH].
Qed.

(** A pattern that does not look at the code unit before the match. *)
Definition prev_free (r : regex) : Prop :=
  forall p1 p2 s, matches r p1 s = matches r p2 s.

Lemma replace_go_prev r f :
  prev_free r ->
  forall s k p1 p2, replace_go r f k p1 s = replace_go r f k p2 s.
Proof.
  intros Hr s k p1 p2. unfold first_match.
  destruct s as [|c s]; cbn [replace_go]; unfold first_match;
    now rewrite (Hr p1 p2).
Qed.

Lemma replace_go_skip r f :
  prev_free r ->
  forall k s prev, (k <= List.length s)%nat ->
    replace_go r f k prev s = replace_go r f 0 None (skipn k s).
Proof.
  intros Hr. induction k as [|k IH]; intros s prev Hk.
  - cbn [skipn]. now apply replace_go_prev.
  - destruct s as [|c s]; [cbn [List.length] in Hk; lia|].
    cbn [replace_go skipn]. apply IH. cbn [List.length] in Hk. lia.
Qed.

Lemma takeWhile_length p s : (List.length (takeWhile p s) <= List.length s)%nat.
Proof.
  induction s as [|c s IH]; cbn [takeWhile List.length]; [lia|].
  destruct (p c); cbn [List.length]; lia.
Qed.

Lemma skipn_takeWhile p s : skipn (List.length (takeWhile p s)) s = dropWhile p s.
Proof.
  induction s as [|c s IH]; cbn [takeWhile dropWhile]; [reflexivity|].
  destruct (p c); cbn [List.length skipn]; [exact IH|reflexivity].
Qed.

Lemma dropWhile_length p s : (List.length (dropWhile p s) <= List.length s)%nat.
Proof.
  induction s as [|c s IH]; cbn [dropWhile List.length]; [lia|].
  destruct (p c); cbn [List.length]; lia.
Qed.

(** The first match of [(p)\1{n,}] and of [p+]. *)
Lemma first_match_Same p n prev c rest :
  first_match (Same p n) prev (c :: rest)
  = if p c && (n <=? List.length (takeWhile (eqc c) rest))%nat
    then Some (S (List.length (takeWhile (eqc c) rest)))
    else None.
Proof.
  unfold first_match. cbn [matches]. destruct (p c); [|reflexivity].
  cbn [andb]. destruct (n <=? _)%nat; [|reflexivity].
  cbn [seq map hd_error]. now rewrite Nat.sub_0_r.
Qed.

Lemma matches_Seq r1 r2 prev s :
  matches (Seq r1 r2) prev s
  = flat_map (fun n1 => map (Nat.add n1)
                          (matches r2 (prev_after prev s n1) (skipn n1 s)))
             (matches r1 prev s).
Proof. reflexivity. Qed.

Lemma matches_Star r prev s :
  matches (Star r) prev s = star (matches r) (List.length s) prev s.
Proof. reflexivity. Qed.

Lemma matches_Chr p prev s :
  matches (Chr p) prev s
  = match s with
    | c :: _ => if p c then [1%nat] else []
    | [] => []
    end.
Proof. reflexivity. Qed.

Lemma star_Chr_head p : forall fuel prev s,
  (List.length s <= fuel)%nat ->
  exists l, star (matches (Chr p)) fuel prev s = List.length (takeWhile p s) :: l.
Proof.
  induction fuel as [|fuel IH]; intros prev s Hlen.
  - destruct s; [|cbn [List.length] in Hlen; lia]. now exists [].
  - cbn [star]. rewrite matches_Chr. destruct s as [|c s]; cbn [takeWhile].
    + now exists [].
    + destruct (p c); cbn [flat_map app].
      * cbn [List.length] in Hlen.
        destruct (IH (prev_after prev (c :: s) 1) s) as [l Hl]; [lia|].
        cbn [skipn]. rewrite Hl. cbn [map app List.length].
        eexists. reflexivity.
      * now exists [].
Qed.

Lemma first_match_Plus p prev c rest :
  first_match (Plus (Chr p)) prev (c :: rest)
  = if p c then Some (S (List.length (takeWhile p rest))) else None.
Proof.
  unfold first_match, Plus. rewrite matches_Seq, matches_Chr.
  destruct (p c); [|reflexivity].
  cbn [flat_map skipn]. rewrite matches_Star.
  destruct (star_Chr_head p (List.length rest) (prev_after prev (c :: rest) 1) rest)
    as [l Hl]; [lia|].
  rewrite Hl. reflexivity.
Qed.

Lemma star_prev_free step :
  (forall p1 p2 s, step p1 s = step p2 s) ->
  forall fuel p1 p2 s, star step fuel p1 s = star step fuel p2 s.
Proof.
  intros Hs. induction fuel as [|fuel IH]; intros p1 p2 s; cbn [star]; [reflexivity|].
  rewrite (Hs p1 p2). f_equal.
  apply flat_map_ext. intros [|n]; [reflexivity|]. f_equal. apply IH.
Qed.

Lemma prev_free_Plus p : prev_free (Plus (Chr p)).
Proof.
  intros p1 p2 s. unfold Plus. rewrite !matches_Seq, !matches_Chr.
  apply flat_map_ext. intros n. f_equal. rewrite !matches_Star.
  now apply star_prev_free.
Qed.

Lemma prev_free_Same p n : prev_free (Same p n).
Proof. intros p1 p2 s. reflexivity. Qed.

(** The two replacements that rewrite runs, as recursive equations. *)
Lemma replace_Same_cons p n f c rest :
  replace (c :: rest) (Same p n) f
  = if p c && (n <=? List.length (takeWhile (eqc c) rest))%nat
    then f (c :: takeWhile (eqc c) rest) ++ replace (dropWhile (eqc c) rest) (Same p n) f
    else c :: replace rest (Same p n) f.
Proof.
  unfold replace. cbn [replace_go]. rewrite first_match_Same.
  destruct (_ && _) eqn:E.
  - rewrite (replace_go_skip _ _ (prev_free_Same p n)) by apply takeWhile_length.
    rewrite skipn_takeWhile. f_equal. f_equal.
    clear E. cbn [firstn]. f_equal.
    induction rest as [|d rest IH]; cbn [takeWhile]; [reflexivity|].
    destruct (eqc c d); cbn [List.length firstn]; [now rewrite IH|reflexivity].
  - now rewrite (replace_go_prev _ _ (prev_free_Same p n) rest 0%nat (Some c) None).
Qed.

Lemma firstn_takeWhile p s : firstn (List.length (takeWhile p s)) s = takeWhile p s.
Proof.
  induction s as [|d s IH]; cbn [takeWhile]; [reflexivity|].
  destruct (p d); cbn [List.length firstn]; [now rewrite IH|reflexivity].
Qed.

Lemma replace_Plus_cons p f c rest :
  replace (c :: rest) (Plus (Chr p)) f
  = if p c
    then f (c :: takeWhile p rest) ++ replace (dropWhile p rest) (Plus (Chr p)) f
    else c :: replace rest (Plus (Chr p)) f.
Proof.
  unfold replace. cbn [replace_go]. rewrite first_match_Plus.
  destruct (p c) eqn:E.
  - rewrite (replace_go_skip _ _ (prev_free_Plus p)) by apply takeWhile_length.
    rewrite skipn_takeWhile. cbn [firstn]. now rewrite firstn_takeWhile.
  - now rewrite (replace_go_prev _ _ (prev_free_Plus p) rest 0%nat (Some c) None).
Qed.

Lemma star_Chr_bound p : forall fuel prev s n,
  In n (star (matches (Chr p)) fuel prev s) ->
  (n <= List.length (takeWhile p s))%nat.
Proof.
  induction fuel as [|fuel IH]; intros prev s n; cbn [star].
  - intros [<-|[]]. lia.
  - rewrite matches_Chr. intros Hin. apply in_app_iff in Hin as [Hin|[<-|[]]]; [|lia].
    destruct s as [|c s]; [contradiction|]. cbn [takeWhile].
    destruct (p c); [|contradiction]. cbn [flat_map] in Hin.
    rewrite app_nil_r in Hin. apply in_map_iff in Hin as (m & <- & Hm).
    cbn [skipn] in Hm. apply IH in Hm. cbn [List.length]. lia.
Qed.

Lemma Plus_Chr_bound p prev s n :
  In n (matches (Plus (Chr p)) prev s) ->
  (1 <= n <= List.length (takeWhile p s))%nat.
Proof.
  unfold Plus. rewrite matches_Seq, matches_Chr.
  destruct s as [|c s]; [contradiction|]. cbn [takeWhile].
  destruct (p c); [|contradiction]. cbn [flat_map]. rewrite app_nil_r.
  intros Hin. apply in_map_iff in Hin as (m & <- & Hm).
  cbn [skipn] in Hm. rewrite matches_Star in Hm. apply star_Chr_bound in Hm.
  cbn [List.length]. lia.
Qed.

(** An anchored pattern matches at the start of the subject only. *)
Lemma test_from_Bol r c s : test_from (Seq Bol r) (Some c) s = false.
Proof.
  revert c. induction s as [|d s IH]; intros c; cbn [test_from];
    unfold first_match; rewrite matches_Seq; cbn [matches flat_map hd_error];
    [reflexivity|apply IH].
Qed.

Lemma test_Bol r s :
  test (Seq Bol r) s = match matches r None s with [] => false | _ :: _ => true end.
Proof.
  unfold test. destruct s as [|c s]; cbn [test_from]; unfold first_match;
    rewrite matches_Seq; cbn [matches flat_map prev_after skipn];
    rewrite app_nil_r; destruct (matches r None _) as [|n l]; cbn [map hd_error];
    try reflexivity.
  apply test_from_Bol.
Qed.

End Engine.

Section CleaningFacts.
Import Subtitle.

(** The code units on which no step of the cleaning acts but by the collapse
    of repeats and of white space: neither an ampersand, an angle bracket,
    an opening square bracket or parenthesis, a note, nor a half-width
    katakana. *)
Definition plain (c : char) : bool :=
  negb (one_of (str "&<>[(♪") c) && negb (is_halfwidth_kana c).

Definition plain_char (c : char) : Prop :=
  c <> 38 /\ c <> 60 /\ c <> 62 /\ c <> 91 /\ c <> 40 /\ c <> 9834
  /\ is_halfwidth_kana c = false.

Lemma eqc_false (a b : char) : a <> b -> eqc a b = false.
Proof. intros H. now apply Z.eqb_neq. Qed.

Lemma eqc_ci_special (a c : char) :
  is_alpha a = false -> c <> a -> eqc_ci a c = false.
Proof.
  intros Ha Hc. unfold eqc_ci, ascii_lower, is_upper, in_range, eqc.
  unfold is_alpha, is_upper, is_lower, in_range in Ha.
  destruct (Z.leb_spec 65 a), (Z.leb_spec a 90), (Z.leb_spec 97 a), (Z.leb_spec a 122);
    cbn in Ha; try discriminate;
    destruct (Z.leb_spec 65 c), (Z.leb_spec c 90); cbn; apply Z.eqb_neq; lia.
Qed.

Lemma first_ok_Lit x l c : c <> x -> first_ok (Lit (x :: l)) c = false.
Proof.
  intros H. cbn [Lit first_ok nullable andb]. rewrite eqc_false by congruence.
  reflexivity.
Qed.

Lemma first_ok_LitCI x l c :
  is_alpha x = false -> c <> x -> first_ok (LitCI (x :: l)) c = false.
Proof.
  intros Hx H. cbn [LitCI first_ok nullable andb]. now rewrite eqc_ci_special.
Qed.

Lemma first_ok_Seq r1 r2 c :
  nullable r1 = false -> first_ok r1 c = false -> first_ok (Seq r1 r2) c = false.
Proof. intros Hn H. cbn [first_ok]. now rewrite Hn, H. Qed.

Lemma first_ok_Chr x r c : c <> x -> first_ok (Seq (Chr (eqc x)) r) c = false.
Proof.
  intros H. apply first_ok_Seq; [reflexivity|]. cbn [first_ok].
  apply eqc_false. congruence.
Qed.

Lemma decode_entities_plain s : Forall plain_char s -> decode_entities s = s.
Proof.
  intros H. unfold decode_entities, const.
  assert (Hlit : forall l f, replace s (Lit (38 :: l)) f = s).
  { intros l f. apply (replace_blocked _ _ plain_char); [reflexivity| |exact H].
    intros c (Hc & _). now apply first_ok_Lit. }
  change (str "&amp;") with (38 :: str "amp;").
  change (str "&lt;") with (38 :: str "lt;").
  change (str "&gt;") with (38 :: str "gt;").
  change (str "&quot;") with (38 :: str "quot;").
  change (str "&apos;") with (38 :: str "apos;").
  change (str "&nbsp;") with (38 :: str "nbsp;").
  rewrite !Hlit.
  assert (Hent : forall l r f, replace s (Seq (Lit (38 :: l)) r) f = s).
  { intros l r f. apply (replace_blocked _ _ plain_char); [reflexivity| |exact H].
    intros c (Hc & _). apply first_ok_Seq; [reflexivity|now apply first_ok_Lit]. }
  unfold re_dec_entity, re_hex_entity.
  change (str "&#") with (38 :: str "#"). change (str "&#x") with (38 :: str "#x").
  now rewrite !Hent.
Qed.

Lemma strip_tags_plain s : Forall plain_char s -> strip_tags s = s.
Proof.
  intros H. unfold strip_tags, re_timing_tag, re_html_tag.
  rewrite (replace_blocked _ _ plain_char s); [|reflexivity| |exact H].
  - apply (replace_blocked _ _ plain_char); [reflexivity| |exact H].
    intros c (_ & Hc & _). now apply first_ok_Chr.
  - intros c (_ & Hc & _). now apply first_ok_Chr.
Qed.

Lemma notes_plain s : Forall plain_char s -> replace s re_notes del = s.
Proof.
  intros H. apply (replace_blocked _ _ plain_char); [reflexivity| |exact H].
  intros c (_ & _ & _ & _ & _ & Hc & _). now apply first_ok_Chr.
Qed.

Lemma remove_markers_plain s : Forall plain_char s -> remove_markers s = s.
Proof.
  intros H. unfold remove_markers.
  assert (Hall : Forall (fun m => exists x l, m = x :: l /\ (x = 91 \/ x = 40))
                        sound_markers).
  { unfold sound_markers.
    repeat (constructor; [eexists; eexists; split;
                          [vm_compute; reflexivity|auto]|]).
    constructor. }
  induction Hall as [|m ms (x & l & -> & Hx) _ IH]; [reflexivity|].
  cbn [fold_left]. rewrite (replace_blocked _ _ plain_char s); [exact IH|reflexivity| |exact H].
  intros c (_ & _ & _ & H91 & H40 & _).
  apply first_ok_LitCI; destruct Hx as [->| ->]; auto.
Qed.

Lemma speaker_plain s : Forall plain_char s -> replace s re_speaker del = s.
Proof.
  intros H. unfold re_speaker. change (str ">>") with (62 :: str ">").
  apply (replace_blocked _ _ plain_char); [reflexivity| |exact H].
  intros c (_ & _ & Hc & _). cbn [first_ok nullable andb orb].
  rewrite first_ok_Lit by assumption. reflexivity.
Qed.

Lemma kana_plain s : Forall plain_char s -> convertHalfWidthToFullWidth s = s.
Proof.
  intros H. unfold convertHalfWidthToFullWidth.
  apply (replace_blocked _ _ plain_char); [reflexivity| |exact H].
  intros c (_ & _ & _ & _ & _ & _ & Hc). exact Hc.
Qed.

(** *** Repeats *)

Definition not_terminator (c : char) : bool := negb (is_line_terminator c).

Definition collapse_repeats (s : jsstring) : jsstring := replace s re_repeat (firstn 1).


Lemma collapse_repeats_cons c rest :
  collapse_repeats (c :: rest)
  = c :: collapse_repeats (if not_terminator c
                      && (3 <=? List.length (takeWhile (eqc c) rest))%nat
                   then dropWhile (eqc c) rest else rest).
Proof.
  unfold collapse_repeats, re_repeat. rewrite replace_Same_cons.
  fold not_terminator. destruct (_ && _); reflexivity.
Qed.

(** No code unit other than a line terminator is followed by three copies
    of itself. *)
Fixpoint norun (s : jsstring) : Prop :=
  match s with
  | [] => True
  | c :: rest =>
    (not_terminator c = true -> (List.length (takeWhile (eqc c) rest) < 3)%nat)
    /\ norun rest
  end.

Lemma takeWhile_dropWhile_nil c s : takeWhile (eqc c) (dropWhile (eqc c) s) = [].
Proof.
  induction s as [|d s IH]; cbn [dropWhile]; [reflexivity|].
  destruct (eqc c d) eqn:E; [exact IH|]. cbn [takeWhile]. now rewrite E.
Qed.

Lemma takeWhile_collapse_repeats : forall n s c,
  (List.length s <= n)%nat ->
  (List.length (takeWhile (eqc c) (collapse_repeats s))
   <= List.length (takeWhile (eqc c) s))%nat.
Proof.
  induction n as [|n IH]; intros s c Hn.
  - destruct s; [cbn; lia|cbn [List.length] in Hn; lia].
  - destruct s as [|d s]; [cbn; lia|]. cbn [List.length] in Hn.
    rewrite collapse_repeats_cons. cbn [takeWhile].
    destruct (eqc c d) eqn:E; [|lia]. cbn [List.length].
    apply eqc_eq in E as <-.
    destruct (_ && _).
    + pose proof (IH (dropWhile (eqc c) s) c) as H.
      rewrite takeWhile_dropWhile_nil in H. cbn [List.length] in H.
      pose proof (dropWhile_length (eqc c) s). lia.
    + pose proof (IH s c). lia.
Qed.

Lemma norun_dropWhile p s : norun s -> norun (dropWhile p s).
Proof.
  induction s as [|d s IH]; cbn [dropWhile]; [easy|].
  intros H. destruct (p d); [apply IH; exact (proj2 H)|exact H].
Qed.

Lemma norun_collapse_repeats : forall n s,
  (List.length s <= n)%nat -> norun (collapse_repeats s).
Proof.
  induction n as [|n IH]; intros s Hn.
  - destruct s; [exact I|cbn [List.length] in Hn; lia].
  - destruct s as [|c s]; [exact I|]. cbn [List.length] in Hn.
    rewrite collapse_repeats_cons. cbn [norun].
    destruct (not_terminator c) eqn:Et; cbn [andb].
    + destruct (Nat.leb_spec 3 (List.length (takeWhile (eqc c) s))) as [Hk|Hk].
      * pose proof (dropWhile_length (eqc c) s).
        split; [|apply IH; lia]. intros _.
        pose proof (takeWhile_collapse_repeats n (dropWhile (eqc c) s) c) as H1.
        rewrite takeWhile_dropWhile_nil in H1. cbn [List.length] in H1. lia.
      * split; [|apply IH; lia]. intros _.
        pose proof (takeWhile_collapse_repeats n s c). lia.
    + split; [discriminate|apply IH; lia].
Qed.

Lemma collapse_repeats_fix s : norun s -> collapse_repeats s = s.
Proof.
  induction s as [|c s IH]; [reflexivity|]. intros [Hc Hs].
  rewrite collapse_repeats_cons.
  destruct (not_terminator c); cbn [andb]; [|now rewrite IH].
  destruct (Nat.leb_spec 3 (List.length (takeWhile (eqc c) s))) as [Hk|Hk].
  - specialize (Hc eq_refl). lia.
  - now rewrite IH.
Qed.

(** *** White space *)

Definition wsnorm (s : jsstring) : jsstring := replace s re_spaces (const (str " ")).


Lemma wsnorm_cons c rest :
  wsnorm (c :: rest)
  = if is_space c then 32 :: wsnorm (dropWhile is_space rest) else c :: wsnorm rest.
Proof.
  unfold wsnorm, re_spaces. rewrite replace_Plus_cons.
  destruct (is_space c); reflexivity.
Qed.

Definition starts_nonspace (s : jsstring) : Prop :=
  match s with
  | [] => True
  | d :: _ => is_space d = false
  end.

Lemma dropWhile_starts_nonspace s : starts_nonspace (dropWhile is_space s).
Proof.
  induction s as [|c s IH]; cbn [dropWhile]; [exact I|].
  destruct (is_space c) eqn:E; [exact IH|exact E].
Qed.

Lemma dropWhile_fix s : starts_nonspace s -> dropWhile is_space s = s.
Proof. destruct s as [|c s]; [easy|]. cbn. now intros ->. Qed.

Lemma wsnorm_starts_nonspace s : starts_nonspace s -> starts_nonspace (wsnorm s).
Proof.
  destruct s as [|c s]; [easy|]. cbn [starts_nonspace]. intros H.
  rewrite wsnorm_cons, H. exact H.
Qed.

Lemma takeWhile_wsnorm c : is_space c = false ->
  forall n s, (List.length s <= n)%nat ->
    (List.length (takeWhile (eqc c) (wsnorm s))
     <= List.length (takeWhile (eqc c) s))%nat.
Proof.
  intros Hc. induction n as [|n IH]; intros s Hn.
  - destruct s; [cbn; lia|cbn [List.length] in Hn; lia].
  - destruct s as [|d s]; [cbn; lia|]. cbn [List.length] in Hn.
    rewrite wsnorm_cons. destruct (is_space d) eqn:Ed.
    + cbn [takeWhile]. destruct (eqc c 32) eqn:E; [|cbn; lia].
      apply eqc_eq in E. subst c. discriminate.
    + cbn [takeWhile]. destruct (eqc c d); cbn [List.length]; [|lia].
      pose proof (IH s). lia.
Qed.


Lemma norun_wsnorm : forall n s,
  (List.length s <= n)%nat -> norun s -> norun (wsnorm s).
Proof.
  induction n as [|n IH]; intros s Hn Hs.
  - destruct s; [exact I|cbn [List.length] in Hn; lia].
  - destruct s as [|c s]; [exact I|]. cbn [List.length] in Hn.
    destruct Hs as [Hc Hs]. rewrite wsnorm_cons.
    destruct (is_space c) eqn:Ec; cbn [norun].
    + pose proof (dropWhile_length is_space s).
      split; [|apply IH; [lia|now apply norun_dropWhile]]. intros _.
      pose proof (wsnorm_starts_nonspace _ (dropWhile_starts_nonspace s)) as Hd.
      destruct (wsnorm (dropWhile is_space s)) as [|d t]; [cbn; lia|].
      cbn [starts_nonspace] in Hd. cbn [takeWhile].
      destruct (eqc 32 d) eqn:E; [|cbn; lia].
      apply eqc_eq in E. subst d. discriminate.
    + split; [|apply IH; [lia|exact Hs]]. intros Ht.
      pose proof (takeWhile_wsnorm c Ec n s). specialize (Hc Ht). lia.
Qed.

(** Every white space is a single space between two other code units. *)
Fixpoint wsnormal (s : jsstring) : Prop :=
  match s with
  | [] => True
  | c :: rest => (is_space c = true -> c = 32 /\ starts_nonspace rest) /\ wsnormal rest
  end.

Lemma wsnormal_wsnorm : forall n s, (List.length s <= n)%nat -> wsnormal (wsnorm s).
Proof.
  induction n as [|n IH]; intros s Hn.
  - destruct s; [exact I|cbn [List.length] in Hn; lia].
  - destruct s as [|c s]; [exact I|]. cbn [List.length] in Hn.
    rewrite wsnorm_cons. destruct (is_space c) eqn:Ec; cbn [wsnormal].
    + pose proof (dropWhile_length is_space s).
      split; [|apply IH; lia]. intros _. split; [reflexivity|].
      apply wsnorm_starts_nonspace, dropWhile_starts_nonspace.
    + split; [|apply IH; lia]. rewrite Ec. discriminate.
Qed.

Lemma wsnorm_fix s : wsnormal s -> wsnorm s = s.
Proof.
  induction s as [|c s IH]; [reflexivity|]. intros [Hc Hs].
  rewrite wsnorm_cons. destruct (is_space c) eqn:Ec.
  - destruct (Hc eq_refl) as [-> Hn]. rewrite (dropWhile_fix s Hn). now rewrite IH.
  - now rewrite IH.
Qed.

(** *** Prefixes and suffixes *)

Lemma takeWhile_dropWhile p s : takeWhile p s ++ dropWhile p s = s.
Proof.
  induction s as [|c s IH]; cbn [takeWhile dropWhile]; [reflexivity|].
  destruct (p c); cbn [app]; [now rewrite IH|reflexivity].
Qed.

Lemma trimEnd_prefix s : exists b, s = trimEnd s ++ b.
Proof.
  unfold trimEnd. rewrite !reverse_rev.
  exists (rev (takeWhile is_space (rev s))).
  rewrite <- rev_app_distr, takeWhile_dropWhile. now rewrite rev_involutive.
Qed.

Lemma trim_middle s : exists a b, s = a ++ trim s ++ b.
Proof.
  unfold trim, trimStart. destruct (trimEnd_prefix (dropWhile is_space s)) as [b Hb].
  exists (takeWhile is_space s), b. rewrite <- Hb. symmetry. apply takeWhile_dropWhile.
Qed.

Lemma takeWhile_app_le p (a b : jsstring) :
  (List.length (takeWhile p a) <= List.length (takeWhile p (a ++ b)))%nat.
Proof.
  induction a as [|c a IH]; cbn [takeWhile app List.length]; [lia|].
  destruct (p c); cbn [List.length]; lia.
Qed.

Lemma norun_app a b : norun (a ++ b) -> norun a /\ norun b.
Proof.
  induction a as [|c a IH]; cbn [app norun]; [easy|].
  intros [Hc Hs]. destruct (IH Hs) as [Ha Hb]. repeat split; try assumption.
  intros Ht. pose proof (takeWhile_app_le (eqc c) a b). specialize (Hc Ht). lia.
Qed.

Lemma wsnormal_app a b : wsnormal (a ++ b) -> wsnormal a /\ wsnormal b.
Proof.
  induction a as [|c a IH]; cbn [app wsnormal]; [easy|].
  intros [Hc Hs]. destruct (IH Hs) as [Ha Hb]. repeat split; try assumption.
  - now destruct (Hc H).
  - destruct (Hc H) as [_ Hn]. destruct a; [exact I|exact Hn].
Qed.

Lemma norun_trim s : norun s -> norun (trim s).
Proof.
  intros H. destruct (trim_middle s) as (a & b & E). rewrite E in H.
  apply norun_app in H as [_ H]. now apply norun_app in H as [H _].
Qed.

Lemma wsnormal_trim s : wsnormal s -> wsnormal (trim s).
Proof.
  intros H. destruct (trim_middle s) as (a & b & E). rewrite E in H.
  apply wsnormal_app in H as [_ H]. now apply wsnormal_app in H as [H _].
Qed.

Lemma Forall_trim (P : char -> Prop) s : Forall P s -> Forall P (trim s).
Proof.
  intros H. destruct (trim_middle s) as (a & b & E). rewrite E in H.
  apply Forall_app in H as [_ H]. now apply Forall_app in H as [H _].
Qed.

(** *** Trimming twice *)

Lemma trimEnd_starts_nonspace s : starts_nonspace s -> starts_nonspace (trimEnd s).
Proof.
  intros H. destruct (trimEnd_prefix s) as [b E].
  destruct (trimEnd s) as [|c t]; [exact I|]. rewrite E in H. exact H.
Qed.

Lemma trimEnd_ends_nonspace s : starts_nonspace (rev (trimEnd s)).
Proof.
  unfold trimEnd. rewrite !reverse_rev, rev_involutive.
  apply dropWhile_starts_nonspace.
Qed.

Lemma trim_fix t : starts_nonspace t -> starts_nonspace (rev t) -> trim t = t.
Proof.
  intros H1 H2. unfold trim, trimStart. rewrite (dropWhile_fix t H1).
  unfold trimEnd. rewrite !reverse_rev, (dropWhile_fix _ H2). apply rev_involutive.
Qed.

Lemma trim_trim s : trim (trim s) = trim s.
Proof.
  apply trim_fix.
  - unfold trim. apply trimEnd_starts_nonspace, dropWhile_starts_nonspace.
  - apply trimEnd_ends_nonspace.
Qed.

(** *** Punctuation *)

(** The strings that [/^[。、,.!?！？\d\s]+$/] matches. *)
Definition punct_only (s : jsstring) : Prop :=
  s <> [] /\ Forall (fun c => is_punct c = true) s.

Lemma takeWhile_all p s :
  List.length (takeWhile p s) = List.length s -> Forall (fun c => p c = true) s.
Proof.
  induction s as [|c s IH]; cbn [takeWhile List.length]; [constructor|].
  destruct (p c) eqn:E; cbn [List.length]; [|lia].
  intros H. constructor; [exact E|apply IH; lia].
Qed.

Lemma takeWhile_Forall p s : Forall (fun c => p c = true) s -> takeWhile p s = s.
Proof.
  induction 1 as [|c s Hc _ IH]; cbn [takeWhile]; [reflexivity|].
  now rewrite Hc, IH.
Qed.

Lemma test_punct_only s : test re_punct_only s = true <-> punct_only s.
Proof.
  unfold re_punct_only. rewrite test_Bol, matches_Seq. split.
  - destruct (flat_map _ _) as [|n l] eqn:E; [discriminate|]. intros _.
    assert (Hin : In n (flat_map
              (fun n1 => map (Nat.add n1)
                           (matches Eol (prev_after None s n1) (skipn n1 s)))
              (matches (Plus (Chr is_punct)) None s))) by (rewrite E; now left).
    apply in_flat_map in Hin as (n1 & Hn1 & Hin).
    apply Plus_Chr_bound in Hn1.
    apply in_map_iff in Hin as (m & _ & Hm). cbn [matches] in Hm.
    destruct (skipn n1 s) eqn:Es; [|contradiction].
    apply skipn_all_iff in Es.
    pose proof (takeWhile_length is_punct s).
    split; [destruct s; [cbn [List.length] in *; lia|discriminate]|].
    apply takeWhile_all. lia.
  - intros [Hne Hall]. destruct s as [|c s]; [contradiction|].
    pose proof (first_match_Plus is_punct None c s) as Hf.
    inversion Hall as [|? ? Hc Hs]; subst. rewrite Hc in Hf.
    rewrite (takeWhile_Forall _ _ Hs) in Hf. unfold first_match in Hf.
    destruct (matches (Plus (Chr is_punct)) None (c :: s)) as [|n l]; [discriminate|].
    cbn [hd_error] in Hf. injection Hf as ->.
    cbn [flat_map]. change (S (List.length s)) with (List.length (c :: s)).
    rewrite skipn_all. reflexivity.
Qed.

Lemma In_dropWhile p c s : In c s -> p c = false -> In c (dropWhile p s).
Proof.
  intros Hin Hc. induction s as [|d s IH]; [contradiction|]. cbn [dropWhile].
  destruct (p d) eqn:E; [|exact Hin].
  destruct Hin as [->|Hin]; [congruence|now apply IH].
Qed.

Lemma In_trim c s : In c s -> is_space c = false -> In c (trim s).
Proof.
  intros Hin Hc. unfold trim, trimStart, trimEnd. rewrite !reverse_rev.
  apply in_rev. rewrite rev_involutive. apply In_dropWhile; [|exact Hc].
  apply -> in_rev. now apply In_dropWhile.
Qed.

Lemma In_wsnorm c : is_space c = false ->
  forall n s, (List.length s <= n)%nat -> In c s -> In c (wsnorm s).
Proof.
  intros Hc. induction n as [|n IH]; intros s Hn Hin.
  - destruct s; [contradiction|cbn [List.length] in Hn; lia].
  - destruct s as [|d s]; [contradiction|]. cbn [List.length] in Hn.
    rewrite wsnorm_cons. destruct (is_space d) eqn:Ed.
    + right. destruct Hin as [->|Hin]; [congruence|].
      pose proof (dropWhile_length is_space s).
      apply IH; [lia|]. now apply In_dropWhile.
    + destruct Hin as [->|Hin]; [now left|right]. apply IH; [lia|exact Hin].
Qed.

Lemma space_is_punct c : is_space c = true -> is_punct c = true.
Proof. intros H. unfold is_punct. rewrite H. now rewrite orb_true_r. Qed.

Lemma punct_only_back s : punct_only (trim (wsnorm s)) -> punct_only s.
Proof.
  intros [Hne Hall]. split.
  - intros ->. now apply Hne.
  - apply Forall_forall. intros c Hc.
    destruct (is_space c) eqn:E; [now apply space_is_punct|].
    apply (proj1 (Forall_forall _ _) Hall).
    apply In_trim; [|exact E]. now apply (In_wsnorm c E (List.length s)).
Qed.

(** *** The cleaning of a plain string *)

Lemma plain_plain_char c : plain c = true -> plain_char c.
Proof.
  unfold plain, plain_char. intros H. apply andb_true_iff in H as [H1 H2].
  apply negb_true_iff in H1, H2.
  change (str "&<>[(♪") with [38; 60; 62; 91; 40; 9834] in H1.
  cbn [one_of existsb] in H1.
  repeat (apply orb_false_iff in H1 as [?H H1]).
  unfold eqc in *. rewrite Z.eqb_neq in *. repeat split; assumption.
Qed.

Lemma plain_char_space : plain_char 32.
Proof. unfold plain_char. repeat split; try lia. Qed.

Lemma Forall_collapse_repeats (P : char -> Prop) s :
  Forall P s -> Forall P (collapse_repeats s).
Proof.
  apply replace_go_Forall. intros m Hm.
  rewrite <- (firstn_skipn 1 m) in Hm. now apply Forall_app in Hm.
Qed.

Lemma Forall_wsnorm s : Forall plain_char s -> Forall plain_char (wsnorm s).
Proof.
  apply replace_go_Forall. intros m _. constructor; [apply plain_char_space|constructor].
Qed.

Lemma cleanSubtitleText_plain x :
  Forall plain_char x ->
  cleanSubtitleText x
  = if test re_punct_only (collapse_repeats (trim x)) then []
    else trim (wsnorm (collapse_repeats (trim x))).
Proof.
  intros H. apply Forall_trim in H. unfold cleanSubtitleText. cbv zeta.
  rewrite (decode_entities_plain _ H), (strip_tags_plain _ H), (notes_plain _ H),
    (remove_markers_plain _ H), (speaker_plain _ H).
  fold (collapse_repeats (trim x)).
  rewrite (kana_plain _ (Forall_collapse_repeats _ _ H)).
  reflexivity.
Qed.

End CleaningFacts.

(** C2, as stated, fails: the entities are decoded once, so a text that
    encodes an entity is cleaned to the entity, and cleaned again to the
    character. *)
Lemma C2_double_entity_not_stable :
  Subtitle.cleanSubtitleText (str "&amp;amp;") = str "&amp;"
  /\ Subtitle.cleanSubtitleText (Subtitle.cleanSubtitleText (str "&amp;amp;"))
     <> Subtitle.cleanSubtitleText (str "&amp;amp;").
Proof.
  split; vm_compute; [reflexivity|discriminate].
Qed.

(** The cleaning is idempotent on every text without ampersand, angle
    bracket, opening square bracket, opening parenthesis, musical note and
    half-width katakana, that is, on the texts in which there is no entity,
    tag, marker or narrow kana to rewrite. *)
Lemma cleaning_idempotent_on_plain :
  forall x,
    forallb plain x = true ->
    Subtitle.cleanSubtitleText (Subtitle.cleanSubtitleText x)
    = Subtitle.cleanSubtitleText x.
Proof.
  intros x Hx.
  assert (H : Forall plain_char x).
  { apply Forall_forall. intros c Hc. apply plain_plain_char.
    now apply (proj1 (forallb_forall plain x) Hx). }
  rewrite (cleanSubtitleText_plain x H).
  set (s := collapse_repeats (trim x)).
  assert (Hs : Forall plain_char s)
    by (apply Forall_collapse_repeats, Forall_trim, H).
  destruct (test Subtitle.re_punct_only s) eqn:Et; [vm_compute; reflexivity|].
  set (y := trim (wsnorm s)).
  assert (Hy : Forall plain_char y) by (apply Forall_trim, Forall_wsnorm, Hs).
  assert (Hty : trim y = y) by apply trim_trim.
  assert (Hny : norun y).
  { apply norun_trim, (norun_wsnorm (List.length s)); [lia|].
    now apply (norun_collapse_repeats (List.length (trim x))). }
  assert (Hwy : wsnormal y)
    by (apply wsnormal_trim, (wsnormal_wsnorm (List.length s)); lia).
  rewrite (cleanSubtitleText_plain y Hy), Hty, (collapse_repeats_fix y Hny).
  destruct (test Subtitle.re_punct_only y) eqn:Ey.
  - apply test_punct_only, punct_only_back, test_punct_only in Ey. congruence.
  - now rewrite (wsnorm_fix y Hwy).
Qed.

(** ** Scenarios of the specification, as checks of the embedding *)

(** Twelve segments, mode [summary], [maxSegments = 10]: one segment of
    intro, two middle samples and seven segments of conclusion. *)
Example summary_of_twelve :
  let r := Subtitle.processTranscript integerToString
             [0; 1; 2; 3; 4; 5; 6; 7; 8; 9; 10; 11] 10 (str "summary") in
  Subtitle.segments r = [0; 1; 3; 5; 6; 7; 8; 9; 10; 11]
  /\ Subtitle.isTruncated r = true.
Proof. vm_compute. split; reflexivity. Qed.

(** [Math.floor(90 * 0.7)] is 62: the product is rounded below 63. *)
Example summaryConclusion_of_ninety :
  Subtitle.summaryConclusion 90 = 62%float.
Proof. vm_compute. reflexivity. Qed.

(** "First!" is filtered as a bot comment; a plain sentence is kept. *)
Example first_is_filtered :
  CommentFilter.botCheck (str "First!") = true
  /\ CommentFilter.shouldFilterComment asciiToLowerCase (first_comment None)
       default_options (Some (str "UC123")) = true
  /\ CommentFilter.shouldFilterComment asciiToLowerCase
       (CommentFilter.mkComment (str "c2")
          (Some (str "Great explanation, thanks for sharing this")) None None)
       default_options (Some (str "UC123")) = false.
Proof. vm_compute. repeat split; reflexivity. Qed.

(** A cue of a web caption track with settings and inline tags. *)
Example vtt_cue :
  option_map (map Subtitle.text)
    (Subtitle.parseVttToSegments integerToString
       (str ("WEBVTT" ++ newline ++ newline
             ++ "00:00:01.000 --> 00:00:03.000 align:start position:0%" ++ newline
             ++ "<c>hello</c> &amp; welcome" ++ newline ++ "ok" ++ newline)))
  = Some [str "hello & welcome"].
Proof. vm_compute. reflexivity. Qed.

(* ================================================================== *)
(** * Further properties of the code *)
(* ================================================================== *)

(** ** Validator *)

Section ValidatorFacts.
Import Validator Match.

Lemma first_match_Chr p prev s :
  first_match (Chr p) prev s
  = match s with
    | c :: _ => if p c then Some 1%nat else None
    | [] => None
    end.
Proof.
  unfold first_match. rewrite matches_Chr.
  destruct s as [|c s]; [reflexivity|]. now destruct (p c).
Qed.

(** Deleting the code units of a class is filtering the others. *)
Lemma replace_Chr_del p : forall s prev,
  replace_go (Chr p) (fun _ => []) 0 prev s = filter (fun c => negb (p c)) s.
Proof.
  induction s as [|c s IH]; intros prev; cbn [replace_go filter].
  - rewrite first_match_Chr. reflexivity.
  - rewrite first_match_Chr. destruct (p c); cbn [negb firstn app].
    + apply IH.
    + f_equal. apply IH.
Qed.

Lemma filter_idem {A : Type} (f : A -> bool) (l : list A) :
  filter f (filter f l) = filter f l.
Proof.
  induction l as [|x l IH]; cbn [filter]; [reflexivity|].
  destruct (f x) eqn:E; cbn [filter]; [rewrite E; f_equal|]; exact IH.
Qed.

Lemma filter_Forall {A : Type} (f : A -> bool) (l : list A) :
  Forall (fun x => f x = true) (filter f l).
Proof.
  induction l as [|x l IH]; cbn [filter]; [constructor|].
  destruct (f x) eqn:E; [constructor; assumption|assumption].
Qed.


(** *** What the parts of a pattern match *)

Lemma in_matches_Seq r1 r2 prev s n :
  In n (matches (Seq r1 r2) prev s)
  <-> exists n1 n2,
        In n1 (matches r1 prev s)
        /\ In n2 (matches r2 (prev_after prev s n1) (skipn n1 s))
        /\ n = (n1 + n2)%nat.
Proof.
  rewrite matches_Seq, in_flat_map. split.
  - intros (n1 & H1 & H2). apply in_map_iff in H2 as (n2 & <- & H2).
    now exists n1, n2.
  - intros (n1 & n2 & H1 & H2 & ->). exists n1. split; [exact H1|].
    apply in_map_iff. now exists n2.
Qed.

Lemma in_matches_Alt r1 r2 prev s n :
  In n (matches (Alt r1 r2) prev s)
  <-> In n (matches r1 prev s) \/ In n (matches r2 prev s).
Proof. cbn [matches]. apply in_app_iff. Qed.

Lemma startsWith_app s l : startsWith s l = true <-> exists rest, s = l ++ rest.
Proof.
  revert s. induction l as [|x l IH]; intros s.
  - split; [intros _; now exists s|now destruct s].
  - destruct s as [|c s]; cbn [startsWith]; [split; [discriminate|intros (rest & [=])]|].
    rewrite andb_true_iff, eqc_eq, IH. split.
    + intros (-> & rest & ->). now exists rest.
    + intros (rest & [= -> ->]). split; [reflexivity|now exists rest].
Qed.

Lemma matches_Lit l : forall prev s,
  matches (Lit l) prev s = if startsWith s l then [List.length l] else [].
Proof.
  induction l as [|x l IH]; intros prev s; cbn [Lit].
  - now destruct s.
  - rewrite matches_Seq, matches_Chr. destruct s as [|c s]; [reflexivity|].
    cbn [startsWith]. unfold eqc at 1 2. rewrite (Z.eqb_sym x c).
    destruct (c =? x); [|reflexivity].
    cbn [flat_map skipn andb]. rewrite IH, app_nil_r.
    now destruct (startsWith s l).
Qed.

Lemma in_matches_Lit l prev s n :
  In n (matches (Lit l) prev s) <-> n = List.length l /\ exists rest, s = l ++ rest.
Proof.
  rewrite matches_Lit, <- startsWith_app.
  destruct (startsWith s l); cbn [In]; intuition congruence.
Qed.

Lemma in_matches_Chr p prev s n :
  In n (matches (Chr p) prev s)
  <-> n = 1%nat /\ exists c rest, s = c :: rest /\ p c = true.
Proof.
  rewrite matches_Chr. destruct s as [|c s].
  - split; [intros []|intros (_ & c & rest & [=] & _)].
  - destruct (p c) eqn:E; cbn [In]; split.
    + intros [<-|[]]. split; [reflexivity|]. now exists c, s.
    + intros (-> & _). now left.
    + intros [].
    + intros (_ & c' & rest & [= -> ->] & H). congruence.
Qed.

Lemma in_matches_Eol prev s n : In n (matches Eol prev s) <-> n = 0%nat /\ s = [].
Proof.
  cbn [matches]. destruct s; cbn [In]; intuition congruence.
Qed.

Lemma in_matches_Opt r prev s n :
  In n (matches (Opt r) prev s) <-> In n (matches r prev s) \/ n = 0%nat.
Proof.
  unfold Opt. rewrite in_matches_Alt. cbn [matches In]. intuition congruence.
Qed.

(** [r{n}] on a class: the next [n] code units belong to it. *)
Lemma in_matches_Rep_Chr p : forall k prev s n,
  In n (matches (Rep k (Chr p)) prev s)
  <-> n = k /\ (k <= List.length s)%nat
      /\ Forall (fun c => p c = true) (firstn k s).
Proof.
  induction k as [|k IH]; intros prev s n; cbn [Rep].
  - cbn [matches In firstn]. split.
    + intros [<-|[]]. repeat split; [lia|constructor].
    + intros (-> & _). now left.
  - rewrite in_matches_Seq. split.
    + intros (n1 & n2 & H1 & H2 & ->).
      apply in_matches_Chr in H1 as (-> & c & rest & -> & Hc).
      cbn [skipn] in H2. apply IH in H2 as (-> & Hlen & Hall).
      cbn [List.length firstn]. repeat split; [lia|]. now constructor.
    + intros (-> & Hlen & Hall). destruct s as [|c s]; [cbn [List.length] in Hlen; lia|].
      cbn [firstn] in Hall. inversion Hall as [|? ? Hc Hs]; subst.
      exists 1%nat, k. split; [apply in_matches_Chr; split; [reflexivity|now exists c, s]|].
      split; [|reflexivity]. cbn [skipn]. apply IH.
      cbn [List.length] in Hlen. repeat split; [lia|exact Hs].
Qed.

(** [p+] matches every run of the class at the start of the subject. *)
Lemma in_star_Chr p : forall fuel prev s n,
  (List.length s <= fuel)%nat ->
  (n <= List.length (takeWhile p s))%nat ->
  In n (star (matches (Chr p)) fuel prev s).
Proof.
  induction fuel as [|fuel IH]; intros prev s n Hf Hn.
  - destruct s; [|cbn [List.length] in Hf; lia]. cbn [takeWhile List.length] in Hn.
    left. lia.
  - cbn [star]. apply in_app_iff. destruct n as [|n]; [right; now left|left].
    destruct s as [|c s]; [cbn [takeWhile List.length] in Hn; lia|].
    cbn [takeWhile] in Hn. rewrite matches_Chr.
    destruct (p c); [|cbn [List.length] in Hn; lia].
    cbn [flat_map]. rewrite app_nil_r. apply in_map_iff. exists n.
    split; [reflexivity|]. cbn [skipn]. cbn [List.length] in Hf, Hn.
    apply IH; lia.
Qed.

Lemma in_matches_Plus_Chr p prev s n :
  In n (matches (Plus (Chr p)) prev s)
  <-> (1 <= n <= List.length (takeWhile p s))%nat.
Proof.
  split; [apply Plus_Chr_bound|]. intros [H1 H2].
  unfold Plus. apply in_matches_Seq.
  destruct s as [|c s]; [cbn [takeWhile List.length] in H2; lia|].
  cbn [takeWhile] in H2. destruct (p c) eqn:E; [|cbn [List.length] in H2; lia].
  exists 1%nat, (n - 1)%nat. split; [apply in_matches_Chr; split; [reflexivity|now exists c, s]|].
  split; [|lia]. cbn [skipn]. rewrite matches_Star. cbn [List.length] in H2.
  apply in_star_Chr; lia.
Qed.

(** An alternation is found where one of its branches is. *)
Lemma test_from_Alt r1 r2 : forall s prev,
  test_from (Alt r1 r2) prev s = test_from r1 prev s || test_from r2 prev s.
Proof.
  induction s as [|c s IH]; intros prev; cbn [test_from]; unfold first_match;
    cbn [matches];
    destruct (matches r1 prev _) as [|n1 l1], (matches r2 prev _) as [|n2 l2];
    cbn [app hd_error orb]; rewrite ?IH, ?orb_true_r; reflexivity.
Qed.

Lemma test_Alt r1 r2 s : test (Alt r1 r2) s = test r1 s || test r2 s.
Proof. apply test_from_Alt. Qed.

Lemma test_anchored r s :
  test (Seq Bol r) s = true <-> exists n, In n (matches r None s).
Proof.
  rewrite test_Bol. destruct (matches r None s) as [|n l]; split.
  - discriminate.
  - intros (n & []).
  - intros _. exists n. now left.
  - reflexivity.
Qed.

(** [/^L$/] for a literal [L] *)
Lemma test_whole_Lit l s : test (Seq Bol (Seq (Lit l) Eol)) s = true <-> s = l.
Proof.
  rewrite test_anchored. split.
  - intros (n & H). apply in_matches_Seq in H as (n1 & n2 & H1 & H2 & ->).
    apply in_matches_Lit in H1 as (-> & rest & ->).
    apply in_matches_Eol in H2 as (_ & H2).
    rewrite skipn_app, skipn_all, Nat.sub_diag in H2. cbn [skipn app] in H2.
    subst rest. now rewrite app_nil_r.
  - intros ->. exists (List.length l + 0)%nat. apply in_matches_Seq.
    exists (List.length l), 0%nat. split; [|split; [|reflexivity]].
    + apply in_matches_Lit. split; [reflexivity|]. exists []. now rewrite app_nil_r.
    + apply in_matches_Eol. split; [reflexivity|]. apply skipn_all.
Qed.

(** [/^[class]+$/] *)
Lemma test_whole_Plus_Chr p s :
  test (Seq Bol (Seq (Plus (Chr p)) Eol)) s = true
  <-> s <> [] /\ Forall (fun c => p c = true) s.
Proof.
  rewrite test_anchored. split.
  - intros (n & H). apply in_matches_Seq in H as (n1 & n2 & H1 & H2 & ->).
    apply in_matches_Plus_Chr in H1. apply in_matches_Eol in H2 as (_ & H2).
    apply skipn_all_iff in H2. pose proof (takeWhile_length p s).
    split; [destruct s; [cbn [List.length] in *; lia|discriminate]|].
    apply takeWhile_all. lia.
  - intros (Hne & Hall). exists (List.length s + 0)%nat. apply in_matches_Seq.
    exists (List.length s), 0%nat. split; [|split; [|reflexivity]].
    + apply in_matches_Plus_Chr. rewrite (takeWhile_Forall _ _ Hall).
      destruct s; [contradiction|cbn [List.length]; lia].
    + apply in_matches_Eol. split; [reflexivity|]. apply skipn_all.
Qed.


(** The codes of the first branch of the pattern of [validateLanguageCode] *)
Lemma test_lang_code lang :
  test (Seq Bol (Seq (Rep 2 (Chr is_lower))
                  (Seq (Opt (Seq (Chr (eqc 45)) (Rep 2 (Chr is_upper)))) Eol))) lang
  = true
  <-> (exists a b, lang = [a; b] /\ is_lower a = true /\ is_lower b = true)
      \/ (exists a b c d,
             lang = [a; b; 45; c; d]
             /\ is_lower a = true /\ is_lower b = true
             /\ is_upper c = true /\ is_upper d = true).
Proof.
  rewrite test_anchored. split.
  - intros (n & H). apply in_matches_Seq in H as (n1 & n2 & H1 & H2 & ->).
    apply in_matches_Rep_Chr in H1 as (-> & Hlen & Hall).
    destruct lang as [|a [|b rest]]; try (cbn [List.length] in Hlen; lia).
    cbn [firstn] in Hall. inversion Hall as [|? ? Ha Hall']; subst.
    inversion Hall' as [|? ? Hb _]; subst. cbn [skipn] in H2.
    apply in_matches_Seq in H2 as (n3 & n4 & H3 & H4 & ->).
    apply in_matches_Eol in H4 as (_ & H4).
    apply in_matches_Opt in H3 as [H3| ->].
    + apply in_matches_Seq in H3 as (n5 & n6 & H5 & H6 & ->).
      apply in_matches_Chr in H5 as (-> & c0 & rest' & -> & Hc0).
      apply eqc_eq in Hc0. subst c0. cbn [skipn] in H6, H4.
      apply in_matches_Rep_Chr in H6 as (-> & Hlen' & Hall2).
      destruct rest' as [|c [|d rest2]]; try (cbn [List.length] in Hlen'; lia).
      cbn [firstn] in Hall2. inversion Hall2 as [|? ? Hc Hall3]; subst.
      inversion Hall3 as [|? ? Hd _]; subst.
      cbn [Nat.add skipn] in H4. subst rest2.
      right. exists a, b, c, d. auto.
    + cbn [skipn] in H4. subst rest. left. exists a, b. auto.
  - intros [(a & b & -> & Ha & Hb)|(a & b & c & d & -> & Ha & Hb & Hc & Hd)].
    + exists (2 + (0 + 0))%nat. apply in_matches_Seq. exists 2%nat, (0 + 0)%nat.
      split; [apply in_matches_Rep_Chr; cbn [List.length firstn];
              repeat split; [lia|repeat constructor; assumption]|].
      split; [|reflexivity]. cbn [skipn]. apply in_matches_Seq. exists 0%nat, 0%nat.
      split; [apply in_matches_Opt; now right|].
      split; [|reflexivity]. now apply in_matches_Eol.
    + exists (2 + (3 + 0))%nat. apply in_matches_Seq. exists 2%nat, (3 + 0)%nat.
      split; [apply in_matches_Rep_Chr; cbn [List.length firstn];
              repeat split; [lia|repeat constructor; assumption]|].
      split; [|reflexivity]. cbn [skipn]. apply in_matches_Seq. exists 3%nat, 0%nat.
      split; [|split; [|reflexivity]]; [|now apply in_matches_Eol].
      apply in_matches_Opt. left. apply in_matches_Seq. exists 1%nat, 2%nat.
      split; [apply in_matches_Chr; split; [reflexivity|]; exists 45, [c; d];
              split; [reflexivity|apply eqc_refl]|].
      split; [|reflexivity]. cbn [skipn]. apply in_matches_Rep_Chr.
      cbn [List.length firstn]. repeat split; [lia|repeat constructor; assumption].
Qed.

Lemma validateLanguageCode_iff lang :
  Validator.validateLanguageCode lang = true
  <-> (exists a b, lang = [a; b] /\ is_lower a = true /\ is_lower b = true)
      \/ (exists a b c d,
             lang = [a; b; 45; c; d]
             /\ is_lower a = true /\ is_lower b = true
             /\ is_upper c = true /\ is_upper d = true)
      \/ lang = str "auto" \/ lang = str "auto-en" \/ lang = str "ja-auto".
Proof.
  unfold Validator.validateLanguageCode, Validator.validLangPattern.
  cbn [Alts]. rewrite !test_Alt, !orb_true_iff, !test_whole_Lit, test_lang_code.
  tauto.
Qed.

End ValidatorFacts.

(** X1: [sanitizeVideoId] keeps, in order, exactly the code units of the
    class [[a-zA-Z0-9_-]]: its result is made of such code units only, and
    sanitizing twice is sanitizing once. *)
Theorem sanitizeVideoId_keeps_id_chars :
  forall videoId,
    Validator.sanitizeVideoId videoId = filter Validator.is_id_char videoId
    /\ Forall (fun c => Validator.is_id_char c = true) (Validator.sanitizeVideoId videoId)
    /\ Validator.sanitizeVideoId (Validator.sanitizeVideoId videoId)
       = Validator.sanitizeVideoId videoId.
Proof.
  intros videoId.
  assert (H : forall s, Validator.sanitizeVideoId s = filter Validator.is_id_char s).
  { intros s. unfold Validator.sanitizeVideoId, replace. rewrite replace_Chr_del.
    apply filter_ext. intros c. apply negb_involutive. }
  split; [apply H|]. split.
  - rewrite H. apply filter_Forall.
  - rewrite !H. apply filter_idem.
Qed.

(** X2: [validateLanguageCode] accepts exactly the codes made of two
    lower-case ASCII letters, such a pair followed by a hyphen and two
    upper-case ASCII letters, and the three words [auto], [auto-en] and
    [ja-auto]. *)
Theorem validateLanguageCode_accepts :
  forall lang,
    Validator.validateLanguageCode lang = true
    <-> (exists a b, lang = [a; b] /\ is_lower a = true /\ is_lower b = true)
        \/ (exists a b c d,
               lang = [a; b; 45; c; d]
               /\ is_lower a = true /\ is_lower b = true
               /\ is_upper c = true /\ is_upper d = true)
        \/ lang = str "auto" \/ lang = str "auto-en" \/ lang = str "ja-auto".
Proof.
  intros lang. apply validateLanguageCode_iff.
Qed.

Section UrlFacts.
Import Validator.

Lemma skipn_app_length {A : Type} (a b : list A) : skipn (List.length a) (a ++ b) = b.
Proof. now rewrite skipn_app, skipn_all, Nat.sub_diag. Qed.

Lemma in_matches_https prev s n :
  In n (matches https prev s)
  <-> exists scheme rest,
        s = scheme ++ rest /\ n = List.length scheme
        /\ (scheme = str "http://" \/ scheme = str "https://").
Proof.
  unfold https. rewrite in_matches_Seq. split.
  - intros (n1 & n2 & H1 & H2 & ->).
    apply in_matches_Lit in H1 as (-> & rest & ->).
    rewrite skipn_app_length in H2.
    apply in_matches_Seq in H2 as (n3 & n4 & H3 & H4 & ->).
    apply in_matches_Opt in H3 as [H3| ->].
    + apply in_matches_Lit in H3 as (-> & rest' & ->).
      rewrite skipn_app_length in H4.
      apply in_matches_Lit in H4 as (-> & rest2 & ->).
      exists (str "https://"), rest2. split; [reflexivity|]. split; [reflexivity|now right].
    + cbn [skipn] in H4. apply in_matches_Lit in H4 as (-> & rest2 & ->).
      exists (str "http://"), rest2. split; [reflexivity|]. split; [reflexivity|now left].
  - intros (scheme & rest & -> & -> & [->| ->]).
    + exists 4%nat, (0 + 3)%nat. split; [apply in_matches_Lit; split; [reflexivity|]|].
      { now exists (str "://" ++ rest). }
      split; [|reflexivity]. apply in_matches_Seq. exists 0%nat, 3%nat.
      split; [apply in_matches_Opt; now right|]. split; [|reflexivity].
      apply in_matches_Lit. split; [reflexivity|]. now exists rest.
    + exists 4%nat, (1 + 3)%nat. split; [apply in_matches_Lit; split; [reflexivity|]|].
      { now exists (str "s://" ++ rest). }
      split; [|reflexivity]. apply in_matches_Seq. exists 1%nat, 3%nat.
      split; [apply in_matches_Opt; left; apply in_matches_Lit; split; [reflexivity|]|].
      { now exists (str "://" ++ rest). }
      split; [|reflexivity]. apply in_matches_Lit. split; [reflexivity|]. now exists rest.
Qed.

Lemma matches_Plus_nonempty p prev s :
  (exists n, In n (matches (Plus (Chr p)) prev s))
  <-> exists c rest, s = c :: rest /\ p c = true.
Proof.
  split.
  - intros (n & H). apply in_matches_Plus_Chr in H.
    destruct s as [|c s]; [cbn [takeWhile List.length] in H; lia|].
    cbn [takeWhile] in H. destruct (p c) eqn:E; [|cbn [List.length] in H; lia].
    now exists c, s.
  - intros (c & rest & -> & Hc). exists 1%nat. apply in_matches_Plus_Chr.
    cbn [takeWhile]. rewrite Hc. cbn [List.length]. lia.
Qed.

End UrlFacts.

(** X3: [validateVideoUrl] accepts exactly the strings that begin with
    [http://] or [https://], an optional [www.], [youtube.com/watch?v=] and a
    code unit of the class [[\w-]]; those that begin with a scheme,
    [youtu.be/] and such a code unit; and the non-empty strings made of code
    units of the class only. What follows the first code unit of the
    identifier in a URL is not looked at, and a bare identifier may begin
    with a hyphen. *)
Theorem validateVideoUrl_accepts :
  forall url,
    Validator.validateVideoUrl url = true
    <-> (exists scheme host c rest,
            url = scheme ++ host ++ str "youtube.com/watch?v=" ++ c :: rest
            /\ (scheme = str "http://" \/ scheme = str "https://")
            /\ (host = [] \/ host = str "www.")
            /\ Validator.is_id_char c = true)
        \/ (exists scheme c rest,
               url = scheme ++ str "youtu.be/" ++ c :: rest
               /\ (scheme = str "http://" \/ scheme = str "https://")
               /\ Validator.is_id_char c = true)
        \/ (url <> [] /\ Forall (fun c => Validator.is_id_char c = true) url).
Proof.
  intros url. unfold Validator.validateVideoUrl, Validator.url_patterns.
  cbn [existsb]. rewrite orb_false_r, !orb_true_iff, test_whole_Plus_Chr, !test_anchored.
  assert (H1 : (exists n, In n (matches
                  (Seq Validator.https (Seq (Opt (Lit (str "www.")))
                     (Seq (Lit (str "youtube.com/watch?v="))
                          (Plus (Chr Validator.is_id_char))))) None url))
               <-> exists scheme host c rest,
                     url = scheme ++ host ++ str "youtube.com/watch?v=" ++ c :: rest
                     /\ (scheme = str "http://" \/ scheme = str "https://")
                     /\ (host = [] \/ host = str "www.")
                     /\ Validator.is_id_char c = true).
  { split.
    - intros (n & H). apply in_matches_Seq in H as (n1 & n2 & Ha & Hb & ->).
      apply in_matches_https in Ha as (scheme & rest & -> & -> & Hs).
      rewrite skipn_app_length in Hb.
      apply in_matches_Seq in Hb as (n3 & n4 & Hc & Hd & ->).
      assert (Hhost : exists host rest', rest = host ++ rest' /\ n3 = List.length host
                                         /\ (host = [] \/ host = str "www.")).
      { apply in_matches_Opt in Hc as [Hc| ->].
        - apply in_matches_Lit in Hc as (-> & rest' & ->).
          exists (str "www."), rest'. auto.
        - exists [], rest. auto. }
      destruct Hhost as (host & rest' & -> & -> & Hh).
      rewrite skipn_app_length in Hd.
      apply in_matches_Seq in Hd as (n5 & n6 & He & Hf & ->).
      apply in_matches_Lit in He as (-> & rest2 & ->).
      rewrite skipn_app_length in Hf.
      destruct (proj1 (matches_Plus_nonempty _ _ _) (ex_intro _ n6 Hf))
        as (c & rest3 & -> & Hc').
      exists scheme, host, c, rest3. auto.
    - intros (scheme & host & c & rest & -> & Hs & Hh & Hc).
      destruct (proj2 (matches_Plus_nonempty Validator.is_id_char
                         (prev_after
                            (prev_after
                               (prev_after None
                                  (scheme ++ host ++ str "youtube.com/watch?v=" ++ c :: rest)
                                  (List.length scheme))
                               (host ++ str "youtube.com/watch?v=" ++ c :: rest)
                               (List.length host))
                            (str "youtube.com/watch?v=" ++ c :: rest)
                            (List.length (str "youtube.com/watch?v=")))
                         (c :: rest))
                  (ex_intro _ c (ex_intro _ rest (conj eq_refl Hc)))) as (k & Hk).
      exists (List.length scheme
              + (List.length host + (List.length (str "youtube.com/watch?v=") + k)))%nat.
      apply in_matches_Seq. eexists _, _. split; [|split; [|reflexivity]].
      { apply in_matches_https. now exists scheme, (host ++ str "youtube.com/watch?v=" ++ c :: rest). }
      rewrite skipn_app_length. apply in_matches_Seq. eexists _, _.
      split; [|split; [|reflexivity]].
      { apply in_matches_Opt. destruct Hh as [->| ->]; [now right|left].
        apply in_matches_Lit. split; [reflexivity|].
        now exists (str "youtube.com/watch?v=" ++ c :: rest). }
      rewrite skipn_app_length. apply in_matches_Seq. eexists _, _.
      split; [|split; [|reflexivity]].
      { apply in_matches_Lit. split; [reflexivity|]. now exists (c :: rest). }
      rewrite skipn_app_length. exact Hk. }
  assert (H2 : (exists n, In n (matches
                  (Seq Validator.https (Seq (Lit (str "youtu.be/"))
                                            (Plus (Chr Validator.is_id_char)))) None url))
               <-> exists scheme c rest,
                     url = scheme ++ str "youtu.be/" ++ c :: rest
                     /\ (scheme = str "http://" \/ scheme = str "https://")
                     /\ Validator.is_id_char c = true).
  { split.
    - intros (n & H). apply in_matches_Seq in H as (n1 & n2 & Ha & Hb & ->).
      apply in_matches_https in Ha as (scheme & rest & -> & -> & Hs).
      rewrite skipn_app_length in Hb.
      apply in_matches_Seq in Hb as (n5 & n6 & He & Hf & ->).
      apply in_matches_Lit in He as (-> & rest2 & ->).
      rewrite skipn_app_length in Hf.
      destruct (proj1 (matches_Plus_nonempty _ _ _) (ex_intro _ n6 Hf))
        as (c & rest3 & -> & Hc').
      exists scheme, c, rest3. auto.
    - intros (scheme & c & rest & -> & Hs & Hc).
      destruct (proj2 (matches_Plus_nonempty Validator.is_id_char
                         (prev_after
                            (prev_after None (scheme ++ str "youtu.be/" ++ c :: rest)
                               (List.length scheme))
                            (str "youtu.be/" ++ c :: rest)
                            (List.length (str "youtu.be/")))
                         (c :: rest))
                  (ex_intro _ c (ex_intro _ rest (conj eq_refl Hc)))) as (k & Hk).
      exists (List.length scheme + (List.length (str "youtu.be/") + k))%nat.
      apply in_matches_Seq. eexists _, _. split; [|split; [|reflexivity]].
      { apply in_matches_https. now exists scheme, (str "youtu.be/" ++ c :: rest). }
      rewrite skipn_app_length. apply in_matches_Seq. eexists _, _.
      split; [|split; [|reflexivity]].
      { apply in_matches_Lit. split; [reflexivity|]. now exists (c :: rest). }
      rewrite skipn_app_length. exact Hk. }
  rewrite H1, H2. tauto.
Qed.

Section VideoIdFacts.
Import Validator Match.

Lemma in_seq_matches_cons r rs prev s ns :
  In ns (seq_matches (r :: rs) prev s)
  <-> exists n ns',
        ns = n :: ns' /\ In n (matches r prev s)
        /\ In ns' (seq_matches rs (prev_after prev s n) (skipn n s)).
Proof.
  cbn [seq_matches]. rewrite in_flat_map. split.
  - intros (n & H1 & H2). apply in_map_iff in H2 as (ns' & <- & H2).
    now exists n, ns'.
  - intros (n & ns' & -> & H1 & H2). exists n. split; [exact H1|].
    apply in_map_iff. now exists ns'.
Qed.

(** A match of [exec] lies in the subject: the parts found are consecutive
    pieces of it, of lengths that the parts of the pattern match there. *)
Lemma exec_from_found rs : forall s prev ps,
  exec_from rs prev s = Some ps ->
  exists before after prev' ns,
    s = before ++ after
    /\ In ns (seq_matches rs prev' after)
    /\ ps = pieces ns after.
Proof.
  induction s as [|c s IH]; intros prev ps; cbn [exec_from].
  - destruct (seq_matches rs prev []) as [|ns l] eqn:E; cbn [hd_error]; [discriminate|].
    intros [= <-]. exists [], [], prev, ns. rewrite E. repeat split. now left.
  - destruct (seq_matches rs prev (c :: s)) as [|ns l] eqn:E; cbn [hd_error].
    + intros H. apply IH in H as (before & after & prev' & ns & -> & Hin & ->).
      now exists (c :: before), after, prev', ns.
    + intros [= <-]. exists [], (c :: s), prev, ns. rewrite E. repeat split. now left.
Qed.

Lemma dropWhile_nil_iff p s : dropWhile p s = [] <-> Forall (fun c => p c = true) s.
Proof.
  induction s as [|c s IH]; cbn [dropWhile]; [split; [constructor|reflexivity]|].
  destruct (p c) eqn:E.
  - rewrite IH. split; [now constructor|]. now inversion 1.
  - split; [discriminate|]. inversion 1; congruence.
Qed.

Lemma trim_nil_iff s : trim s = [] <-> Forall (fun c => is_space c = true) s.
Proof.
  unfold trim, trimEnd, trimStart. rewrite !reverse_rev. split.
  - intros H. apply (f_equal (@rev char)) in H. rewrite rev_involutive in H.
    cbn [rev] in H. apply dropWhile_nil_iff in H. apply Forall_rev in H.
    rewrite rev_involutive in H.
    rewrite <- (takeWhile_dropWhile is_space s). apply Forall_app. split; [|exact H].
    clear H. induction s as [|c s IH]; cbn [takeWhile]; [constructor|].
    destruct (is_space c) eqn:E; [now constructor|constructor].
  - intros H. apply dropWhile_nil_iff in H. now rewrite H.
Qed.

Lemma blank_iff videoId :
  blank videoId = true
  <-> videoId = None
      \/ exists v, videoId = Some v /\ Forall (fun c => is_space c = true) v.
Proof.
  unfold blank. destruct videoId as [v|]; [|split; [now left|reflexivity]].
  assert (H : (List.length (trim v) =? 0)%nat = true
              <-> Forall (fun c => is_space c = true) v).
  { rewrite Nat.eqb_eq, <- trim_nil_iff. apply length_zero_iff_nil. }
  destruct v as [|c v].
  - split; [intros _; right; exists []; split; [reflexivity|constructor]|reflexivity].
  - rewrite H. split.
    + intros Hs. right. now exists (c :: v).
    + intros [[=]|(v' & [= <-] & Hs)]. exact Hs.
Qed.

End VideoIdFacts.

(** X4: [validateVideoId] throws exactly on a missing identifier and on one
    made of white space only. Otherwise it returns the argument itself, or,
    for an argument that contains [youtube.com] or [youtu.be], eleven code
    units of the class [[\w-]] that follow [v=] or a slash in it. *)
Theorem validateVideoId_result :
  forall videoId,
    match Validator.validateVideoId videoId with
    | Validator.Throw message =>
      message = str "Video ID cannot be empty"
      /\ (videoId = None
          \/ exists v, videoId = Some v /\ Forall (fun c => is_space c = true) v)
    | Validator.Ok result =>
      exists v,
        videoId = Some v
        /\ ~ Forall (fun c => is_space c = true) v
        /\ (result = v
            \/ (includes v (str "youtube.com") || includes v (str "youtu.be") = true
                /\ List.length result = 11%nat
                /\ Forall (fun c => Validator.is_id_char c = true) result
                /\ exists before sep after,
                     v = before ++ sep ++ result ++ after
                     /\ (sep = str "v=" \/ sep = str "/")))
    end.
Proof.
  intros videoId. unfold Validator.validateVideoId.
  destruct (Validator.blank videoId) eqn:Eb.
  - split; [reflexivity|]. now apply blank_iff.
  - assert (Hnb : ~ (videoId = None
                     \/ exists v, videoId = Some v /\ Forall (fun c => is_space c = true) v)).
    { intros H. apply blank_iff in H. congruence. }
    destruct videoId as [v|]; [|exfalso; apply Hnb; now left].
    assert (Hv : ~ Forall (fun c => is_space c = true) v).
    { intros H. apply Hnb. right. now exists v. }
    destruct (includes v (str "youtube.com") || includes v (str "youtu.be")) eqn:Eu;
      [|exists v; auto].
    destruct (Match.exec Validator.re_video_id v) as [ps|] eqn:Ee; [|exists v; auto].
    unfold Match.exec in Ee.
    apply exec_from_found in Ee as (before & after & prev' & ns & -> & Hin & ->).
    unfold Validator.re_video_id in Hin.
    apply in_seq_matches_cons in Hin as (n1 & ns1 & -> & H1 & Hin).
    apply in_seq_matches_cons in Hin as (n2 & ns2 & -> & H2 & Hin).
    cbn [Match.seq_matches In] in Hin. destruct Hin as [<-|[]].
    cbn [Match.pieces].
    exists (before ++ after). split; [reflexivity|]. split; [exact Hv|]. right.
    split; [exact Eu|].
    assert (Hsep : exists sep rest, after = sep ++ rest /\ n1 = List.length sep
                                    /\ (sep = str "v=" \/ sep = str "/")).
    { apply in_matches_Alt in H1 as [H1|H1];
        apply in_matches_Lit in H1 as (-> & rest & ->).
      - exists (str "v="), rest. auto.
      - exists (str "/"), rest. auto. }
    destruct Hsep as (sep & rest & -> & -> & Hsep).
    rewrite skipn_app_length in *.
    apply in_matches_Rep_Chr in H2 as (-> & Hlen & Hall).
    split; [rewrite length_firstn; lia|]. split; [exact Hall|].
    exists before, sep, (skipn 11 rest). split; [|exact Hsep].
    now rewrite firstn_skipn.
Qed.

(** ** The order of numbers *)

Section FloatOrder.

Lemma SFcompare_antisym f1 f2 :
  SFcompare f2 f1 = option_map CompOpp (SFcompare f1 f2).
Proof.
  destruct f1 as [s1|s1| |s1 m1 e1], f2 as [s2|s2| |s2 m2 e2];
    try reflexivity; try (now destruct s1); try (now destruct s2);
    try (now destruct s1, s2).
  unfold SFcompare. cbn [option_map]. f_equal.
  change IntDef.Z.compare with Z.compare.
  rewrite (Z.compare_antisym e1 e2).
  change (Pos.compare_cont Eq m2 m1) with (Pos.compare m2 m1).
  change (Pos.compare_cont Eq m1 m2) with (Pos.compare m1 m2).
  rewrite (Pos.compare_antisym m1 m2).
  destruct s1, s2; try reflexivity;
    destruct (e1 ?= e2); cbn [CompOpp]; try reflexivity;
    destruct (m1 ?= m2)%positive; reflexivity.
Qed.

Lemma SFcompare_refl f : f <> S754_nan -> SFcompare f f = Some Eq.
Proof.
  destruct f as [s|s| |s m e]; intros H; try reflexivity; try (now destruct s);
    [contradiction|].
  unfold SFcompare. change IntDef.Z.compare with Z.compare.
  rewrite Z.compare_refl, Pos.compare_cont_refl. now destruct s.
Qed.

(** Two numbers that compare equal are the same number, or two zeros. *)
Lemma SFcompare_Eq f1 f2 :
  SFcompare f1 f2 = Some Eq ->
  f1 = f2 \/ exists s1 s2, f1 = S754_zero s1 /\ f2 = S754_zero s2.
Proof.
  destruct f1 as [s1|s1| |s1 m1 e1], f2 as [s2|s2| |s2 m2 e2]; cbn [SFcompare];
    try discriminate; try (destruct s1; discriminate); try (destruct s2; discriminate).
  - intros _. right. now exists s1, s2.
  - destruct s1, s2; try discriminate; now left.
  - change IntDef.Z.compare with Z.compare.
    change (Pos.compare_cont Eq m1 m2) with (Pos.compare m1 m2).
    destruct s1, s2; try discriminate;
      destruct (e1 ?= e2) eqn:Ee; try discriminate;
      destruct (m1 ?= m2)%positive eqn:Em; try discriminate;
      apply Z.compare_eq in Ee; apply Pos.compare_eq in Em; subst; now left.
Qed.

Definition cmp (x y : float) : option comparison := SFcompare (Prim2SF x) (Prim2SF y).

Lemma ltb_cmp x y : PrimFloat.ltb x y = true <-> cmp x y = Some Lt.
Proof.
  rewrite ltb_spec. unfold SFltb, cmp.
  destruct (SFcompare _ _) as [[| |]|]; split; congruence.
Qed.

Lemma leb_cmp x y : PrimFloat.leb x y = true <-> cmp x y = Some Lt \/ cmp x y = Some Eq.
Proof.
  rewrite leb_spec. unfold SFleb, cmp.
  destruct (SFcompare _ _) as [[| |]|]; split; try congruence; auto; intros [|]; congruence.
Qed.

Lemma is_nan_cmp x : is_nan x = false <-> Prim2SF x <> S754_nan.
Proof.
  unfold is_nan. rewrite negb_false_iff, FloatAxioms.eqb_spec. unfold SFeqb. split.
  - intros H E. rewrite E in H. discriminate.
  - intros H. now rewrite SFcompare_refl.
Qed.

Lemma cmp_antisym x y : cmp y x = option_map CompOpp (cmp x y).
Proof. apply SFcompare_antisym. Qed.

Lemma cmp_defined x y :
  is_nan x = false -> is_nan y = false -> exists c, cmp x y = Some c.
Proof.
  rewrite !is_nan_cmp. unfold cmp.
  destruct (Prim2SF x) as [s1|s1| |s1 m1 e1], (Prim2SF y) as [s2|s2| |s2 m2 e2];
    intros H1 H2; try contradiction; cbn [SFcompare]; eexists; reflexivity.
Qed.

Lemma cmp_Eq x y :
  cmp x y = Some Eq -> is_neg_zero x = false -> Prim2SF x <> S754_zero false -> x = y.
Proof.
  unfold cmp, is_neg_zero. intros H Hz Hp. apply SFcompare_Eq in H as [H|(s1 & s2 & H1 & H2)].
  - now apply Prim2SF_inj.
  - rewrite H1 in Hz, Hp. destruct s1; [discriminate|contradiction].
Qed.

Lemma leb_nan_l x y : PrimFloat.leb x y = true -> is_nan x = false /\ is_nan y = false.
Proof.
  rewrite leb_cmp, !is_nan_cmp. unfold cmp.
  destruct (Prim2SF x) as [s1|s1| |s1 m1 e1], (Prim2SF y) as [s2|s2| |s2 m2 e2];
    cbn [SFcompare]; intros [H|H]; try discriminate; split; discriminate.
Qed.

(** A number that is at least one is neither a zero nor [NaN]. *)
Lemma one_leb x :
  PrimFloat.leb 1 x = true ->
  is_neg_zero x = false /\ Prim2SF x <> S754_zero false /\ is_nan x = false.
Proof.
  intros H. pose proof (leb_nan_l _ _ H) as [_ Hn]. split; [|split; [|exact Hn]].
  - apply leb_cmp in H. unfold cmp, is_neg_zero in *.
    destruct (Prim2SF x) as [[|]| | |]; try reflexivity.
    vm_compute in H. destruct H; discriminate.
  - apply leb_cmp in H. unfold cmp in *. intros E. rewrite E in H.
    vm_compute in H. destruct H; discriminate.
Qed.

End FloatOrder.

(** X5: [validateMaxResults] clamps: when the value (the argument, or the
    default for a missing one) is a number and the limit is at least 1, the
    result lies between 1 and the limit; it is the value itself when the
    value lies there and 1 when the value is below 1. A value that is [NaN]
    is returned as it is. *)
Theorem validateMaxResults_clamps :
  forall maxResults defaultValue limit,
    let value := match maxResults with Some v => v | None => defaultValue end in
    let result := Validator.validateMaxResults maxResults defaultValue limit in
    (is_nan value = false ->
     PrimFloat.leb 1 limit = true ->
     PrimFloat.leb 1 result = true
     /\ PrimFloat.leb result limit = true
     /\ (PrimFloat.leb 1 value = true -> PrimFloat.leb value limit = true ->
         result = value)
     /\ (PrimFloat.ltb value 1 = true -> result = 1%float))
    /\ (is_nan value = true -> result = nan).
Proof.
  intros maxResults defaultValue limit value result.
  assert (Hr : result = Validator.min (Num.max 1 value) limit) by reflexivity.
  split.
  - intros Hv Hl.
    destruct (one_leb _ Hl) as (Hlz & Hlp & Hln).
    assert (H1n : is_nan 1 = false) by reflexivity.
    (* the maximum of 1 and the value *)
    assert (Hm : (Num.max 1 value = value /\ PrimFloat.ltb 1 value = true)
                 \/ (Num.max 1 value = 1%float /\ PrimFloat.ltb 1 value = false)).
    { unfold Num.max. rewrite H1n, Hv. cbn [orb].
      destruct (PrimFloat.ltb 1 value); [now left|right].
      replace (is_neg_zero 1) with false by reflexivity.
      split; [now destruct (PrimFloat.ltb value 1)|reflexivity]. }
    assert (Hm1 : PrimFloat.leb 1 (Num.max 1 value) = true).
    { destruct Hm as [[-> H]|[-> _]]; [|reflexivity].
      apply leb_cmp. left. now apply ltb_cmp. }
    destruct (one_leb _ Hm1) as (Hmz & Hmp & Hmn).
    set (m := Num.max 1 value) in *.
    (* the minimum of it and the limit *)
    assert (Hmin : (result = m /\ PrimFloat.leb m limit = true)
                   \/ (result = limit /\ PrimFloat.ltb m limit = false)).
    { rewrite Hr. unfold Validator.min. rewrite Hmn, Hln. cbn [orb].
      destruct (PrimFloat.ltb m limit) eqn:E1.
      - left. split; [reflexivity|]. apply leb_cmp. left. now apply ltb_cmp.
      - destruct (PrimFloat.ltb limit m) eqn:E2; [now right|].
        rewrite Hmz. now right. }
    assert (Hll : PrimFloat.leb limit limit = true).
    { apply leb_cmp. right. unfold cmp. apply SFcompare_refl. now apply is_nan_cmp. }
    split; [|split; [|split]].
    + destruct Hmin as [[-> _]|[-> _]]; assumption.
    + destruct Hmin as [[-> H]|[-> _]]; assumption.
    + intros Hv1 Hvl.
      assert (Hmv : m = value).
      { destruct Hm as [[H _]|[H Hlt]]; [exact H|]. rewrite H.
        apply leb_cmp in Hv1 as [Hc|Hc]; [apply ltb_cmp in Hc; congruence|].
        apply cmp_Eq; [exact Hc|reflexivity|discriminate]. }
      destruct Hmin as [[H _]|[H Hlt]]; [congruence|].
      rewrite H, <- Hmv.
      rewrite <- Hmv in Hvl. apply leb_cmp in Hvl as [Hc|Hc];
        [apply ltb_cmp in Hc; congruence|].
      symmetry. now apply cmp_Eq.
    + intros Hlt.
      assert (Hm' : m = 1%float).
      { destruct Hm as [[_ H]|[H _]]; [|exact H].
        apply ltb_cmp in H, Hlt. rewrite cmp_antisym, H in Hlt. discriminate. }
      destruct Hmin as [[H _]|[H Hlt']]; [congruence|].
      rewrite H. rewrite Hm' in Hlt'.
      apply leb_cmp in Hl as [Hc|Hc]; [apply ltb_cmp in Hc; congruence|].
      symmetry. apply cmp_Eq; [exact Hc|reflexivity|discriminate].
  - intros Hv. rewrite Hr. unfold Num.max. rewrite Hv, orb_true_r.
    unfold Validator.min. reflexivity.
Qed.

Lemma validateMaxResults_clamps_witness :
  Validator.validateMaxResults (Some 500%float) 20 100 = 100%float
  /\ PrimFloat.leb 1 (Validator.validateMaxResults None 20 100) = true
  /\ PrimFloat.leb (Validator.validateMaxResults None 20 100) 100 = true.
Proof.
  split; [vm_compute; reflexivity|].
  destruct (proj1 (validateMaxResults_clamps None 20 100)) as (H1 & H2 & _);
    [reflexivity|reflexivity|].
  split; [exact H1|exact H2].
Defined.

(** ** The arguments of yt-dlp *)

Section SplitFacts.

Lemma startsWith_single c s d : startsWith (c :: s) [d] = eqc c d.
Proof. cbn [startsWith]. destruct s; apply andb_true_r. Qed.

(** Splitting on a one-unit separator, read from the left. *)
Lemma split_go_cur d : forall s cur,
  split_go [d] 0 cur s
  = (rev cur ++ hd [] (split_go [d] 0 [] s)) :: tl (split_go [d] 0 [] s).
Proof.
  induction s as [|c s IH]; intros cur; cbn [split_go].
  - rewrite !reverse_rev. cbn [rev hd tl]. now rewrite app_nil_r.
  - rewrite startsWith_single. cbn [List.length Nat.sub].
    destruct (eqc c d).
    + rewrite !reverse_rev. cbn [rev hd tl]. now rewrite app_nil_r.
    + rewrite (IH (c :: cur)), (IH [c]). cbn [rev hd tl app].
      now rewrite <- app_assoc.
Qed.

Lemma split_cons d c s :
  split (c :: s) [d]
  = if eqc c d then [] :: split s [d]
    else (c :: hd [] (split s [d])) :: tl (split s [d]).
Proof.
  unfold split. cbn [split_go]. rewrite startsWith_single.
  cbn [List.length Nat.sub]. destruct (eqc c d); [reflexivity|].
  now rewrite split_go_cur.
Qed.

Lemma split_nil d : split [] [d] = [[]].
Proof. reflexivity. Qed.

(** A piece before the first separator, and the pieces after it. *)
Lemma split_app_sep d a b :
  Forall (fun c => eqc c d = false) a ->
  split (a ++ d :: b) [d] = a :: split b [d].
Proof.
  induction 1 as [|c a Hc _ IH]; cbn [app]; rewrite split_cons.
  - now rewrite eqc_refl.
  - rewrite Hc, IH. reflexivity.
Qed.

Lemma split_no_sep d a :
  Forall (fun c => eqc c d = false) a -> split a [d] = [a].
Proof.
  induction 1 as [|c a Hc _ IH]; [reflexivity|].
  rewrite split_cons, Hc, IH. reflexivity.
Qed.

End SplitFacts.

(** X6: in [getTranscriptViaYtDlp] a language other than [auto], [ja] and
    [en] is passed to yt-dlp as the pieces that its spaces separate: the
    arguments are [--skip-download], the flag of the attempt, [--sub-lang],
    these pieces, and the format, the output path and the URL. A language
    without a space is one argument. *)
Theorem transcriptArgs_language :
  forall lang format outputPath videoUrl attempt,
    eqs lang (str "auto") || eqs lang (str "ja") || eqs lang (str "en") = false ->
    In attempt (YtDlp.transcriptAttempts lang) ->
    (exists flag,
        (flag = str "--write-auto-sub" \/ flag = str "--write-sub")
        /\ YtDlp.transcriptArgs attempt format outputPath videoUrl
           = [str "--skip-download"; flag; str "--sub-lang"]
             ++ split lang (str " ")
             ++ [str "--sub-format"; format; str "-o"; outputPath; videoUrl])
    /\ (Forall (fun c => eqc c 32 = false) lang -> split lang (str " ") = [lang]).
Proof.
  intros lang format outputPath videoUrl attempt Hl Hin.
  split; [|apply split_no_sep].
  unfold YtDlp.transcriptAttempts in Hin.
  apply orb_false_iff in Hl as [Hl Hen]. rewrite Hl, Hen in Hin.
  assert (H1 : split (str "--write-auto-sub --sub-lang " ++ lang) (str " ")
               = [str "--write-auto-sub"; str "--sub-lang"] ++ split lang (str " ")).
  { change (str "--write-auto-sub --sub-lang " ++ lang)
      with (str "--write-auto-sub" ++ 32 :: (str "--sub-lang" ++ 32 :: lang)).
    change (str " ") with [32].
    rewrite split_app_sep by (vm_compute; repeat constructor).
    rewrite split_app_sep by (vm_compute; repeat constructor). reflexivity. }
  assert (H2 : split (str "--write-sub --sub-lang " ++ lang) (str " ")
               = [str "--write-sub"; str "--sub-lang"] ++ split lang (str " ")).
  { change (str "--write-sub --sub-lang " ++ lang)
      with (str "--write-sub" ++ 32 :: (str "--sub-lang" ++ 32 :: lang)).
    change (str " ") with [32].
    rewrite split_app_sep by (vm_compute; repeat constructor).
    rewrite split_app_sep by (vm_compute; repeat constructor). reflexivity. }
  destruct Hin as [<-|[<-|[]]]; unfold YtDlp.transcriptArgs; cbn [YtDlp.option].
  - exists (str "--write-auto-sub"). split; [now left|]. rewrite H1. reflexivity.
  - exists (str "--write-sub"). split; [now right|]. rewrite H2. reflexivity.
Qed.

Definition klingon_attempt : YtDlp.Attempt :=
  YtDlp.mkAttempt (str "--write-sub --sub-lang tlh") (str "tlh manual").

Lemma transcriptArgs_language_witness :
  exists flag,
    (flag = str "--write-auto-sub" \/ flag = str "--write-sub")
    /\ YtDlp.transcriptArgs klingon_attempt (str "vtt") (str "/tmp/s") (YtDlp.watchUrl (str "x"))
       = [str "--skip-download"; flag; str "--sub-lang"]
         ++ split (str "tlh") (str " ")
         ++ [str "--sub-format"; str "vtt"; str "-o"; str "/tmp/s"; YtDlp.watchUrl (str "x")].
Proof.
  assert (H1 : eqs (str "tlh") (str "auto") || eqs (str "tlh") (str "ja")
                || eqs (str "tlh") (str "en") = false) by (vm_compute; reflexivity).
  assert (H2 : In klingon_attempt (YtDlp.transcriptAttempts (str "tlh")))
    by (right; left; reflexivity).
  exact (proj1 (transcriptArgs_language (str "tlh") (str "vtt") (str "/tmp/s")
                  (YtDlp.watchUrl (str "x")) klingon_attempt H1 H2)).
Defined.

Section DownloadFacts.
Import Validator.

Lemma lower_not_space c : is_lower c = true -> eqc c 32 = false.
Proof.
  unfold is_lower, in_range, eqc. intros H. apply andb_true_iff in H as [H1 H2].
  apply Z.leb_le in H1, H2. apply Z.eqb_neq. lia.
Qed.

Lemma upper_not_space c : is_upper c = true -> eqc c 32 = false.
Proof.
  unfold is_upper, in_range, eqc. intros H. apply andb_true_iff in H as [H1 H2].
  apply Z.leb_le in H1, H2. apply Z.eqb_neq. lia.
Qed.

(** A language code that passes the check holds no space. *)
Lemma valid_language_no_space lang :
  validateLanguageCode lang = true -> Forall (fun c => eqc c 32 = false) lang.
Proof.
  intros H. apply validateLanguageCode_iff in H
    as [(a & b & -> & Ha & Hb)|[(a & b & c & d & -> & Ha & Hb & Hc & Hd)|[->|[->| ->]]]].
  - repeat constructor; now apply lower_not_space.
  - repeat constructor; try (now apply lower_not_space); now apply upper_not_space.
  - vm_compute. repeat constructor.
  - vm_compute. repeat constructor.
  - vm_compute. repeat constructor.
Qed.

Lemma valid_format format :
  validateSubtitleFormat format = true ->
  format = str "srt" \/ format = str "vtt" \/ format = str "json" \/ format = str "best".
Proof.
  unfold validateSubtitleFormat. cbn [existsb].
  rewrite orb_false_r, !orb_true_iff, !eqs_eq. tauto.
Qed.

End DownloadFacts.

(** X7: when the three checks of [downloadSubtitles] pass, every attempt
    calls yt-dlp with [--skip-download], one or two of the flags
    [--write-sub] and [--write-auto-sub], [--sub-lang] and one language
    argument (the language asked for, or [ja], [en] or [ja,en]), then
    [--sub-format] and the format unless the format is [best], the fixed
    headers, and [-o], the output path and the URL: the language and the
    format are one argument each. *)
Theorem downloadArgs_checked :
  forall videoUrl lang format outputPath attempt,
    YtDlp.downloadChecks videoUrl lang format = Validator.Ok tt ->
    In attempt (YtDlp.downloadAttempts lang) ->
    exists flags sublang,
      YtDlp.downloadArgs attempt format outputPath videoUrl
      = [str "--skip-download"] ++ flags ++ [str "--sub-lang"; sublang]
        ++ (if eqs format (str "best") then [] else [str "--sub-format"; format])
        ++ [ str "--user-agent"; YtDlp.userAgent;
             str "--referer"; str "https://www.youtube.com/";
             str "--add-header"; str "Accept-Language:ja,en;q=0.9";
             str "--extractor-args"; str "youtube:player_client=android,web";
             str "-o"; outputPath; videoUrl ]
      /\ (flags = [str "--write-sub"] \/ flags = [str "--write-auto-sub"]
          \/ flags = [str "--write-sub"; str "--write-auto-sub"])
      /\ (sublang = lang \/ sublang = str "ja" \/ sublang = str "en"
          \/ sublang = str "ja,en").
Proof.
  intros videoUrl lang format outputPath attempt Hc Hin.
  unfold YtDlp.downloadChecks in Hc.
  destruct (Validator.validateVideoUrl videoUrl); [|discriminate].
  destruct (Validator.validateLanguageCode lang) eqn:El; [|discriminate].
  destruct (Validator.validateSubtitleFormat format) eqn:Ef; [|discriminate].
  clear Hc. cbn [negb] in *.
  assert (Hf : match YtDlp.formatOption format with
               | [] => []
               | c :: o => split (c :: o) (str " ")
               end
               = if eqs format (str "best") then [] else [str "--sub-format"; format]).
  { apply valid_format in Ef as [->|[->|[->| ->]]]; vm_compute; reflexivity. }
  pose proof (valid_language_no_space lang El) as Hns.
  unfold YtDlp.downloadArgs. rewrite Hf. clear Hf Ef.
  assert (Hsplit : forall flag,
             Forall (fun c => eqc c 32 = false) flag ->
             split (flag ++ 32 :: (str "--sub-lang" ++ 32 :: lang)) [32]
             = [flag; str "--sub-lang"; lang]).
  { intros flag Hflag. rewrite split_app_sep by exact Hflag.
    rewrite split_app_sep by (vm_compute; repeat constructor).
    now rewrite split_no_sep. }
  unfold YtDlp.downloadAttempts in Hin.
  destruct (eqs lang (str "auto") || eqs lang (str "ja")).
  - destruct Hin as [<-|[<-|[<-|[]]]]; cbn [YtDlp.langOption].
    + exists [str "--write-sub"], (str "ja"). split; [reflexivity|]. auto.
    + exists [str "--write-auto-sub"], (str "ja"). split; [reflexivity|]. auto.
    + exists [str "--write-sub"; str "--write-auto-sub"], (str "ja,en").
      split; [reflexivity|]. auto 6.
  - destruct (eqs lang (str "en")).
    + destruct Hin as [<-|[<-|[]]]; cbn [YtDlp.langOption].
      * exists [str "--write-sub"], (str "en"). split; [reflexivity|]. auto.
      * exists [str "--write-auto-sub"], (str "en"). split; [reflexivity|]. auto.
    + destruct Hin as [<-|[<-|[]]]; cbn [YtDlp.langOption].
      * exists [str "--write-sub"], lang. split; [|auto].
        change (str "--write-sub --sub-lang " ++ lang)
          with (str "--write-sub" ++ 32 :: (str "--sub-lang" ++ 32 :: lang)).
        change (str " ") with [32].
        rewrite Hsplit by (vm_compute; repeat constructor). reflexivity.
      * exists [str "--write-auto-sub"], lang. split; [|auto].
        change (str "--write-auto-sub --sub-lang " ++ lang)
          with (str "--write-auto-sub" ++ 32 :: (str "--sub-lang" ++ 32 :: lang)).
        change (str " ") with [32].
        rewrite Hsplit by (vm_compute; repeat constructor). reflexivity.
Qed.

Definition french_attempt : YtDlp.DownloadAttempt :=
  YtDlp.mkDownloadAttempt (str "--write-sub --sub-lang fr") (str "fr manual subtitles").

Lemma downloadArgs_checked_witness :
  exists flags sublang,
    YtDlp.downloadArgs french_attempt (str "srt") (str "/tmp/s") (str "dQw4w9WgXcQ")
    = [str "--skip-download"] ++ flags ++ [str "--sub-lang"; sublang]
      ++ (if eqs (str "srt") (str "best") then [] else [str "--sub-format"; str "srt"])
      ++ [ str "--user-agent"; YtDlp.userAgent;
           str "--referer"; str "https://www.youtube.com/";
           str "--add-header"; str "Accept-Language:ja,en;q=0.9";
           str "--extractor-args"; str "youtube:player_client=android,web";
           str "-o"; str "/tmp/s"; str "dQw4w9WgXcQ" ]
    /\ (flags = [str "--write-sub"] \/ flags = [str "--write-auto-sub"]
        \/ flags = [str "--write-sub"; str "--write-auto-sub"])
    /\ (sublang = str "fr" \/ sublang = str "ja" \/ sublang = str "en"
        \/ sublang = str "ja,en").
Proof.
  assert (H1 : YtDlp.downloadChecks (str "dQw4w9WgXcQ") (str "fr") (str "srt")
               = Validator.Ok tt) by (vm_compute; reflexivity).
  assert (H2 : In french_attempt (YtDlp.downloadAttempts (str "fr")))
    by (left; reflexivity).
  exact (downloadArgs_checked (str "dQw4w9WgXcQ") (str "fr") (str "srt") (str "/tmp/s")
           french_attempt H1 H2).
Defined.

(** ** The languages that yt-dlp lists *)

Section ListedCodes.
Import Validator Match YtDlp.

(** What the group [([a-z]{2}(?:-[A-Z]{2})?)] holds is a code that
    [validateLanguageCode] accepts. *)
Lemma re_code_valid prev s n :
  In n (matches re_code prev s) -> validateLanguageCode (firstn n s) = true.
Proof.
  unfold re_code. intros H. apply in_matches_Seq in H as (n1 & n2 & H1 & H2 & ->).
  apply in_matches_Rep_Chr in H1 as (-> & Hlen & Hall).
  destruct s as [|a [|b rest]]; try (cbn [List.length] in Hlen; lia).
  cbn [firstn] in Hall. inversion Hall as [|? ? Ha Hall']; subst.
  inversion Hall' as [|? ? Hb _]; subst. cbn [skipn] in H2.
  apply validateLanguageCode_iff.
  apply in_matches_Opt in H2 as [H2| ->].
  - apply in_matches_Seq in H2 as (n5 & n6 & H5 & H6 & ->).
    apply in_matches_Chr in H5 as (-> & c0 & rest' & -> & Hc0).
    apply eqc_eq in Hc0. subst c0. cbn [skipn] in H6.
    apply in_matches_Rep_Chr in H6 as (-> & Hlen' & Hall2).
    destruct rest' as [|c [|d rest2]]; try (cbn [List.length] in Hlen'; lia).
    cbn [firstn] in Hall2. inversion Hall2 as [|? ? Hc Hall3]; subst.
    inversion Hall3 as [|? ? Hd _]; subst.
    right. left. exists a, b, c, d. cbn [Nat.add firstn]. auto.
  - left. exists a, b. cbn [Nat.add firstn]. auto.
Qed.

Lemma seq_matches_length rs : forall ns prev s,
  In ns (seq_matches rs prev s) -> List.length ns = List.length rs.
Proof.
  induction rs as [|r rs IH]; intros ns prev s Hin.
  - cbn [seq_matches In] in Hin. destruct Hin as [<-|[]]. reflexivity.
  - apply in_seq_matches_cons in Hin as (n & ns' & -> & _ & Hin).
    cbn [List.length]. f_equal. exact (IH _ _ _ Hin).
Qed.

Lemma pieces_length ns : forall s, List.length (pieces ns s) = List.length ns.
Proof.
  induction ns as [|n ns IH]; intros s; cbn [pieces List.length]; [reflexivity|].
  now rewrite IH.
Qed.

(** The second part of a match of a pattern that begins [^(code)] *)
Lemma exec_code_valid rs line ps :
  exec (Bol :: re_code :: rs) line = Some ps ->
  exists p0 group1 ps', ps = p0 :: group1 :: ps'
                        /\ validateLanguageCode group1 = true
                        /\ List.length ps' = List.length rs.
Proof.
  unfold exec. intros H.
  apply exec_from_found in H as (before & after & prev' & ns & -> & Hin & ->).
  apply in_seq_matches_cons in Hin as (n0 & ns0 & -> & H0 & Hin).
  apply in_seq_matches_cons in Hin as (n1 & ns1 & -> & H1 & Hin).
  assert (n0 = 0%nat) as ->.
  { cbn [matches] in H0. destruct prev'; [contradiction|].
    destruct H0 as [<-|[]]. reflexivity. }
  cbn [skipn] in H1. cbn [pieces skipn firstn].
  exists [], (firstn n1 after), (pieces ns1 (skipn n1 after)).
  split; [reflexivity|]. split; [exact (re_code_valid _ _ _ H1)|].
  rewrite pieces_length. exact (seq_matches_length _ _ _ _ Hin).
Qed.

Lemma existsb_eqs_false x l : existsb (eqs x) l = false -> ~ In x l.
Proof.
  intros H Hin. rewrite <- not_true_iff_false in H. apply H.
  apply existsb_exists. exists x. split; [exact Hin|apply eqs_refl].
Qed.

Lemma set_add_ok (P : jsstring -> Prop) langs x :
  P x -> Forall P langs /\ NoDup langs -> Forall P (set_add langs x) /\ NoDup (set_add langs x).
Proof.
  intros Hx [Hall Hnd]. unfold set_add. destruct (existsb (eqs x) langs) eqn:E; [now split|].
  split.
  - apply Forall_app. split; [exact Hall|now constructor].
  - apply NoDup_app; [exact Hnd|repeat constructor; intros []|].
    intros y Hy [<-|[]]. exact (existsb_eqs_false _ _ E Hy).
Qed.

End ListedCodes.

(** X8: every language that [getAvailableTranscriptLanguages] returns is a
    code that [validateLanguageCode] accepts, whatever yt-dlp printed and
    also when the call failed, and no language is returned twice. *)
Theorem getAvailableTranscriptLanguages_valid :
  forall stdout,
    Forall (fun lang => Validator.validateLanguageCode lang = true)
           (YtDlp.getAvailableTranscriptLanguages stdout)
    /\ NoDup (YtDlp.getAvailableTranscriptLanguages stdout).
Proof.
  intros [out|]; cbn [YtDlp.getAvailableTranscriptLanguages].
  - generalize (split out (str (String "010" EmptyString))). intros lines.
    assert (H : Forall (fun lang => Validator.validateLanguageCode lang = true) []
                /\ NoDup (@nil jsstring)) by (split; constructor).
    revert H. generalize (@nil jsstring).
    induction lines as [|line lines IH]; intros langs H; cbn [fold_left]; [exact H|].
    apply IH.
    destruct (Match.exec YtDlp.re_language_line line) as [ps|] eqn:E; [|exact H].
    apply exec_code_valid in E as (p0 & group1 & ps' & -> & Hv & Hlen).
    destruct ps' as [|p2 [|p3 ps']]; try exact H; try (cbn [List.length] in Hlen; lia).
    now apply set_add_ok.
  - split; [repeat constructor|].
    repeat constructor. intros [].
Qed.

Section Substrings.

Lemma includes_iff p : forall s,
  includes s p = true <-> exists x y, s = x ++ p ++ y.
Proof.
  induction s as [|c s IH]; cbn [includes].
  - rewrite orb_false_r, startsWith_app. split.
    + intros (rest & H). now exists [], rest.
    + intros (x & y & H). destruct x; [now exists y|discriminate].
  - rewrite orb_true_iff, startsWith_app, IH. split.
    + intros [(rest & H)|(x & y & ->)]; [now exists [], rest|now exists (c :: x), y].
    + intros (x & y & H). destruct x as [|c' x]; [left; now exists y|right].
      injection H as -> ->. now exists x, y.
Qed.

Lemma includes_inside p a line b :
  includes line p = true -> includes (a ++ line ++ b) p = true.
Proof.
  rewrite !includes_iff. intros (x & y & ->). exists (a ++ x), (y ++ b).
  now rewrite <- !app_assoc.
Qed.

Lemma split_cons_hd d s :
  exists h t, split s [d] = h :: t.
Proof.
  destruct s as [|c' s]; [now exists [], []|].
  rewrite split_cons. destruct (eqc c' d); eexists _, _; reflexivity.
Qed.

Lemma split_hd_prefix d : forall s, exists b, s = hd [] (split s [d]) ++ b.
Proof.
  induction s as [|c s IH]; [now exists []|].
  rewrite split_cons. destruct (eqc c d); cbn [hd].
  - now exists (c :: s).
  - destruct IH as (b & Hb). exists b. cbn [app]. now rewrite <- Hb.
Qed.

(** The pieces of a split are parts of the string. *)
Lemma split_piece_inside d : forall s line,
  In line (split s [d]) -> exists a b, s = a ++ line ++ b.
Proof.
  induction s as [|c s IH]; intros line Hin.
  - destruct Hin as [<-|[]]. now exists [], [].
  - rewrite split_cons in Hin. destruct (eqc c d).
    + destruct Hin as [<-|Hin]; [now exists [], (c :: s)|].
      destruct (IH line Hin) as (a & b & ->). now exists (c :: a), b.
    + destruct (split_cons_hd d s) as (h & t & E).
      destruct (split_hd_prefix d s) as (b0 & Hb0).
      rewrite E in Hin, Hb0. cbn [hd tl] in Hin, Hb0.
      destruct Hin as [<-|Hin].
      * exists [], b0. cbn [app]. now rewrite <- Hb0.
      * destruct (IH line) as (a & b & ->); [rewrite E; now right|].
        now exists (c :: a), b.
Qed.

Lemma split_lines_exclude p s :
  includes s p = false ->
  Forall (fun line => includes line p = false) (split s (str (String "010" EmptyString))).
Proof.
  intros H. apply Forall_forall. intros line Hin.
  change (str (String "010" EmptyString)) with [10] in Hin.
  apply split_piece_inside in Hin as (a & b & ->).
  destruct (includes line p) eqn:E; [|reflexivity].
  now rewrite (includes_inside p a line b E) in H.
Qed.

End Substrings.

(** X9: in the lists that [listAvailableSubtitles] returns, every code is one
    that [validateLanguageCode] accepts and every name is non-empty, and
    [totalLanguages] is the number of entries of the two lists. When the
    output of yt-dlp names no section (neither [Available subtitles] nor
    [Available automatic captions]), nothing is listed. *)
Theorem listAvailableSubtitles_codes :
  forall stdout,
    let listed := YtDlp.listAvailableSubtitles stdout in
    let ok := fun subtitle =>
                Validator.validateLanguageCode (YtDlp.code subtitle) = true
                /\ YtDlp.name subtitle <> [] in
    Forall ok (YtDlp.availableSubtitles listed)
    /\ Forall ok (YtDlp.autoGeneratedSubtitles listed)
    /\ YtDlp.totalLanguages listed
       = (List.length (YtDlp.availableSubtitles listed)
          + List.length (YtDlp.autoGeneratedSubtitles listed))%nat
    /\ (includes stdout (str "Available subtitles")
        || includes stdout (str "Available automatic captions") = false ->
        YtDlp.availableSubtitles listed = []
        /\ YtDlp.autoGeneratedSubtitles listed = []).
Proof.
  intros stdout listed ok.
  set (lines := split stdout (str (String "010" EmptyString))).
  (* the invariant of the loop *)
  assert (Hinv : forall lines st,
             Forall ok (snd (fst st)) /\ Forall ok (snd st) ->
             let st' := fold_left YtDlp.list_step lines st in
             Forall ok (snd (fst st')) /\ Forall ok (snd st')).
  { clear. induction lines as [|line lines IH]; intros st H; cbn [fold_left]; [exact H|].
    apply IH. destruct st as [[section available] autoGenerated].
    cbn [fst snd] in H. destruct H as [H1 H2]. unfold YtDlp.list_step.
    destruct (includes line (str "Available subtitles")); [now split|].
    destruct (includes line (str "Available automatic captions")); [now split|].
    destruct (Match.exec YtDlp.re_subtitle_line line) as [ps|] eqn:E; [|now split].
    apply exec_code_valid in E as (p0 & group1 & ps' & -> & Hv & Hlen).
    destruct ps' as [|p2 [|p3 [|p4 [|group3 [|p6 ps']]]]];
      try (cbn [List.length] in Hlen; lia).
    assert (Hok : ok (YtDlp.mkSubtitle group1
                        (match group3 with [] => group1 | _ :: _ => group3 end))).
    { split; [exact Hv|]. cbn [YtDlp.name].
      destruct group3; [|discriminate]. intros ->. vm_compute in Hv. discriminate. }
    destruct section; cbn [fst snd]; split; try assumption;
      apply Forall_app; split; try assumption; now constructor. }
  (* without a header the section is never set *)
  assert (Hnone : forall lines,
             Forall (fun line => includes line (str "Available subtitles") = false) lines ->
             Forall (fun line => includes line (str "Available automatic captions") = false)
                    lines ->
             fold_left YtDlp.list_step lines (YtDlp.NoSection, [], [])
             = (YtDlp.NoSection, [], [])).
  { clear. induction lines as [|line lines IH]; intros H1 H2; [reflexivity|].
    inversion H1 as [|? ? Ha H1']; inversion H2 as [|? ? Hb H2']; subst.
    cbn [fold_left]. unfold YtDlp.list_step at 2. rewrite Ha, Hb.
    destruct (Match.exec YtDlp.re_subtitle_line line) as [ps|]; [|now apply IH].
    destruct ps as [|p0 [|g1 [|p2 [|p3 [|p4 [|g3 [|p6 ps]]]]]]]; now apply IH. }
  specialize (Hinv lines (YtDlp.NoSection, [], [])).
  cbn [fst snd] in Hinv. specialize (Hinv (conj (Forall_nil _) (Forall_nil _))).
  cbv zeta in Hinv.
  subst listed. unfold YtDlp.listAvailableSubtitles. fold lines.
  destruct (fold_left YtDlp.list_step lines (YtDlp.NoSection, [], []))
    as [[section available] autoGenerated] eqn:E.
  cbn [YtDlp.availableSubtitles YtDlp.autoGeneratedSubtitles YtDlp.totalLanguages fst snd]
    in *.
  destruct Hinv as [H1 H2].
  split; [exact H1|]. split; [exact H2|]. split; [reflexivity|].
  intros Hh. apply orb_false_iff in Hh as [Ha Hb].
  rewrite Hnone in E by (now apply split_lines_exclude).
  injection E as _ <- <-. now split.
Qed.

(** ** The comments kept by the handler *)

Section LanguageFilter.
Import CommentFilter CommentHandler.

(** The class [[A-Za-z\s\d\W]] holds every code unit but the underscore. *)
Lemma en_class c :
  is_alpha c || is_space c || is_digit c || negb (is_word c) = negb (eqc c 95).
Proof.
  destruct (eqc c 95) eqn:E.
  - apply eqc_eq in E. subst c. reflexivity.
  - unfold is_word. rewrite E.
    destruct (is_alpha c), (is_digit c), (is_space c); reflexivity.
Qed.

End LanguageFilter.

(** A text that the English pattern matches: not empty, and without
    underscore. *)
Definition no_underscore (s : jsstring) : bool :=
  match s with
  | [] => false
  | _ :: _ => forallb (fun c => negb (eqc c 95)) s
  end.

(** X10: the language filter for [en] keeps exactly the comments whose text
    is not empty and holds no underscore, whatever their script: the class
    of the pattern holds every other code unit. (A comment without text is
    tested as the string [undefined], and kept.) *)
Theorem filterByLanguage_en :
  forall comments,
    CommentHandler.filterByLanguage (Some (str "en")) comments
    = Some (filter (fun comment => no_underscore (CommentHandler.text_string comment))
                   comments).
Proof.
  intros comments. unfold CommentHandler.filterByLanguage.
  change (CommentFilter.truthy (Some (str "en"))) with true. cbv iota.
  change (CommentHandler.own (str "en") CommentHandler.langPatterns)
    with (Some (Seq Bol
                  (Seq (Plus (Chr (fun c => is_alpha c || is_space c || is_digit c
                                            || negb (is_word c))))
                       Eol))).
  cbv iota. f_equal. apply filter_ext. intros comment.
  generalize (CommentHandler.text_string comment). intros s.
  apply eq_true_iff_eq. rewrite test_whole_Plus_Chr.
  unfold no_underscore. destruct s as [|c s].
  - split; [intros [H _]; now contradiction H|discriminate].
  - rewrite forallb_forall, Forall_forall. split.
    + intros [_ H] x Hx. rewrite <- en_class. now apply H.
    + intros H. split; [discriminate|]. intros x Hx. rewrite en_class. now apply H.
Qed.

Section FilterFacts.
Import CommentFilter.
Variable toLowerCase : jsstring -> jsstring.
Variable options : CommentFilterOptions.
Variable videoAuthorChannelId : option jsstring.

(** Whether the classifier filters a comment *)
Definition flagged (c : Comment) : bool :=
  shouldFilterComment toLowerCase c options videoAuthorChannelId.

(** The classifier does not look at the replies of a comment. *)
Lemma flagged_replies i t a r r' :
  flagged (mkComment i t a r) = flagged (mkComment i t a r').
Proof. reflexivity. Qed.

(** A comment, once its replies are filtered *)
Definition pruned (c : Comment) : Comment :=
  match replies c with
  | Some rs => mkComment (id c) (text c) (authorChannelId c)
                         (Some (filter (fun r => negb (flagged r)) rs))
  | None => c
  end.

Lemma flagged_pruned c : flagged (pruned c) = flagged c.
Proof.
  unfold pruned. destruct c as [i t a [rs|]]; cbn [replies id text authorChannelId];
    reflexivity.
Qed.

Lemma pruned_pruned c : pruned (pruned c) = pruned c.
Proof.
  unfold pruned. destruct c as [i t a [rs|]]; cbn [replies id text authorChannelId];
    [|reflexivity].
  now rewrite filter_idem.
Qed.

Lemma filter_step_eq c :
  filter_step toLowerCase options videoAuthorChannelId c
  = (if flagged c then c else pruned c, negb (flagged c)).
Proof.
  unfold filter_step, pruned. fold (flagged c).
  destruct (flagged c); cbn [negb]; [reflexivity|].
  destruct (replies c); reflexivity.
Qed.

(** The array that [filterComments] returns when filtering is on *)
Lemma filterComments_enabled comments :
  is_false (enableFiltering options) = false ->
  fst (filterComments toLowerCase comments options videoAuthorChannelId)
  = map pruned (filter (fun c => negb (flagged c)) comments).
Proof.
  intros H. unfold filterComments. rewrite H. cbn [fst].
  induction comments as [|c cs IH]; [reflexivity|].
  cbn [map filter]. rewrite filter_step_eq. cbn [snd].
  destruct (flagged c); cbn [negb map fst]; [exact IH|]. now rewrite IH.
Qed.

Lemma filter_map_pruned comments :
  filter (fun c => negb (flagged c)) (map pruned comments)
  = map pruned (filter (fun c => negb (flagged c)) comments).
Proof.
  induction comments as [|c cs IH]; [reflexivity|].
  cbn [map filter]. rewrite flagged_pruned.
  destruct (flagged c); cbn [negb map]; now rewrite IH.
Qed.

Lemma is_false_disabled : is_false (enableFiltering options) = true ->
  enableFiltering options = Some false.
Proof. destruct (enableFiltering options) as [[|]|]; now intros. Qed.

End FilterFacts.

(** X11: every comment in the array that [filterComments] returns is one that
    [shouldFilterComment] does not filter under the same options, and so is
    each of its replies; filtering the array returned once more returns it
    unchanged. *)
Theorem filterComments_sound :
  forall toLowerCase comments options videoAuthorChannelId,
    let passes := fun c =>
      CommentFilter.shouldFilterComment toLowerCase c options videoAuthorChannelId
      = false in
    let returned :=
      fst (CommentFilter.filterComments toLowerCase comments options
             videoAuthorChannelId) in
    Forall (fun c =>
              passes c
              /\ match CommentFilter.replies c with
                 | Some rs => Forall passes rs
                 | None => True
                 end) returned
    /\ fst (CommentFilter.filterComments toLowerCase returned options
              videoAuthorChannelId) = returned.
Proof.
  intros lower comments options vid passes returned.
  destruct (CommentFilter.is_false (CommentFilter.enableFiltering options)) eqn:E.
  - (* filtering is off: nothing is ever filtered *)
    apply is_false_disabled in E.
    assert (Hall : forall c, passes c)
      by (intros c; now apply shouldFilterComment_disabled).
    subst returned. unfold CommentFilter.filterComments. rewrite E. cbn [CommentFilter.is_false fst].
    split; [|reflexivity].
    apply Forall_forall. intros c _. split; [apply Hall|].
    destruct (CommentFilter.replies c); [|exact I].
    apply Forall_forall. intros r _. apply Hall.
  - subst returned. rewrite !(filterComments_enabled _ _ _ _ E).
    split.
    + apply Forall_forall. intros c Hin. apply in_map_iff in Hin as (c0 & <- & Hin).
      apply filter_In in Hin as [_ Hc0]. apply negb_true_iff in Hc0.
      split; [unfold passes; change (flagged lower options vid (pruned lower options vid c0) = false);
              now rewrite flagged_pruned|].
      unfold pruned. destruct c0 as [i t a [rs|]];
        cbn [CommentFilter.replies CommentFilter.id CommentFilter.text
             CommentFilter.authorChannelId]; [|exact I].
      apply Forall_forall. intros r Hr. apply filter_In in Hr as [_ Hr].
      apply negb_true_iff in Hr. exact Hr.
    + rewrite filter_map_pruned, filter_idem, map_map. apply map_ext.
      intros c. apply pruned_pruned.
Qed.

(** X12: the statistics agree with the filter: on the same comments and
    options, [filterComments] returns as many comments as [getFilterStats]
    counts as kept; [filtered] and [kept] add up to [total], the number of
    comments. *)
Theorem getFilterStats_consistent :
  forall toLowerCase toFixed1 comments options videoAuthorChannelId,
    let stats :=
      CommentFilter.getFilterStats toLowerCase toFixed1 comments options
        videoAuthorChannelId in
    CommentFilter.total stats = List.length comments
    /\ (CommentFilter.filtered stats + CommentFilter.kept stats)%nat
       = CommentFilter.total stats
    /\ List.length (fst (CommentFilter.filterComments toLowerCase comments options
                           videoAuthorChannelId))
       = CommentFilter.kept stats.
Proof.
  intros lower fixed comments options vid stats. subst stats.
  unfold CommentFilter.getFilterStats.
  cbn [CommentFilter.total CommentFilter.filtered CommentFilter.kept].
  change (fun c => CommentFilter.shouldFilterComment lower c options vid)
    with (flagged lower options vid).
  pose proof (filter_length (flagged lower options vid) comments) as Hlen.
  split; [reflexivity|]. split; [lia|].
  destruct (CommentFilter.is_false (CommentFilter.enableFiltering options)) eqn:E.
  - apply is_false_disabled in E.
    rewrite (filter_none (flagged lower options vid) comments)
      by (intros c; now apply shouldFilterComment_disabled).
    unfold CommentFilter.filterComments. rewrite E. cbn [CommentFilter.is_false fst List.length].
    lia.
  - rewrite (filterComments_enabled _ _ _ _ E), length_map. lia.
Qed.

Section RateFacts.

Lemma zero_rate (n : Z) :
  0 < n < 2 ^ 53 -> (of_nat 0 / of_Z n * 100)%float = 0%float.
Proof.
  intros Hn. destruct (Prim2SF_of_Z n Hn) as (m & e & Hp & _).
  apply Prim2SF_inj. rewrite mul_spec, div_spec, Hp.
  reflexivity.
Qed.

End RateFacts.

(** X13: in [getComments] the statistics are computed on the comments that
    [filterComments] has returned, with the same options: they count no
    filtered comment, whatever was removed, and the rate logged is that of
    the number 0 (the string [0%] when no comment is left). [filteredCount],
    the difference of the two lengths, is the number of comments that the
    classifier filters in the original array. (The array has less than
    [2^53] elements.) *)
Theorem applyFiltering_stats :
  forall toLowerCase toFixed1 comments videoAuthorChannelId,
    Z.of_nat (List.length comments) < 2 ^ 53 ->
    let result :=
      CommentHandler.applyFiltering toLowerCase toFixed1 false comments
        videoAuthorChannelId in
    let returned := fst (fst result) in
    let options := CommentFilter.mkOptions (Some true) None None None in
    exists stats,
      snd (fst result) = Some stats
      /\ CommentFilter.filtered stats = 0%nat
      /\ CommentFilter.kept stats = List.length returned
      /\ CommentFilter.filterRate stats
         = (match returned with [] => str "0" | _ :: _ => toFixed1 0%float end) ++ str "%"
      /\ snd result
         = Z.of_nat (CommentFilter.filtered
                       (CommentFilter.getFilterStats toLowerCase toFixed1 comments options
                          videoAuthorChannelId))
      /\ 0 <= snd result.
Proof.
  intros lower fixed comments vid Hlen result returned options.
  subst result returned. unfold CommentHandler.applyFiltering. cbn [negb fst snd].
  fold options.
  set (returned := fst (CommentFilter.filterComments lower comments options vid)).
  eexists. split; [reflexivity|].
  destruct (filterComments_sound lower comments options vid) as [Hs _].
  cbv zeta in Hs. fold returned in Hs.
  assert (Hnone : filter (fun c => CommentFilter.shouldFilterComment lower c options vid)
                         returned = []).
  { clear -Hs. induction Hs as [|c l [Hc _] _ IH]; [reflexivity|].
    cbn [filter]. now rewrite Hc. }
  destruct (getFilterStats_consistent lower fixed comments options vid) as (Ht & Hfk & Hk).
  cbv zeta in Ht, Hfk, Hk. fold returned in Hk.
  assert (Hle : (List.length returned <= List.length comments)%nat) by (rewrite Hk; lia).
  unfold CommentFilter.getFilterStats at 1 2 3.
  cbn [CommentFilter.filtered CommentFilter.kept CommentFilter.filterRate].
  rewrite Hnone. cbn [List.length]. rewrite Nat.sub_0_r.
  split; [reflexivity|]. split; [reflexivity|]. split; [|split; [lia|lia]].
  f_equal. destruct returned as [|c l]; [reflexivity|].
  replace (0 <? List.length (c :: l))%nat with true by reflexivity.
  f_equal. unfold of_nat at 2. apply zero_rate. cbn [List.length] in *. lia.
Qed.

Definition two_comments : list CommentFilter.Comment :=
  [ CommentFilter.mkComment (str "c1") (Some (str "First!")) (Some (str "UC1")) (Some []);
    CommentFilter.mkComment (str "c2") (Some (str "A clear explanation, thank you."))
      (Some (str "UC2")) (Some []) ].

Lemma applyFiltering_stats_witness :
  exists stats,
    snd (fst (CommentHandler.applyFiltering asciiToLowerCase toFixed1_zero false
                two_comments None)) = Some stats
    /\ CommentFilter.filtered stats = 0%nat.
Proof.
  assert (H : Z.of_nat (List.length two_comments) < 2 ^ 53) by (vm_compute; reflexivity).
  destruct (applyFiltering_stats asciiToLowerCase toFixed1_zero two_comments None H)
    as (stats & H1 & H2 & _).
  exists stats. split; [exact H1|exact H2].
Defined.

(** X14: a comment without text, or with a text of white space only, is
    filtered whenever filtering and the removal of noise are on and the
    comment is not the uploader's. *)
Theorem blank_comment_filtered :
  forall toLowerCase comment options videoAuthorChannelId,
    CommentFilter.enableFiltering options <> Some false ->
    CommentFilter.removeNoise options <> Some false ->
    CommentFilter.truthy videoAuthorChannelId
      && CommentFilter.strict_eq (CommentFilter.authorChannelId comment)
           videoAuthorChannelId = false ->
    Forall (fun c => is_space c = true) (CommentFilter.comment_text comment) ->
    CommentFilter.shouldFilterComment toLowerCase comment options videoAuthorChannelId
    = true.
Proof.
  intros lower comment options vid Hen Hnoise Hauthor Hblank.
  unfold CommentFilter.shouldFilterComment.
  replace (CommentFilter.is_false (CommentFilter.enableFiltering options)) with false
    by (destruct (CommentFilter.enableFiltering options) as [[|]|]; try reflexivity;
        now contradiction Hen).
  rewrite Hauthor.
  replace (CommentFilter.is_false (CommentFilter.removeNoise options)) with false
    by (destruct (CommentFilter.removeNoise options) as [[|]|]; try reflexivity;
        now contradiction Hnoise).
  assert (Hn : CommentFilter.noiseCheck (CommentFilter.comment_text comment) = true).
  { unfold CommentFilter.noiseCheck. apply trim_nil_iff in Hblank. rewrite Hblank.
    cbn [eqs]. rewrite orb_true_r. reflexivity. }
  rewrite Hn. cbn [negb andb].
  destruct (CommentFilter.spamCheck lower (CommentFilter.comment_text comment)),
    (CommentFilter.is_false (CommentFilter.removeSpam options)); reflexivity.
Qed.

Definition blank_comment : CommentFilter.Comment :=
  CommentFilter.mkComment (str "c1") (Some (str "   ")) (Some (str "UC1")) None.

Lemma blank_comment_filtered_witness :
  CommentFilter.shouldFilterComment asciiToLowerCase blank_comment default_options
    (Some (str "UC9")) = true.
Proof.
  apply blank_comment_filtered.
  - discriminate.
  - discriminate.
  - reflexivity.
  - vm_compute. repeat constructor.
Defined.

(** ** The text that the cleaning returns *)

Section CleanedText.
Import Subtitle.

Lemma is_punct_cases c :
  is_punct c = true ->
  c = 12290 \/ c = 12289 \/ c = 44 \/ c = 46 \/ c = 33 \/ c = 63 \/ c = 65281
  \/ c = 65311 \/ 48 <= c <= 57 \/ is_space c = true.
Proof.
  unfold is_punct.
  change (str "。、,.!?！？") with [12290; 12289; 44; 46; 33; 63; 65281; 65311].
  unfold one_of, is_digit, in_range. cbn [existsb]. unfold eqc.
  rewrite orb_false_r, !orb_true_iff, andb_true_iff, !Z.eqb_eq, !Z.leb_le. tauto.
Qed.

Lemma is_space_bound c : is_space c = true -> 9 <= c <= 65279 /\ c <> 38 /\ c <> 60
  /\ c <> 62 /\ c <> 91 /\ c <> 40 /\ c <> 9834.
Proof.
  unfold is_space, in_range, eqc.
  rewrite !orb_true_iff, !andb_true_iff, !Z.eqb_eq, !Z.leb_le. lia.
Qed.

Lemma punct_plain c : is_punct c = true -> plain_char c.
Proof.
  intros H. apply is_punct_cases in H.
  assert (Hk : c < 65393 -> is_halfwidth_kana c = false).
  { intros Hc. unfold is_halfwidth_kana, in_range, eqc.
    rewrite !orb_false_iff, andb_false_iff, !Z.eqb_neq, !Z.leb_gt. lia. }
  unfold plain_char.
  destruct H as [->|[->|[->|[->|[->|[->|[->|[->|[H|H]]]]]]]]];
    try (repeat split; try lia; apply Hk; lia).
  apply is_space_bound in H. repeat split; try lia. apply Hk. lia.
Qed.

End CleanedText.

(** X15: whatever the input, the text that [cleanSubtitleText] returns
    neither begins nor ends with white space, and each white space in it is
    one space (U+0020) followed by a code unit that is not white space: no
    tab, line break or wide space is left, and no run of spaces. *)
Theorem cleanSubtitleText_whitespace :
  forall text,
    let cleaned := Subtitle.cleanSubtitleText text in
    wsnormal cleaned /\ starts_nonspace cleaned /\ starts_nonspace (rev cleaned).
Proof.
  intros text cleaned. subst cleaned. unfold Subtitle.cleanSubtitleText. cbv zeta.
  destruct (test Subtitle.re_punct_only _); [repeat split|].
  match goal with |- context [trim (replace ?s _ _)] => set (y := s) end.
  change (replace y Subtitle.re_spaces (Subtitle.const (str " "))) with (wsnorm y).
  split; [|split].
  - apply wsnormal_trim. now apply (wsnormal_wsnorm (List.length y)).
  - unfold trim, trimStart. apply trimEnd_starts_nonspace, dropWhile_starts_nonspace.
  - apply trimEnd_ends_nonspace.
Qed.

(** X16: the text that [cleanSubtitleText] returns is never made of
    punctuation marks, digits and white space only: it is empty, or holds a
    code unit of another kind. The lines made of such code units only, a
    bare number or [...] for instance, are cleaned to the empty string. *)
Theorem cleanSubtitleText_not_punctuation :
  forall text,
    ~ punct_only (Subtitle.cleanSubtitleText text)
    /\ (Forall (fun c => Subtitle.is_punct c = true) text ->
        Subtitle.cleanSubtitleText text = []).
Proof.
  intros text. split.
  - unfold Subtitle.cleanSubtitleText. cbv zeta.
    destruct (test Subtitle.re_punct_only _) eqn:E; [now intros [H _]|].
    match goal with |- context [trim (replace ?s _ _)] => set (y := s) in * end.
    change (replace y Subtitle.re_spaces (Subtitle.const (str " "))) with (wsnorm y).
    intros H. apply punct_only_back, test_punct_only in H. congruence.
  - intros Hall.
    assert (Hplain : Forall plain_char text).
    { apply Forall_forall. intros c Hc. apply punct_plain.
      exact (proj1 (Forall_forall _ _) Hall c Hc). }
    rewrite (cleanSubtitleText_plain text Hplain).
    destruct (test Subtitle.re_punct_only (collapse_repeats (trim text))) eqn:E;
      [reflexivity|].
    assert (Hy : collapse_repeats (trim text) = []).
    { destruct (collapse_repeats (trim text)) as [|c y] eqn:Ey; [reflexivity|exfalso].
      rewrite <- not_true_iff_false in E. apply E, test_punct_only.
      split; [discriminate|]. rewrite <- Ey.
      apply Forall_collapse_repeats, Forall_trim, Hall. }
    rewrite Hy. reflexivity.
Qed.

Lemma cleanSubtitleText_not_punctuation_witness :
  Subtitle.cleanSubtitleText (str " 12... ?!") = [].
Proof.
  apply (proj2 (cleanSubtitleText_not_punctuation (str " 12... ?!"))).
  vm_compute. repeat constructor.
Defined.

Section KanaFacts.
Import Subtitle.

(** A replacement of single code units rewrites each code unit by itself. *)
Lemma replace_Chr_flat_map p f : forall s prev,
  replace_go (Chr p) f 0 prev s = flat_map (fun c => if p c then f [c] else [c]) s.
Proof.
  induction s as [|c s IH]; intros prev; cbn [replace_go flat_map].
  - rewrite first_match_Chr. reflexivity.
  - rewrite first_match_Chr. destruct (p c); cbn [firstn app]; now rewrite IH.
Qed.

(** The full-width code unit of a half-width katakana *)
Definition widen (c : char) : char :=
  match lookup [c] halfToFull with
  | Some [v] => v
  | _ => c
  end.

Definition kana_codes : list Z := map (fun i => 65393 + Z.of_nat i) (seq 0 47).

Lemma kana_code_listed c : is_halfwidth_kana c = true -> In c kana_codes.
Proof.
  unfold is_halfwidth_kana, in_range, eqc.
  rewrite !orb_true_iff, andb_true_iff, !Z.eqb_eq, !Z.leb_le. intros H.
  unfold kana_codes. apply in_map_iff. exists (Z.to_nat (c - 65393)). split; [lia|].
  apply in_seq. lia.
Qed.

Lemma kana_table_total :
  forallb (fun c => match lookup [c] halfToFull with
                    | Some [v] => negb (is_halfwidth_kana v)
                    | _ => false
                    end) kana_codes = true.
Proof. vm_compute. reflexivity. Qed.

(** Every code unit of the class of the pattern has one full-width code unit
    in the table, which is not in the class. *)
Lemma widen_kana c :
  is_halfwidth_kana c = true ->
  lookup [c] halfToFull = Some [widen c] /\ is_halfwidth_kana (widen c) = false.
Proof.
  intros H. apply kana_code_listed in H.
  pose proof (proj1 (forallb_forall _ _) kana_table_total c H) as Ht.
  cbv beta in Ht.
  unfold widen. destruct (lookup [c] halfToFull) as [[|v [|w l]]|]; try discriminate.
  split; [reflexivity|]. now apply negb_true_iff.
Qed.

Lemma convert_map text :
  convertHalfWidthToFullWidth text
  = map (fun c => if is_halfwidth_kana c then widen c else c) text.
Proof.
  unfold convertHalfWidthToFullWidth, replace. rewrite replace_Chr_flat_map.
  induction text as [|c s IH]; [reflexivity|]. cbn [flat_map map]. rewrite IH.
  destruct (is_halfwidth_kana c) eqn:E; [|reflexivity].
  now rewrite (proj1 (widen_kana c E)).
Qed.

End KanaFacts.

(** X17: [convertHalfWidthToFullWidth] replaces each code unit from U+FF71
    to U+FF9F by one full-width code unit and leaves every other code unit
    where it is: the length is kept, no code unit of that range is left, and
    converting twice is converting once. The half-width wo, small kana and
    long-vowel mark (U+FF66 to U+FF70), which the table lists but the
    pattern does not match, are left as they are. *)
Theorem convertHalfWidthToFullWidth_widens :
  forall text,
    let converted := Subtitle.convertHalfWidthToFullWidth text in
    List.length converted = List.length text
    /\ Forall (fun c => Subtitle.is_halfwidth_kana c = false) converted
    /\ (forall i, match nth_error text i with
                  | Some c => if Subtitle.is_halfwidth_kana c
                              then nth_error converted i = Some (widen c)
                              else nth_error converted i = Some c
                  | None => nth_error converted i = None
                  end)
    /\ Subtitle.convertHalfWidthToFullWidth converted = converted
    /\ Subtitle.convertHalfWidthToFullWidth (str "ｦｧｨｩｪｫｬｭｮｯｰ") = str "ｦｧｨｩｪｫｬｭｮｯｰ".
Proof.
  intros text converted. subst converted. rewrite !convert_map.
  split; [apply length_map|]. split; [|split; [|split]].
  - apply Forall_forall. intros c Hin. apply in_map_iff in Hin as (c0 & <- & _).
    destruct (Subtitle.is_halfwidth_kana c0) eqn:E; [|exact E].
    apply (widen_kana c0 E).
  - intros i. rewrite nth_error_map. destruct (nth_error text i) as [c|]; [|reflexivity].
    cbn [option_map]. now destruct (Subtitle.is_halfwidth_kana c).
  - rewrite map_map. apply map_ext. intros c.
    destruct (Subtitle.is_halfwidth_kana c) eqn:E; [|now rewrite E].
    now rewrite (proj2 (widen_kana c E)).
  - vm_compute. reflexivity.
Qed.

(** ** Files without cues *)

Section NoCue.
Variable numberToString : float -> jsstring.
Import Subtitle.

Lemma srt_loop_no_arrow : forall fuel lines st,
  Forall (fun l => includes l arrow = false) lines ->
  (List.length lines < fuel)%nat ->
  srt_loop numberToString fuel lines st = Some (rev (fst st)).
Proof.
  induction fuel as [|fuel IH]; intros lines st Hall Hf; [lia|].
  cbn [srt_loop]. destruct lines as [|l rest]; [reflexivity|].
  inversion Hall as [|? ? Hl Hrest]; subst. cbn [List.length] in Hf.
  assert (Hgo : srt_loop numberToString fuel rest st = Some (rev (fst st)))
    by (apply IH; [exact Hrest|lia]).
  destruct (eqs (trim l) []); [exact Hgo|].
  destruct (test re_number (trim l)); [|exact Hgo].
  destruct rest as [|l2 rest2]; [exact Hgo|].
  inversion Hrest as [|? ? Hl2 _]; subst. rewrite Hl2. exact Hgo.
Qed.

Lemma skipVttNoteBlock_suffix lines :
  exists skipped, lines = skipped ++ skipVttNoteBlock lines.
Proof.
  induction lines as [|l rest IH]; [now exists []|]. cbn [skipVttNoteBlock].
  destruct (_ && _); [|now exists []].
  destruct IH as (skipped & H). exists (l :: skipped). cbn [app]. now rewrite <- H.
Qed.

Lemma vtt_loop_no_arrow : forall fuel lines st,
  Forall (fun l => includes l arrow = false) lines ->
  (List.length lines < fuel)%nat ->
  vtt_loop numberToString fuel lines st = Some (rev (fst st)).
Proof.
  induction fuel as [|fuel IH]; intros lines st Hall Hf; [lia|].
  cbn [vtt_loop]. destruct lines as [|l rest]; [reflexivity|].
  inversion Hall as [|? ? Hl Hrest]; subst. cbn [List.length] in Hf.
  assert (Hgo : vtt_loop numberToString fuel rest st = Some (rev (fst st)))
    by (apply IH; [exact Hrest|lia]).
  destruct (shouldSkipVttLine l); [exact Hgo|].
  destruct (eqs (trim l) (str "NOTE")).
  - destruct (skipVttNoteBlock_suffix rest) as (skipped & Hs).
    apply IH.
    + rewrite Hs in Hrest. apply Forall_app in Hrest. exact (proj2 Hrest).
    + apply (f_equal (@List.length jsstring)) in Hs. rewrite length_app in Hs. lia.
  - rewrite Hl. exact Hgo.
Qed.

(** Every list that [processTranscript] returns for an empty array is
    empty. *)
Lemma slice_nil {A : Type} start end_ : slice (@nil A) start end_ = [].
Proof. unfold slice. now rewrite skipn_nil, firstn_nil. Qed.

Lemma flat_map_nil {A B : Type} (f : A -> list B) l :
  (forall x, f x = []) -> flat_map f l = [].
Proof. intros H. induction l as [|x l IH]; cbn [flat_map]; [reflexivity|]. now rewrite H, IH. Qed.

Lemma array_get_nil {A : Type} idx : array_get (@nil A) idx = None.
Proof.
  unfold array_get. destruct (to_integer idx) as [z|]; [|reflexivity].
  destruct (0 <=? z); [|reflexivity]. now destruct (Z.to_nat z).
Qed.

Lemma processTranscript_nil {A : Type} maxSegments mode :
  segments (processTranscript numberToString (@nil A) maxSegments mode) = [].
Proof.
  assert (Hsmart : segments (smart_result numberToString (@nil A) maxSegments) = []).
  { unfold smart_result. cbn [segments]. unfold intro, conclusion. rewrite !slice_nil.
    unfold middleSegments. destruct (_ && _); [|reflexivity].
    cbv zeta. rewrite flat_map_nil; [reflexivity|].
    intros i. rewrite array_get_nil. now destruct (PrimFloat.ltb _ _). }
  unfold processTranscript. destruct (PrimFloat.leb _ _); [reflexivity|].
  destruct (eqs mode (str "full")).
  { unfold full_result. cbn [segments]. apply slice_nil. }
  destruct (eqs mode (str "smart")); [exact Hsmart|].
  destruct (eqs mode (str "summary")); [|exact Hsmart].
  unfold summary_result. cbn [segments]. unfold summary_intro, summary_conclusion.
  rewrite !slice_nil. unfold summary_middle. destruct (PrimFloat.ltb _ _); [|reflexivity].
  cbv zeta. rewrite flat_map_nil; [reflexivity|].
  intros i. rewrite array_get_nil. now destruct (PrimFloat.ltb _ _).
Qed.

End NoCue.

(** X18: a subtitle file in which the arrow [-->] does not occur has no cue
    for either parser: both return no segment, and [getTranscriptViaYtDlp]
    answers for it with no segment, an empty [fullText], [totalSegments] 0
    and [wordCount] 1 (the split of the empty string has one piece),
    whatever the mode and the budget. (The fallback also reads [.ass] and
    [.sub] files, which are written without arrows.) *)
Theorem no_arrow_no_segment :
  forall numberToString content,
    includes content Subtitle.arrow = false ->
    Subtitle.parseSrtToSegments numberToString content = Some []
    /\ Subtitle.parseVttToSegments numberToString content = Some []
    /\ forall subtitleFile lang mode maxSegments,
         exists result,
           Subtitle.getTranscriptViaYtDlp numberToString subtitleFile content lang mode
             maxSegments = Some result
           /\ Subtitle.res_segments result = []
           /\ Subtitle.res_fullText result = []
           /\ Subtitle.res_totalSegments result = 0%nat
           /\ Subtitle.res_wordCount result = 1%nat.
Proof.
  intros nts content H.
  pose proof (split_lines_exclude _ _ H) as Hlines.
  assert (Hs : Subtitle.parseSrtToSegments nts content = Some []).
  { unfold Subtitle.parseSrtToSegments. cbv zeta.
    rewrite srt_loop_no_arrow; [reflexivity|exact Hlines|lia]. }
  assert (Hv : Subtitle.parseVttToSegments nts content = Some []).
  { unfold Subtitle.parseVttToSegments. cbv zeta.
    rewrite vtt_loop_no_arrow; [reflexivity|exact Hlines|lia]. }
  split; [exact Hs|]. split; [exact Hv|].
  intros subtitleFile lang mode maxSegments.
  unfold Subtitle.getTranscriptViaYtDlp. rewrite Hs, Hv.
  destruct (Subtitle.endsWith subtitleFile (str ".vtt")); eexists; (split; [reflexivity|]);
    cbn [Subtitle.res_segments Subtitle.res_fullText Subtitle.res_totalSegments
         Subtitle.res_wordCount];
    rewrite processTranscript_nil; repeat split; reflexivity.
Qed.

Lemma no_arrow_no_segment_witness :
  Subtitle.parseSrtToSegments integerToString
    (str "Dialogue: 0,0:00:01.00,0:00:03.00,Default,hello") = Some [].
Proof.
  apply (no_arrow_no_segment integerToString). vm_compute. reflexivity.
Defined.

(** ** Sampling *)

Section SamplingFacts.
Variable numberToString : float -> jsstring.
Import Subtitle.

Lemma In_firstn_skipn {A : Type} (a : list A) n m x :
  In x (firstn n (skipn m a)) -> In x a.
Proof.
  intros H. rewrite <- (firstn_skipn m a). apply in_or_app. right.
  rewrite <- (firstn_skipn n (skipn m a)). apply in_or_app. now left.
Qed.

Lemma slice_incl {A : Type} (a : list A) start end_ x :
  In x (slice a start end_) -> In x a.
Proof. unfold slice. apply In_firstn_skipn. Qed.

Lemma array_get_In {A : Type} (a : list A) idx x :
  array_get a idx = Some x -> In x a.
Proof.
  unfold array_get. destruct (to_integer idx) as [z|]; [|discriminate].
  destruct (0 <=? z); [|discriminate]. apply nth_error_In.
Qed.

Lemma sample_incl {A : Type} (a : list A) (idx : float -> float) (ok : float -> bool) l x :
  In x (flat_map (fun i => if ok i then match array_get a (idx i) with
                                        | Some seg => [seg]
                                        | None => []
                                        end
                           else []) l) ->
  In x a.
Proof.
  intros H. apply in_flat_map in H as (i & _ & H).
  destruct (ok i); [|contradiction].
  destruct (array_get a (idx i)) as [seg|] eqn:E; [|contradiction].
  destruct H as [<-|[]]. exact (array_get_In _ _ _ E).
Qed.

End SamplingFacts.

(** X19: in every mode and for every budget, including fractions, negative
    numbers and [NaN], each segment that [processTranscript] returns is a
    segment of its argument: sampling picks segments and never builds or
    alters one. *)
Theorem processTranscript_picks :
  forall (A : Type) numberToString (segs : list A) maxSegments mode,
    Forall (fun seg => In seg segs)
           (Subtitle.segments
              (Subtitle.processTranscript numberToString segs maxSegments mode)).
Proof.
  intros A nts segs B mode. apply Forall_forall. intros x.
  assert (Hsmart : In x (Subtitle.segments (Subtitle.smart_result nts segs B)) -> In x segs).
  { unfold Subtitle.smart_result. cbn [Subtitle.segments]. intros H.
    apply in_app_iff in H as [H|H]; [unfold Subtitle.intro, Subtitle.conclusion in H; exact (slice_incl _ _ _ _ H)|].
    apply in_app_iff in H as [H|H]; [|unfold Subtitle.intro, Subtitle.conclusion in H; exact (slice_incl _ _ _ _ H)].
    unfold Subtitle.middleSegments in H. destruct (_ && _); [|contradiction].
    cbv zeta in H.
    exact (sample_incl segs
             (fun i => floor (Subtitle.introCount B
                              + i * ((Subtitle.conclusionStart segs B - Subtitle.introCount B)
                                     / Subtitle.middleCount B))%float)
             (fun i => PrimFloat.ltb
                         (floor (Subtitle.introCount B
                                 + i * ((Subtitle.conclusionStart segs B
                                         - Subtitle.introCount B)
                                        / Subtitle.middleCount B))%float)
                         (Subtitle.conclusionStart segs B))
             _ x H). }
  unfold Subtitle.processTranscript. destruct (PrimFloat.leb _ _); [now intros H|].
  destruct (eqs mode (str "full")).
  { unfold Subtitle.full_result. cbn [Subtitle.segments]. apply slice_incl. }
  destruct (eqs mode (str "smart")); [exact Hsmart|].
  destruct (eqs mode (str "summary")); [|exact Hsmart].
  unfold Subtitle.summary_result. cbn [Subtitle.segments]. intros H.
  apply in_app_iff in H as [H|H]; [unfold Subtitle.summary_intro, Subtitle.summary_conclusion in H; exact (slice_incl _ _ _ _ H)|].
  apply in_app_iff in H as [H|H]; [|unfold Subtitle.summary_intro, Subtitle.summary_conclusion in H; exact (slice_incl _ _ _ _ H)].
  unfold Subtitle.summary_middle in H. destruct (PrimFloat.ltb _ _); [|contradiction].
  cbv zeta in H.
  exact (sample_incl segs
           (fun i => (Subtitle.summaryIntro B
                      + i * floor ((Subtitle.len segs - Subtitle.summaryConclusion B)
                                   / Subtitle.summaryMiddle B))%float)
           (fun i => PrimFloat.ltb
                       (Subtitle.summaryIntro B
                        + i * floor ((Subtitle.len segs - Subtitle.summaryConclusion B)
                                     / Subtitle.summaryMiddle B))%float
                       (Subtitle.len segs - Subtitle.summaryConclusion B)%float)
           _ x H).
Qed.

(** ** Line endings *)

(** A text with a carriage return put before each line feed *)
Definition crlf (s : jsstring) : jsstring :=
  flat_map (fun c => if eqc c 10 then [13; 10] else [c]) s.

(** A line, and the same line with a carriage return at its end *)
Definition cr_line (l l' : jsstring) : Prop := l' = l \/ l' = l ++ [13].

Section LineEndings.
Variable numberToString : float -> jsstring.
Import Subtitle.

Lemma dropWhile_app p (l t : jsstring) :
  dropWhile p (l ++ t)
  = match dropWhile p l with
    | [] => dropWhile p t
    | d :: r => (d :: r) ++ t
    end.
Proof.
  induction l as [|c l IH]; cbn [app dropWhile]; [now destruct (dropWhile p t)|].
  destruct (p c); [exact IH|reflexivity].
Qed.

Lemma trim_app_cr l : trim (l ++ [13]) = trim l.
Proof.
  unfold trim, trimStart, trimEnd. rewrite dropWhile_app.
  destruct (dropWhile is_space l) as [|d r]; [reflexivity|].
  rewrite !reverse_rev, rev_app_distr. reflexivity.
Qed.

Lemma trim_cr l l' : cr_line l l' -> trim l' = trim l.
Proof. intros [->| ->]; [reflexivity|apply trim_app_cr]. Qed.

Lemma clean_cr l l' : cr_line l l' -> cleanSubtitleText l' = cleanSubtitleText l.
Proof. intros H. unfold cleanSubtitleText. now rewrite (trim_cr _ _ H). Qed.

(** A pattern without carriage return is found in a line with or without
    the carriage return at its end. *)
Lemma includes_app_cr p l :
  p <> [] -> last p 0 <> 13 -> includes (l ++ [13]) p = includes l p.
Proof.
  intros Hne Hlast. apply eq_true_iff_eq. rewrite !includes_iff. split.
  - intros (x & y & H). destruct (exists_last Hne) as (p' & b & ->).
    rewrite last_last in Hlast.
    destruct y as [|c y].
    + rewrite app_nil_r, app_assoc in H. apply app_inj_tail in H as [_ H]. congruence.
    + assert (Hy : c :: y <> []) by discriminate.
      destruct (exists_last Hy) as (y' & d & Ey). rewrite Ey in H.
      rewrite !app_assoc in H. apply app_inj_tail in H as [H _].
      exists x, y'. now rewrite H, <- !app_assoc.
  - intros (x & y & ->). exists x, (y ++ [13]). now rewrite <- !app_assoc.
Qed.

Lemma includes_cr p l l' :
  p <> [] -> last p 0 <> 13 -> cr_line l l' -> includes l' p = includes l p.
Proof. intros H1 H2 [->| ->]; [reflexivity|now apply includes_app_cr]. Qed.

Lemma startsWith_app_cr p : Forall (fun c => c <> 13) p ->
  forall l, startsWith (l ++ [13]) p = startsWith l p.
Proof.
  induction 1 as [|x p Hx _ IH]; intros l.
  - now destruct l.
  - destruct l as [|c l]; cbn [app startsWith].
    + unfold eqc. replace (13 =? x) with false by (symmetry; apply Z.eqb_neq; congruence).
      reflexivity.
    + now rewrite IH.
Qed.

Lemma startsWith_cr p l l' :
  Forall (fun c => c <> 13) p -> cr_line l l' -> startsWith l' p = startsWith l p.
Proof. intros H [->| ->]; [reflexivity|now apply startsWith_app_cr]. Qed.

(** *** Splitting a line that ends with a carriage return *)

Fixpoint add_cr_last (ps : list jsstring) : list jsstring :=
  match ps with
  | [] => []
  | [p] => [p ++ [13]]
  | p :: ps' => p :: add_cr_last ps'
  end.

Lemma split_go_nonempty sep : forall s skip cur, split_go sep skip cur s <> [].
Proof.
  induction s as [|c s IH]; intros skip cur; cbn [split_go]; [discriminate|].
  destruct skip; [|apply IH]. destruct (startsWith _ _); [discriminate|apply IH].
Qed.

Lemma add_cr_last_cons p ps : ps <> [] -> add_cr_last (p :: ps) = p :: add_cr_last ps.
Proof. destruct ps; [contradiction|reflexivity]. Qed.

Lemma startsWith_length s p : startsWith s p = true -> (List.length p <= List.length s)%nat.
Proof.
  intros H. apply startsWith_app in H as (rest & ->). rewrite length_app. lia.
Qed.

Lemma split_go_app_cr sep :
  Forall (fun c => c <> 13) sep -> sep <> [] ->
  forall s skip cur, (skip <= List.length s)%nat ->
    split_go sep skip cur (s ++ [13]) = add_cr_last (split_go sep skip cur s).
Proof.
  intros Hsep Hne. induction s as [|c s IH]; intros skip cur Hskip.
  - cbn [List.length] in Hskip. assert (skip = 0%nat) as -> by lia.
    cbn [app split_go add_cr_last].
    replace (startsWith [13] sep) with false.
    + rewrite !reverse_rev. reflexivity.
    + destruct sep as [|x sep]; [contradiction|]. inversion Hsep as [|? ? Hx _]; subst.
      cbn [startsWith]. unfold eqc.
      replace (13 =? x) with false by (symmetry; apply Z.eqb_neq; congruence).
      reflexivity.
  - cbn [app split_go]. cbn [List.length] in Hskip.
    destruct skip as [|k]; [|apply IH; lia].
    change (c :: s ++ [13]) with ((c :: s) ++ [13]).
    rewrite (startsWith_app_cr sep Hsep (c :: s)).
    destruct (startsWith (c :: s) sep) eqn:E.
    + pose proof (startsWith_length _ _ E) as Hlen. cbn [List.length] in Hlen.
      rewrite IH by (unfold jsstring, char in *; lia).
      rewrite add_cr_last_cons by apply split_go_nonempty. reflexivity.
    + apply IH. lia.
Qed.

Lemma split_arrow_cr l l' :
  cr_line l l' ->
  split l' arrow = split l arrow \/ split l' arrow = add_cr_last (split l arrow).
Proof.
  intros [->| ->]; [now left|right]. unfold split.
  apply split_go_app_cr; [vm_compute; repeat constructor; discriminate|discriminate|lia].
Qed.

(** The two times of a timing line do not depend on the carriage return. *)
Lemma two_times_cr {A : Type} (f : jsstring -> jsstring -> A) (g : A) l l' :
  cr_line l l' ->
  match split l' arrow with
  | [t0; t1] => f (trim t0) (trim t1)
  | _ => g
  end
  = match split l arrow with
    | [t0; t1] => f (trim t0) (trim t1)
    | _ => g
    end.
Proof.
  intros H. destruct (split_arrow_cr l l' H) as [-> | ->]; [reflexivity|].
  destruct (split l arrow) as [|t0 [|t1 [|t2 r]]]; cbn [add_cr_last]; try reflexivity.
  - now rewrite trim_app_cr.
  - destruct r; reflexivity.
Qed.

(** *** The loops *)

Lemma srt_text_lines_cr : forall lines lines' acc,
  Forall2 cr_line lines lines' ->
  fst (srt_text_lines acc lines') = fst (srt_text_lines acc lines)
  /\ Forall2 cr_line (snd (srt_text_lines acc lines)) (snd (srt_text_lines acc lines')).
Proof.
  intros lines lines' acc H. revert acc.
  induction H as [|l l' rest rest' Hl Hrest IH]; intros acc; cbn [srt_text_lines].
  - split; [reflexivity|constructor].
  - rewrite (trim_cr _ _ Hl), (clean_cr _ _ Hl).
    destruct (_ && _); [apply IH|].
    cbn [fst snd]. split; [reflexivity|now constructor].
Qed.

Lemma srt_loop_cr : forall fuel lines lines' st,
  Forall2 cr_line lines lines' ->
  srt_loop numberToString fuel lines' st = srt_loop numberToString fuel lines st.
Proof.
  induction fuel as [|fuel IH]; intros lines lines' st H; [reflexivity|].
  cbn [srt_loop]. destruct H as [|l l' rest rest' Hl Hrest]; [reflexivity|].
  rewrite (trim_cr _ _ Hl).
  destruct (eqs (trim l) []); [now apply IH|].
  destruct (test re_number (trim l)); [|now apply IH].
  destruct Hrest as [|l2 l2' rest2 rest2' Hl2 Hrest2];
    [apply IH; constructor|].
  assert (Hall : Forall2 cr_line (l2 :: rest2) (l2' :: rest2')) by now constructor.
  rewrite (includes_cr arrow l2 l2') by (try exact Hl2; discriminate).
  destruct (includes l2 arrow); [|now apply IH].
  destruct (srt_text_lines_cr rest2 rest2' [] Hrest2) as [Hfst Hsnd].
  destruct (srt_text_lines [] rest2) as [textLines rest3].
  destruct (srt_text_lines [] rest2') as [textLines' rest3'].
  cbn [fst snd] in Hfst, Hsnd. subst textLines'.
  pose proof (IH (l2 :: rest2) (l2' :: rest2') st Hall) as Hdef.
  destruct (split_arrow_cr l2 l2' Hl2) as [-> | ->].
  - destruct (split l2 arrow) as [|t0 [|t1 [|t2 r]]]; try exact Hdef.
    now apply IH.
  - destruct (split l2 arrow) as [|t0 [|t1 [|t2 r]]]; cbn [add_cr_last]; try exact Hdef.
    + rewrite trim_app_cr. now apply IH.
    + destruct r; exact Hdef.
Qed.

(** The lines of a text with carriage returns *)
Lemma split_crlf : forall s,
  Forall2 cr_line (split s [10]) (split (crlf s) [10]).
Proof.
  induction s as [|c s IH]; [repeat constructor; now left|].
  unfold crlf. cbn [flat_map]. fold (crlf s). rewrite split_cons.
  destruct (eqc c 10) eqn:E.
  - cbn [app]. rewrite split_cons. replace (eqc 13 10) with false by reflexivity.
    rewrite split_cons, eqc_refl. cbn [hd tl].
    constructor; [now right|exact IH].
  - cbn [app]. rewrite split_cons, E. unfold jsstring, char in *.
    destruct (split s [10]) as [|h t]; destruct (split (crlf s) [10]) as [|h' t'];
      inversion IH as [|? ? ? ? Hh Ht]; subst; cbn [hd tl].
    + constructor; [now left|constructor].
    + constructor; [|exact Ht].
      destruct Hh as [->| ->]; [now left|now right].
Qed.

(** *** The timing line of a VTT cue *)

Lemma shouldSkip_cr l l' : cr_line l l' -> shouldSkipVttLine l' = shouldSkipVttLine l.
Proof.
  intros H. unfold shouldSkipVttLine.
  rewrite !(startsWith_cr _ l l') by (try exact H; vm_compute; repeat constructor; discriminate).
  now rewrite (trim_cr _ _ H).
Qed.

Lemma skipVttNoteBlock_cr lines lines' :
  Forall2 cr_line lines lines' ->
  Forall2 cr_line (skipVttNoteBlock lines) (skipVttNoteBlock lines').
Proof.
  induction 1 as [|l l' rest rest' Hl Hrest IH]; cbn [skipVttNoteBlock]; [constructor|].
  rewrite (trim_cr _ _ Hl), (includes_cr arrow l l') by (try exact Hl; discriminate).
  destruct (_ && _); [exact IH|now constructor].
Qed.

Lemma vtt_text_lines_cr : forall lines lines' acc,
  Forall2 cr_line lines lines' ->
  fst (vtt_text_lines acc lines') = fst (vtt_text_lines acc lines)
  /\ Forall2 cr_line (snd (vtt_text_lines acc lines)) (snd (vtt_text_lines acc lines')).
Proof.
  intros lines lines' acc H. revert acc.
  induction H as [|l l' rest rest' Hl Hrest IH]; intros acc; cbn [vtt_text_lines].
  - split; [reflexivity|constructor].
  - rewrite (trim_cr _ _ Hl), (clean_cr _ _ Hl),
      (includes_cr arrow l l') by (try exact Hl; discriminate).
    destruct (_ && _); [apply IH|].
    cbn [fst snd]. split; [reflexivity|now constructor].
Qed.

Definition cue_keywords : list jsstring :=
  [str "position"; str "align"; str "size"; str "line"; str "vertical"].

Lemma takeWhile_prefix p (ws rest : jsstring) :
  Forall (fun c => p c = true) ws ->
  (List.length ws <= List.length (takeWhile p (ws ++ rest)))%nat.
Proof.
  induction 1 as [|c ws Hc _ IH]; cbn [app takeWhile List.length]; [lia|].
  rewrite Hc. cbn [List.length]. lia.
Qed.

Lemma takeWhile_true p (s : jsstring) : Forall (fun c => p c = true) (takeWhile p s).
Proof.
  induction s as [|c s IH]; cbn [takeWhile]; [constructor|].
  destruct (p c) eqn:E; now constructor.
Qed.

(** [p+] matches the non-empty prefixes made of the class. *)
Lemma in_matches_Plus_prefix p prev s n :
  In n (matches (Plus (Chr p)) prev s)
  <-> exists ws rest,
        s = ws ++ rest /\ ws <> [] /\ Forall (fun c => p c = true) ws
        /\ n = List.length ws.
Proof.
  rewrite in_matches_Plus_Chr. split.
  - intros [H1 H2]. exists (firstn n s), (skipn n s).
    pose proof (takeWhile_length p s) as Hl.
    split; [now rewrite firstn_skipn|]. split; [|split].
    + intros E. apply (f_equal (@List.length char)) in E.
      rewrite length_firstn in E. cbn [List.length] in E. lia.
    + rewrite <- (takeWhile_dropWhile p s) at 1.
      rewrite firstn_app. replace (n - List.length (takeWhile p s))%nat with 0%nat by lia.
      cbn [firstn]. rewrite app_nil_r.
      pose proof (takeWhile_true p s) as Ht.
      rewrite <- (firstn_skipn n (takeWhile p s)) in Ht. now apply Forall_app in Ht.
    + rewrite length_firstn. lia.
  - intros (ws & rest & -> & Hne & Hall & ->). split.
    + destruct ws; [contradiction|cbn [List.length]; lia].
    + now apply takeWhile_prefix.
Qed.

(** What [re_cue_settings] matches: white space, a keyword and a colon. *)
Lemma in_cue prev s n :
  In n (matches re_cue_settings prev s)
  <-> exists ws kw rest,
        s = ws ++ kw ++ 58 :: rest
        /\ ws <> [] /\ Forall (fun c => is_space c = true) ws
        /\ In kw cue_keywords
        /\ n = (List.length ws + (List.length kw + 1))%nat.
Proof.
  unfold re_cue_settings. rewrite in_matches_Seq. split.
  - intros (n1 & n2 & H1 & H2 & ->).
    apply in_matches_Plus_prefix in H1 as (ws & rest & -> & Hne & Hall & ->).
    rewrite skipn_app_length in H2.
    apply in_matches_Seq in H2 as (n3 & n4 & H3 & H4 & ->).
    assert (Hkw : exists kw rest', rest = kw ++ rest' /\ In kw cue_keywords
                                   /\ n3 = List.length kw).
    { cbn [Alts] in H3.
      repeat (apply in_matches_Alt in H3 as [H3|H3];
              [apply in_matches_Lit in H3 as (-> & rest' & ->);
               eexists _, rest'; split; [reflexivity|]; split; [|reflexivity];
               unfold cue_keywords; cbn [In]; tauto|]).
      apply in_matches_Lit in H3 as (-> & rest' & ->).
      eexists _, rest'. split; [reflexivity|]. split; [|reflexivity].
      unfold cue_keywords. cbn [In]. tauto. }
    destruct Hkw as (kw & rest' & -> & Hkw & ->).
    rewrite skipn_app_length in H4.
    apply in_matches_Chr in H4 as (-> & c & rest2 & -> & Hc).
    apply eqc_eq in Hc. subst c. now exists ws, kw, rest2.
  - intros (ws & kw & rest & -> & Hne & Hall & Hkw & ->).
    exists (List.length ws), (List.length kw + 1)%nat.
    split; [apply in_matches_Plus_prefix; now exists ws, (kw ++ 58 :: rest)|].
    split; [|reflexivity]. rewrite skipn_app_length.
    apply in_matches_Seq. exists (List.length kw), 1%nat. split; [|split; [|reflexivity]].
    + unfold cue_keywords in Hkw. cbn [In] in Hkw. cbn [Alts].
      destruct Hkw as [<-|[<-|[<-|[<-|[<-|[]]]]]];
        repeat (apply in_matches_Alt; first [left; apply in_matches_Lit;
                  split; [reflexivity|]; eexists; reflexivity | right]).
      apply in_matches_Lit. split; [reflexivity|]. eexists; reflexivity.
    + rewrite skipn_app_length. apply in_matches_Chr. split; [reflexivity|].
      exists 58, rest. split; [reflexivity|apply eqc_refl].
Qed.

(** The settings of a cue are found in a line with or without the carriage
    return at its end. *)
Lemma cue_match_cr prev prev' t :
  (exists n, In n (matches re_cue_settings prev (t ++ [13])))
  <-> (exists n, In n (matches re_cue_settings prev' t)).
Proof.
  split; intros (n & H); apply in_cue in H as (ws & kw & rest & E & Hne & Hall & Hkw & ->).
  - destruct rest as [|c rest].
    + replace (ws ++ kw ++ [58]) with ((ws ++ kw) ++ [58]) in E by now rewrite <- app_assoc.
      apply app_inj_tail in E as [_ E]. discriminate.
    + assert (Hr : c :: rest <> []) by discriminate.
      destruct (exists_last Hr) as (rest' & b & Er). rewrite Er in E.
      replace (ws ++ kw ++ 58 :: rest' ++ [b]) with ((ws ++ kw ++ 58 :: rest') ++ [b]) in E
        by now rewrite <- !app_assoc.
      apply app_inj_tail in E as [-> _].
      eexists. apply in_cue. now exists ws, kw, rest'.
  - eexists. apply in_cue. exists ws, kw, (rest ++ [13]).
    split; [subst t; now rewrite <- !app_assoc|]. auto.
Qed.

Lemma first_match_cue prev s :
  (first_match re_cue_settings prev s = None
   /\ ~ exists n, In n (matches re_cue_settings prev s))
  \/ exists k, first_match re_cue_settings prev s = Some (S k).
Proof.
  unfold first_match. destruct (matches re_cue_settings prev s) as [|n l] eqn:E.
  - left. split; [reflexivity|]. intros (n & []).
  - right. assert (Hin : In n (matches re_cue_settings prev s)) by (rewrite E; now left).
    apply in_cue in Hin as (ws & kw & rest & _ & _ & _ & _ & ->).
    exists (List.length ws + List.length kw)%nat. cbn [hd_error]. f_equal. lia.
Qed.

Lemma split_re_head_go_cr : forall s cur prev,
  cr_line (hd [] (split_re_go re_cue_settings 0 cur prev s))
          (hd [] (split_re_go re_cue_settings 0 cur prev (s ++ [13]))).
Proof.
  induction s as [|c s IH]; intros cur prev.
  - cbn [app split_re_go hd].
    destruct (first_match_cue prev [13]) as [[-> _]|(k & Hk)].
    + cbn [split_re_go hd]. rewrite !reverse_rev. now right.
    + exfalso. unfold first_match in Hk.
      destruct (matches re_cue_settings prev [13]) as [|n l] eqn:E; [discriminate|].
      assert (Hin : In n (matches re_cue_settings prev [13])) by (rewrite E; now left).
      apply in_cue in Hin as (ws & kw & rest & Hs & Hne & _).
      destruct ws as [|w ws]; [contradiction|]. injection Hs as _ Hs.
      destruct ws, kw; discriminate.
  - cbn [app split_re_go].
    destruct (first_match_cue prev (c :: s)) as [[E1 Hn1]|(k1 & E1)];
      destruct (first_match_cue prev (c :: s ++ [13])) as [[E2 Hn2]|(k2 & E2)];
      rewrite E1, E2.
    + apply IH.
    + exfalso. apply Hn1. apply (proj1 (cue_match_cr prev prev (c :: s))).
      unfold first_match in E2.
      destruct (matches re_cue_settings prev (c :: s ++ [13])) as [|n l] eqn:E;
        [discriminate|].
      exists n. change (In n (matches re_cue_settings prev (c :: s ++ [13]))).
      rewrite E. now left.
    + exfalso. apply Hn2. apply (proj2 (cue_match_cr prev prev (c :: s))).
      unfold first_match in E1.
      destruct (matches re_cue_settings prev (c :: s)) as [|n l] eqn:E; [discriminate|].
      exists n. now left.
    + cbn [hd]. now left.
Qed.

Lemma split_re_head_cr l l' :
  cr_line l l' ->
  cr_line (split_re_head l re_cue_settings) (split_re_head l' re_cue_settings).
Proof.
  intros [->| ->]; [now left|]. unfold split_re_head, split_re.
  apply split_re_head_go_cr.
Qed.

Lemma vtt_loop_cr : forall fuel lines lines' st,
  Forall2 cr_line lines lines' ->
  vtt_loop numberToString fuel lines' st = vtt_loop numberToString fuel lines st.
Proof.
  induction fuel as [|fuel IH]; intros lines lines' st H; [reflexivity|].
  cbn [vtt_loop]. destruct H as [|l l' rest rest' Hl Hrest]; [reflexivity|].
  rewrite (shouldSkip_cr _ _ Hl), (trim_cr _ _ Hl),
    (includes_cr arrow l l') by (try exact Hl; discriminate).
  destruct (shouldSkipVttLine l); [now apply IH|].
  destruct (eqs (trim l) (str "NOTE")); [apply IH; now apply skipVttNoteBlock_cr|].
  destruct (includes l arrow); [|now apply IH].
  cbv zeta.
  destruct (vtt_text_lines_cr rest rest' [] Hrest) as [Hfst Hsnd].
  destruct (vtt_text_lines [] rest) as [textLines rest2].
  destruct (vtt_text_lines [] rest') as [textLines' rest2'].
  cbn [fst snd] in Hfst, Hsnd. subst textLines'.
  pose proof (IH rest rest' st Hrest) as Hdef.
  pose proof (split_re_head_cr l l' Hl) as Hh.
  destruct (split_arrow_cr _ _ Hh) as [-> | ->].
  - destruct (split (split_re_head l re_cue_settings) arrow) as [|t0 [|t1 [|t2 r]]];
      try exact Hdef.
    now apply IH.
  - destruct (split (split_re_head l re_cue_settings) arrow) as [|t0 [|t1 [|t2 r]]];
      cbn [add_cr_last]; try exact Hdef.
    + rewrite trim_app_cr. now apply IH.
    + destruct r; exact Hdef.
Qed.

End LineEndings.

(** X20: Windows line endings do not change what the parsers read: for every
    content, the content with a carriage return put before each line feed is
    parsed by [parseSrtToSegments] and by [parseVttToSegments] to the same
    segments as the content itself. *)
Theorem parsers_ignore_carriage_returns :
  forall numberToString content,
    Subtitle.parseSrtToSegments numberToString (crlf content)
    = Subtitle.parseSrtToSegments numberToString content
    /\ Subtitle.parseVttToSegments numberToString (crlf content)
       = Subtitle.parseVttToSegments numberToString content.
Proof.
  intros nts content.
  pose proof (split_crlf content) as H.
  pose proof (Forall2_length H) as Hlen.
  unfold Subtitle.parseSrtToSegments, Subtitle.parseVttToSegments. cbv zeta.
  change (str (String "010" EmptyString)) with [10].
  rewrite <- Hlen. split.
  - now apply srt_loop_cr.
  - now apply vtt_loop_cr.
Qed.

(** ** Binary64 arithmetic on integers *)

Section Binary64.

Ltac zf :=
  change IntDef.Z.add with Z.add in *;
  change IntDef.Z.sub with Z.sub in *;
  change IntDef.Z.mul with Z.mul in *;
  change IntDef.Z.opp with Z.opp in *;
  change IntDef.Z.leb with Z.leb in *;
  change IntDef.Z.eqb with Z.eqb in *;
  change IntDef.Z.max with Z.max in *;
  change IntDef.Z.min with Z.min in *;
  change IntDef.Z.even with Z.even in *;
  change IntDef.Z.compare with Z.compare in *;
  change IntDef.Z.div_eucl with Z.div_eucl in *;
  change IntDef.Z.shiftl with Z.shiftl in *;
  change PosDef.Pos.mul with Pos.mul in *;
  change @PosDef.Pos.iter with @Pos.iter in *;
  change PosDef.Pos.compare_cont with Pos.compare_cont in *.

Lemma pow2_pos (k : Z) : 0 <= k -> 0 < 2 ^ k.
Proof. intros; apply Z.pow_pos_nonneg; lia. Qed.

Lemma pow2_split (a b : Z) : 0 <= a -> 0 <= b -> 2 ^ (a + b) = 2 ^ a * 2 ^ b.
Proof. intros; apply Z.pow_add_r; assumption. Qed.

(** The number of binary digits of a positive integer. *)
Lemma digits_spec (p : positive) :
  2 ^ (Zpos (digits2_pos p) - 1) <= Zpos p < 2 ^ Zpos (digits2_pos p).
Proof.
  induction p as [p IH|p IH|]; cbn [digits2_pos];
    try pose proof (Pos2Z.is_pos (digits2_pos p)) as Hpos.
  - rewrite Pos2Z.inj_succ, Pos2Z.inj_xI.
    replace (Z.succ (Zpos (digits2_pos p)) - 1) with (Z.succ (Zpos (digits2_pos p) - 1)) by lia.
    rewrite !Z.pow_succ_r by lia. lia.
  - rewrite Pos2Z.inj_succ. change (Zpos p~0) with (2 * Zpos p).
    replace (Z.succ (Zpos (digits2_pos p)) - 1) with (Z.succ (Zpos (digits2_pos p) - 1)) by lia.
    rewrite !Z.pow_succ_r by lia. lia.
  - simpl. lia.
Qed.

Lemma digits_unique (z d : Z) :
  2 ^ (d - 1) <= z < 2 ^ d -> 0 < z -> Zdigits2 z = d.
Proof.
  intros H Hz. destruct z as [|p|p]; try lia. cbn [Zdigits2].
  pose proof (digits_spec p) as Hs. set (d' := Zpos (digits2_pos p)) in *.
  assert (Hd' : 1 <= d') by (unfold d'; lia).
  destruct (Z.lt_trichotomy d' d) as [Hlt|[Heq|Hgt]]; [exfalso|assumption|exfalso].
  - assert (2 ^ d' <= 2 ^ (d - 1)) by (apply Z.pow_le_mono_r; lia). lia.
  - destruct (Z.le_gt_cases 0 d) as [Hd|Hd].
    + assert (2 ^ d <= 2 ^ (d' - 1)) by (apply Z.pow_le_mono_r; lia). lia.
    + rewrite (Z.pow_neg_r 2 d) in H by lia. lia.
Qed.

Lemma digits_bounds (z : Z) :
  0 < z -> 2 ^ (Zdigits2 z - 1) <= z < 2 ^ Zdigits2 z /\ 1 <= Zdigits2 z.
Proof.
  intros Hz. destruct z as [|p|p]; try lia. cbn [Zdigits2].
  split; [apply digits_spec|lia].
Qed.

Lemma digits_le (z d : Z) : 0 < z -> z < 2 ^ d -> Zdigits2 z <= d.
Proof.
  intros Hz H. destruct (digits_bounds z Hz) as [[Hlo _] H1].
  destruct (Z.le_gt_cases (Zdigits2 z) d) as [|Hgt]; [assumption|exfalso].
  assert (2 ^ d <= 2 ^ (Zdigits2 z - 1)) by (apply Z.pow_le_mono_r; lia). lia.
Qed.

Lemma digits_shift (z k : Z) :
  0 < z -> 0 <= k -> Zdigits2 (z * 2 ^ k) = Zdigits2 z + k.
Proof.
  intros Hz Hk. destruct (digits_bounds z Hz) as [[Hlo Hhi] H1].
  pose proof (pow2_pos k Hk).
  apply digits_unique; [|nia].
  replace (Zdigits2 z + k - 1) with (Zdigits2 z - 1 + k) by lia.
  rewrite !pow2_split by lia. nia.
Qed.

(** Shifting right: the mantissa is divided, the flags record what was
    dropped. *)
Lemma shr_1_m (r : shr_record) : 0 <= shr_m r -> shr_m (shr_1 r) = shr_m r / 2.
Proof.
  destruct r as [m r s]. cbn [shr_m]. intros Hm.
  destruct m as [|[p|p|]|p]; cbn [shr_1 shr_m]; try lia.
  - reflexivity.
  - rewrite Pos2Z.inj_xI. apply Z.div_unique with 1; lia.
  - change (Zpos p~0) with (2 * Zpos p). apply Z.div_unique with 0; lia.
  - reflexivity.
Qed.

Lemma shr_1_nonneg (r : shr_record) : 0 <= shr_m r -> 0 <= shr_m (shr_1 r).
Proof.
  intros H. rewrite shr_1_m by assumption. apply Z.div_pos; lia.
Qed.

Lemma iter_shr_m (n : positive) : forall r,
  0 <= shr_m r ->
  shr_m (iter_pos shr_1 n r) = shr_m r / 2 ^ Zpos n.
Proof.
  induction n as [n IH|n IH|]; intros r Hr; cbn [iter_pos].
  - assert (H1 : 0 <= shr_m (shr_1 r)) by now apply shr_1_nonneg.
    assert (H2 : 0 <= shr_m (iter_pos shr_1 n (shr_1 r))).
    { rewrite IH by assumption. apply Z.div_pos; [assumption|apply pow2_pos; lia]. }
    rewrite IH, IH, shr_1_m by assumption.
    rewrite !Z.div_div by (try apply pow2_pos; lia).
    f_equal. rewrite Pos2Z.inj_xI.
    replace (2 * Zpos n + 1) with (1 + Zpos n + Zpos n) by lia.
    rewrite !pow2_split by lia. change (2 ^ 1) with 2. ring.
  - assert (H2 : 0 <= shr_m (iter_pos shr_1 n r)).
    { rewrite IH by assumption. apply Z.div_pos; [assumption|apply pow2_pos; lia]. }
    rewrite IH, IH by assumption.
    rewrite !Z.div_div by (try apply pow2_pos; lia).
    f_equal. change (Zpos n~0) with (2 * Zpos n).
    replace (2 * Zpos n) with (Zpos n + Zpos n) by lia.
    rewrite !pow2_split by lia. reflexivity.
  - rewrite shr_1_m by assumption. reflexivity.
Qed.

Lemma shr_1_exact (m : Z) :
  0 <= m -> shr_1 (Build_shr_record (2 * m) false false) = Build_shr_record m false false.
Proof.
  intros H. destruct m as [|p|p]; try lia; reflexivity.
Qed.

Lemma iter_shr_exact (n : positive) : forall m,
  0 <= m ->
  iter_pos shr_1 n (Build_shr_record (m * 2 ^ Zpos n) false false)
  = Build_shr_record m false false.
Proof.
  induction n as [n IH|n IH|]; intros m Hm; cbn [iter_pos].
  - pose proof (pow2_pos (Zpos n) ltac:(lia)).
    replace (m * 2 ^ Zpos n~1) with (2 * ((m * 2 ^ Zpos n) * 2 ^ Zpos n)).
    + rewrite shr_1_exact by nia. rewrite IH by nia. now apply IH.
    + rewrite Pos2Z.inj_xI.
      replace (2 * Zpos n + 1) with (1 + Zpos n + Zpos n) by lia.
      rewrite !pow2_split by lia. change (2 ^ 1) with 2. ring.
  - pose proof (pow2_pos (Zpos n) ltac:(lia)).
    replace (m * 2 ^ Zpos n~0) with ((m * 2 ^ Zpos n) * 2 ^ Zpos n).
    + rewrite IH by nia. now apply IH.
    + change (Zpos n~0) with (2 * Zpos n).
      replace (2 * Zpos n) with (Zpos n + Zpos n) by lia.
      rewrite !pow2_split by lia. ring.
  - change (2 ^ 1) with 2. rewrite Z.mul_comm. now apply shr_1_exact.
Qed.

Lemma round_nearest_even_cases (m : Z) (l : location) :
  round_nearest_even m l = m \/ round_nearest_even m l = m + 1.
Proof.
  destruct l as [|[| |]]; cbn [round_nearest_even]; zf; auto.
  destruct (Z.even m); auto.
Qed.

Lemma fexp_normal (x : Z) : -1021 <= x -> fexp 53 1024 x = x - 53.
Proof. intros H. unfold fexp, SpecFloat.emin. zf. lia. Qed.

Lemma shr_m_of_loc (m : Z) (l : location) : shr_m (shr_record_of_loc m l) = m.
Proof. destruct l as [|[| |]]; reflexivity. Qed.

(** The first shift of a rounding: a mantissa of more than 53 digits keeps
    its 53 leading ones. *)
Lemma shr_fexp_long (q e : Z) (l : location) :
  0 < q -> 53 <= Zdigits2 q -> -1074 <= e + Zdigits2 q - 53 ->
  exists r, shr_fexp 53 1024 q e l = (r, e + Zdigits2 q - 53)
            /\ shr_m r = q / 2 ^ (Zdigits2 q - 53).
Proof.
  intros Hq Hd He. unfold shr_fexp. zf. rewrite fexp_normal by lia.
  replace (Zdigits2 q + e - 53 - e) with (Zdigits2 q - 53) by lia.
  destruct (Zdigits2 q - 53) as [|n|n] eqn:E; try lia; cbn [shr]; zf.
  - eexists. split; [f_equal; lia|]. rewrite shr_m_of_loc. now rewrite Z.div_1_r.
  - eexists. split; [f_equal; lia|].
    rewrite iter_shr_m by (rewrite shr_m_of_loc; lia). now rewrite shr_m_of_loc.
Qed.

(** A mantissa of exactly 53 digits is left as it is. *)
Lemma shr_fexp_53 (m e : Z) :
  2 ^ 52 <= m < 2 ^ 53 -> -1074 <= e ->
  shr_fexp 53 1024 m e loc_Exact = (Build_shr_record m false false, e).
Proof.
  intros Hm He. unfold shr_fexp. zf.
  rewrite (digits_unique m 53) by (simpl; lia).
  rewrite fexp_normal by lia.
  replace (53 + e - 53 - e) with 0 by lia. reflexivity.
Qed.

Lemma leading_digits (q : Z) :
  0 < q -> 53 <= Zdigits2 q ->
  2 ^ 52 <= q / 2 ^ (Zdigits2 q - 53) < 2 ^ 53.
Proof.
  intros Hq Hd. destruct (digits_bounds q Hq) as [[Hlo Hhi] _].
  set (n := Zdigits2 q - 53) in *.
  pose proof (pow2_pos n ltac:(lia)) as Hn.
  replace (Zdigits2 q - 1) with (n + 52) in Hlo by lia.
  replace (Zdigits2 q) with (n + 53) in Hhi by lia.
  rewrite pow2_split in Hlo, Hhi by lia.
  split.
  - apply Z.div_le_lower_bound; lia.
  - apply Z.div_lt_upper_bound; lia.
Qed.

(** Rounding to nearest keeps the 53 leading digits of the mantissa or adds
    one to them; the carry into a 54th digit moves the exponent. *)
Lemma round_weak (q e : Z) (l : location) :
  0 < q -> 53 <= Zdigits2 q ->
  -1074 <= e + Zdigits2 q - 53 -> e + Zdigits2 q <= 1023 ->
  exists m E M1,
    binary_round_aux 53 1024 false q e l = S754_finite false m E
    /\ (M1 = q / 2 ^ (Zdigits2 q - 53) \/ M1 = q / 2 ^ (Zdigits2 q - 53) + 1)
    /\ ((E = e + Zdigits2 q - 53 /\ Zpos m = M1)
        \/ (E = e + Zdigits2 q - 52 /\ M1 = 2 ^ 53 /\ Zpos m = 2 ^ 52))
    /\ 2 ^ 52 <= Zpos m < 2 ^ 53.
Proof.
  intros Hq Hd Hlo Hhi.
  destruct (shr_fexp_long q e l Hq Hd Hlo) as (r & Hs & Hm).
  pose proof (leading_digits q Hq Hd) as Hb.
  unfold binary_round_aux. rewrite Hs.
  pose proof (round_nearest_even_cases (shr_m r) (loc_of_shr_record r)) as Hc.
  set (M1 := round_nearest_even (shr_m r) (loc_of_shr_record r)) in *.
  rewrite Hm in Hc. set (e' := e + Zdigits2 q - 53) in *.
  destruct (Z.eq_dec M1 (2 ^ 53)) as [Hcarry|Hn].
  - rewrite Hcarry.
    replace (shr_fexp 53 1024 (2 ^ 53) e' loc_Exact)
      with (Build_shr_record (2 ^ 52) false false, e' + 1).
    + cbn [shr_m]. change (2 ^ 52) with (Zpos (2 ^ 52)%positive) at 1. cbv iota. zf.
      destruct (Z.leb_spec (e' + 1) (1024 - 53)); [|lia].
      exists (2 ^ 52)%positive, (e' + 1), M1.
      split; [reflexivity|]. split; [assumption|].
      split; [right; repeat split; [lia|assumption]|].
      change (Zpos (2 ^ 52)%positive) with (2 ^ 52). lia.
    + unfold shr_fexp. zf. change (Zdigits2 (2 ^ 53)) with 54.
      rewrite fexp_normal by lia.
      replace (54 + e' - 53 - e') with 1 by lia. reflexivity.
  - assert (HM : 2 ^ 52 <= M1 < 2 ^ 53) by lia.
    rewrite shr_fexp_53 by lia. cbn [shr_m].
    destruct M1 as [|m|m] eqn:EM; try lia. zf.
    destruct (Z.leb_spec e' (1024 - 53)); [|lia].
    exists m, e', (Zpos m).
    split; [reflexivity|]. split; [assumption|].
    split; [left; split; reflexivity|assumption].
Qed.

(** A mantissa of 53 digits followed by zeros is rounded to itself. *)
Lemma round_exact (M n e : Z) :
  2 ^ 52 <= M < 2 ^ 53 -> 0 <= n -> -1074 <= e + n -> e + n <= 971 ->
  binary_round_aux 53 1024 false (M * 2 ^ n) e loc_Exact
  = S754_finite false (Z.to_pos M) (e + n).
Proof.
  intros HM Hn Hlo Hhi.
  assert (Hd : Zdigits2 (M * 2 ^ n) = 53 + n).
  { rewrite digits_shift by lia. now rewrite (digits_unique M 53) by (simpl; lia). }
  unfold binary_round_aux.
  replace (shr_fexp 53 1024 (M * 2 ^ n) e loc_Exact)
    with (Build_shr_record M false false, e + n).
  - cbn [shr_m loc_of_shr_record round_nearest_even].
    rewrite shr_fexp_53 by lia. cbn [shr_m].
    destruct M as [|m|m]; try lia. zf.
    destruct (Z.leb_spec (e + n) (1024 - 53)); [reflexivity|lia].
  - unfold shr_fexp. zf. rewrite Hd, fexp_normal by lia.
    replace (53 + n + e - 53 - e) with n by lia.
    destruct n as [|k|k]; try lia; cbn [shr shr_record_of_loc]; zf.
    + now rewrite Z.mul_1_r, Z.add_0_r.
    + now rewrite iter_shr_exact by lia.
Qed.

(** The binary64 representation of a positive integer below [2^53]: its
    digits moved up to 53 places. *)
Definition canon (z : Z) : spec_float :=
  S754_finite false (Z.to_pos (z * 2 ^ (53 - Zdigits2 z))) (Zdigits2 z - 53).

Lemma canon_mantissa (z : Z) :
  0 < z < 2 ^ 53 ->
  1 <= Zdigits2 z <= 53 /\ 2 ^ 52 <= z * 2 ^ (53 - Zdigits2 z) < 2 ^ 53.
Proof.
  intros [H0 H]. destruct (digits_bounds z H0) as [[Hlo Hhi] H1].
  pose proof (digits_le z 53 H0 H) as Hd.
  set (d := Zdigits2 z) in *.
  pose proof (pow2_pos (53 - d) ltac:(lia)) as Hp.
  split; [lia|].
  replace 52 with (d - 1 + (53 - d)) at 1 by lia.
  replace 53 with (d + (53 - d)) at 4 by lia.
  rewrite !pow2_split by lia. nia.
Qed.

Lemma canon_parts (z : Z) :
  0 < z < 2 ^ 53 ->
  exists m e, canon z = S754_finite false m e
              /\ e = Zdigits2 z - 53 /\ -52 <= e <= 0
              /\ Zpos m = z * 2 ^ (- e) /\ 2 ^ 52 <= Zpos m < 2 ^ 53.
Proof.
  intros H. destruct (canon_mantissa z H) as [Hd Hm].
  exists (Z.to_pos (z * 2 ^ (53 - Zdigits2 z))), (Zdigits2 z - 53).
  split; [reflexivity|]. split; [reflexivity|]. split; [lia|].
  rewrite Z2Pos.id by lia.
  replace (- (Zdigits2 z - 53)) with (53 - Zdigits2 z) by lia.
  split; [reflexivity|assumption].
Qed.

Lemma canon_valid (z : Z) : 0 < z < 2 ^ 53 -> valid_binary (canon z) = true.
Proof.
  intros H. destruct (canon_parts z H) as (m & e & -> & He & Hr & Hm & Hb).
  unfold valid_binary, SpecFloat.valid_binary, bounded, canonical_mantissa, prec, emax.
  zf. change (Zpos (digits2_pos m)) with (Zdigits2 (Zpos m)).
  rewrite (digits_unique (Zpos m) 53) by (simpl; lia).
  rewrite fexp_normal by lia.
  replace (53 + e - 53) with e by lia. rewrite Z.eqb_refl. cbn [andb].
  apply Z.leb_le. lia.
Qed.

(** A mantissa that stands for an integer below [2^53] and has at least 53
    digits is rounded to that integer. *)
Lemma round_value (q e z : Z) :
  0 < z < 2 ^ 53 -> -1000 <= e -> q = z * 2 ^ (- e) -> 53 <= Zdigits2 z - e ->
  binary_round_aux 53 1024 false q e loc_Exact = canon z.
Proof.
  intros Hz He Hq Hd. destruct (canon_mantissa z Hz) as [Hdz HM].
  set (d := Zdigits2 z) in *.
  replace q with ((z * 2 ^ (53 - d)) * 2 ^ (d - 53 - e)).
  - rewrite round_exact by lia.
    unfold canon. fold d. f_equal. lia.
  - rewrite Hq, <- Z.mul_assoc, <- pow2_split by lia. do 2 f_equal. lia.
Qed.

Lemma normalize_canon (p : positive) (e z : Z) :
  0 < z < 2 ^ 53 -> -1000 <= e <= 0 -> Zpos p = z * 2 ^ (- e) ->
  binary_normalize 53 1024 (Zpos p) e false = canon z.
Proof.
  intros Hz He Hp. destruct (canon_mantissa z Hz) as [Hdz HM].
  unfold binary_normalize, binary_round. zf.
  change (Zpos (digits2_pos p)) with (Zdigits2 (Zpos p)).
  rewrite Hp, digits_shift by lia.
  replace (Zdigits2 z + - e + e) with (Zdigits2 z) by lia.
  rewrite fexp_normal by lia.
  unfold shl_align. zf.
  destruct (Zdigits2 z - 53 - e) as [|n|n] eqn:E.
  - apply round_value; try assumption; lia.
  - apply round_value; try assumption; lia.
  - rewrite Zpos_iter_xO.
    apply round_value; try assumption; try lia.
    rewrite Hp, <- Z.mul_assoc, <- pow2_split by lia. do 2 f_equal. lia.
Qed.

Lemma Prim2SF_of_dyadic (p : positive) (e z : Z) :
  0 < z < 2 ^ 53 -> -1000 <= e <= 0 -> Zpos p = z * 2 ^ (- e) ->
  Prim2SF (of_dyadic (Zpos p) e) = canon z.
Proof.
  intros Hz He Hp. unfold of_dyadic.
  rewrite (normalize_canon p e z) by assumption.
  apply Prim2SF_SF2Prim. now apply canon_valid.
Qed.

Lemma Prim2SF_of_Z_canon (z : Z) : 0 < z < 2 ^ 53 -> Prim2SF (of_Z z) = canon z.
Proof.
  intros Hz. destruct z as [|p|p]; try lia.
  apply Prim2SF_of_dyadic; [assumption|lia|]. simpl. lia.
Qed.

Lemma Prim2SF_of_Z_zero : Prim2SF (of_Z 0) = S754_zero false.
Proof. vm_compute. reflexivity. Qed.

Lemma mul_compare_r (a b k : Z) : 0 < k -> (a * k ?= b * k) = (a ?= b).
Proof.
  intros Hk. destruct (Z.compare_spec a b) as [->| |].
  - apply Z.compare_refl.
  - apply Z.compare_lt_iff. nia.
  - apply Z.compare_gt_iff. nia.
Qed.

(** Integers compare as their numbers do. *)
Lemma canon_compare (a b : Z) :
  0 < a < 2 ^ 53 -> 0 < b < 2 ^ 53 ->
  SFcompare (canon a) (canon b) = Some (a ?= b).
Proof.
  intros Ha Hb.
  destruct (canon_parts a Ha) as (ma & ea & -> & Hea & Hra & Hma & Hba).
  destruct (canon_parts b Hb) as (mb & eb & -> & Heb & Hrb & Hmb & Hbb).
  destruct (digits_bounds a ltac:(lia)) as [[Hal Hah] _].
  destruct (digits_bounds b ltac:(lia)) as [[Hbl Hbh] _].
  cbn [SFcompare]. zf. f_equal.
  destruct (Z.compare_spec ea eb) as [Heq|Hlt|Hgt].
  - change (Pos.compare_cont Eq ma mb) with (Pos.compare ma mb).
    rewrite Pos2Z.inj_compare, Hma, Hmb, Heq.
    apply mul_compare_r. apply pow2_pos; lia.
  - symmetry. apply Z.compare_lt_iff.
    assert (2 ^ Zdigits2 a <= 2 ^ (Zdigits2 b - 1)) by (apply Z.pow_le_mono_r; lia).
    lia.
  - symmetry. apply Z.compare_gt_iff.
    assert (2 ^ Zdigits2 b <= 2 ^ (Zdigits2 a - 1)) by (apply Z.pow_le_mono_r; lia).
    lia.
Qed.

Lemma compare_of_Z (a b : Z) :
  0 <= a < 2 ^ 53 -> 0 <= b < 2 ^ 53 ->
  SFcompare (Prim2SF (of_Z a)) (Prim2SF (of_Z b)) = Some (a ?= b).
Proof.
  intros Ha Hb.
  destruct (Z.eq_dec a 0) as [->|Ha0]; destruct (Z.eq_dec b 0) as [->|Hb0].
  - reflexivity.
  - rewrite Prim2SF_of_Z_zero, Prim2SF_of_Z_canon by lia.
    cbn [canon SFcompare]. f_equal. symmetry. apply Z.compare_lt_iff. lia.
  - rewrite Prim2SF_of_Z_zero, Prim2SF_of_Z_canon by lia.
    cbn [canon SFcompare]. f_equal. symmetry. apply Z.compare_gt_iff. lia.
  - rewrite !Prim2SF_of_Z_canon by lia. apply canon_compare; lia.
Qed.

Lemma ltb_of_Z (a b : Z) :
  0 <= a < 2 ^ 53 -> 0 <= b < 2 ^ 53 ->
  PrimFloat.ltb (of_Z a) (of_Z b) = (a <? b).
Proof.
  intros Ha Hb. rewrite ltb_spec. unfold SFltb.
  rewrite compare_of_Z by assumption. unfold Z.ltb. reflexivity.
Qed.

Lemma leb_of_Z (a b : Z) :
  0 <= a < 2 ^ 53 -> 0 <= b < 2 ^ 53 ->
  PrimFloat.leb (of_Z a) (of_Z b) = (a <=? b).
Proof.
  intros Ha Hb. rewrite leb_spec. unfold SFleb.
  rewrite compare_of_Z by assumption. unfold Z.leb.
  now destruct (a ?= b).
Qed.

Lemma eqb_of_Z (a b : Z) :
  0 <= a < 2 ^ 53 -> 0 <= b < 2 ^ 53 ->
  PrimFloat.eqb (of_Z a) (of_Z b) = (a =? b).
Proof.
  intros Ha Hb. rewrite eqb_spec. unfold SFeqb.
  rewrite compare_of_Z by assumption.
  destruct (Z.eqb_spec a b) as [->|Hne].
  - now rewrite Z.compare_refl.
  - destruct (a ?= b) eqn:E; try reflexivity.
    apply Z.compare_eq in E. contradiction.
Qed.

Lemma shl_align_fst (m : positive) (e ez : Z) :
  ez <= e -> Zpos (fst (shl_align m e ez)) = Zpos m * 2 ^ (e - ez).
Proof.
  intros H. unfold shl_align. zf.
  destruct (ez - e) as [|d|d] eqn:E; try lia; cbn [fst].
  - replace (e - ez) with 0 by lia. lia.
  - rewrite Zpos_iter_xO. do 2 f_equal. lia.
Qed.

(** Two integers brought to a common exponent. *)
Lemma aligned (z e ez : Z) (m : positive) :
  Zpos m = z * 2 ^ (- e) -> ez <= e <= 0 ->
  Zpos (fst (shl_align m e ez)) = z * 2 ^ (- ez).
Proof.
  intros Hm He. rewrite shl_align_fst, Hm by lia.
  rewrite <- Z.mul_assoc, <- pow2_split by lia. do 2 f_equal. lia.
Qed.

(** Differences and sums of integers are exact below [2^53]. *)
Lemma sub_of_Z (a b : Z) :
  0 <= b <= a -> a < 2 ^ 53 -> (of_Z a - of_Z b)%float = of_Z (a - b).
Proof.
  intros Hb Ha. apply Prim2SF_inj. rewrite sub_spec.
  destruct (Z.eq_dec b 0) as [->|Hb0].
  - rewrite Z.sub_0_r, Prim2SF_of_Z_zero.
    destruct (Z.eq_dec a 0) as [->|Ha0]; [reflexivity|].
    rewrite Prim2SF_of_Z_canon by lia. reflexivity.
  - rewrite (Prim2SF_of_Z_canon a), (Prim2SF_of_Z_canon b) by lia.
    destruct (canon_parts a ltac:(lia)) as (ma & ea & -> & Hea & Hra & Hma & Hba).
    destruct (canon_parts b ltac:(lia)) as (mb & eb & -> & Heb & Hrb & Hmb & Hbb).
    unfold SF64sub, SFsub, cond_Zopp. zf.
    rewrite (aligned a ea _ ma), (aligned b eb _ mb) by (try assumption; lia).
    rewrite <- Z.mul_sub_distr_r.
    pose proof (pow2_pos (- Z.min ea eb) ltac:(lia)) as Hp.
    destruct (Z.eq_dec a b) as [->|Hne].
    + rewrite Z.sub_diag. reflexivity.
    + assert (Hpos : 0 < (a - b) * 2 ^ (- Z.min ea eb)) by (apply Z.mul_pos_pos; lia).
      destruct ((a - b) * 2 ^ (- Z.min ea eb)) as [|p|p] eqn:E; try lia.
      rewrite Prim2SF_of_Z_canon by lia.
      apply normalize_canon; [lia|lia|now symmetry].
Qed.

Lemma add_of_Z (a b : Z) :
  0 <= a -> 0 <= b -> a + b < 2 ^ 53 -> (of_Z a + of_Z b)%float = of_Z (a + b).
Proof.
  intros Ha Hb Hs. apply Prim2SF_inj. rewrite add_spec.
  destruct (Z.eq_dec a 0) as [->|Ha0]; [|destruct (Z.eq_dec b 0) as [->|Hb0]].
  - rewrite Z.add_0_l, Prim2SF_of_Z_zero.
    destruct (Z.eq_dec b 0) as [->|Hb0]; [reflexivity|].
    rewrite Prim2SF_of_Z_canon by lia. reflexivity.
  - rewrite Z.add_0_r, Prim2SF_of_Z_zero, Prim2SF_of_Z_canon by lia. reflexivity.
  - rewrite (Prim2SF_of_Z_canon a), (Prim2SF_of_Z_canon b) by lia.
    destruct (canon_parts a ltac:(lia)) as (ma & ea & -> & Hea & Hra & Hma & Hba).
    destruct (canon_parts b ltac:(lia)) as (mb & eb & -> & Heb & Hrb & Hmb & Hbb).
    unfold SF64add, SFadd, cond_Zopp. zf.
    rewrite (aligned a ea _ ma), (aligned b eb _ mb) by (try assumption; lia).
    rewrite <- Z.mul_add_distr_r.
    pose proof (pow2_pos (- Z.min ea eb) ltac:(lia)) as Hp.
    assert (Hpos : 0 < (a + b) * 2 ^ (- Z.min ea eb)) by (apply Z.mul_pos_pos; lia).
    destruct ((a + b) * 2 ^ (- Z.min ea eb)) as [|p|p] eqn:E; try lia.
    rewrite Prim2SF_of_Z_canon by lia.
    apply normalize_canon; [lia|lia|now symmetry].
Qed.

Lemma digits_ge (z k : Z) : 0 <= k -> 2 ^ k <= z -> k + 1 <= Zdigits2 z.
Proof.
  intros Hk H. pose proof (pow2_pos k Hk).
  destruct (digits_bounds z ltac:(lia)) as [[_ Hhi] H1].
  destruct (Z.le_gt_cases (k + 1) (Zdigits2 z)) as [|Hlt]; [assumption|exfalso].
  assert (2 ^ Zdigits2 z <= 2 ^ k) by (apply Z.pow_le_mono_r; lia). lia.
Qed.

(** So are products of integers. *)
Lemma mul_of_Z (a b : Z) :
  0 <= a < 2 ^ 53 -> 0 <= b < 2 ^ 53 -> a * b < 2 ^ 53 ->
  (of_Z a * of_Z b)%float = of_Z (a * b).
Proof.
  intros Ha Hb Hs. apply Prim2SF_inj. rewrite mul_spec.
  destruct (Z.eq_dec a 0) as [->|Ha0]; [|destruct (Z.eq_dec b 0) as [->|Hb0]].
  - rewrite Z.mul_0_l, Prim2SF_of_Z_zero.
    destruct (Z.eq_dec b 0) as [->|Hb0]; [reflexivity|].
    rewrite Prim2SF_of_Z_canon by lia. reflexivity.
  - rewrite Z.mul_0_r, Prim2SF_of_Z_zero, Prim2SF_of_Z_canon by lia. reflexivity.
  - assert (Hab : a <= a * b /\ b <= a * b /\ 0 < a * b) by nia.
    assert (Ha' : 0 < a < 2 ^ 53) by lia. assert (Hb' : 0 < b < 2 ^ 53) by lia.
    rewrite (Prim2SF_of_Z_canon a), (Prim2SF_of_Z_canon b), (Prim2SF_of_Z_canon (a * b)) by lia.
    destruct (canon_parts a Ha') as (ma & ea & -> & Hea & Hra & Hma & Hba).
    destruct (canon_parts b Hb') as (mb & eb & -> & Heb & Hrb & Hmb & Hbb).
    unfold SF64mul, SFmul. cbn [xorb]. zf.
    assert (Hq : Zpos (ma * mb) = (a * b) * 2 ^ (- (ea + eb))).
    { rewrite Pos2Z.inj_mul, Hma, Hmb.
      replace (- (ea + eb)) with (- ea + - eb) by lia.
      rewrite pow2_split by lia. ring. }
    apply round_value; [lia|lia|assumption|].
    assert (Hd : 104 + 1 <= Zdigits2 (Zpos (ma * mb))).
    { apply digits_ge; [lia|]. rewrite Pos2Z.inj_mul.
      change (2 ^ 104) with (2 ^ 52 * 2 ^ 52). nia. }
    rewrite Hq, digits_shift in Hd by lia. lia.
Qed.

(** [Math.floor] of an integer *)
Lemma floor_of_Z (z : Z) : 0 <= z < 2 ^ 53 -> floor (of_Z z) = of_Z z.
Proof.
  intros Hz. destruct (Z.eq_dec z 0) as [->|Hz0]; [vm_compute; reflexivity|].
  unfold floor. rewrite Prim2SF_of_Z_canon by lia.
  destruct (canon_parts z ltac:(lia)) as (m & e & -> & He & Hr & Hm & Hb).
  destruct (Z.leb_spec 0 e); [reflexivity|].
  rewrite Hm, Z.div_mul by (apply Z.pow_nonzero; lia).
  destruct (Z.eqb_spec z 0); [lia|reflexivity].
Qed.

Lemma opp_opp (x : float) : (- - x)%float = x.
Proof.
  apply Prim2SF_inj. rewrite !opp_spec.
  destruct (Prim2SF x) as [s|s| |s m e]; cbn [SFopp]; now rewrite ?negb_involutive.
Qed.

Lemma binary_round_aux_opp (q e : Z) (l : location) :
  binary_round_aux 53 1024 true q e l = SFopp (binary_round_aux 53 1024 false q e l).
Proof.
  unfold binary_round_aux.
  destruct (shr_fexp 53 1024 q e l) as [r e'].
  destruct (shr_fexp 53 1024 _ e' loc_Exact) as [r' e''].
  destruct (shr_m r') as [|m|m]; try reflexivity.
  now destruct (IntDef.Z.leb _ _).
Qed.

Lemma of_Z_opp (z : Z) : 0 < z < 2 ^ 53 -> of_Z (- z) = (- of_Z z)%float.
Proof.
  intros Hz. apply Prim2SF_inj. rewrite opp_spec, (Prim2SF_of_Z_canon z) by assumption.
  destruct z as [|p|p]; try lia.
  unfold of_Z, of_dyadic. cbn [Z.opp binary_normalize]. unfold binary_round.
  destruct (shl_align p 0 _) as [mz ez] eqn:E.
  rewrite binary_round_aux_opp.
  assert (Hn : binary_round_aux 53 1024 false (Zpos mz) ez loc_Exact = canon (Zpos p)).
  { rewrite <- (normalize_canon p 0 (Zpos p)) by (simpl; lia).
    unfold binary_normalize, binary_round. now rewrite E. }
  rewrite Hn. apply Prim2SF_SF2Prim.
  pose proof (canon_valid (Zpos p) Hz) as Hv.
  unfold canon in *. exact Hv.
Qed.

(** The values of the loop variable for an integer bound. *)
Lemma loop_indices_of_Z (k : Z) :
  0 <= k < 2 ^ 53 ->
  Subtitle.loop_indices (of_Z k) = map of_nat (seq 0 (Z.to_nat k)).
Proof.
  intros Hk. unfold Subtitle.loop_indices. do 2 f_equal.
  destruct (Z.eq_dec k 0) as [->|Hk0]; [vm_compute; reflexivity|].
  assert (Hf : floor (- of_Z k)%float = (- of_Z k)%float).
  { unfold floor. rewrite opp_spec, Prim2SF_of_Z_canon by lia.
    destruct (canon_parts k ltac:(lia)) as (m & e & -> & He & Hr & Hm & Hb).
    cbn [SFopp negb]. destruct (Z.leb_spec 0 e); [reflexivity|].
    change (Zneg m) with (- Zpos m). rewrite Hm, <- Z.mul_opp_l.
    rewrite Z.div_mul by (apply Z.pow_nonzero; lia).
    destruct (Z.eqb_spec (- k) 0); [lia|]. apply of_Z_opp. lia. }
  rewrite Hf, opp_opp, toIntegerOrInfinity_of_Z by lia. reflexivity.
Qed.

(** [Math.max] of two integers *)
Lemma max_of_Z (a b : Z) :
  0 <= a < 2 ^ 53 -> 0 <= b < 2 ^ 53 ->
  Num.max (of_Z a) (of_Z b) = of_Z (Z.max a b).
Proof.
  intros Ha Hb. unfold Num.max, is_nan.
  rewrite !eqb_of_Z, !Z.eqb_refl, !ltb_of_Z by assumption. cbn [negb orb].
  destruct (Z.ltb_spec a b); [now rewrite Z.max_r by lia|].
  destruct (Z.ltb_spec b a); [now rewrite Z.max_l by lia|].
  assert (a = b) as -> by lia. rewrite Z.max_id.
  now destruct (is_neg_zero (of_Z b)).
Qed.

(** The integer of the opposite of an integer *)
Lemma toIntegerOrInfinity_opp (z : Z) :
  0 <= z < 2 ^ 53 -> toIntegerOrInfinity (- of_Z z)%float = - z.
Proof.
  intros Hz. destruct (Z.eq_dec z 0) as [->|Hz0]; [vm_compute; reflexivity|].
  unfold toIntegerOrInfinity. rewrite opp_spec, Prim2SF_of_Z_canon by lia.
  destruct (canon_parts z ltac:(lia)) as (m & e & -> & He & Hr & Hm & Hb).
  cbn [SFopp negb]. change (Zneg m) with (- Zpos m). rewrite Hm.
  destruct (Z.leb_spec 0 e).
  - assert (e = 0) as -> by lia. simpl. lia.
  - rewrite <- Z.mul_opp_l. apply Z.quot_mul. apply Z.pow_nonzero; lia.
Qed.

(** [a % b] on integers *)
Lemma rem_of_Z (a b : Z) :
  0 <= a < 2 ^ 53 -> 0 < b < 2 ^ 53 -> rem (of_Z a) (of_Z b) = of_Z (a mod b).
Proof.
  intros Ha Hb. unfold rem.
  destruct (Z.eq_dec a 0) as [->|Ha0].
  - rewrite Prim2SF_of_Z_zero, Prim2SF_of_Z_canon by lia. reflexivity.
  - rewrite (Prim2SF_of_Z_canon a), (Prim2SF_of_Z_canon b) by lia.
    destruct (canon_parts a ltac:(lia)) as (ma & ea & -> & Hea & Hra & Hma & Hba).
    destruct (canon_parts b ltac:(lia)) as (mb & eb & -> & Heb & Hrb & Hmb & Hbb).
    set (e := Z.min ea eb).
    pose proof (pow2_pos (- e) ltac:(lia)) as Hp.
    assert (HA : Zpos ma * 2 ^ (ea - e) = a * 2 ^ (- e)).
    { rewrite Hma, <- Z.mul_assoc, <- pow2_split by lia. do 2 f_equal. lia. }
    assert (HB : Zpos mb * 2 ^ (eb - e) = b * 2 ^ (- e)).
    { rewrite Hmb, <- Z.mul_assoc, <- pow2_split by lia. do 2 f_equal. lia. }
    rewrite HA, HB, Z.mul_mod_distr_r by lia.
    pose proof (Z.mod_pos_bound a b ltac:(lia)) as Hr.
    destruct (Z.eqb_spec (a mod b * 2 ^ (- e)) 0) as [H0|H0].
    + apply Z.mul_eq_0_l in H0; [|lia]. rewrite H0. reflexivity.
    + assert (Hm0 : a mod b <> 0) by (intros Hz; apply H0; rewrite Hz; reflexivity).
      assert (Hpos : 0 < a mod b * 2 ^ (- e)) by (apply Z.mul_pos_pos; lia).
      destruct (a mod b * 2 ^ (- e)) as [|p|p] eqn:E; try lia.
      apply Prim2SF_inj. rewrite Prim2SF_of_Z_canon by lia.
      apply Prim2SF_of_dyadic; [lia|lia|now symmetry].
Qed.

(** What [Math.floor] makes of a positive number below [2^52], given by its
    mantissa and exponent. *)
Lemma floor_finite (x : float) (m : positive) (E : Z) :
  Prim2SF x = S754_finite false m E -> E < 0 ->
  floor x = of_Z (Zpos m / 2 ^ (- E)).
Proof.
  intros Hx HE. unfold floor. rewrite Hx.
  destruct (Z.leb_spec 0 E); [lia|].
  destruct (Z.eqb_spec (Zpos m / 2 ^ (- E)) 0) as [->|]; reflexivity.
Qed.

(** The integer part of a rounded number, from the integer parts of the
    mantissa before rounding. *)
Lemma rounded_floor (q e : Z) (l : location) :
  0 < q -> 53 <= Zdigits2 q ->
  -1074 <= e + Zdigits2 q - 53 -> e + Zdigits2 q - 52 < 0 ->
  exists m E k,
    binary_round_aux 53 1024 false q e l = S754_finite false m E
    /\ E < 0 /\ k = Zpos m / 2 ^ (- E)
    /\ q / 2 ^ (- e) <= k
    /\ k * 2 ^ (- e) <= q + 2 ^ (Zdigits2 q - 53).
Proof.
  intros Hq Hd Hlo Hhi.
  destruct (round_weak q e l Hq Hd Hlo ltac:(lia)) as (m & E & M1 & Hr & HM1 & HE & Hm).
  pose proof (leading_digits q Hq Hd) as Hb.
  set (n := Zdigits2 q - 53) in *.
  set (e1 := e + n).
  assert (He1 : e1 < -1) by (unfold e1, n; lia).
  pose proof (pow2_pos n ltac:(lia)) as HN.
  pose proof (pow2_pos (- e1) ltac:(lia)) as HD.
  assert (HND : 2 ^ (- e) = 2 ^ n * 2 ^ (- e1)).
  { rewrite <- pow2_split by lia. f_equal. unfold e1. lia. }
  assert (Hk : Zpos m / 2 ^ (- E) = M1 / 2 ^ (- e1)).
  { destruct HE as [[-> ->]|(-> & -> & ->)].
    - do 2 f_equal. unfold e1, n. lia.
    - replace (- (e + Zdigits2 q - 52)) with (- e1 - 1) by (unfold e1, n; lia).
      replace (- e1) with (1 + (- e1 - 1)) at 2 by lia.
      rewrite pow2_split by lia.
      change (2 ^ 53) with (2 ^ 1 * 2 ^ 52).
      rewrite Z.div_mul_cancel_l; [reflexivity| |]; apply Z.pow_nonzero; lia. }
  exists m, E, (M1 / 2 ^ (- e1)).
  split; [assumption|]. split; [destruct HE as [[-> _]|(-> & _)]; unfold e1, n in *; lia|].
  split; [now symmetry|].
  assert (HM0 : q / 2 ^ n <= M1 <= q / 2 ^ n + 1) by lia.
  pose proof (Z.mul_div_le q (2 ^ n) HN) as Hq0.
  pose proof (Z.mul_div_le M1 (2 ^ (- e1)) HD) as Hk0.
  split.
  - rewrite HND, <- Z.div_div by lia.
    apply Z.div_le_mono; lia.
  - rewrite HND. set (k := M1 / 2 ^ (- e1)) in *.
    set (M0 := q / 2 ^ n) in *.
    assert (k * 2 ^ (- e1) * 2 ^ n <= (M0 + 1) * 2 ^ n)
      by (apply Z.mul_le_mono_nonneg_r; lia).
    lia.
Qed.

(** [Math.floor(B * c)] for an integer [B] and a constant [c] below one:
    at least the integer part of the exact product, and at most the exact
    product enlarged by one part in [2^52]. *)
Lemma floor_mul_bounds (B : Z) (c : float) (mc : positive) (ec : Z) :
  0 < B < 2 ^ 50 ->
  Prim2SF c = S754_finite false mc ec ->
  2 ^ 52 <= Zpos mc < 2 ^ 53 -> -60 <= ec <= -53 ->
  exists k, floor (of_Z B * c)%float = of_Z k
    /\ (B * Zpos mc) / 2 ^ (- ec) <= k
    /\ k * 2 ^ (- ec) * 2 ^ 52 <= B * Zpos mc * (2 ^ 52 + 1).
Proof.
  intros HB Hc Hmc Hec.
  destruct (canon_parts B ltac:(lia)) as (mB & eB & HcB & HeB & HrB & HmB & HbB).
  assert (HdB : Zdigits2 B <= 50) by (apply digits_le; lia).
  set (q := Zpos mB * Zpos mc).
  assert (Hq : 2 ^ 104 <= q < 2 ^ 106).
  { unfold q. change (2 ^ 104) with (2 ^ 52 * 2 ^ 52).
    change (2 ^ 106) with (2 ^ 53 * 2 ^ 53). nia. }
  assert (Hd : 105 <= Zdigits2 q <= 106).
  { split; [apply (digits_ge q 104); lia|apply digits_le; lia]. }
  destruct (rounded_floor q (eB + ec) loc_Exact) as (m & E & k & Hr & HE & Hk & Hlo & Hhi);
    try lia.
  exists k. split.
  - rewrite Hk. apply floor_finite; [|assumption].
    rewrite mul_spec, Prim2SF_of_Z_canon, HcB, Hc by lia.
    unfold SF64mul, SFmul. cbn [xorb]. zf. rewrite Pos2Z.inj_mul. exact Hr.
  - pose proof (pow2_pos (- eB) ltac:(lia)) as HPB.
    pose proof (pow2_pos (- ec) ltac:(lia)) as HPC.
    assert (HP : 2 ^ (- (eB + ec)) = 2 ^ (- ec) * 2 ^ (- eB)).
    { rewrite <- pow2_split by lia. f_equal. lia. }
    assert (Hqv : q = B * Zpos mc * 2 ^ (- eB)) by (unfold q; rewrite HmB; ring).
    rewrite HP in Hlo, Hhi. split.
    + rewrite Hqv, Z.div_mul_cancel_r in Hlo by lia. exact Hlo.
    + assert (HN : 2 ^ (Zdigits2 q - 53) * 2 ^ 52 <= q).
      { rewrite <- pow2_split by lia.
        replace (Zdigits2 q - 53 + 52) with (Zdigits2 q - 1) by lia.
        apply digits_bounds. lia. }
      assert (H1 : k * (2 ^ (- ec) * 2 ^ (- eB)) * 2 ^ 52 <= q * (2 ^ 52 + 1)) by nia.
      rewrite Hqv in H1.
      apply Z.mul_le_mono_pos_r with (p := 2 ^ (- eB)); [assumption|].
      lia.
Qed.

(** The integer part of the quotient of two integers. *)
Lemma floor_div_of_Z (n dv : Z) :
  0 <= n < 2 ^ 51 -> 0 < dv < 2 ^ 53 ->
  floor (of_Z n / of_Z dv)%float = of_Z (n / dv).
Proof.
  intros Hn Hdv.
  destruct (canon_parts dv Hdv) as (md & ed & Hcd & Hed & Hrd & Hmd & Hbd).
  destruct (Z.eq_dec n 0) as [->|Hn0].
  { assert (H0 : (of_Z 0 / of_Z dv)%float = of_Z 0).
    { apply Prim2SF_inj.
      rewrite div_spec, Prim2SF_of_Z_zero, Prim2SF_of_Z_canon, Hcd by lia. reflexivity. }
    rewrite H0, Z.div_0_l by lia. reflexivity. }
  destruct (canon_parts n ltac:(lia)) as (mn & en & Hcn & Hen & Hrn & Hmn & Hbn).
  assert (Hdn : Zdigits2 n <= 51) by (apply digits_le; lia).
  set (e' := en - ed - 53).
  set (q := (Zpos mn * 2 ^ 53) / Zpos md).
  assert (Hq : 2 ^ 52 <= q < 2 ^ 54).
  { unfold q. split.
    - apply Z.div_le_lower_bound; [lia|]. change (2 ^ 53) with (2 * 2 ^ 52) in *. nia.
    - apply Z.div_lt_upper_bound; [lia|]. change (2 ^ 54) with (2 ^ 53 * 2). nia. }
  assert (Hd : 53 <= Zdigits2 q <= 54).
  { split; [apply (digits_ge q 52); lia|apply digits_le; lia]. }
  assert (Hcore : SFdiv_core_binary 53 1024 (Zpos mn) en (Zpos md) ed
                  = (q, e', new_location (Zpos md) ((Zpos mn * 2 ^ 53) mod Zpos md))).
  { unfold SFdiv_core_binary. zf.
    rewrite (digits_unique (Zpos mn) 53), (digits_unique (Zpos md) 53) by (simpl; lia).
    replace (53 + en - (53 + ed)) with (en - ed) by lia.
    rewrite fexp_normal by lia.
    rewrite Z.min_l by lia. fold e'.
    replace (en - ed - e') with 53 by (unfold e'; lia).
    rewrite Z.shiftl_mul_pow2 by lia.
    unfold Z.div, Z.modulo in *.
    destruct (Z.div_eucl (Zpos mn * 2 ^ 53) (Zpos md)) as [q0 r0]. reflexivity. }
  destruct (rounded_floor q e' (new_location (Zpos md) ((Zpos mn * 2 ^ 53) mod Zpos md)))
    as (m & E & k & Hr & HE & Hk & Hlo & Hhi); try (unfold e'; lia).
  assert (Hx : Prim2SF (of_Z n / of_Z dv)%float = S754_finite false m E).
  { rewrite div_spec, !Prim2SF_of_Z_canon, Hcn, Hcd by lia.
    unfold SF64div, SFdiv. unfold prec, emax. rewrite Hcore. cbn [xorb]. exact Hr. }
  rewrite (floor_finite _ m E Hx HE), <- Hk. f_equal.
  (* the quotient *)
  set (P := 2 ^ (53 - en)).
  assert (HP : 0 < P) by (apply pow2_pos; lia).
  assert (HP54 : 2 ^ 54 <= P) by (apply Z.pow_le_mono_r; lia).
  assert (Hnum : Zpos mn * 2 ^ 53 = n * P).
  { unfold P. rewrite Hmn, <- Z.mul_assoc, <- pow2_split by lia. do 2 f_equal. lia. }
  assert (Hden : Zpos md * 2 ^ (- e') = dv * P).
  { unfold P. rewrite Hmd, <- Z.mul_assoc, <- pow2_split by (unfold e'; lia).
    do 2 f_equal. unfold e'. lia. }
  pose proof (pow2_pos (- e') ltac:(unfold e'; lia)) as HPe.
  assert (Hge : n / dv <= k).
  { unfold q in Hlo. rewrite Z.div_div, Hnum, Hden, Z.div_mul_cancel_r in Hlo by lia.
    exact Hlo. }
  assert (Hle : k * dv <= n).
  { assert (Hqm : q * Zpos md <= Zpos mn * 2 ^ 53)
      by (unfold q; rewrite Z.mul_comm; apply Z.mul_div_le; lia).
    assert (HN : 2 ^ (Zdigits2 q - 53) <= 2).
    { change 2 with (2 ^ 1) at 2. apply Z.pow_le_mono_r; lia. }
    assert (H1 : k * 2 ^ (- e') * Zpos md <= Zpos mn * 2 ^ 53 + 2 * Zpos md) by nia.
    replace (k * 2 ^ (- e') * Zpos md) with (k * (Zpos md * 2 ^ (- e'))) in H1 by ring.
    rewrite Hden, Hnum in H1.
    assert (H2 : (k * dv) * P < (n + 1) * P) by lia.
    apply Z.mul_lt_mono_pos_r in H2; lia. }
  apply Z.le_antisymm; [|assumption].
  apply Z.div_le_lower_bound; lia.
Qed.

(** The value of a rounded number, between the 53 leading digits of the
    mantissa and one unit above them. *)
Lemma rounded_value (q e : Z) (l : location) :
  0 < q -> 53 <= Zdigits2 q ->
  -1074 <= e + Zdigits2 q - 53 -> e + Zdigits2 q <= 1023 ->
  exists m E,
    binary_round_aux 53 1024 false q e l = S754_finite false m E
    /\ 2 ^ 52 <= Zpos m < 2 ^ 53
    /\ e + Zdigits2 q - 53 <= E <= e + Zdigits2 q - 52
    /\ (q / 2 ^ (Zdigits2 q - 53)) * 2 ^ (Zdigits2 q - 53) <= Zpos m * 2 ^ (E - e)
    /\ Zpos m * 2 ^ (E - e) <= q + 2 ^ (Zdigits2 q - 53).
Proof.
  intros Hq Hd Hlo Hhi.
  destruct (round_weak q e l Hq Hd Hlo Hhi) as (m & E & M1 & Hr & HM1 & HE & Hm).
  pose proof (leading_digits q Hq Hd) as Hb.
  set (n := Zdigits2 q - 53) in *.
  pose proof (pow2_pos n ltac:(lia)) as HN.
  pose proof (Z.mul_div_le q (2 ^ n) HN) as Hq0.
  set (M0 := q / 2 ^ n) in *.
  exists m, E. split; [assumption|]. split; [assumption|].
  assert (HM : M0 * 2 ^ n <= M1 * 2 ^ n <= q + 2 ^ n) by nia.
  destruct HE as [[-> HmM]|(-> & H53 & H52)].
  - split; [unfold n; lia|].
    replace (e + Zdigits2 q - 53 - e) with n by (unfold n; lia).
    rewrite HmM. exact HM.
  - split; [unfold n; lia|].
    replace (e + Zdigits2 q - 52 - e) with (1 + n) by (unfold n; lia).
    rewrite pow2_split, H52 by lia.
    replace (2 ^ 52 * (2 ^ 1 * 2 ^ n)) with (2 ^ 53 * 2 ^ n) by (change (2 ^ 53) with (2 ^ 52 * 2 ^ 1); ring).
    rewrite <- H53. exact HM.
Qed.

(** A rounded number that lies between an integer [S] and the next one, at
    least [2^-11] below it. *)
Lemma rounded_between (q e S : Z) (l : location) :
  0 < q -> 53 <= Zdigits2 q -> Zdigits2 q - 53 <= - e -> -1000 <= e <= -12 ->
  0 <= S -> S + 1 <= 2 ^ 40 ->
  S * 2 ^ (- e) <= q ->
  q + 2 ^ (Zdigits2 q - 53) + 2 ^ (- e - 11) <= (S + 1) * 2 ^ (- e) ->
  exists m E,
    binary_round_aux 53 1024 false q e l = S754_finite false m E
    /\ 2 ^ 52 <= Zpos m < 2 ^ 53
    /\ -1074 <= E <= -12
    /\ S * 2 ^ (- E) <= Zpos m
    /\ Zpos m + 2 ^ (- E - 11) <= (S + 1) * 2 ^ (- E).
Proof.
  intros Hq Hd Hn He HS HS1 Hlo Hhi.
  set (n := Zdigits2 q - 53) in *.
  pose proof (pow2_pos (- e) ltac:(lia)) as HT.
  pose proof (pow2_pos n ltac:(lia)) as HN.
  pose proof (pow2_pos (- e - 11) ltac:(lia)) as HG.
  assert (Hde : Zdigits2 q + e <= 40).
  { assert (q < 2 ^ (40 - e)).
    { replace (40 - e) with (40 + - e) by lia. rewrite pow2_split by lia. nia. }
    pose proof (digits_le q (40 - e) Hq H). lia. }
  destruct (rounded_value q e l Hq Hd ltac:(unfold n in *; lia) ltac:(lia))
    as (m & E & Hr & Hm & HE & Hvl & Hvh).
  fold n in HE, Hvl, Hvh.
  exists m, E. split; [assumption|]. split; [assumption|].
  split; [unfold n in *; lia|].
  assert (HEe : 0 <= E - e) by (unfold n in *; lia).
  pose proof (pow2_pos (E - e) HEe) as HP.
  assert (HTE : 2 ^ (- e) = 2 ^ (- E) * 2 ^ (E - e)).
  { rewrite <- pow2_split by (unfold n in *; lia). f_equal. lia. }
  assert (HGE : 2 ^ (- e - 11) = 2 ^ (- E - 11) * 2 ^ (E - e)).
  { rewrite <- pow2_split by (unfold n in *; lia). f_equal. lia. }
  split.
  - apply Z.mul_le_mono_pos_r with (p := 2 ^ (E - e)); [assumption|].
    rewrite <- Z.mul_assoc, <- HTE.
    assert (HSn : S * 2 ^ (- e) = (S * 2 ^ (- e - n)) * 2 ^ n).
    { rewrite <- Z.mul_assoc, <- pow2_split by lia. do 2 f_equal. lia. }
    assert (S * 2 ^ (- e - n) <= q / 2 ^ n).
    { apply Z.div_le_lower_bound; [assumption|]. rewrite Z.mul_comm, <- HSn. assumption. }
    rewrite HSn. etransitivity; [|exact Hvl].
    apply Z.mul_le_mono_nonneg_r; lia.
  - apply Z.mul_le_mono_pos_r with (p := 2 ^ (E - e)); [assumption|].
    rewrite Z.mul_add_distr_r, <- HGE, <- Z.mul_assoc, <- HTE. lia.
Qed.

(** Adding to an integer a number between [S] and [S + 1]: the integer part
    of the sum is [W + S]. *)
Lemma floor_add (W S : Z) (x : float) (m : positive) (E : Z) :
  0 < W -> 0 <= S -> W + S + 1 <= 2 ^ 40 ->
  Prim2SF x = S754_finite false m E ->
  2 ^ 52 <= Zpos m < 2 ^ 53 -> -1074 <= E <= -12 ->
  S * 2 ^ (- E) <= Zpos m ->
  Zpos m + 2 ^ (- E - 11) <= (S + 1) * 2 ^ (- E) ->
  floor (of_Z W + x)%float = of_Z (W + S).
Proof.
  intros HW HS HWS Hx Hm HE Hlo Hhi.
  destruct (canon_parts W ltac:(lia)) as (mW & eW & HcW & HeW & HrW & HmW & HbW).
  assert (HdW : Zdigits2 W <= 40) by (apply digits_le; lia).
  set (ez := Z.min eW E).
  pose proof (pow2_pos (- ez) ltac:(unfold ez; lia)) as HT.
  pose proof (pow2_pos (- E) ltac:(lia)) as HTE.
  pose proof (pow2_pos (E - ez) ltac:(unfold ez; lia)) as HTd.
  pose proof (pow2_pos (- E - 11) ltac:(lia)) as HG.
  assert (HTs : 2 ^ (- ez) = 2 ^ (- E) * 2 ^ (E - ez)).
  { rewrite <- pow2_split by (unfold ez; lia). f_equal. lia. }
  assert (HGs : 2 ^ (- ez - 11) = 2 ^ (- E - 11) * 2 ^ (E - ez)).
  { rewrite <- pow2_split by (unfold ez; lia). f_equal. lia. }
  set (xm := Zpos m * 2 ^ (E - ez)).
  assert (Hxl : S * 2 ^ (- ez) <= xm).
  { unfold xm. rewrite HTs, Z.mul_assoc. apply Z.mul_le_mono_nonneg_r; lia. }
  assert (Hxh : xm + 2 ^ (- ez - 11) <= (S + 1) * 2 ^ (- ez)).
  { unfold xm. rewrite HTs, HGs, Z.mul_assoc, <- Z.mul_add_distr_r.
    apply Z.mul_le_mono_nonneg_r; lia. }
  pose proof (pow2_pos (- ez - 11) ltac:(unfold ez; lia)) as HG2.
  set (p := W * 2 ^ (- ez) + xm).
  assert (Hp52 : 2 ^ 52 <= p).
  { assert (Zpos mW <= W * 2 ^ (- ez)).
    { rewrite HmW. apply Z.mul_le_mono_nonneg_l; [lia|].
      apply Z.pow_le_mono_r; unfold ez; lia. }
    assert (0 <= S * 2 ^ (- ez)) by (apply Z.mul_nonneg_nonneg; lia).
    unfold p. lia. }
  assert (Hplo : 2 ^ (- ez) <= p).
  { assert (0 <= S * 2 ^ (- ez)) by (apply Z.mul_nonneg_nonneg; lia).
    assert (1 * 2 ^ (- ez) <= W * 2 ^ (- ez)) by (apply Z.mul_le_mono_nonneg_r; lia).
    unfold p. lia. }
  assert (Hphi : p < 2 ^ (40 - ez)).
  { replace (40 - ez) with (40 + - ez) by lia.
    rewrite pow2_split by (unfold ez; lia).
    assert ((W + S + 1) * 2 ^ (- ez) <= 2 ^ 40 * 2 ^ (- ez))
      by (apply Z.mul_le_mono_nonneg_r; lia).
    unfold p. lia. }
  assert (Hd : 53 <= Zdigits2 p /\ - ez + 1 <= Zdigits2 p /\ Zdigits2 p <= 40 - ez).
  { split; [apply (digits_ge p 52); lia|].
    split; [apply digits_ge; [unfold ez|]; lia|apply digits_le; lia]. }
  destruct (rounded_floor p ez loc_Exact) as (m' & E' & k & Hr & HE' & Hk & Hkl & Hkh);
    try lia.
  assert (Hsum : Prim2SF (of_Z W + x)%float = S754_finite false m' E').
  { rewrite add_spec, Prim2SF_of_Z_canon, HcW, Hx by lia.
    unfold SF64add, SFadd, cond_Zopp. zf. fold ez.
    rewrite (aligned W eW ez mW HmW), shl_align_fst by (unfold ez; lia).
    fold xm. fold p.
    destruct p as [|pp|pp] eqn:Ep; try lia.
    unfold binary_normalize, binary_round. zf.
    change (Zpos (digits2_pos pp)) with (Zdigits2 (Zpos pp)).
    rewrite fexp_normal by lia.
    unfold shl_align. zf.
    destruct (Zdigits2 (Zpos pp) + ez - 53 - ez) as [|n|n] eqn:En; try lia; exact Hr. }
  rewrite (floor_finite _ m' E' Hsum HE'), <- Hk. f_equal.
  assert (Hge : W + S <= k).
  { etransitivity; [|exact Hkl]. apply Z.div_le_lower_bound; [assumption|].
    unfold p. lia. }
  assert (Hlt : k < W + S + 1).
  { assert (2 ^ (Zdigits2 p - 53) < 2 ^ (- ez - 11))
      by (apply Z.pow_lt_mono_r; lia).
    assert (k * 2 ^ (- ez) < (W + S + 1) * 2 ^ (- ez)) by (unfold p in *; lia).
    apply Z.mul_lt_mono_pos_r in H0; lia. }
  lia.
Qed.

Lemma add_zero_l (x : float) (m : positive) (E : Z) :
  Prim2SF x = S754_finite false m E -> (of_Z 0 + x)%float = x.
Proof.
  intros Hx. apply Prim2SF_inj. rewrite add_spec, Prim2SF_of_Z_zero, Hx. reflexivity.
Qed.

(** The same from zero on. *)
Lemma floor_add_from_zero (W S : Z) (x : float) (m : positive) (E : Z) :
  0 <= W -> 0 <= S -> W + S + 1 <= 2 ^ 40 ->
  Prim2SF x = S754_finite false m E ->
  2 ^ 52 <= Zpos m < 2 ^ 53 -> -1074 <= E <= -12 ->
  S * 2 ^ (- E) <= Zpos m ->
  Zpos m + 2 ^ (- E - 11) <= (S + 1) * 2 ^ (- E) ->
  floor (of_Z W + x)%float = of_Z (W + S).
Proof.
  intros HW HS HWS Hx Hm HE Hlo Hhi.
  destruct (Z.eq_dec W 0) as [->|HW0]; [|apply (floor_add W S x m E); try assumption; lia].
  rewrite (add_zero_l x m E Hx), (floor_finite x m E Hx) by lia. f_equal.
  pose proof (pow2_pos (- E) ltac:(lia)) as HT.
  pose proof (pow2_pos (- E - 11) ltac:(lia)) as HG.
  symmetry. apply Z.div_unique with (Zpos m - S * 2 ^ (- E)); lia.
Qed.

Lemma valid_finite (m : positive) (E : Z) :
  2 ^ 52 <= Zpos m < 2 ^ 53 -> -1074 <= E <= 971 ->
  valid_binary (S754_finite false m E) = true.
Proof.
  intros Hm HE.
  unfold valid_binary, SpecFloat.valid_binary, bounded, canonical_mantissa, prec, emax.
  zf. change (Zpos (digits2_pos m)) with (Zdigits2 (Zpos m)).
  rewrite (digits_unique (Zpos m) 53) by (simpl; lia).
  rewrite fexp_normal by lia.
  replace (53 + E - 53) with E by lia. rewrite Z.eqb_refl. cbn [andb].
  apply Z.leb_le. lia.
Qed.

(** A mantissa of 53 digits or more is only rounded. *)
Lemma normalize_long (p : positive) (e : Z) :
  53 <= Zdigits2 (Zpos p) -> -1021 <= Zdigits2 (Zpos p) + e ->
  binary_normalize 53 1024 (Zpos p) e false
  = binary_round_aux 53 1024 false (Zpos p) e loc_Exact.
Proof.
  intros Hd He. unfold binary_normalize, binary_round. zf.
  change (Zpos (digits2_pos p)) with (Zdigits2 (Zpos p)).
  rewrite fexp_normal by lia. unfold shl_align. zf.
  destruct (Zdigits2 (Zpos p) + e - 53 - e) as [|n|n] eqn:En; try lia; reflexivity.
Qed.

(** The quotient of two integers, before rounding. *)
Lemma div_of_Z_core (n dv : Z) (mn md : positive) (en ed : Z) :
  canon n = S754_finite false mn en -> canon dv = S754_finite false md ed ->
  0 < n < 2 ^ 53 -> 0 < dv < 2 ^ 53 ->
  2 ^ 52 <= Zpos mn < 2 ^ 53 -> 2 ^ 52 <= Zpos md < 2 ^ 53 ->
  -52 <= en <= 0 -> -52 <= ed <= 0 ->
  let q := (Zpos mn * 2 ^ 53) / Zpos md in
  (exists l, Prim2SF (of_Z n / of_Z dv)%float
             = binary_round_aux 53 1024 false q (en - ed - 53) l)
  /\ 2 ^ 52 <= q < 2 ^ 54 /\ 53 <= Zdigits2 q <= 54.
Proof.
  intros Hcn Hcd Hn Hdv Hbn Hbd Hen Hed q.
  assert (Hq : 2 ^ 52 <= q < 2 ^ 54).
  { unfold q. split.
    - apply Z.div_le_lower_bound; [lia|]. change (2 ^ 53) with (2 * 2 ^ 52) in *. nia.
    - apply Z.div_lt_upper_bound; [lia|]. change (2 ^ 54) with (2 ^ 53 * 2). nia. }
  split; [|split; [assumption|]].
  - exists (new_location (Zpos md) ((Zpos mn * 2 ^ 53) mod Zpos md)).
    rewrite div_spec, !Prim2SF_of_Z_canon, Hcn, Hcd by lia.
    unfold SF64div, SFdiv, prec, emax.
    replace (SFdiv_core_binary 53 1024 (Zpos mn) en (Zpos md) ed)
      with (q, en - ed - 53, new_location (Zpos md) ((Zpos mn * 2 ^ 53) mod Zpos md));
      [reflexivity|].
    unfold SFdiv_core_binary. zf.
    rewrite (digits_unique (Zpos mn) 53), (digits_unique (Zpos md) 53) by (simpl; lia).
    replace (53 + en - (53 + ed)) with (en - ed) by lia.
    rewrite fexp_normal by lia.
    rewrite Z.min_l by lia.
    replace (en - ed - (en - ed - 53)) with 53 by lia.
    rewrite Z.shiftl_mul_pow2 by lia.
    unfold q, Z.div, Z.modulo.
    destruct (Z.div_eucl (Zpos mn * 2 ^ 53) (Zpos md)) as [q0 r0]. reflexivity.
  - split; [apply (digits_ge q 52); lia|apply digits_le; lia].
Qed.

(** Milliseconds divided by a thousand: a number below one, by more than
    [2^-11]. *)
Lemma millis_value (ms : Z) :
  0 < ms < 1000 ->
  exists m E, Prim2SF (of_Z ms / 1000)%float = S754_finite false m E
    /\ 2 ^ 52 <= Zpos m < 2 ^ 53 /\ -1074 <= E <= -12
    /\ 0 * 2 ^ (- E) <= Zpos m
    /\ Zpos m + 2 ^ (- E - 11) <= (0 + 1) * 2 ^ (- E).
Proof.
  intros Hms.
  destruct (canon_parts ms ltac:(lia)) as (mn & en & Hcn & Hen & Hrn & Hmn & Hbn).
  assert (Hdn : Zdigits2 ms <= 10) by (apply digits_le; lia).
  assert (Hcd : canon 1000 = S754_finite false 8796093022208000 (-43)) by reflexivity.
  change 1000%float with (of_Z 1000).
  destruct (div_of_Z_core ms 1000 mn 8796093022208000 en (-43) Hcn Hcd)
    as ((l & Hdiv) & Hq & Hd); try lia.
  rewrite Hdiv.
  set (q := Zpos mn * 2 ^ 53 / 8796093022208000) in *.
  set (e := en - -43 - 53) in *.
  assert (He : -95 <= e <= -53) by (unfold e; lia).
  pose proof (pow2_pos (- e - 11) ltac:(lia)) as HG.
  assert (HT : 2 ^ (- e) = 2048 * 2 ^ (- e - 11)).
  { change 2048 with (2 ^ 11). rewrite <- pow2_split by lia. f_equal. lia. }
  assert (H42 : 2 ^ 42 <= 2 ^ (- e - 11)) by (apply Z.pow_le_mono_r; lia).
  assert (HN : 2 ^ (Zdigits2 q - 53) <= 2).
  { change 2 with (2 ^ 1) at 2. apply Z.pow_le_mono_r; lia. }
  assert (Hqm : q * 8796093022208000 <= Zpos mn * 2 ^ 53)
    by (unfold q; rewrite Z.mul_comm; apply Z.mul_div_le; lia).
  assert (Hnum : Zpos mn * 2 ^ 53 = ms * 2 ^ 43 * 2 ^ (- e)).
  { rewrite Hmn, <- !Z.mul_assoc, <- !pow2_split by lia.
    do 2 f_equal. unfold e. lia. }
  change 8796093022208000 with (1000 * 2 ^ 43) in Hqm.
  assert (Hq1 : q * 1000 <= ms * 2 ^ (- e)).
  { apply Z.mul_le_mono_pos_r with (p := 2 ^ 43); [reflexivity|].
    rewrite Hnum in Hqm. lia. }
  assert (Hq2 : q * 1000 <= 999 * 2 ^ (- e)) by nia.
  apply rounded_between; try lia.
Qed.

(** A ratio with the denominator [1000]: between its integer part and the
    next integer, by more than [2^-11]. *)
Lemma ratio_value (S F : Z) :
  0 <= S -> S + 1 <= 2 ^ 40 -> 0 <= F < 1000 -> 0 < 1000 * S + F ->
  exists m E, Prim2SF (of_ratio (1000 * S + F) 1000) = S754_finite false m E
    /\ 2 ^ 52 <= Zpos m < 2 ^ 53 /\ -1074 <= E <= -12
    /\ S * 2 ^ (- E) <= Zpos m
    /\ Zpos m + 2 ^ (- E - 11) <= (S + 1) * 2 ^ (- E).
Proof.
  intros HS HS1 HF Hnum. set (num := 1000 * S + F) in *.
  unfold of_ratio. change (Z.log2 1000) with 9.
  assert (Hlog : 0 <= Z.log2 num < 50).
  { split; [apply Z.log2_nonneg|]. apply Z.log2_lt_pow2; [assumption|].
    change (2 ^ 40) with 1099511627776 in HS1. change (2 ^ 50) with 1125899906842624.
    unfold num. lia. }
  rewrite Z.max_r by lia.
  set (k := 60 + 9 - Z.log2 num).
  assert (Hk : 19 < k <= 69) by (unfold k; lia).
  rewrite Z.shiftl_mul_pow2 by lia.
  pose proof (pow2_pos k ltac:(lia)) as HK.
  set (qq := num * 2 ^ k / 1000).
  assert (Hqq : 1000 * qq <= num * 2 ^ k < 1000 * qq + 1000).
  { unfold qq. pose proof (Z.mul_div_le (num * 2 ^ k) 1000 ltac:(lia)).
    pose proof (Z.mul_succ_div_gt (num * 2 ^ k) 1000 ltac:(lia)). lia. }
  set (sticky := if num * 2 ^ k mod 1000 =? 0 then 0 else 1).
  assert (Hst : 0 <= sticky <= 1) by (unfold sticky; destruct (_ =? _); lia).
  assert (Hst2 : 1000 * (2 * qq + sticky) <= 2 * (num * 2 ^ k) + 1000).
  { unfold sticky. destruct (Z.eqb_spec (num * 2 ^ k mod 1000) 0) as [H0|H0]; [lia|].
    assert (1000 * qq <> num * 2 ^ k); [|lia].
    intros Heq. apply H0. rewrite <- Heq, Z.mul_comm. apply Z.mod_mul. lia. }
  set (P := 2 * qq + sticky) in *.
  (* the size of the quotient *)
  assert (H69 : 2 ^ 69 <= num * 2 ^ k).
  { replace 69 with (Z.log2 num + k) by (unfold k; lia).
    rewrite pow2_split by lia.
    apply Z.mul_le_mono_nonneg_r; [lia|].
    apply Z.log2_spec. assumption. }
  assert (HP60 : 2 ^ 60 <= P).
  { change (2 ^ 69) with (2 ^ 60 * 512) in H69. unfold P. lia. }
  set (G := 2 ^ (k - 12)).
  assert (HG : 0 < G) by (apply pow2_pos; lia).
  assert (HK2 : 2 ^ k = 4096 * G).
  { unfold G. change 4096 with (2 ^ 12). rewrite <- pow2_split by lia. f_equal. lia. }
  assert (HGF : F * G <= 999 * G) by (apply Z.mul_le_mono_nonneg_r; lia).
  assert (HGS : 0 <= S * G) by (apply Z.mul_nonneg_nonneg; lia).
  assert (HnumG : num * 2 ^ k = 4096000 * (S * G) + 4096 * (F * G)).
  { rewrite HK2. unfold num. ring. }
  assert (HPhi : P < (S + 1) * (8192 * G)) by lia.
  assert (HdP : 61 <= Zdigits2 P <= k + 41).
  { split; [apply (digits_ge P 60); lia|].
    apply digits_le; [lia|].
    replace (k + 41) with (40 + 13 + (k - 12)) by lia.
    rewrite !pow2_split by lia. fold G. change (2 ^ 13) with 8192.
    assert ((S + 1) * (8192 * G) <= 2 ^ 40 * 8192 * G); [|lia].
    rewrite <- Z.mul_assoc. apply Z.mul_le_mono_nonneg_r; lia. }
  assert (HNG : 2 ^ (Zdigits2 P - 53) <= G).
  { unfold G. apply Z.pow_le_mono_r; lia. }
  assert (HT : 2 ^ (- (- k - 1)) = 8192 * G).
  { unfold G. change 8192 with (2 ^ 13). rewrite <- pow2_split by lia. f_equal. lia. }
  assert (HT11 : 2 ^ (- (- k - 1) - 11) = 4 * G).
  { unfold G. change 4 with (2 ^ 2). rewrite <- pow2_split by lia. f_equal. lia. }
  destruct (rounded_between P (- k - 1) S loc_Exact) as (m & E & Hr & Hm & HE & Hlo & Hhi);
    try lia.
  exists m, E. split; [|repeat split; lia].
  unfold of_dyadic. destruct P as [|p|p] eqn:EP; try lia.
  rewrite normalize_long, Hr by lia.
  apply Prim2SF_SF2Prim. apply valid_finite; lia.
Qed.

End Binary64.

(** ** Integer budgets *)

Section Budget.
Import Subtitle.

Lemma flat_map_short {X Y : Type} (f : X -> list Y) (l : list X) :
  (forall x, (List.length (f x) <= 1)%nat) ->
  (List.length (flat_map f l) <= List.length l)%nat.
Proof.
  intros Hf. induction l as [|x l IH]; [reflexivity|].
  cbn [flat_map List.length]. rewrite length_app. specialize (Hf x). lia.
Qed.

Lemma sample_short {A : Type} (a : list A) (idx : float -> float) (ok : float -> bool) l :
  (List.length (flat_map (fun i => if ok i then match array_get a (idx i) with
                                                | Some seg => [seg]
                                                | None => []
                                                end
                                   else []) l) <= List.length l)%nat.
Proof.
  apply flat_map_short. intros i.
  destruct (ok i); [|simpl; lia]. destruct (array_get a (idx i)); simpl; lia.
Qed.

(** [a.slice(0, e)] is the first [e] elements. *)
Lemma slice_firstn {A : Type} (a : list A) (e : Z) :
  0 <= e -> slice a 0 (Some e) = firstn (Z.to_nat e) a.
Proof.
  intros He. unfold slice. cbn [Z.ltb Z.compare].
  destruct (Z.ltb_spec e 0); [lia|].
  rewrite (Z.min_l 0) by lia. rewrite Z.sub_0_r. cbn [Z.to_nat skipn].
  destruct (Z.le_gt_cases e (Z.of_nat (List.length a))).
  - now rewrite Z.min_l by lia.
  - rewrite Z.min_r, Nat2Z.id, firstn_all by lia.
    symmetry. apply firstn_all2. lia.
Qed.

Lemma slice_prefix_length {A : Type} (a : list A) (e : Z) :
  0 <= e -> Z.of_nat (List.length (slice a 0 (Some e))) <= e.
Proof.
  intros He. rewrite slice_firstn by assumption.
  pose proof (firstn_le_length (Z.to_nat e) a).
  rewrite length_firstn. lia.
Qed.

(** [a.slice(s)] from a position at most [c] before the end *)
Lemma slice_suffix_length {A : Type} (a : list A) (s c : Z) :
  0 <= c -> 0 <= s -> Z.of_nat (List.length a) - c <= s ->
  Z.of_nat (List.length (slice a s None)) <= c.
Proof.
  intros Hc Hs H. unfold slice.
  destruct (Z.ltb_spec s 0); [lia|].
  rewrite length_firstn, length_skipn. lia.
Qed.

(** [a.slice(-c)], the last [c] elements *)
Lemma slice_last_length {A : Type} (a : list A) (c : Z) :
  0 < c -> Z.of_nat (List.length (slice a (- c) None)) <= c.
Proof.
  intros Hc. unfold slice.
  destruct (Z.ltb_spec (- c) 0); [|lia].
  rewrite length_firstn, length_skipn. lia.
Qed.

(** The shares of the budget: [Math.floor(B * c)] for the four constants. *)
Lemma share (B : Z) (c : float) (mc : positive) (ec : Z) :
  0 <= B < 2 ^ 50 ->
  Prim2SF c = S754_finite false mc ec ->
  2 ^ 52 <= Zpos mc < 2 ^ 53 -> -60 <= ec <= -53 ->
  exists k, floor (of_Z B * c)%float = of_Z k
    /\ (B * Zpos mc) / 2 ^ (- ec) <= k
    /\ k * 2 ^ (- ec) * 2 ^ 52 <= B * Zpos mc * (2 ^ 52 + 1).
Proof.
  intros HB Hc Hmc Hec. destruct (Z.eq_dec B 0) as [->|HB0].
  - exists 0. split; [|split; [reflexivity|lia]].
    assert (H0 : (of_Z 0 * c)%float = of_Z 0).
    { apply Prim2SF_inj. rewrite mul_spec, Prim2SF_of_Z_zero, Hc. reflexivity. }
    rewrite H0. reflexivity.
  - apply floor_mul_bounds; try assumption. lia.
Qed.

Lemma share_02 (B : Z) :
  0 <= B < 2 ^ 50 ->
  exists k, floor (of_Z B * 0.2)%float = of_Z k /\ 0 <= k /\ 100 * k <= 21 * B.
Proof.
  intros HB.
  destruct (share B 0.2%float 7205759403792794 (-55) HB) as (k & Hk & Hlo & Hhi);
    [reflexivity|lia|lia|].
  exists k. split; [assumption|].
  assert (0 <= B * 7205759403792794 / 2 ^ (- -55)) by (apply Z.div_pos; lia).
  change (2 ^ (- -55)) with 36028797018963968 in *. lia.
Qed.

Lemma share_03 (B : Z) :
  0 <= B < 2 ^ 50 ->
  exists k, floor (of_Z B * 0.3)%float = of_Z k /\ 0 <= k /\ 100 * k <= 31 * B.
Proof.
  intros HB.
  destruct (share B 0.3%float 5404319552844595 (-54) HB) as (k & Hk & Hlo & Hhi);
    [reflexivity|lia|lia|].
  exists k. split; [assumption|].
  assert (0 <= B * 5404319552844595 / 2 ^ (- -54)) by (apply Z.div_pos; lia).
  change (2 ^ (- -54)) with 18014398509481984 in *. lia.
Qed.

Lemma share_01 (B : Z) :
  0 <= B < 2 ^ 50 ->
  exists k, floor (of_Z B * 0.1)%float = of_Z k /\ 0 <= k /\ 100 * k <= 11 * B.
Proof.
  intros HB.
  destruct (share B 0.1%float 7205759403792794 (-56) HB) as (k & Hk & Hlo & Hhi);
    [reflexivity|lia|lia|].
  exists k. split; [assumption|].
  assert (0 <= B * 7205759403792794 / 2 ^ (- -56)) by (apply Z.div_pos; lia).
  change (2 ^ (- -56)) with 72057594037927936 in *. lia.
Qed.

Lemma share_07 (B : Z) :
  0 <= B < 2 ^ 50 ->
  exists k, floor (of_Z B * 0.7)%float = of_Z k
            /\ 0 <= k /\ 100 * k <= 71 * B /\ (2 <= B -> 1 <= k).
Proof.
  intros HB.
  destruct (share B 0.7%float 6305039478318694 (-53) HB) as (k & Hk & Hlo & Hhi);
    [reflexivity|lia|lia|].
  exists k. split; [assumption|].
  assert (0 <= B * 6305039478318694 / 2 ^ (- -53)) by (apply Z.div_pos; lia).
  assert (2 <= B -> 1 <= B * 6305039478318694 / 2 ^ (- -53)).
  { intros H2. apply Z.div_le_lower_bound; [reflexivity|].
    change (2 ^ (- -53)) with 9007199254740992. lia. }
  change (2 ^ (- -53)) with 9007199254740992 in *. lia.
Qed.

Section Sample.
Context {A : Type}.
Variable numberToString : float -> jsstring.
Variable segs : list A.
Variable B : Z.
Hypothesis HB : 0 <= B < 2 ^ 50.
Hypothesis HL : B < Z.of_nat (List.length segs) < 2 ^ 53.

Lemma len_of_Z : len segs = of_Z (Z.of_nat (List.length segs)).
Proof. reflexivity. Qed.

Lemma exceeds : PrimFloat.leb (len segs) (of_Z B) = false.
Proof.
  rewrite len_of_Z, leb_of_Z by lia. apply Z.leb_gt. lia.
Qed.

Lemma smart_length :
  Z.of_nat (List.length (segments (smart_result numberToString segs (of_Z B)))) <= B.
Proof.
  destruct (share_02 B HB) as (ki & Hi & Hi0 & Hi1).
  destruct (share_03 B HB) as (km & Hm & Hm0 & Hm1).
  set (L := Z.of_nat (List.length segs)) in *.
  assert (Hcc : conclusionCount (of_Z B) = of_Z (B - ki - km)).
  { unfold conclusionCount, introCount, middleCount. rewrite Hi, Hm.
    rewrite !sub_of_Z by lia. reflexivity. }
  assert (Hcs : conclusionStart segs (of_Z B) = of_Z (Z.max (L - (B - ki - km)) ki)).
  { unfold conclusionStart. rewrite Hcc, len_of_Z. unfold introCount. rewrite Hi.
    fold L. rewrite sub_of_Z by lia. apply max_of_Z; lia. }
  assert (H1 : Z.of_nat (List.length (intro segs (of_Z B))) <= ki).
  { unfold intro, introCount. rewrite Hi, toIntegerOrInfinity_of_Z by lia.
    now apply slice_prefix_length. }
  assert (H2 : Z.of_nat (List.length (middleSegments segs (of_Z B))) <= km).
  { unfold middleSegments. destruct (_ && _); [|simpl; lia]. cbv zeta.
    etransitivity; [apply Nat2Z.inj_le, sample_short|].
    unfold middleCount. rewrite Hm, loop_indices_of_Z, length_map, length_seq by lia. lia. }
  assert (H3 : Z.of_nat (List.length (conclusion segs (of_Z B))) <= B - ki - km).
  { unfold conclusion. rewrite Hcs, toIntegerOrInfinity_of_Z by lia.
    apply slice_suffix_length; fold L; lia. }
  unfold smart_result. cbn [segments]. rewrite !length_app, !Nat2Z.inj_add. lia.
Qed.

Lemma summary_length :
  2 <= B ->
  Z.of_nat (List.length (segments (summary_result numberToString segs (of_Z B)))) <= B.
Proof.
  intros H2B.
  destruct (share_01 B HB) as (ki & Hi & Hi0 & Hi1).
  destruct (share_07 B HB) as (kc & Hc & Hc0 & Hc1 & Hc2). specialize (Hc2 H2B).
  assert (Hsm : summaryMiddle (of_Z B) = of_Z (B - ki - kc)).
  { unfold summaryMiddle, summaryIntro, summaryConclusion. rewrite Hi, Hc.
    rewrite !sub_of_Z by lia. reflexivity. }
  assert (H1 : Z.of_nat (List.length (summary_intro segs (of_Z B))) <= ki).
  { unfold summary_intro, summaryIntro. rewrite Hi, toIntegerOrInfinity_of_Z by lia.
    now apply slice_prefix_length. }
  assert (H2 : Z.of_nat (List.length (summary_middle segs (of_Z B))) <= B - ki - kc).
  { unfold summary_middle. destruct (PrimFloat.ltb _ _); [|simpl; lia]. cbv zeta.
    etransitivity; [apply Nat2Z.inj_le, sample_short|].
    rewrite Hsm, loop_indices_of_Z, length_map, length_seq by lia. lia. }
  assert (H3 : Z.of_nat (List.length (summary_conclusion segs (of_Z B))) <= kc).
  { unfold summary_conclusion, summaryConclusion.
    rewrite Hc, toIntegerOrInfinity_opp by lia.
    apply slice_last_length. lia. }
  unfold summary_result. cbn [segments]. rewrite !length_app, !Nat2Z.inj_add. lia.
Qed.

End Sample.
End Budget.

(** X21: with an integer budget [B] that the transcript exceeds, the
    [smart] sample (also taken for an unknown mode) has at most [B]
    segments: the intro has at most [floor(0.2 B)], the middle at most
    [floor(0.3 B)] and the conclusion at most the rest, in binary64
    arithmetic as in the integers. *)
Theorem smart_sample_within_budget :
  forall (A : Type) numberToString (segs : list A) (B : Z) mode,
    0 <= B < 2 ^ 50 ->
    B < Z.of_nat (List.length segs) < 2 ^ 53 ->
    eqs mode (str "full") = false ->
    eqs mode (str "summary") = false ->
    Z.of_nat (List.length
                (Subtitle.segments
                   (Subtitle.processTranscript numberToString segs (of_Z B) mode)))
    <= B.
Proof.
  intros A nts segs B mode HB HL Hfull Hsum.
  unfold Subtitle.processTranscript.
  rewrite (exceeds segs B HB HL), Hfull, Hsum.
  destruct (eqs mode (str "smart")); now apply smart_length.
Qed.

Lemma smart_sample_within_budget_witness :
  Z.of_nat (List.length
              (Subtitle.segments
                 (Subtitle.processTranscript integerToString
                    [10; 11; 12; 13; 14; 15; 16; 17; 18; 19; 20; 21] (of_Z 7)
                    (str "smart"))))
  <= 7.
Proof.
  apply (smart_sample_within_budget Z integerToString
           [10; 11; 12; 13; 14; 15; 16; 17; 18; 19; 20; 21] 7 (str "smart")).
  - lia.
  - simpl. lia.
  - reflexivity.
  - reflexivity.
Defined.

(** X22: with an integer budget [B] of at least two that the transcript
    exceeds, the [summary] sample has at most [B] segments. (At one the
    conclusion count is zero and [slice(-0)] is the whole transcript.) *)
Theorem summary_sample_within_budget :
  forall (A : Type) numberToString (segs : list A) (B : Z),
    2 <= B < 2 ^ 50 ->
    B < Z.of_nat (List.length segs) < 2 ^ 53 ->
    Z.of_nat (List.length
                (Subtitle.segments
                   (Subtitle.processTranscript numberToString segs (of_Z B)
                      (str "summary"))))
    <= B.
Proof.
  intros A nts segs B HB HL.
  unfold Subtitle.processTranscript.
  rewrite (exceeds segs B ltac:(lia) HL).
  replace (eqs (str "summary") (str "full")) with false by (vm_compute; reflexivity).
  replace (eqs (str "summary") (str "smart")) with false by (vm_compute; reflexivity).
  replace (eqs (str "summary") (str "summary")) with true by (vm_compute; reflexivity).
  apply summary_length; lia.
Qed.

Lemma summary_sample_within_budget_witness :
  Z.of_nat (List.length
              (Subtitle.segments
                 (Subtitle.processTranscript integerToString
                    [10; 11; 12; 13; 14; 15; 16; 17; 18; 19; 20; 21] (of_Z 5)
                    (str "summary"))))
  <= 5.
Proof.
  apply (summary_sample_within_budget Z integerToString
           [10; 11; 12; 13; 14; 15; 16; 17; 18; 19; 20; 21] 5).
  - lia.
  - simpl. lia.
Defined.

(** X23: with an integer budget [B], a transcript of at most [B] segments
    is returned whole in every mode, not truncated and without a message,
    and a longer one is cut in the [full] mode to its first [B] segments. *)
Theorem integer_budget_prefix :
  forall (A : Type) numberToString (segs : list A) (B : Z) mode,
    0 <= B < 2 ^ 53 ->
    Z.of_nat (List.length segs) < 2 ^ 53 ->
    (Z.of_nat (List.length segs) <= B ->
     Subtitle.processTranscript numberToString segs (of_Z B) mode
     = Subtitle.mkProcessed segs false None)
    /\ (B < Z.of_nat (List.length segs) ->
        Subtitle.segments
          (Subtitle.processTranscript numberToString segs (of_Z B) (str "full"))
        = firstn (Z.to_nat B) segs).
Proof.
  intros A nts segs B mode HB HL.
  assert (Hleb : PrimFloat.leb (Subtitle.len segs) (of_Z B)
                 = (Z.of_nat (List.length segs) <=? B)).
  { rewrite len_of_Z. apply leb_of_Z; lia. }
  unfold Subtitle.processTranscript. rewrite Hleb. split; intros H.
  - apply Z.leb_le in H. now rewrite H.
  - apply Z.leb_gt in H. rewrite H.
    replace (eqs (str "full") (str "full")) with true by (vm_compute; reflexivity).
    unfold Subtitle.full_result. cbn [Subtitle.segments].
    rewrite toIntegerOrInfinity_of_Z by lia. apply slice_firstn. lia.
Qed.

Lemma integer_budget_prefix_witness :
  Subtitle.processTranscript integerToString [10; 11; 12] (of_Z 3) (str "summary")
  = Subtitle.mkProcessed [10; 11; 12] false None
  /\ Subtitle.segments
       (Subtitle.processTranscript integerToString [10; 11; 12; 13; 14] (of_Z 2)
          (str "full"))
     = firstn (Z.to_nat 2) [10; 11; 12; 13; 14].
Proof.
  split.
  - apply (integer_budget_prefix Z integerToString [10; 11; 12] 3 (str "summary"));
      simpl; lia.
  - apply (integer_budget_prefix Z integerToString [10; 11; 12; 13; 14] 2 (str "full"));
      simpl; lia.
Defined.

(** X24: for a whole number of seconds [n], [formatDuration] shows the
    hours [n / 3600] when there are any, then the minutes
    [(n mod 3600) / 60] and the seconds [n mod 60], each of the last two
    below sixty; the quotients of numbers are the quotients of integers. *)
Theorem formatDuration_whole_seconds :
  forall numberToString (n : Z),
    0 <= n < 2 ^ 51 ->
    Subtitle.formatDuration numberToString (of_Z n)
    = (if 0 <? n / 3600
       then numberToString (of_Z (n / 3600)) ++ str ":"
            ++ padStart2 (numberToString (of_Z (n mod 3600 / 60))) ++ str ":"
            ++ padStart2 (numberToString (of_Z (n mod 60)))
       else numberToString (of_Z (n mod 3600 / 60)) ++ str ":"
            ++ padStart2 (numberToString (of_Z (n mod 60)))).
Proof.
  intros nts n Hn. unfold Subtitle.formatDuration.
  change 3600%float with (of_Z 3600). change 60%float with (of_Z 60).
  change 0%float with (of_Z 0).
  pose proof (Z.mod_pos_bound n 3600 ltac:(lia)) as Hm.
  pose proof (Z.mod_pos_bound n 60 ltac:(lia)) as Hs.
  assert (Hh : 0 <= n / 3600 <= n).
  { split; [apply Z.div_pos; lia|]. apply Z.div_le_upper_bound; lia. }
  rewrite !rem_of_Z by lia.
  rewrite !floor_div_of_Z by lia.
  rewrite ltb_of_Z by lia. reflexivity.
Qed.

Lemma formatDuration_whole_seconds_witness :
  Subtitle.formatDuration integerToString (of_Z 3723) = str "1:02:03".
Proof.
  rewrite (formatDuration_whole_seconds integerToString 3723) by lia.
  vm_compute. reflexivity.
Defined.

(** ** Time stamps *)

Section TimeStamps.
Import Subtitle.

(** A numeral: one decimal digit or more. *)
Definition numeral (ds : jsstring) : Prop :=
  ds <> [] /\ Forall (fun c => is_digit c = true) ds.

Lemma digit_cases (c : char) :
  is_digit c = true -> In c [48; 49; 50; 51; 52; 53; 54; 55; 56; 57].
Proof.
  unfold is_digit, in_range. intros H. apply andb_true_iff in H as [H1 H2].
  apply Z.leb_le in H1, H2. simpl. lia.
Qed.

(** The value of a numeral read after [acc]. *)
Lemma digits_value_acc (ds : jsstring) :
  Forall (fun c => is_digit c = true) ds ->
  forall acc,
    0 <= digits_value acc ds - acc * 10 ^ Z.of_nat (List.length ds)
    < 10 ^ Z.of_nat (List.length ds).
Proof.
  induction 1 as [|d ds Hd _ IH]; intros acc; cbn [digits_value List.length].
  - simpl. lia.
  - unfold is_digit, in_range in Hd. apply andb_true_iff in Hd as [H1 H2].
    apply Z.leb_le in H1, H2.
    specialize (IH (10 * acc + (d - 48))).
    rewrite Nat2Z.inj_succ, Z.pow_succ_r by lia.
    assert (0 < 10 ^ Z.of_nat (List.length ds)) by (apply Z.pow_pos_nonneg; lia).
    nia.
Qed.

Lemma digits_value_bounds (ds : jsstring) :
  Forall (fun c => is_digit c = true) ds ->
  forall acc, 0 <= acc -> acc <= digits_value acc ds.
Proof.
  intros H acc Hacc. pose proof (digits_value_acc ds H acc).
  assert (0 < 10 ^ Z.of_nat (List.length ds)) by (apply Z.pow_pos_nonneg; lia).
  nia.
Qed.

Lemma digits_value_app (s f : jsstring) : forall acc,
  digits_value acc (s ++ f) = digits_value (digits_value acc s) f.
Proof.
  induction s as [|d s IH]; intros acc; cbn [app digits_value]; [reflexivity|apply IH].
Qed.

(** Seconds and three digits of milliseconds, read as one numeral. *)
Lemma digits_value_millis (s f : jsstring) :
  Forall (fun c => is_digit c = true) f -> List.length f = 3%nat ->
  digits_value 0 (s ++ f) = 1000 * digits_value 0 s + digits_value 0 f
  /\ 0 <= digits_value 0 f < 1000.
Proof.
  intros Hf Hlen. rewrite digits_value_app.
  pose proof (digits_value_acc f Hf (digits_value 0 s)) as H1.
  pose proof (digits_value_acc f Hf 0) as H0.
  rewrite Hlen in H1, H0. change (10 ^ Z.of_nat 3) with 1000 in *.
  (* both readings differ by the leading part *)
  assert (Hacc : forall ds acc, digits_value acc ds
                   = acc * 10 ^ Z.of_nat (List.length ds) + digits_value 0 ds).
  { induction ds as [|d ds IH]; intros acc; cbn [digits_value List.length].
    - simpl. lia.
    - rewrite (IH (10 * acc + (d - 48))), (IH (10 * 0 + (d - 48))).
      rewrite Nat2Z.inj_succ, Z.pow_succ_r by lia. ring. }
  rewrite (Hacc f (digits_value 0 s)), Hlen. change (10 ^ Z.of_nat 3) with 1000. lia.
Qed.

Lemma digit_not_space (d : char) : is_digit d = true -> is_space d = false.
Proof.
  intros Hd. pose proof (digit_cases d Hd) as H. cbn [In] in H.
  destruct H as [<-|[<-|[<-|[<-|[<-|[<-|[<-|[<-|[<-|[<-|[]]]]]]]]]]]; reflexivity.
Qed.

(** What [parseFloat] does with a text that begins with a digit: no white
    space, sign or [Infinity] is read. *)
Lemma parseFloat_unsigned (t : jsstring) (d : char) (rest : jsstring) :
  t = d :: rest -> is_digit d = true ->
  parseFloat t
  = (let ip := takeWhile is_digit t in
     let s2 := dropWhile is_digit t in
     let '(fp, s3) :=
       match s2 with
       | 46 :: r => (takeWhile is_digit r, dropWhile is_digit r)
       | _ => ([], s2)
       end in
     match ip ++ fp with
     | [] => nan
     | ds => of_decimal (digits_value 0 ds)
                        (exponent_part s3 - Z.of_nat (List.length fp))
     end).
Proof.
  intros -> Hd. unfold parseFloat, trimStart. cbn [dropWhile].
  rewrite (digit_not_space d Hd).
  pose proof (digit_cases d Hd) as H. cbn [In] in H.
  destruct H as [<-|[<-|[<-|[<-|[<-|[<-|[<-|[<-|[<-|[<-|[]]]]]]]]]]];
    cbv beta iota zeta;
    (replace (startsWith _ (str "Infinity")) with false by reflexivity);
    reflexivity.
Qed.

(** [parseFloat] of a numeral is its value. *)
Lemma parseFloat_numeral (ds : jsstring) :
  numeral ds -> digits_value 0 ds < 2 ^ 53 ->
  parseFloat ds = of_Z (digits_value 0 ds).
Proof.
  intros [Hne Hds] Hv.
  pose proof (digits_value_bounds ds Hds 0 ltac:(lia)) as H0.
  assert (Htake : takeWhile is_digit ds = ds) by now apply takeWhile_Forall.
  assert (Hdrop : dropWhile is_digit ds = []) by now apply dropWhile_nil_iff.
  assert (Hdec : of_decimal (digits_value 0 ds) 0 = of_Z (digits_value 0 ds)).
  { unfold of_decimal. set (v := digits_value 0 ds) in *.
    destruct (Z.eqb_spec v 0) as [->|Hv0]; [reflexivity|].
    assert (Z.log2 v < 53) by (apply Z.log2_lt_pow2; lia).
    assert (0 <= Z.log2 v) by apply Z.log2_nonneg.
    assert (Z.log2 v / 6 < 9) by (apply Z.div_lt_upper_bound; lia).
    destruct (Z.ltb_spec 310 (0 + Z.log2 v / 6)); [lia|].
    destruct (Z.ltb_spec (0 + Z.log2 v) (-1100)); [lia|].
    cbn [Z.leb Z.compare]. now rewrite Z.mul_1_r. }
  assert (Hhd : exists d ds', ds = d :: ds' /\ is_digit d = true).
  { destruct ds as [|d ds']; [contradiction|].
    exists d, ds'. split; [reflexivity|exact (Forall_inv Hds)]. }
  destruct Hhd as (d & ds' & Hds' & Hd).
  rewrite (parseFloat_unsigned ds d ds' Hds' Hd). cbv zeta.
  rewrite Htake, Hdrop. cbv beta iota zeta. rewrite app_nil_r.
  rewrite Hds' at 1. rewrite <- Hds'.
  cbn [exponent_part List.length Z.of_nat Z.sub Z.opp Z.add]. exact Hdec.
Qed.

Lemma takeWhile_app_stop p (a : jsstring) c b :
  Forall (fun x => p x = true) a -> p c = false ->
  takeWhile p (a ++ c :: b) = a /\ dropWhile p (a ++ c :: b) = c :: b.
Proof.
  intros Ha Hc. induction Ha as [|x a Hx _ [IH1 IH2]]; cbn [app takeWhile dropWhile].
  - now rewrite Hc.
  - rewrite Hx, IH1, IH2. now split.
Qed.

(** [parseFloat] of seconds with three digits of milliseconds. *)
Lemma parseFloat_millis (s f : jsstring) :
  numeral s -> numeral f -> List.length f = 3%nat ->
  digits_value 0 s < 2 ^ 40 ->
  parseFloat (s ++ 46 :: f)
  = (if digits_value 0 (s ++ f) =? 0 then 0%float
     else of_ratio (digits_value 0 (s ++ f)) 1000).
Proof.
  intros [Hne Hs] [Hnf Hf] Hlen Hv.
  destruct (digits_value_millis s f Hf Hlen) as [HN HF].
  pose proof (digits_value_bounds s Hs 0 ltac:(lia)) as H0.
  destruct (takeWhile_app_stop is_digit s 46 f Hs eq_refl) as [Ht Hd].
  assert (Htf : takeWhile is_digit f = f) by now apply takeWhile_Forall.
  assert (Hdf : dropWhile is_digit f = []) by now apply dropWhile_nil_iff.
  assert (Hhd : exists d s', s = d :: s' /\ is_digit d = true).
  { destruct s as [|d s']; [contradiction|].
    exists d, s'. split; [reflexivity|exact (Forall_inv Hs)]. }
  destruct Hhd as (d & s' & Hs' & Hdig).
  assert (Hp : parseFloat (s ++ 46 :: f)
               = of_decimal (digits_value 0 (s ++ f)) (0 - Z.of_nat (List.length f))).
  { rewrite (parseFloat_unsigned (s ++ 46 :: f) d (s' ++ 46 :: f))
      by (try assumption; now rewrite Hs').
    cbv zeta. unfold jsstring, char in *.
    rewrite Ht, Hd. cbv beta iota zeta. rewrite Htf, Hdf.
    cbv beta iota zeta.
    destruct (s ++ f) as [|x r] eqn:Esf.
    { rewrite Hs' in Esf. discriminate. }
    reflexivity. }
  rewrite Hp, Hlen. unfold of_decimal.
  set (v := digits_value 0 (s ++ f)) in *.
  destruct (Z.eqb_spec v 0) as [|Hv0]; [reflexivity|].
  change (2 ^ 40) with 1099511627776 in Hv.
  assert (Z.log2 v < 53).
  { apply Z.log2_lt_pow2; [lia|]. change (2 ^ 53) with 9007199254740992. lia. }
  assert (0 <= Z.log2 v) by apply Z.log2_nonneg.
  assert (Z.log2 v / 6 < 9) by (apply Z.div_lt_upper_bound; lia).
  change (0 - Z.of_nat 3) with (-3).
  destruct (Z.ltb_spec 310 (-3 + Z.log2 v / 6)); [lia|].
  destruct (Z.ltb_spec (-3 + Z.log2 v) (-1100)); [lia|].
  reflexivity.
Qed.

Lemma numeral_free (ds : jsstring) (d : char) :
  numeral ds -> is_digit d = false -> Forall (fun c => eqc c d = false) ds.
Proof.
  intros [_ H] Hd. eapply Forall_impl; [|exact H]. cbv beta.
  intros c Hc. destruct (eqc c d) eqn:E; [|reflexivity].
  apply eqc_eq in E. congruence.
Qed.

(** The pieces of the stamps. *)
Lemma stamp3_split (h m x : jsstring) :
  numeral h -> numeral m -> Forall (fun c => eqc c 58 = false) x ->
  split (h ++ [58] ++ m ++ [58] ++ x) [58] = [h; m; x].
Proof.
  intros Hh Hm Hx. cbn [app].
  rewrite !split_app_sep, split_no_sep
    by (try (apply numeral_free; [assumption|reflexivity]); assumption).
  reflexivity.
Qed.

Lemma stamp2_split (m x : jsstring) :
  numeral m -> Forall (fun c => eqc c 58 = false) x ->
  split (m ++ [58] ++ x) [58] = [m; x].
Proof.
  intros Hm Hx. cbn [app].
  rewrite !split_app_sep, split_no_sep
    by (try (apply numeral_free; [assumption|reflexivity]); assumption).
  reflexivity.
Qed.

Lemma srt_split (h m s ms : jsstring) :
  numeral h -> numeral m -> numeral s -> numeral ms ->
  split (h ++ [58] ++ m ++ [58] ++ s ++ [44] ++ ms) [44]
  = [h ++ [58] ++ m ++ [58] ++ s; ms].
Proof.
  intros Hh Hm Hs Hms.
  replace (h ++ [58] ++ m ++ [58] ++ s ++ [44] ++ ms)
    with ((h ++ [58] ++ m ++ [58] ++ s) ++ 44 :: ms)
    by (now rewrite <- !app_assoc).
  rewrite split_app_sep, split_no_sep; [reflexivity|now apply numeral_free|].
  rewrite !Forall_app.
  repeat split; try (apply numeral_free; [assumption|reflexivity]);
    now repeat constructor.
Qed.

(** The hours and minutes, in seconds. *)
Lemma whole_part (h m : jsstring) :
  numeral h -> numeral m ->
  digits_value 0 h < 2 ^ 40 -> digits_value 0 m < 2 ^ 40 ->
  (parseFloat h * 3600 + parseFloat m * 60)%float
  = of_Z (3600 * digits_value 0 h + 60 * digits_value 0 m).
Proof.
  intros Hh Hm Hvh Hvm.
  pose proof (digits_value_bounds h (proj2 Hh) 0 ltac:(lia)) as H0h.
  pose proof (digits_value_bounds m (proj2 Hm) 0 ltac:(lia)) as H0m.
  change (2 ^ 40) with 1099511627776 in *.
  rewrite !parseFloat_numeral by (try assumption; lia).
  change 3600%float with (of_Z 3600). change 60%float with (of_Z 60).
  rewrite !mul_of_Z, add_of_Z by lia. f_equal. lia.
Qed.

(** The milliseconds of an SRT stamp, when there are any. *)
Lemma millis_part (ms : jsstring) :
  ms <> [] ->
  match Some ms with
  | Some (c :: m) => (parseFloat (c :: m) / 1000)%float
  | _ => 0%float
  end = (parseFloat ms / 1000)%float.
Proof. destruct ms; [contradiction|reflexivity]. Qed.

Lemma seconds_free (s f : jsstring) :
  numeral s -> numeral f -> Forall (fun c => eqc c 58 = false) (s ++ [46] ++ f).
Proof.
  intros Hs Hf. rewrite !Forall_app.
  repeat split; try (apply numeral_free; [assumption|reflexivity]);
    now repeat constructor.
Qed.

End TimeStamps.

(** X25: the time stamps of the subtitle files. With numerals for the hours,
    minutes, seconds and milliseconds, [parseSrtTime] reads
    [h:m:s,ms] as the whole seconds [3600 h + 60 m + s], exactly, plus the
    milliseconds divided by a thousand; [parseVttTime] reads [h:m:sec] and
    [m:sec] as the whole seconds of the hours and minutes, exactly, plus
    what [parseFloat] makes of the seconds. *)
Theorem time_stamps_read :
  forall h m s ms sec : jsstring,
    numeral h -> numeral m -> numeral s -> numeral ms ->
    Forall (fun c => eqc c 58 = false) sec ->
    digits_value 0 h < 2 ^ 40 -> digits_value 0 m < 2 ^ 40 ->
    digits_value 0 s < 2 ^ 40 -> digits_value 0 ms < 2 ^ 53 ->
    Subtitle.parseSrtTime (h ++ [58] ++ m ++ [58] ++ s ++ [44] ++ ms)
    = (of_Z (3600 * digits_value 0 h + 60 * digits_value 0 m + digits_value 0 s)
       + of_Z (digits_value 0 ms) / 1000)%float
    /\ Subtitle.parseVttTime (h ++ [58] ++ m ++ [58] ++ sec)
       = (of_Z (3600 * digits_value 0 h + 60 * digits_value 0 m) + parseFloat sec)%float
    /\ Subtitle.parseVttTime (m ++ [58] ++ sec)
       = (of_Z (60 * digits_value 0 m) + parseFloat sec)%float.
Proof.
  intros h m s ms sec Hh Hm Hs Hms Hsec Hvh Hvm Hvs Hvms.
  pose proof (digits_value_bounds h (proj2 Hh) 0 ltac:(lia)) as H0h.
  pose proof (digits_value_bounds m (proj2 Hm) 0 ltac:(lia)) as H0m.
  pose proof (digits_value_bounds s (proj2 Hs) 0 ltac:(lia)) as H0s.
  pose proof (whole_part h m Hh Hm Hvh Hvm) as Hhm.
  pose proof (stamp3_split h m s Hh Hm (numeral_free s 58 Hs eq_refl)) as H3s.
  pose proof (stamp3_split h m sec Hh Hm Hsec) as H3sec.
  pose proof (stamp2_split m sec Hm Hsec) as H2.
  pose proof (srt_split h m s ms Hh Hm Hs Hms) as H44.
  change (2 ^ 40) with 1099511627776 in *.
  unfold Subtitle.parseSrtTime, Subtitle.parseVttTime.
  change (str ",") with [44]. change (str ":") with [58].
  unfold jsstring, char in *.
  rewrite H44, H3sec, H2. cbn [hd nth_error]. rewrite H3s.
  split; [|split].
  - destruct ms as [|c ms'] eqn:E; [now destruct Hms|]. rewrite <- E in *.
    rewrite Hhm, !parseFloat_numeral by (try assumption; lia).
    rewrite add_of_Z by lia. reflexivity.
  - now rewrite Hhm.
  - rewrite !parseFloat_numeral by (try assumption; lia).
    change 60%float with (of_Z 60). rewrite mul_of_Z by lia.
    do 2 f_equal. lia.
Qed.

Lemma time_stamps_read_witness :
  Subtitle.parseSrtTime (str "01:02:03,500") = 3723.5%float
  /\ Subtitle.parseVttTime (str "01:02:03.500") = 3723.5%float
  /\ Subtitle.parseVttTime (str "02:03.500") = 123.5%float.
Proof.
  assert (Hn : forall x, x <> [] -> forallb is_digit x = true -> numeral x).
  { intros x Hx Hd. split; [assumption|]. apply Forall_forall. intros c Hc.
    exact (proj1 (forallb_forall is_digit x) Hd c Hc). }
  destruct (time_stamps_read (str "01") (str "02") (str "03") (str "500") (str "03.500"))
    as (H1 & H2 & H3);
    try (apply Hn; [discriminate|reflexivity]);
    try (vm_compute; reflexivity).
  { repeat constructor. }
  split; [|split].
  - etransitivity; [exact H1|]. vm_compute. reflexivity.
  - etransitivity; [exact H2|]. vm_compute. reflexivity.
  - etransitivity; [exact H3|]. vm_compute. reflexivity.
Defined.

(** X26: the start of a cue in whole seconds. For a stamp with three digits
    of milliseconds, [Math.floor] of the time that [parseSrtTime] reads from
    [h:m:s,mmm], and that [parseVttTime] reads from [h:m:s.mmm] or
    [m:s.mmm], is the integer [3600 h + 60 m + s]: the milliseconds never
    carry into the seconds that the time stamp of a segment shows. *)
Theorem stamps_whole_seconds :
  forall h m s f : jsstring,
    numeral h -> numeral m -> numeral s -> numeral f ->
    List.length f = 3%nat ->
    3600 * digits_value 0 h + 60 * digits_value 0 m + digits_value 0 s < 2 ^ 40 - 1 ->
    floor (Subtitle.parseSrtTime (h ++ [58] ++ m ++ [58] ++ s ++ [44] ++ f))
    = of_Z (3600 * digits_value 0 h + 60 * digits_value 0 m + digits_value 0 s)
    /\ floor (Subtitle.parseVttTime (h ++ [58] ++ m ++ [58] ++ s ++ [46] ++ f))
       = of_Z (3600 * digits_value 0 h + 60 * digits_value 0 m + digits_value 0 s)
    /\ floor (Subtitle.parseVttTime (m ++ [58] ++ s ++ [46] ++ f))
       = of_Z (60 * digits_value 0 m + digits_value 0 s).
Proof.
  intros h m s f Hh Hm Hs Hf Hlen Hv.
  pose proof (digits_value_bounds h (proj2 Hh) 0 ltac:(lia)) as H0h.
  pose proof (digits_value_bounds m (proj2 Hm) 0 ltac:(lia)) as H0m.
  pose proof (digits_value_bounds s (proj2 Hs) 0 ltac:(lia)) as H0s.
  destruct (digits_value_millis s f (proj2 Hf) Hlen) as [HN HF].
  set (H := digits_value 0 h) in *. set (M := digits_value 0 m) in *.
  set (S := digits_value 0 s) in *. set (F := digits_value 0 f) in *.
  change (2 ^ 40) with 1099511627776 in Hv.
  assert (Hhm : (parseFloat h * 3600 + parseFloat m * 60)%float = of_Z (3600 * H + 60 * M)).
  { apply whole_part; try assumption;
      change (2 ^ 40) with 1099511627776; fold H; fold M; lia. }
  assert (Hm60 : (parseFloat m * 60)%float = of_Z (60 * M)).
  { rewrite parseFloat_numeral by
      (try assumption; fold M; change (2 ^ 53) with 9007199254740992; lia).
    fold M. change 60%float with (of_Z 60).
    rewrite mul_of_Z by (change (2 ^ 53) with 9007199254740992; lia).
    f_equal. lia. }
  (* the seconds of a VTT stamp *)
  assert (Hsec : forall W, 0 <= W -> W + S + 1 <= 1099511627776 ->
                 floor (PrimFloat.add (of_Z W) (parseFloat (s ++ [46] ++ f)))
                 = of_Z (W + S)).
  { intros W HW HWS. change (s ++ [46] ++ f) with (s ++ 46 :: f).
    rewrite parseFloat_millis by
      (try assumption; fold S; change (2 ^ 40) with 1099511627776; lia).
    rewrite HN. destruct (Z.eqb_spec (1000 * S + F) 0) as [H0|H0].
    - change 0%float with (of_Z 0).
      rewrite add_of_Z, floor_of_Z by (change (2 ^ 53) with 9007199254740992; lia).
      f_equal. lia.
    - destruct (ratio_value S F) as (mx & E & Hx & Hmx & HE & Hlo & Hhi);
        try (change (2 ^ 40) with 1099511627776; lia).
      apply (floor_add_from_zero W S _ mx E); try assumption; lia. }
  pose proof (stamp3_split h m s Hh Hm (numeral_free s 58 Hs eq_refl)) as H3s.
  pose proof (stamp3_split h m (s ++ [46] ++ f) Hh Hm (seconds_free s f Hs Hf)) as H3sec.
  pose proof (stamp2_split m (s ++ [46] ++ f) Hm (seconds_free s f Hs Hf)) as H2.
  pose proof (srt_split h m s f Hh Hm Hs Hf) as H44.
  unfold Subtitle.parseSrtTime, Subtitle.parseVttTime.
  change (str ",") with [44]. change (str ":") with [58].
  unfold jsstring, char in *.
  rewrite H44, H3sec, H2. cbn [hd nth_error]. rewrite H3s.
  split; [|split].
  - pose proof (millis_part f (proj1 Hf)) as Hmp. unfold jsstring, char in Hmp.
    rewrite Hmp.
    rewrite Hhm, !parseFloat_numeral by
      (try assumption; fold S; fold F; change (2 ^ 53) with 9007199254740992; lia).
    fold S. fold F.
    rewrite add_of_Z by (change (2 ^ 53) with 9007199254740992; lia).
    destruct (Z.eq_dec F 0) as [HF0|HF0].
    + rewrite HF0.
      replace (of_Z 0 / 1000)%float with (of_Z 0) by (vm_compute; reflexivity).
      rewrite add_of_Z, floor_of_Z by (change (2 ^ 53) with 9007199254740992; lia).
      f_equal. lia.
    + destruct (millis_value F ltac:(lia)) as (mx & E & Hx & Hmx & HE & Hlo & Hhi).
      rewrite (floor_add_from_zero (3600 * H + 60 * M + S) 0 _ mx E);
        try assumption; try lia.
      now rewrite Z.add_0_r.
  - rewrite Hhm, Hsec by lia. reflexivity.
  - rewrite Hm60, Hsec by lia. reflexivity.
Qed.

Lemma stamps_whole_seconds_witness :
  floor (Subtitle.parseSrtTime (str "00:01:02,999")) = 62%float
  /\ floor (Subtitle.parseVttTime (str "01:00:59.999")) = 3659%float
  /\ floor (Subtitle.parseVttTime (str "00:59.999")) = 59%float.
Proof.
  assert (Hn : forall x, x <> [] -> forallb is_digit x = true -> numeral x).
  { intros x Hx Hd. split; [assumption|]. apply Forall_forall. intros c Hc.
    exact (proj1 (forallb_forall is_digit x) Hd c Hc). }
  destruct (stamps_whole_seconds (str "00") (str "01") (str "02") (str "999"))
    as (H1 & _ & _);
    try (apply Hn; [discriminate|reflexivity]);
    try (vm_compute; reflexivity).
  destruct (stamps_whole_seconds (str "01") (str "00") (str "59") (str "999"))
    as (_ & H2 & H3);
    try (apply Hn; [discriminate|reflexivity]);
    try (vm_compute; reflexivity).
  split; [|split].
  - etransitivity; [exact H1|]. vm_compute. reflexivity.
  - etransitivity; [exact H2|]. vm_compute. reflexivity.
  - etransitivity; [exact H3|]. vm_compute. reflexivity.
Defined.

(** ** All the comments of a video *)

Section FetchAllFacts.
Import CommentFilter CommentHandler.

Variable toLowerCase : jsstring -> jsstring.
Variable numberToString : float -> jsstring.
Variable list_threads : option jsstring -> Page + Thrown.
Variable notFunction : jsstring.
Variable videoAuthorChannelId : option jsstring.

(** From a count below ten the loop ends within the turns left to ten, on a
    larger count of at most ten. *)
Lemma collect_ends lang : forall fuel allComments pageToken pageCount,
  0 <= pageCount < 10 -> (Z.to_nat (10 - pageCount) <= fuel)%nat ->
  exists r,
    collect list_threads notFunction fuel lang allComments pageToken pageCount = Some r
    /\ match r with
       | Collected_ok _ n => pageCount < n <= 10
       | Collected_thrown _ => True
       end.
Proof.
  induction fuel as [|fuel IH]; intros allComments pageToken pageCount Hc Hf; [lia|].
  cbn [collect]. cbv zeta.
  destruct (list_threads _) as [response|e]; [|now eexists].
  destruct (items response) as [comments|];
    [|eexists; split; [reflexivity|cbv beta iota; lia]].
  destruct comments as [|c cs]; [eexists; split; [reflexivity|cbv beta iota; lia]|].
  destruct (filterByLanguage lang (c :: cs)) as [filteredComments|]; [|now eexists].
  unfold maxPages.
  destruct (Z.leb_spec 10 (pageCount + 1));
    [eexists; split; [reflexivity|cbv beta iota; lia]|].
  destruct (truthy (nextPageToken response));
    [|eexists; split; [reflexivity|cbv beta iota; lia]].
  destruct (IH (allComments ++ filteredComments) (nextPageToken response) (pageCount + 1))
    as (r & Hr & Hn); [lia|lia|].
  exists r. split; [exact Hr|]. destruct r; [lia|exact I].
Qed.

(** More fuel changes nothing. *)
Lemma collect_fuel lang : forall fuel fuel' allComments pageToken pageCount r,
  collect list_threads notFunction fuel lang allComments pageToken pageCount = Some r ->
  (fuel <= fuel')%nat ->
  collect list_threads notFunction fuel' lang allComments pageToken pageCount = Some r.
Proof.
  induction fuel as [|fuel IH]; intros fuel' allComments pageToken pageCount r H Hle;
    [discriminate|].
  destruct fuel' as [|fuel']; [lia|]. cbn [collect] in *. cbv zeta in *.
  destruct (list_threads _) as [response|e]; [|exact H].
  destruct (items response) as [comments|]; [|exact H].
  destruct comments as [|c cs]; [exact H|].
  destruct (filterByLanguage lang (c :: cs)) as [filteredComments|]; [|exact H].
  destruct (maxPages <=? pageCount + 1); [exact H|].
  destruct (truthy (nextPageToken response)); [|exact H].
  apply (IH fuel'); [exact H|lia].
Qed.

Lemma filterComments_shorter comments options :
  (List.length (fst (filterComments toLowerCase comments options videoAuthorChannelId))
   <= List.length comments)%nat.
Proof.
  unfold filterComments. destruct (is_false (enableFiltering options)); [cbn [fst]; lia|].
  cbn [fst]. rewrite length_map.
  etransitivity; [apply filter_length_le|]. now rewrite length_map.
Qed.

End FetchAllFacts.

(** X27: [fetchAllComments] ends within ten turns of its loop, whatever the
    API answers: ten units of fuel give its answer and more give the same.
    When the answer is the object of results, between one and ten pages were
    requested, [totalResults] and [fetchedCount] are the number of comments
    returned, [filteredCount] is not negative and is zero when filtering is
    off, and the message speaks of the limit exactly when ten pages were
    requested, also when the tenth was the last one. *)
Theorem fetchAllComments_bounded :
  forall toLowerCase numberToString list_threads notFunction videoAuthorChannelId
         (fuel : nat) videoId sortBy lang noFilter,
    (10 <= fuel)%nat ->
    exists answer,
      CommentHandler.fetchAllComments toLowerCase numberToString list_threads
        notFunction videoAuthorChannelId fuel videoId sortBy lang noFilter = Some answer
      /\ CommentHandler.fetchAllComments toLowerCase numberToString list_threads
           notFunction videoAuthorChannelId 10 videoId sortBy lang noFilter = Some answer
      /\ match answer with
         | CommentHandler.Json r =>
           1 <= CommentHandler.all_pagesProcessed r <= 10
           /\ CommentHandler.all_totalResults r
              = List.length (CommentHandler.all_comments r)
           /\ CommentHandler.all_fetchedCount r
              = List.length (CommentHandler.all_comments r)
           /\ 0 <= CommentHandler.all_filteredCount r
           /\ (noFilter = true -> CommentHandler.all_filteredCount r = 0)
           /\ CommentHandler.all_message r
              = (if CommentHandler.all_pagesProcessed r =? 10
                 then str "Fetched "
                      ++ numberToString
                           (of_nat (List.length (CommentHandler.all_comments r)))
                      ++ str " comments (limited to " ++ numberToString (of_Z 10)
                      ++ str " pages to prevent quota exhaustion)"
                 else str "Fetched all "
                      ++ numberToString
                           (of_nat (List.length (CommentHandler.all_comments r)))
                      ++ str " comments from "
                      ++ numberToString (of_Z (CommentHandler.all_pagesProcessed r))
                      ++ str " pages")
         | _ => True
         end.
Proof.
  intros lower nts api msg vid fuel videoId sortBy lang noFilter Hfuel.
  destruct (collect_ends api msg lang 10 [] None 0) as (r & Hr & Hn); [lia|simpl; lia|].
  pose proof (collect_fuel api msg lang 10 fuel [] None 0 r Hr Hfuel) as Hr'.
  unfold CommentHandler.fetchAllComments. rewrite Hr, Hr'.
  destruct r as [allComments pageCount|e].
  2:{ exists (CommentHandler.caught e). split; [reflexivity|]. split; [reflexivity|].
      unfold CommentHandler.caught.
      destruct (CommentHandler.is403 e); [destruct (includes _ _)|]; exact I. }
  eexists. split; [reflexivity|]. split; [reflexivity|].
  cbn [CommentHandler.all_pagesProcessed CommentHandler.all_totalResults
       CommentHandler.all_fetchedCount CommentHandler.all_comments
       CommentHandler.all_filteredCount CommentHandler.all_message].
  split; [lia|]. split; [reflexivity|]. split; [reflexivity|].
  split; [|split].
  - destruct noFilter; cbn [negb]; [lia|].
    pose proof (filterComments_shorter lower vid allComments
                  (CommentFilter.mkOptions (Some true) None None None)). lia.
  - now intros ->.
  - unfold CommentHandler.maxPages.
    destruct (Z.leb_spec 10 pageCount); destruct (Z.eqb_spec pageCount 10);
      try lia; reflexivity.
Qed.

Lemma fetchAllComments_bounded_witness :
  exists answer,
    CommentHandler.fetchAllComments (fun s => s) integerToString
      (fun _ => inl (CommentHandler.mkPage
                       (Some [CommentFilter.mkComment (str "c") (Some (str "Thanks for this"))
                                None None])
                       (Some (str "next"))))
      (str "not a function") None 12 (str "dQw4w9WgXcQ") (str "relevance") None true
    = Some answer
    /\ match answer with
       | CommentHandler.Json r =>
         CommentHandler.all_pagesProcessed r = 10
         /\ List.length (CommentHandler.all_comments r) = 10%nat
       | _ => False
       end.
Proof.
  destruct (fetchAllComments_bounded (fun s => s) integerToString
              (fun _ => inl (CommentHandler.mkPage
                               (Some [CommentFilter.mkComment (str "c")
                                        (Some (str "Thanks for this")) None None])
                               (Some (str "next"))))
              (str "not a function") None 12 (str "dQw4w9WgXcQ") (str "relevance")
              None true) as (answer & H & _); [lia|].
  exists answer. split; [exact H|].
  vm_compute in H. injection H as <-. split; reflexivity.
Defined.

(* ================================================================== *)
(** * The texts that the cleaning leaves as they are *)
(* ================================================================== *)

(** ** The length of a match *)

(** The least number of code units that a match of [r] consumes. *)
Fixpoint min_len (r : regex) : nat :=
  match r with
  | Eps => 0
  | Chr _ => 1
  | Seq r1 r2 => min_len r1 + min_len r2
  | Alt r1 r2 => Nat.min (min_len r1) (min_len r2)
  | Star _ => 0
  | Same _ n => S n
  | Bol => 0
  | Eol => 0
  | WordB => 0
  end.

Section MatchLength.

Lemma star_le_length (step : option char -> jsstring -> list nat) :
  (forall prev s n, In n (step prev s) -> (n <= List.length s)%nat) ->
  forall fuel prev s n, In n (star step fuel prev s) -> (n <= List.length s)%nat.
Proof.
  intros Hstep. induction fuel as [|fuel IH]; intros prev s n Hin; cbn [star] in Hin.
  - destruct Hin as [<-|[]]. lia.
  - apply in_app_or in Hin as [Hin|[<-|[]]]; [|lia].
    apply in_flat_map in Hin as (n1 & H1 & H2).
    destruct n1 as [|k]; [contradiction|].
    apply in_map_iff in H2 as (n2 & <- & H2).
    apply Hstep in H1. apply IH in H2. rewrite length_skipn in H2. lia.
Qed.

Lemma matches_le_length r :
  forall prev s n, In n (matches r prev s) -> (n <= List.length s)%nat.
Proof.
  induction r as [|p|r1 IH1 r2 IH2|r1 IH1 r2 IH2|r IH|p k| | |];
    intros prev s n Hin; cbn [matches] in Hin.
  - destruct Hin as [<-|[]]. lia.
  - destruct s as [|c s]; [contradiction|].
    destruct (p c); [|contradiction]. destruct Hin as [<-|[]]. cbn [List.length]. lia.
  - apply in_flat_map in Hin as (n1 & H1 & H2).
    apply in_map_iff in H2 as (n2 & <- & H2).
    apply IH1 in H1. apply IH2 in H2. rewrite length_skipn in H2. lia.
  - apply in_app_or in Hin as [Hin|Hin]; [now apply IH1 in Hin|now apply IH2 in Hin].
  - now apply (star_le_length (matches r) IH) in Hin.
  - destruct s as [|c s]; [contradiction|].
    destruct (p c); [|contradiction]. cbv zeta in Hin.
    destruct (k <=? _)%nat; [|contradiction].
    apply in_map_iff in Hin as (j & <- & _).
    pose proof (takeWhile_length (eqc c) s). cbn [List.length]. lia.
  - destruct prev; [contradiction|]. destruct Hin as [<-|[]]. lia.
  - destruct s; [|contradiction]. destruct Hin as [<-|[]]. lia.
  - destruct (xorb _ _); [|contradiction]. destruct Hin as [<-|[]]. lia.
Qed.

Lemma matches_min_len r :
  forall prev s n, In n (matches r prev s) -> (min_len r <= n)%nat.
Proof.
  induction r as [|p|r1 IH1 r2 IH2|r1 IH1 r2 IH2|r IH|p k| | |];
    intros prev s n Hin; cbn [matches] in Hin; cbn [min_len]; try lia.
  - destruct s as [|c s]; [contradiction|].
    destruct (p c); [|contradiction]. destruct Hin as [<-|[]]. lia.
  - apply in_flat_map in Hin as (n1 & H1 & H2).
    apply in_map_iff in H2 as (n2 & <- & H2).
    apply IH1 in H1. apply IH2 in H2. lia.
  - apply in_app_or in Hin as [Hin|Hin]; [apply IH1 in Hin|apply IH2 in Hin]; lia.
  - destruct s as [|c s]; [contradiction|].
    destruct (p c); [|contradiction]. cbv zeta in Hin.
    destruct (Nat.leb_spec k (List.length (takeWhile (eqc c) s))); [|contradiction].
    apply in_map_iff in Hin as (j & <- & Hj). apply in_seq in Hj. lia.
Qed.

Lemma first_match_In r prev s n : first_match r prev s = Some n -> In n (matches r prev s).
Proof.
  unfold first_match. destruct (matches r prev s); [discriminate|].
  cbn [hd_error]. intros [= ->]. now left.
Qed.

End MatchLength.

(** ** Replacements that shorten the text *)

Section Shortening.

Variable r : regex.
Variable f : jsstring -> jsstring.
Variable b : nat.
Hypothesis f_short : forall m, (List.length (f m) <= b)%nat.
Hypothesis r_long : (1 <= min_len r)%nat.
Hypothesis b_le : (b <= min_len r)%nat.

Lemma first_match_bounds prev s n :
  first_match r prev s = Some n ->
  (min_len r <= n)%nat /\ (n <= List.length s)%nat.
Proof.
  intros H. apply first_match_In in H. split.
  - exact (matches_min_len r prev s n H).
  - exact (matches_le_length r prev s n H).
Qed.

(** The text does not grow. *)
Lemma replace_go_length : forall s skip prev,
  (List.length (replace_go r f skip prev s) <= List.length s - skip)%nat.
Proof.
  induction s as [|c s IH]; intros skip prev; cbn [replace_go].
  - destruct skip; [|cbn; lia].
    destruct (first_match r prev []) eqn:E; [|cbn; lia].
    apply first_match_bounds in E. cbn [List.length] in E. lia.
  - destruct skip as [|k].
    + destruct (first_match r prev (c :: s)) as [[|k]|] eqn:E.
      * apply first_match_bounds in E. lia.
      * apply first_match_bounds in E. cbn [List.length] in E |- *.
        rewrite length_app. pose proof (IH k (Some c)).
        pose proof (f_short (firstn (S k) (c :: s))). lia.
      * cbn [List.length]. pose proof (IH 0%nat (Some c)). lia.
    + cbn [List.length]. pose proof (IH k (Some c)). lia.
Qed.

Lemma replace_length s : (List.length (replace s r f) <= List.length s)%nat.
Proof. unfold replace. pose proof (replace_go_length s 0 None). lia. Qed.

(** It is shortened wherever the pattern is found. *)
Lemma replace_go_shortens : (b < min_len r)%nat ->
  forall s prev, test_from r prev s = true ->
    (List.length (replace_go r f 0 prev s) < List.length s)%nat.
Proof.
  intros Hb. induction s as [|c s IH]; intros prev Ht; cbn [replace_go test_from] in *.
  - destruct (first_match r prev []) eqn:E; [|discriminate].
    apply first_match_bounds in E. cbn [List.length] in E. lia.
  - destruct (first_match r prev (c :: s)) as [[|k]|] eqn:E.
    + apply first_match_bounds in E. lia.
    + apply first_match_bounds in E. cbn [List.length] in E |- *.
      rewrite length_app. pose proof (replace_go_length s k (Some c)).
      pose proof (f_short (firstn (S k) (c :: s))). lia.
    + cbn [List.length]. pose proof (IH (Some c) Ht). lia.
Qed.

End Shortening.

(** Where the pattern is not found, the text is returned as it is. *)
Lemma replace_go_unmatched r f : forall s prev,
  test_from r prev s = false -> replace_go r f 0 prev s = s.
Proof.
  induction s as [|c s IH]; intros prev Ht; cbn [replace_go test_from] in *.
  - destruct (first_match r prev []); [discriminate|reflexivity].
  - destruct (first_match r prev (c :: s)); [discriminate|].
    now rewrite (IH (Some c) Ht).
Qed.

(** ** The rewriting steps of the cleaning *)

Section Rewrites.
Import Subtitle.

(** The replacements of [cleanSubtitleText] between the first trimming and
    the conversion of the narrow kana, in the order of the code: a pattern
    and what is written for each of its matches. *)
Definition rewrites : list (regex * (jsstring -> jsstring)) :=
  [ (Lit (str "&amp;"), const (str "&"));
    (Lit (str "&lt;"), const (str "<"));
    (Lit (str "&gt;"), const (str ">"));
    (Lit (str "&quot;"), const [34]);
    (Lit (str "&apos;"), const (str "'"));
    (Lit (str "&nbsp;"), const (str " "));
    (re_dec_entity, dec_entity);
    (re_hex_entity, hex_entity);
    (re_timing_tag, del);
    (re_html_tag, del);
    (re_notes, del) ]
  ++ map (fun m => (LitCI m, del)) sound_markers
  ++ [ (re_speaker, del); (re_repeat, firstn 1) ].

Definition rewrite_all (s : jsstring) : jsstring :=
  fold_left (fun acc rf => replace acc (fst rf) (snd rf)) rewrites s.

(** The end of the cleaning, after the rewriting steps. *)
Definition finish (s : jsstring) : jsstring :=
  let cleaned := convertHalfWidthToFullWidth s in
  if test re_punct_only cleaned then []
  else trim (replace cleaned re_spaces (const (str " "))).

(** No pattern of the rewriting steps is found in [y]: no named or numbered
    entity, no timing or HTML tag, no musical note, no sound marker, no
    [>>] at the start, no code unit written four times in a row. *)
Definition settled (y : jsstring) : bool :=
  forallb (fun rf => negb (test (fst rf) y)) rewrites.

Lemma cleanSubtitleText_steps x :
  cleanSubtitleText x = finish (rewrite_all (trim x)).
Proof. reflexivity. Qed.

(** A step that writes at most [b] code units for a match of more than [b]. *)
Definition shortening (rf : regex * (jsstring -> jsstring)) : Prop :=
  exists b, (forall m, (List.length (snd rf m) <= b)%nat) /\ (b < min_len (fst rf))%nat.

Lemma entity_char_length code : (List.length (entity_char code) <= 1)%nat.
Proof. unfold entity_char. destruct (_ || _); cbn; lia. Qed.

Lemma firstn_1_length (m : jsstring) : (List.length (firstn 1 m) <= 1)%nat.
Proof. rewrite length_firstn. lia. Qed.

Lemma rewrites_shortening : Forall shortening rewrites.
Proof.
  unfold rewrites. cbn [app map sound_markers].
  repeat (apply Forall_cons || apply Forall_nil);
    first
      [ exists 0%nat; split; [intros m; cbn; lia|vm_compute; lia]
      | exists 1%nat; split;
        [ intros m; cbn [snd]; first
            [ apply entity_char_length | apply firstn_1_length | cbn; lia ]
        | vm_compute; lia ] ].
Qed.

Lemma shortening_length rf s :
  shortening rf -> (List.length (replace s (fst rf) (snd rf)) <= List.length s)%nat.
Proof.
  intros (b & Hf & Hb). apply (replace_length (fst rf) (snd rf) b Hf); lia.
Qed.

Lemma shortening_strict rf s :
  shortening rf -> test (fst rf) s = true ->
  (List.length (replace s (fst rf) (snd rf)) < List.length s)%nat.
Proof.
  intros (b & Hf & Hb) Ht.
  apply (replace_go_shortens (fst rf) (snd rf) b Hf); [lia|lia|exact Hb|exact Ht].
Qed.

Lemma fold_replace_length (l : list (regex * (jsstring -> jsstring))) :
  Forall shortening l ->
  forall s, (List.length (fold_left (fun acc rf => replace acc (fst rf) (snd rf)) l s)
             <= List.length s)%nat.
Proof.
  induction 1 as [|rf l Hrf Hl IH]; intros s; cbn [fold_left]; [lia|].
  pose proof (IH (replace s (fst rf) (snd rf))).
  pose proof (shortening_length rf s Hrf). lia.
Qed.

Lemma fold_replace_unmatched (l : list (regex * (jsstring -> jsstring))) s :
  forallb (fun rf => negb (test (fst rf) s)) l = true ->
  fold_left (fun acc rf => replace acc (fst rf) (snd rf)) l s = s.
Proof.
  induction l as [|rf l IH]; cbn [fold_left forallb]; [reflexivity|].
  intros H. apply andb_true_iff in H as [H1 H2]. apply negb_true_iff in H1.
  unfold replace at 2. rewrite (replace_go_unmatched _ _ _ _ H1). exact (IH H2).
Qed.

Lemma fold_replace_shortens (l : list (regex * (jsstring -> jsstring))) :
  Forall shortening l ->
  forall s, forallb (fun rf => negb (test (fst rf) s)) l = false ->
    (List.length (fold_left (fun acc rf => replace acc (fst rf) (snd rf)) l s)
     < List.length s)%nat.
Proof.
  induction 1 as [|rf l Hrf Hl IH]; intros s; cbn [fold_left forallb]; [discriminate|].
  destruct (test (fst rf) s) eqn:Et; cbn [negb andb].
  - intros _. pose proof (shortening_strict rf s Hrf Et).
    pose proof (fold_replace_length l Hl (replace s (fst rf) (snd rf))). lia.
  - intros H. unfold replace at 2. rewrite (replace_go_unmatched _ _ _ _ Et).
    now apply IH.
Qed.

(** ** The end of the cleaning *)

Definition no_kana (c : char) : Prop := is_halfwidth_kana c = false.

Lemma convert_no_kana s : Forall no_kana (convertHalfWidthToFullWidth s).
Proof.
  rewrite convert_map. apply Forall_map, Forall_forall. intros c _. unfold no_kana.
  destruct (is_halfwidth_kana c) eqn:E; [|exact E].
  exact (proj2 (widen_kana c E)).
Qed.

Lemma convert_fix s : Forall no_kana s -> convertHalfWidthToFullWidth s = s.
Proof.
  intros H. rewrite convert_map.
  induction H as [|c s Hc Hs IH]; [reflexivity|].
  cbn [map]. unfold no_kana in Hc. now rewrite Hc, IH.
Qed.

Lemma convert_length s :
  List.length (convertHalfWidthToFullWidth s) = List.length s.
Proof. rewrite convert_map. apply length_map. Qed.

Lemma trim_length s : (List.length (trim s) <= List.length s)%nat.
Proof.
  destruct (trim_middle s) as (a & c & E).
  rewrite E at 2. rewrite !length_app. lia.
Qed.

Lemma wsnorm_length s : (List.length (wsnorm s) <= List.length s)%nat.
Proof.
  unfold wsnorm. apply (replace_length re_spaces (const (str " ")) 1).
  - intros m. cbn. lia.
  - vm_compute. lia.
  - vm_compute. lia.
Qed.

Lemma finish_length s : (List.length (finish s) <= List.length s)%nat.
Proof.
  unfold finish. cbv zeta. fold (wsnorm (convertHalfWidthToFullWidth s)).
  destruct (test re_punct_only _); [cbn; lia|].
  pose proof (trim_length (wsnorm (convertHalfWidthToFullWidth s))).
  pose proof (wsnorm_length (convertHalfWidthToFullWidth s)).
  pose proof (convert_length s). lia.
Qed.

(** A text returned by [finish] is returned by [finish] as it is. *)
Lemma finish_finish s : finish (finish s) = finish s.
Proof.
  set (c := convertHalfWidthToFullWidth s).
  assert (E : finish s = if test re_punct_only c then [] else trim (wsnorm c))
    by reflexivity.
  rewrite E. clear E.
  destruct (test re_punct_only c) eqn:Et; [vm_compute; reflexivity|].
  set (y := trim (wsnorm c)).
  assert (Hk : Forall no_kana y).
  { apply Forall_trim. unfold wsnorm, replace. apply replace_go_Forall.
    - intros m _. constructor; [reflexivity|constructor].
    - apply convert_no_kana. }
  assert (Hw : wsnormal y)
    by (apply wsnormal_trim, (wsnormal_wsnorm (List.length c)); lia).
  unfold finish. cbv zeta. rewrite (convert_fix y Hk).
  destruct (test re_punct_only y) eqn:Ey.
  - apply test_punct_only, punct_only_back, test_punct_only in Ey. congruence.
  - fold (wsnorm y). rewrite (wsnorm_fix y Hw). apply trim_trim.
Qed.

Lemma trim_finish s : trim (finish s) = finish s.
Proof.
  unfold finish. cbv zeta. destruct (test re_punct_only _); [reflexivity|].
  apply trim_trim.
Qed.

End Rewrites.

(** C2, amended: cleaning a cleaned text returns it unchanged exactly when
    no pattern of the rewriting steps is found in it, that is, when the
    cleaned text holds no entity ([&amp;], [&lt;], [&gt;], [&quot;],
    [&apos;], [&nbsp;], [&#] digits [;], [&#x] hexadecimal digits [;]), no
    timing tag, no HTML tag, no musical note, none of the twelve sound
    markers in any letter case, no [>>] at its start and no code unit
    written four times in a row; otherwise the second cleaning shortens
    it. In particular the cleaning is idempotent on every text without
    ampersand, angle bracket, opening square bracket, opening parenthesis,
    musical note and half-width katakana. *)
Theorem C2_idempotent_exactly_when_settled :
  forall x,
    (Subtitle.cleanSubtitleText (Subtitle.cleanSubtitleText x)
     = Subtitle.cleanSubtitleText x
     <-> settled (Subtitle.cleanSubtitleText x) = true)
    /\ (settled (Subtitle.cleanSubtitleText x) = false ->
        (List.length (Subtitle.cleanSubtitleText (Subtitle.cleanSubtitleText x))
         < List.length (Subtitle.cleanSubtitleText x))%nat)
    /\ (forallb plain x = true ->
        Subtitle.cleanSubtitleText (Subtitle.cleanSubtitleText x)
        = Subtitle.cleanSubtitleText x).
Proof.
  intros x.
  pose proof (cleaning_idempotent_on_plain x) as Hplain.
  pose proof (cleanSubtitleText_steps x) as Ex.
  remember (Subtitle.cleanSubtitleText x) as y eqn:Hy. clear Hy.
  assert (Ht : trim y = y) by (rewrite Ex; apply trim_finish).
  assert (Ey : Subtitle.cleanSubtitleText y = finish (rewrite_all y))
    by (now rewrite cleanSubtitleText_steps, Ht).
  assert (Hshort : settled y = false ->
            (List.length (Subtitle.cleanSubtitleText y) < List.length y)%nat).
  { intros Hs. rewrite Ey.
    pose proof (finish_length (rewrite_all y)) as H1.
    pose proof (fold_replace_shortens rewrites rewrites_shortening y Hs) as H2.
    unfold rewrite_all in *. lia. }
  split; [|split; [exact Hshort|exact Hplain]].
  split.
  - intros Heq. destruct (settled y) eqn:Hs; [reflexivity|].
    specialize (Hshort eq_refl). rewrite Heq in Hshort. lia.
  - intros Hs. rewrite Ey. unfold rewrite_all.
    rewrite (fold_replace_unmatched rewrites y Hs). rewrite Ex. apply finish_finish.
Qed.

Lemma C2_idempotent_exactly_when_settled_witness :
  forallb plain (str "it&#39;s (so) good") = false
  /\ settled (Subtitle.cleanSubtitleText (str "it&#39;s (so) good")) = true
  /\ Subtitle.cleanSubtitleText (Subtitle.cleanSubtitleText (str "it&#39;s (so) good"))
     = Subtitle.cleanSubtitleText (str "it&#39;s (so) good").
Proof.
  split; [vm_compute; reflexivity|]. split; [vm_compute; reflexivity|].
  apply (proj2 (proj1 (C2_idempotent_exactly_when_settled (str "it&#39;s (so) good")))).
  vm_compute. reflexivity.
Defined.
